(* ===== verification/_CoqProject ===== *)
-Q . S2P
Prelude.v
CLib.v
Common.v
Codec.v
Aof.v
BaseClaims.v
Store.v
StoreFacts.v
StoreSpec.v
StoreClaims.v
Durability.v
Recovery.v
Findings.v
Siblings.v
SiblingFindings.v
Shared.v
Concurrent.v
ConcurrentFacts.v
ConcurrentSteps.v
ConcurrentInv.v
ConcurrentSpec.v
ConcurrentClaims.v
ConcurrentAlone.v
Bounds.v
Main.v
Float.v
Json.v
Metrics.v
RateLimit.v
App.v
AppFacts.v
AppClaims.v
AppDurable.v
Server.v
ServerFacts.v
ServerClaims.v
Bench.v
BenchRun.v
ServerLoop.v
HttpFindings.v
HotCache.v
StoreRocks.v
RocksFacts.v
RocksBulk.v
MemRocks.v
RocksClaims.v
RocksFindings.v
Kv.v
KvFacts.v
KvClaims.v
StoreKv.v
KvServer.v
MiniKv.v
KvStoreClaims.v
KvStoreFacts.v
KvBulk.v
KvShared.v
KvFindings.v
