(* ===== verification/Prelude.v ===== *)
(** * A verification of shrt-cpp, a URL shortener backend

    shrt-cpp is an HTTP service that gives short codes to urls and redirects
    visitors of the codes. A request comes in over one of two servers
    (server.cpp), is routed and validated by the handlers (app.cpp), which
    count it (metrics.cpp) and limit it (ratelimit.cpp), and ends in one
    operation of a store. There are three stores behind one interface
    (store.hpp): the log store, an index in memory behind an append-only log
    that sibling processes tail (store.cpp, codec.cpp, aof.cpp); an embedded
    RocksDB (store_rocks.cpp); and an external key-value server that many
    nodes share (store_kv.cpp over the client kv.cpp). main.cpp starts it.

    ** Files

    - Prelude.v, CLib.v, Float.v: bytes, machine integers and the parts of the
      C++ library the program calls (printers, parsers, [strtod], doubles).
    - Common.v: base62.hpp and common.hpp. Codec.v: codec.cpp, the lines of
      the log. Aof.v: aof.cpp, the log, its readers and the instance locks,
      over a file system [fs] and an operating system [Os] (the clock, what
      writes and reads return). BaseClaims.v: the claims about these.
    - Store.v: store.cpp, one function for each operation on the state
      [World] (index, dirty counters, log, files). StoreFacts.v: the 256
      shards as one map. StoreSpec.v: every operation on that map and the
      invariant. StoreClaims.v: the claims. Durability.v: the log replayed
      gives the map. Recovery.v: sessions, crashes, compaction. Findings.v:
      sessions that lose something. Siblings.v: several instances in one
      directory, where [see] hands an instance the files of another one.
      SiblingFindings.v: what they do not agree on. Shared.v: restarts of an
      instance whose siblings write meanwhile. Bounds.v: the bound on the
      hits kept for unknown codes, and when no sum of hits overflows.
    - Concurrent.v: the same operations as threads; what runs under one lock
      is one step of a thread and a schedule picks the threads.
      ConcurrentFacts.v, ConcurrentSteps.v: what one step keeps, in terms of
      the records a thread has still to log. ConcurrentInv.v: all threads
      together and the gate. ConcurrentSpec.v: what the answers say, as acts
      on a table. ConcurrentClaims.v: the claims, and three interleavings
      that lose an order. ConcurrentAlone.v: a thread that runs alone does
      what Store.v says.
    - Main.v: main.cpp, what the environment makes a process do, the
      environments of the workers, the seeding; and the choice of the store.
    - Json.v: the parser [Jp] of app.cpp. Metrics.v, RateLimit.v: the files
      of these names. App.v: app.cpp, with the store behind [StoreApi].
      AppFacts.v: [StoreLaws], what the handlers rely on, proved for the log
      store; [StoreNoRaise], engines without exceptions. AppClaims.v: the
      claims about [handle] over any store with these laws. AppDurable.v:
      requests and restarts on the log store.
    - Server.v: server.cpp, the request parser, the reply writer and the two
      servers as functions of what [recv] and [send] return. ServerFacts.v,
      ServerClaims.v, HttpFindings.v. Bench.v: the reader of responses of
      bench.cpp. BenchRun.v: its requests, the making of the links and the
      threads of a measurement, run against the server. ServerLoop.v: the
      event loop over all its connections.
    - HotCache.v: what store_rocks.cpp and store_kv.cpp have in common, the
      value codec, the FIFO cache, the pending hits and the codes. StoreRocks.v:
      store_rocks.cpp over the class [RocksDb]; [RocksLaws] is what is assumed
      of the database and MemRocks.v a database that keeps it. RocksFacts.v
      (with the instance of [StoreLaws]), RocksBulk.v, RocksClaims.v,
      RocksFindings.v.
    - Kv.v: kv.cpp, the RESP reader over chunks, the writer, the pipeline and
      the commands over the class [KvIo]. KvFacts.v, KvClaims.v.
    - StoreKv.v: store_kv.cpp over [KvIo]. KvStoreClaims.v: what holds with
      any server. KvServer.v: the laws of a server, MiniKv.v: one that keeps
      them, KvStoreFacts.v, KvBulk.v, KvShared.v: what holds with it, with the
      instance of [StoreLaws] for the layout of hashes. KvFindings.v.

    ** What is shown

    - The log store: its map of links is rebuilt exactly by a restart, after
      any operations; a crash loses only the records whose lines were not
      written completely; compaction keeps every link; each operation changes
      its own code only and refuses taken, missing and foreign codes; batches
      get distinct codes; hits are kept for a bounded number of unknown codes
      whatever the files hold, and as long as the files bring fewer than 2^63
      hits, none of them negative, no plain sum of hits overflows.
    - Overlapping requests: however their steps interleave, the index goes
      through the changes one by one and every answer is explained by what
      its own request saw or did; links whose changes do not race for the log
      survive a restart at every moment, compaction included; the gate blocks
      nobody forever.
    - Instances: a link of one with a generated code is served by its siblings
      after a flush (an alias when its first character names the owner), a poll brings an instance up to
      date with what it had not read, its own links survive a restart whatever
      its siblings append, workers get an instance each, and what is seeded
      is there for who opens next.
    - The formats: log lines, replies, requests, JSON documents, query
      strings, values of the shared stores and RESP replies are read back as
      they were written, whatever pieces they arrive in; a reply of the HTTP
      servers if nothing in its head holds a carriage return.
    - HTTP: a 201 means one link was made, a visit redirects exactly while the
      link lives, mutations need the token, the two servers answer a stream of
      well-formed requests alike, up to the first that asks to close, the
      request loop ends on every input, and the event loop never mixes the
      replies of its connections.
    - RocksDB: the cache cannot be seen, and (lemmas) hits are counted
      exactly, removed links are not served, compaction drops expired links
      only.
    - The key-value server: with a server that keeps its laws a link, an
      update or a removal of one node is seen by every other one that does
      not go by an entry of its own cache, batches get
      distinct free codes, a flush loses no hit; with any server a cached url
      is no staler than [CACHE_TTL_MS] and the janitor deletes expired links
      only. The client returns the server's replies in order and its reader
      ends on every input.
    - Limits and counters: exactly the requests that fit the burst pass; the
      ring holds exactly the requests of each second.
    - The load generator against the server on any store: every link it asks
      for is made and every request of a measurement is counted as answered,
      on a network that does not cut the head of a reply.
    - The files named Findings evaluate what the code does otherwise than it
      means to: for example a GET with an empty path or a lost key-value
      server ends the process, a late RESP reply answers the next command, an
      update forgets logged visits, [KV_BUCKETS] above 256 has no effect, two
      instances that take the same alias swap its targets, a log that is
      compacted hides links from running siblings.

    ** Fuel and bounds

    Integers are [Z] with the wrap of their width written out ([i64], [u64],
    [u32]). Atomic counters do wrap in C++; the plain int64_t sums, whose
    overflow C++ does not define, are the sums of hits in [apply] (Bounds.v
    says when they fit) and a clock reading plus a lifetime ([expiry];
    [post_creates_link] says when it fits). Recursion that is not structural takes fuel that is shown to be
    enough: the request loop one more than the bytes of the buffer
    ([process_buf]), the JSON parser [json_fuel], the RESP reader [resp_fuel]
    (twice the bytes left) and one turn of its loops for each chunk, with
    [RFuel] as a result of its own that is shown not to come out, the
    printers the digits of a 64-bit number. Two
    kinds of loop need not end in the code either and take their fuel as a
    parameter: the search for a free code (random draws), and scans, which
    the server ends; without fuel they give [Hang], never a value.
    Lengths of streams are assumed below 2^63 where the code counts them.

    ** Not modelled

    - Threads and locks outside the log store: in the other two stores, the
      metrics and the rate limiter an operation is one step, and the flush
      thread and the janitor are operations of their own. In the log store
      what runs under [tail_mu] is one step, listing is not interleaved, and
      the order in which memory shows the atomic counters is not modelled.
    - System calls without a decision of the program: [socket], socket
      options, [kevent] registration, starting the thread of a connection,
      connecting to the key-value server, opening RocksDB with its options,
      signals and the wait of the supervisor, printing.
    - Memory: no allocation fails; a length the RESP reader cannot allocate
      is taken like one whose bytes never come; the stack the parsers use on
      nested arrays is not bounded.
    - Failing writes of the snapshot: [fwrite] and [fflush] of compact succeed
      once its file is open. The compare-exchange of the metrics tick is
      never lost to another thread.
    - The parts of an operation of the RocksDB and key-value stores between
      those of another: a lookup that puts an old row into the cache after an
      update has dropped it is shown by hand
      ([RocksFindings.late_put_stale]) and not reached by the sessions.
    - The network: what [recv] returns is data. The server the load generator
      meets in BenchRun.v is that of Server.v, which takes its requests one
      after the other; the replies of a round reach the generator in any
      pieces.
    - Of the load generator bench.cpp: the latencies, what it prints, how its
      [main] builds, starts and stops servers and which scenarios it runs.
      The tests. *)

From Stdlib Require Ascii String.
From Stdlib Require Export ZArith Lia.
From stdpp Require Export gmap strings list fin_maps sorting.
Export Stdlib.Strings.Ascii (ascii(..)).
Export (notations) Stdlib.Strings.Ascii.

#[global] Open Scope Z_scope.

(** ** Byte strings

    [std::string] and [std::string_view] are lists of 8-bit characters;
    [ascii] is exactly an 8-bit character. *)
Abbreviation bytes := (list ascii).

Declare Scope shrt_scope.
Delimit Scope shrt_scope with shrt.
#[global] Open Scope shrt_scope.

(** A string literal of the source as bytes. *)
Definition B (s : string) : bytes := String.list_ascii_of_string s.

(** The double quote, and a literal in which every apostrophe stands for a
    double quote (no literal of the source holds an apostrophe). *)
Definition dq : ascii := "034"%char.
Definition Q (s : string) : bytes :=
  map (fun c => if Ascii.eqb c "039"%char then dq else c) (B s).

Definition bslash : ascii := "092"%char.
Definition LF : ascii := "010"%char.
Definition CR : ascii := "013"%char.
Definition TAB : ascii := "009"%char.
Definition SP : ascii := "032"%char.
Definition CRLF : bytes := [CR; LF].

(** Boolean equality of characters and of byte strings. *)
Notation "a =c b" := (Ascii.eqb a b) (at level 70, no associativity) : shrt_scope.
Notation "a ≠c b" := (negb (Ascii.eqb a b)) (at level 70, no associativity) : shrt_scope.
Notation "s =s t" := (bool_decide (s = t)) (at level 70, no associativity) : shrt_scope.

(** The value of a character as an [unsigned char], and the narrowing
    conversion back. *)
Definition cc (c : ascii) : Z := Z.of_N (Ascii.N_of_ascii c).
Definition chr (z : Z) : ascii := Ascii.ascii_of_N (Z.to_N (z mod 256)).

(** ** Machine integers *)
Definition u8 (z : Z) : Z := z mod 2 ^ 8.
Definition u32 (z : Z) : Z := z mod 2 ^ 32.
Definition u64 (z : Z) : Z := z mod 2 ^ 64.
Definition i32 (z : Z) : Z := (z + 2 ^ 31) mod 2 ^ 32 - 2 ^ 31.
Definition i64 (z : Z) : Z := (z + 2 ^ 63) mod 2 ^ 64 - 2 ^ 63.
Definition in_i32 (z : Z) : Prop := - 2 ^ 31 <= z < 2 ^ 31.
Definition in_i64 (z : Z) : Prop := - 2 ^ 63 <= z < 2 ^ 63.
Definition in_u64 (z : Z) : Prop := 0 <= z < 2 ^ 64.

(** ** Scanning

    [span p s] is the loop [while (pos < L && p(b[pos])) pos++] run at the
    head of [s]: the characters skipped, and what is left. *)
Fixpoint span (p : ascii -> bool) (s : bytes) : bytes * bytes :=
  match s with
  | [] => ([], [])
  | c :: r => if p c then let '(a, t) := span p r in (c :: a, t) else ([], s)
  end.

Definition drop_while (p : ascii -> bool) (s : bytes) : bytes := snd (span p s).

(** [while (!s.empty() && p(s.back())) s.remove_suffix(1)]. *)
Definition drop_while_end (p : ascii -> bool) (s : bytes) : bytes :=
  rev (drop_while p (rev s)).

Arguments drop_while : simpl never.
Arguments drop_while_end : simpl never.

(** [s.starts_with(p)] and [s.rfind(p, 0) == 0]. *)
Fixpoint starts_with (p s : bytes) : bool :=
  match p, s with
  | [], _ => true
  | a :: p', b :: s' => (a =c b) && starts_with p' s'
  | _, _ => false
  end.

(** [s.find(p)]: the position of the first occurrence, [None] for [npos]. *)
Fixpoint find_sub (p s : bytes) : option nat :=
  if starts_with p s then Some 0%nat
  else match s with [] => None | _ :: r => S <$> find_sub p r end.

Definition find_char (c : ascii) (s : bytes) : option nat := find_sub [c] s.

(** ** Tactics *)

(** Case analysis on the innermost boolean test of the goal. *)
Ltac case_if :=
  match goal with
  | |- context [if ?b then _ else _] =>
      lazymatch b with
      | context [if _ then _ else _] => fail
      | _ => destruct b eqn:?
      end
  end.

(** Split the conjunctions and rewrite the boolean facts of the context. *)
Ltac bool_facts :=
  repeat match goal with
  | H : _ && _ = true |- _ => apply andb_prop in H as [? ?]
  | H : _ || _ = false |- _ => apply orb_false_elim in H as [? ?]
  | H : negb _ = true |- _ => apply negb_true_iff in H
  | H : negb _ = false |- _ => apply negb_false_iff in H
  | H : (_ =c _) = true |- _ => apply Ascii.eqb_eq in H
  | H : (_ =c _) = false |- _ => apply Ascii.eqb_neq in H
  | H : bool_decide _ = true |- _ => apply bool_decide_eq_true in H
  | H : bool_decide _ = false |- _ => apply bool_decide_eq_false in H
  | H : (_ =? _)%Z = true |- _ => apply Z.eqb_eq in H
  | H : (_ =? _)%Z = false |- _ => apply Z.eqb_neq in H
  | H : (_ <? _)%Z = true |- _ => apply Z.ltb_lt in H
  | H : (_ <? _)%Z = false |- _ => apply Z.ltb_ge in H
  | H : (_ <=? _)%Z = true |- _ => apply Z.leb_le in H
  | H : (_ <=? _)%Z = false |- _ => apply Z.leb_gt in H
  end.

Create HintDb shrt.
Create Rewrite HintDb shrt.

(** ** Characters *)

(** Every fact about one character that a boolean test decides follows from
    the 256 cases. *)
Definition all_ascii : list ascii := map (fun n => Ascii.ascii_of_nat n) (seq 0 256).

Lemma elem_of_all_ascii (c : ascii) : c ∈ all_ascii.
Proof.
  unfold all_ascii. apply list_elem_of_fmap. exists (Ascii.nat_of_ascii c). split.
  - by rewrite Ascii.ascii_nat_embedding.
  - apply elem_of_seq. pose proof (Ascii.nat_ascii_bounded c). lia.
Qed.

Lemma forall_ascii (P : ascii -> bool) :
  forallb P all_ascii = true -> forall c, P c = true.
Proof.
  intros H c. rewrite forallb_forall in H. apply H, list_elem_of_In, elem_of_all_ascii.
Qed.

Lemma cc_range c : 0 <= cc c < 256.
Proof.
  assert (H : ((0 <=? cc c) && (cc c <? 256)) = true)
    by (revert c; apply forall_ascii; vm_compute; done).
  bool_facts; lia.
Qed.

Lemma chr_cc c : chr (cc c) = c.
Proof.
  assert (H : (chr (cc c) =c c) = true) by (revert c; apply forall_ascii; vm_compute; done).
  by bool_facts.
Qed.

Lemma cc_chr z : cc (chr z) = z mod 256.
Proof.
  unfold cc, chr. pose proof (Z.mod_pos_bound z 256 ltac:(lia)).
  rewrite Ascii.N_ascii_embedding; lia.
Qed.

Lemma cc_inj a b : cc a = cc b -> a = b.
Proof. intros H. by rewrite <- (chr_cc a), <- (chr_cc b), H. Qed.

Lemma eqc_refl (c : ascii) : (c =c c) = true.
Proof. apply Ascii.eqb_refl. Qed.

Lemma eqc_ne (a b : ascii) : a ≠ b -> (a =c b) = false.
Proof. apply Ascii.eqb_neq. Qed.
#[export] Hint Rewrite eqc_refl : shrt.

(** ** Machine integers: ranges *)
Lemma i64_id z : in_i64 z -> i64 z = z.
Proof. unfold in_i64, i64. intros. rewrite Z.mod_small; lia. Qed.

Lemma i64_range z : in_i64 (i64 z).
Proof.
  unfold in_i64, i64. pose proof (Z.mod_pos_bound (z + 2 ^ 63) (2 ^ 64) ltac:(lia)). lia.
Qed.

Lemma i32_id z : in_i32 z -> i32 z = z.
Proof. unfold in_i32, i32. intros. rewrite Z.mod_small; lia. Qed.

Lemma u64_range z : in_u64 (u64 z).
Proof. unfold in_u64, u64. apply Z.mod_pos_bound. lia. Qed.

Lemma u64_id z : in_u64 z -> u64 z = z.
Proof. unfold in_u64, u64. intros. apply Z.mod_small. lia. Qed.

(** ** Scanning lemmas *)
Lemma span_app p s : fst (span p s) ++ snd (span p s) = s.
Proof. induction s as [|c s IH]; simpl; [done|]. repeat case_match; simpl in *; congruence. Qed.

Lemma span_length p s : (length (snd (span p s)) <= length s)%nat.
Proof. pose proof (span_app p s) as H. apply (f_equal length) in H. rewrite length_app in H. lia. Qed.

Lemma span_all p a r :
  Forall (fun c => p c = true) a ->
  span p (a ++ r) = (a ++ fst (span p r), snd (span p r)).
Proof.
  induction 1 as [|c a Hc Ha IH]; simpl.
  - by destruct (span p r).
  - by rewrite Hc, IH.
Qed.

Lemma span_stop p a c r :
  Forall (fun x => p x = true) a -> p c = false -> span p (a ++ c :: r) = (a, c :: r).
Proof. intros Ha Hc. rewrite span_all by done. simpl. rewrite Hc. by rewrite app_nil_r. Qed.

Lemma span_fst_all p s : Forall (fun c => p c = true) (fst (span p s)).
Proof.
  induction s as [|c s IH]; simpl; [constructor|].
  destruct (p c) eqn:E; [|constructor]. destruct (span p s). simpl in *. by constructor.
Qed.

Lemma drop_while_nil_iff p s : Forall (fun c => p c = true) s -> drop_while p s = [].
Proof.
  intros H. unfold drop_while. rewrite <- (app_nil_r s), span_all by done. done.
Qed.

Lemma drop_while_stop p c r : p c = false -> drop_while p (c :: r) = c :: r.
Proof. intros H. unfold drop_while. simpl. by rewrite H. Qed.

Lemma drop_while_end_stop p s c : p c = false -> drop_while_end p (s ++ [c]) = s ++ [c].
Proof.
  intros H. unfold drop_while_end. rewrite rev_app_distr. simpl.
  rewrite drop_while_stop by done. simpl. by rewrite rev_involutive.
Qed.

Lemma starts_with_app p s : starts_with p (p ++ s) = true.
Proof. induction p as [|c p IH]; simpl; [done|]. by rewrite eqc_refl. Qed.

Lemma starts_with_spec p s : starts_with p s = true <-> exists r, s = p ++ r.
Proof.
  revert s. induction p as [|a p IH]; intros s; simpl; [naive_solver|].
  destruct s as [|b s]; [naive_solver|]. rewrite andb_true_iff, Ascii.eqb_eq, IH. naive_solver.
Qed.

(** Induction two characters at a time, for scanners that skip an escape. *)
Lemma bytes_ind2 (P : bytes -> Prop) :
  P [] -> (forall c, P [c]) -> (forall c d s, P s -> P (d :: s) -> P (c :: d :: s)) ->
  forall s, P s.
Proof.
  intros H0 H1 H2 s. enough (P s /\ forall c, P (c :: s)) by tauto.
  induction s as [|d s [IH IH']]; split; eauto.
Qed.

Lemma drop_while_none p s : Forall (fun c => p c = false) s -> drop_while p s = s.
Proof. intros H. destruct s as [|c s]; [done|]. apply drop_while_stop. by apply Forall_cons in H as [? _]. Qed.

Lemma drop_while_end_none p s : Forall (fun c => p c = false) s -> drop_while_end p s = s.
Proof.
  intros H. unfold drop_while_end. rewrite drop_while_none; [apply rev_involutive|]. by apply Forall_rev.
Qed.

(** ** Searching *)
Lemma starts_with_length p s : starts_with p s = true -> (length p <= length s)%nat.
Proof. intros H. apply starts_with_spec in H as [r ->]. rewrite length_app. lia. Qed.

Lemma starts_with_app_r p s x : (length p <= length s)%nat -> starts_with p (s ++ x) = starts_with p s.
Proof.
  revert s. induction p as [|a p IH]; intros [|b s] H; simpl in *; try done; [lia|]. rewrite IH by lia. done.
Qed.

Lemma find_sub_bound p s i : find_sub p s = Some i -> (i + length p <= length s)%nat.
Proof.
  revert i. induction s as [|c s IH]; intros i; cbn [find_sub].
  - destruct (starts_with p []) eqn:E; [|done]. intros [= <-]. apply starts_with_length in E. lia.
  - destruct (starts_with p (c :: s)) eqn:E.
    + intros [= <-]. apply starts_with_length in E. lia.
    + destruct (find_sub p s) as [j|]; [|done]. intros [= <-]. specialize (IH j eq_refl). simpl. lia.
Qed.

Lemma find_sub_app p s x i : find_sub p s = Some i -> find_sub p (s ++ x) = Some i.
Proof.
  revert i. induction s as [|c s IH]; intros i; cbn [find_sub app].
  - destruct (starts_with p []) eqn:E; [|done]. intros [= <-]. destruct p; [|done]. destruct x; done.
  - destruct (starts_with p (c :: s)) eqn:E.
    + intros [= <-]. pose proof (starts_with_length _ _ E).
      change (c :: s ++ x) with ((c :: s) ++ x). by rewrite starts_with_app_r, E.
    + destruct (find_sub p s) as [j|] eqn:Ej; [|done]. intros [= <-].
      pose proof (find_sub_bound _ _ _ Ej) as Hb.
      change (c :: s ++ x) with ((c :: s) ++ x). rewrite starts_with_app_r by (simpl; lia). rewrite E.
      simpl. by rewrite (IH j eq_refl).
Qed.

Lemma find_sub_cons p c s : starts_with p (c :: s) = false -> find_sub p (c :: s) = S <$> find_sub p s.
Proof. intros H. cbn [find_sub]. by rewrite H. Qed.

(** The first occurrence, when what is in front of it holds no first
    character of the pattern. *)
Lemma find_sub_first a p s r : a ∉ s -> find_sub (a :: p) (s ++ (a :: p) ++ r) = Some (length s).
Proof.
  intros H. induction s as [|c s IH].
  - cbn [app find_sub length]. change (a :: p ++ r) with ((a :: p) ++ r). by rewrite starts_with_app.
  - cbn [app find_sub length]. assert (Hc : c ≠ a) by (intros ->; apply H; left).
    cbn [starts_with]. rewrite (eqc_ne a c) by done. cbn [andb].
    change (s ++ a :: p ++ r) with (s ++ (a :: p) ++ r). rewrite IH; [done|]. intros Hin. apply H. by right.
Qed.

Lemma find_char_first c s r : c ∉ s -> find_char c (s ++ c :: r) = Some (length s).
Proof.
  unfold find_char. induction s as [|a s IH]; intros H; cbn [app find_sub length starts_with].
  - by rewrite eqc_refl.
  - rewrite eqc_ne by (intros ->; apply H; left). cbn [andb]. rewrite IH; [done|]. intros Hin. apply H. by right.
Qed.

Lemma find_char_none c s : c ∉ s -> find_char c s = None.
Proof.
  unfold find_char. induction s as [|a s IH]; intros H; cbn [find_sub starts_with]; [done|].
  rewrite eqc_ne by (intros ->; apply H; left). cbn [andb]. rewrite IH; [done|]. intros Hin. apply H. by right.
Qed.
