(* ===== verification/CLib.v ===== *)
(** * The parts of the C++ standard library the program calls

    Character classes of the "C" locale, the decimal printers and parsers
    ([std::to_string], [strtoll], [strtoul], [std::stoll]) and the
    short-transfer loop of [read]/[write]/[send]. *)

From S2P Require Import Prelude.

(** ** Character classes *)
Definition isspace (c : ascii) : bool := (cc c =? 32) || ((9 <=? cc c) && (cc c <=? 13)).
Definition isdigit (c : ascii) : bool := (48 <=? cc c) && (cc c <=? 57).
Definition isupper (c : ascii) : bool := (65 <=? cc c) && (cc c <=? 90).
Definition islower (c : ascii) : bool := (97 <=? cc c) && (cc c <=? 122).
Definition isalnum (c : ascii) : bool := isdigit c || isupper c || islower c.

(** The value of a hexadecimal digit. *)
Definition hexval (c : ascii) : option Z :=
  if isdigit c then Some (cc c - 48)
  else if (97 <=? cc c) && (cc c <=? 102) then Some (cc c - 97 + 10)
  else if (65 <=? cc c) && (cc c <=? 70) then Some (cc c - 65 + 10)
  else None.
Definition isxdigit (c : ascii) : bool := bool_decide (is_Some (hexval c)).

(** ** Decimal printing *)
Definition digit (d : Z) : ascii := chr (48 + d).

(** The digit loop: least significant digit first, each put in front. *)
Fixpoint dec_digits (fuel : nat) (v : Z) (acc : bytes) : bytes :=
  match fuel with
  | O => acc
  | S f =>
      let acc := digit (v mod 10) :: acc in
      if v / 10 =? 0 then acc else dec_digits f (v / 10) acc
  end.

Definition dec_fuel (v : Z) : nat := S (Z.to_nat (Z.log2 v)).

(** [std::to_string] of an integer. *)
Definition to_string (n : Z) : bytes :=
  if n <? 0 then "-"%char :: dec_digits (dec_fuel (- n)) (- n) []
  else dec_digits (dec_fuel n) n [].

(** ** Decimal parsing *)
Definition of_digits (ds : bytes) : Z := fold_left (fun a c => 10 * a + (cc c - 48)) ds 0.

(** The common syntax of [strtoll(s, _, 10)] and [std::stoll]: blanks, a
    sign, digits; [None] when there is no digit. The value is exact. *)
Definition parse_int10 (s : bytes) : option Z :=
  let s1 := drop_while isspace s in
  let '(neg, s2) :=
    match s1 with
    | c :: r => if c =c "-" then (true, r) else if c =c "+" then (false, r) else (false, s1)
    | [] => (false, [])
    end in
  match span isdigit s2 with
  | ([], _) => None
  | (ds, _) => Some (if neg : bool then - of_digits ds else of_digits ds)
  end.

Definition LLONG_MAX : Z := 2 ^ 63 - 1.
Definition LLONG_MIN : Z := - 2 ^ 63.

(** [strtoll(s, nullptr, 10)]: 0 without digits, clamped on overflow. *)
Definition strtoll (s : bytes) : Z :=
  match parse_int10 s with
  | None => 0
  | Some v => Z.max LLONG_MIN (Z.min LLONG_MAX v)
  end.

(** [std::stoll]: throws without digits or out of range. *)
Definition stoll (s : bytes) : option Z :=
  match parse_int10 s with
  | None => None
  | Some v => if (LLONG_MIN <=? v) && (v <=? LLONG_MAX) then Some v else None
  end.

Definition of_xdigits (ds : bytes) : Z :=
  fold_left (fun a c => 16 * a + default 0 (hexval c)) ds 0.

(** [strtoul(s, nullptr, 16)]: blanks, a sign, an optional [0x], hex
    digits; a minus sign negates modulo 2^64. *)
Definition strtoul16 (s : bytes) : Z :=
  let s1 := drop_while isspace s in
  let '(neg, s2) :=
    match s1 with
    | c :: r => if c =c "-" then (true, r) else if c =c "+" then (false, r) else (false, s1)
    | [] => (false, [])
    end in
  let s3 :=
    match s2 with
    | z :: x :: d :: r =>
        if (z =c "0") && ((x =c "x") || (x =c "X")) && isxdigit d then d :: r else s2
    | _ => s2
    end in
  let v := of_xdigits (fst (span isxdigit s3)) in
  if 2 ^ 64 <=? v then 2 ^ 64 - 1 else if neg : bool then u64 (- v) else v.

(** ** The transfer loop

    [while (left) { n = xfer(p, left); if (n <= 0) break; p += n; left -= n; }]
    where the [k]-th call of the system returns [sched k], never more than
    what was asked for. The result is the number of bytes moved and the
    number of the next call. One call moves at least one byte or ends the
    loop, so [left] iterations are enough. *)
Fixpoint xfer_loop (fuel : nat) (sched : nat -> Z) (k left : nat) : nat * nat :=
  match fuel with
  | O => (0%nat, k)
  | S f =>
      if decide (left = 0%nat) then (0%nat, k)
      else if sched k <=? 0 then (0%nat, S k)
      else
        let n := Nat.min (Z.to_nat (sched k)) left in
        let '(t, k') := xfer_loop f sched (S k) (left - n) in
        ((n + t)%nat, k')
  end.

Definition xfer (sched : nat -> Z) (k left : nat) : nat * nat :=
  xfer_loop left sched k left.

(** No call of the schedule fails. *)
Definition no_io_error (sched : nat -> Z) : Prop := forall k, 0 < sched k.

(** ** Lemmas: digits *)
Lemma isdigit_digit d : 0 <= d < 10 -> isdigit (digit d) = true.
Proof.
  intros H. unfold isdigit, digit. rewrite cc_chr, Z.mod_small by lia.
  apply andb_true_intro; split; apply Z.leb_le; lia.
Qed.

Lemma of_digits_snoc ds c : of_digits (ds ++ [c]) = 10 * of_digits ds + (cc c - 48).
Proof. unfold of_digits. by rewrite fold_left_app. Qed.

Definition all_digits (s : bytes) : Prop := Forall (fun c => isdigit c = true) s.

Lemma dec_digits_spec fuel : forall v acc,
  0 <= v < 10 ^ Z.of_nat fuel -> (0 < fuel)%nat ->
  exists ds, dec_digits fuel v acc = ds ++ acc /\ all_digits ds /\ ds ≠ [] /\
             of_digits ds = v /\ (length ds <= fuel)%nat.
Proof.
  induction fuel as [|f IH]; intros v acc Hv Hf; [lia|].
  rewrite Nat2Z.inj_succ, Z.pow_succ_r in Hv by lia.
  pose proof (Z.mod_pos_bound v 10 ltac:(lia)) as Hm.
  pose proof (Z.div_mod v 10 ltac:(lia)) as Hdm.
  cbn [dec_digits]. destruct (v / 10 =? 0) eqn:E; bool_facts.
  - exists [digit (v mod 10)]. repeat split; try done.
    + by repeat constructor; apply isdigit_digit.
    + unfold of_digits, digit. cbn [fold_left]. rewrite cc_chr, Z.mod_small; lia.
  - assert (0 <= v / 10) by (apply Z.div_pos; lia).
    assert (v / 10 < 10 ^ Z.of_nat f) by (apply Z.div_lt_upper_bound; lia).
    destruct f as [|f]; [simpl in *; lia|].
    destruct (IH (v / 10) (digit (v mod 10) :: acc)) as (ds & -> & Hd & Hne & Hval & Hlen); try lia.
    exists (ds ++ [digit (v mod 10)]). repeat split.
    + by rewrite <- app_assoc.
    + apply Forall_app; split; [done|]. by repeat constructor; apply isdigit_digit.
    + by destruct ds.
    + rewrite of_digits_snoc, Hval. unfold digit. rewrite cc_chr, Z.mod_small; lia.
    + rewrite length_app. simpl. lia.
Qed.

(** Enough fuel gives the same digits. *)
Lemma dec_digits_fuel f1 : forall f2 v acc,
  0 <= v < 10 ^ Z.of_nat f1 -> (f1 <= f2)%nat -> (0 < f1)%nat ->
  dec_digits f1 v acc = dec_digits f2 v acc.
Proof.
  induction f1 as [|f1 IH]; intros f2 v acc Hv Hle Hf; [lia|].
  destruct f2 as [|f2]; [lia|]. cbn [dec_digits].
  destruct (v / 10 =? 0) eqn:E; [done|]; bool_facts.
  rewrite Nat2Z.inj_succ, Z.pow_succ_r in Hv by lia.
  assert (0 <= v / 10) by (apply Z.div_pos; lia).
  assert (v / 10 < 10 ^ Z.of_nat f1) by (apply Z.div_lt_upper_bound; lia).
  destruct f1 as [|f1]; [simpl in *; lia|]. apply IH; lia.
Qed.

Lemma dec_fuel_ok v : 0 <= v -> v < 10 ^ Z.of_nat (dec_fuel v).
Proof.
  intros Hv. unfold dec_fuel. rewrite Nat2Z.inj_succ, Z2Nat.id by apply Z.log2_nonneg.
  destruct (Z.eq_dec v 0) as [->|]; [simpl; lia|].
  pose proof (Z.log2_spec v ltac:(lia)) as [_ H].
  eapply Z.lt_le_trans; [exact H|]. apply Z.pow_le_mono_l. lia.
Qed.

Lemma dec_digits_parts v :
  0 <= v -> exists ds, dec_digits (dec_fuel v) v [] = ds /\ all_digits ds /\ ds ≠ [] /\ of_digits ds = v.
Proof.
  intros Hv. destruct (dec_digits_spec (dec_fuel v) v []) as (ds & H & ? & ? & ? & _).
  - split; [done|by apply dec_fuel_ok].
  - unfold dec_fuel; lia.
  - exists ds. rewrite app_nil_r in H. done.
Qed.

(** What follows a number does not start with a digit. *)
Definition stops_digits (r : bytes) : Prop :=
  match r with [] => True | c :: _ => isdigit c = false end.

Lemma span_digits ds r : all_digits ds -> stops_digits r -> span isdigit (ds ++ r) = (ds, r).
Proof.
  intros Hd Hr. destruct r as [|c r].
  - rewrite span_all by done. simpl. by rewrite app_nil_r.
  - by apply span_stop.
Qed.

Lemma isdigit_not_space c : isdigit c = true -> isspace c = false.
Proof.
  unfold isdigit, isspace. intros H. bool_facts.
  apply orb_false_intro; [apply Z.eqb_neq; lia|]. apply andb_false_intro2, Z.leb_gt. lia.
Qed.

Lemma isdigit_not_sign c : isdigit c = true -> (c =c "-") = false /\ (c =c "+") = false.
Proof.
  intros H. split; apply Ascii.eqb_neq; intros ->; vm_compute in H; discriminate.
Qed.

Lemma parse_int10_digits ds r :
  all_digits ds -> ds ≠ [] -> stops_digits r -> parse_int10 (ds ++ r) = Some (of_digits ds).
Proof.
  intros Hd Hne Hr. destruct ds as [|c ds]; [done|]. pose proof Hd as Hd'.
  apply Forall_cons in Hd' as [Hc _]. unfold parse_int10. rewrite <- app_comm_cons.
  rewrite drop_while_stop by by apply isdigit_not_space.
  destruct (isdigit_not_sign c Hc) as [-> ->]. rewrite app_comm_cons.
  by rewrite span_digits by done.
Qed.

Lemma parse_int10_neg ds r :
  all_digits ds -> ds ≠ [] -> stops_digits r ->
  parse_int10 ("-"%char :: ds ++ r) = Some (- of_digits ds).
Proof.
  intros Hd Hne Hr. unfold parse_int10. rewrite drop_while_stop by done.
  cbn -[span of_digits]. rewrite span_digits by done. by destruct ds.
Qed.

(** Printing then parsing a number gives it back, whatever follows it. *)
Lemma parse_int10_to_string z r :
  stops_digits r -> parse_int10 (to_string z ++ r) = Some z.
Proof.
  intros Hr. unfold to_string. destruct (z <? 0) eqn:E; bool_facts.
  - destruct (dec_digits_parts (- z)) as (ds & -> & ? & ? & Hv); [lia|].
    simpl. rewrite parse_int10_neg by done. f_equal. lia.
  - destruct (dec_digits_parts z) as (ds & -> & ? & ? & Hv); [lia|].
    rewrite parse_int10_digits by done. by f_equal.
Qed.

Lemma strtoll_to_string z r : in_i64 z -> stops_digits r -> strtoll (to_string z ++ r) = z.
Proof.
  intros Hz Hr. unfold strtoll. rewrite parse_int10_to_string by done.
  unfold in_i64, LLONG_MIN, LLONG_MAX in *. lia.
Qed.

Lemma stoll_to_string z : in_i64 z -> stoll (to_string z) = Some z.
Proof.
  intros Hz. unfold stoll. rewrite <- (app_nil_r (to_string z)), parse_int10_to_string by done.
  unfold in_i64, LLONG_MIN, LLONG_MAX in *. rewrite !(proj2 (Z.leb_le _ _)) by lia. done.
Qed.

(** [strtoll] always lands in the range of [long long]. *)
Lemma strtoll_range s : in_i64 (strtoll s).
Proof. unfold strtoll, in_i64, LLONG_MIN, LLONG_MAX. case_match; lia. Qed.

Lemma stoll_range s z : stoll s = Some z -> in_i64 z.
Proof.
  unfold stoll, in_i64, LLONG_MIN, LLONG_MAX. repeat case_match; intros; simplify_eq. bool_facts. lia.
Qed.

(** A printed number holds only digits and a minus sign. *)
Lemma to_string_chars z : Forall (fun c => isdigit c || (c =c "-") = true) (to_string z).
Proof.
  assert (forall ds, all_digits ds -> Forall (fun c => isdigit c || (c =c "-") = true) ds).
  { intros ds H. eapply Forall_impl; [exact H|]. intros c Hc. cbv beta in *. by rewrite Hc. }
  unfold to_string. destruct (z <? 0) eqn:E; bool_facts.
  - destruct (dec_digits_parts (- z)) as (ds & -> & ? & _ & _); [lia|]. constructor; auto.
  - destruct (dec_digits_parts z) as (ds & -> & ? & _ & _); [lia|]. auto.
Qed.

Lemma to_string_cons z : exists c s, to_string z = c :: s /\ isdigit c || (c =c "-") = true.
Proof.
  pose proof (to_string_chars z) as H. destruct (to_string z) as [|c s] eqn:E.
  - exfalso. revert E. unfold to_string. case_match; [done|]. bool_facts.
    destruct (dec_digits_parts z) as (ds & -> & _ & ? & _); [lia|]. done.
  - exists c, s. split; [done|]. by apply Forall_cons in H as [? _].
Qed.

(** ** Lemmas: the transfer loop *)
Lemma xfer_loop_le fuel sched : forall k left, (fst (xfer_loop fuel sched k left) <= left)%nat.
Proof.
  induction fuel as [|f IH]; intros k left; simpl; [lia|].
  case_decide; simpl; [lia|]. case_if; simpl; [lia|].
  specialize (IH (S k) (left - Nat.min (Z.to_nat (sched k)) left)%nat).
  destruct (xfer_loop f sched _ _). simpl in *. lia.
Qed.

Lemma xfer_le sched k left : (fst (xfer sched k left) <= left)%nat.
Proof. apply xfer_loop_le. Qed.

(** Without an error every byte is moved, however short the transfers. *)
Lemma xfer_loop_all sched : no_io_error sched ->
  forall fuel k left, (left <= fuel)%nat -> fst (xfer_loop fuel sched k left) = left.
Proof.
  intros Hok. induction fuel as [|f IH]; intros k left Hle; simpl; [lia|].
  case_decide; simpl; [lia|]. specialize (Hok k).
  destruct (sched k <=? 0) eqn:E; bool_facts; [lia|].
  specialize (IH (S k) (left - Nat.min (Z.to_nat (sched k)) left)%nat ltac:(lia)).
  destruct (xfer_loop f sched _ _). simpl in *. lia.
Qed.

Lemma xfer_all sched k left : no_io_error sched -> fst (xfer sched k left) = left.
Proof. intros H. by apply xfer_loop_all. Qed.

Lemma to_string_inj a b : to_string a = to_string b -> a = b.
Proof.
  intros H. enough (Some a = Some b) by congruence.
  rewrite <- (parse_int10_to_string a []), <- (parse_int10_to_string b []) by done. by rewrite H.
Qed.

Lemma to_string_length n z : (0 < n)%nat -> 0 <= z < 10 ^ Z.of_nat n -> (length (to_string z) <= n)%nat.
Proof.
  intros Hn Hz. unfold to_string. destruct (z <? 0) eqn:E; bool_facts; [lia|].
  destruct (dec_digits_spec n z []) as (ds & Hd & _ & _ & _ & Hl); [done..|].
  rewrite app_nil_r in Hd. destruct (Nat.le_ge_cases (dec_fuel z) n).
  - rewrite (dec_digits_fuel _ n); [by rewrite Hd| |done|unfold dec_fuel; lia].
    split; [lia|apply dec_fuel_ok; lia].
  - rewrite <- (dec_digits_fuel n) by lia. by rewrite Hd.
Qed.
