(* ===== verification/Common.v ===== *)
(** * base62.hpp and common.hpp

    The code alphabet, [base62_encode], the environment readers and the
    allocation-free decimal printer [itoa]. The two printers fill a fixed
    stack buffer from its end; a write below its start would be out of
    bounds, so the buffer version returns [None] there and the theorems show
    it never happens. *)

From S2P Require Import Prelude CLib.

(** ** base62.hpp *)
Module Base62.

Definition ALPHABET : bytes :=
  B "0123456789abcdefghijklmnopqrstuvwxyzABCDEFGHIJKLMNOPQRSTUVWXYZ".
Definition CODE_LEN : nat := 8.
Definition MAX_INSTANCES : Z := 62.

(** [ALPHABET[k]]. *)
Definition alpha (k : Z) : ascii := nth (Z.to_nat k) ALPHABET "0"%char.

(** The loop [while (n) { buf[--i] = ALPHABET[n % 62]; n /= 62; }] with [i]
    cells of the buffer left and [acc] the cells filled so far. *)
Fixpoint encode_loop (i : nat) (n : Z) (acc : bytes) : option bytes :=
  if n =? 0 then Some acc
  else match i with
       | O => None
       | S i' => encode_loop i' (n / 62) (alpha (n mod 62) :: acc)
       end.

Definition base62_encode (n : Z) : option bytes :=
  if n =? 0 then Some (B "0") else encode_loop 12 n [].

(** [alpha_idx] of store.cpp: the first position of a character, -1 if none. *)
Fixpoint alpha_scan (i : Z) (l : bytes) (c : ascii) : Z :=
  match l with
  | [] => -1
  | a :: l' => if a =c c then i else alpha_scan (i + 1) l' c
  end.
Definition alpha_idx (c : ascii) : Z := alpha_scan 0 ALPHABET c.

(** The positional value of a base-62 numeral. *)
Definition base62_value (s : bytes) : Z := fold_left (fun a c => 62 * a + alpha_idx c) s 0.

(** [alpha_idx] inverts [ALPHABET[_]] on its 62 positions. *)
Lemma alpha_idx_alpha k : 0 <= k < 62 -> alpha_idx (alpha k) = k.
Proof.
  intros Hk.
  assert (H : forallb (fun k => alpha_idx (alpha (Z.of_nat k)) =? Z.of_nat k) (seq 0 62) = true)
    by (vm_compute; done).
  rewrite forallb_forall in H. specialize (H (Z.to_nat k)).
  rewrite Z2Nat.id in H by lia. apply Z.eqb_eq, H, in_seq. lia.
Qed.

Lemma alpha_inj a b : 0 <= a < 62 -> 0 <= b < 62 -> alpha a = alpha b -> a = b.
Proof. intros Ha Hb E. by rewrite <- (alpha_idx_alpha a Ha), <- (alpha_idx_alpha b Hb), E. Qed.

Lemma alpha_in k : 0 <= k < 62 -> alpha k ∈ ALPHABET.
Proof. intros Hk. apply list_elem_of_In, nth_In. change (length ALPHABET) with 62%nat. lia. Qed.

Lemma alphabet_alnum c : c ∈ ALPHABET -> isalnum c = true.
Proof.
  intros H. assert (A : forallb isalnum ALPHABET = true) by (vm_compute; done).
  rewrite forallb_forall in A. by apply A, list_elem_of_In.
Qed.

Lemma base62_value_snoc s c : base62_value (s ++ [c]) = 62 * base62_value s + alpha_idx c.
Proof. unfold base62_value. by rewrite fold_left_app. Qed.

Lemma encode_loop_spec i : forall n acc,
  0 <= n < 62 ^ Z.of_nat i ->
  exists ds, encode_loop i n acc = Some (ds ++ acc) /\ base62_value ds = n /\ (length ds <= i)%nat.
Proof.
  induction i as [|i IH]; intros n acc Hn; cbn [encode_loop].
  - exists []. replace n with 0 by (simpl in *; lia). done.
  - destruct (n =? 0) eqn:E; bool_facts.
    { exists []. subst. simpl. repeat split; lia. }
    rewrite Nat2Z.inj_succ, Z.pow_succ_r in Hn by lia.
    pose proof (Z.mod_pos_bound n 62 ltac:(lia)). pose proof (Z.div_mod n 62 ltac:(lia)).
    assert (0 <= n / 62) by (apply Z.div_pos; lia).
    assert (n / 62 < 62 ^ Z.of_nat i) by (apply Z.div_lt_upper_bound; lia).
    destruct (IH (n / 62) (alpha (n mod 62) :: acc)) as (ds & -> & Hv & Hl); [lia|].
    exists (ds ++ [alpha (n mod 62)]). rewrite <- app_assoc. repeat split.
    + rewrite base62_value_snoc, alpha_idx_alpha; lia.
    + rewrite length_app. simpl. lia.
Qed.

End Base62.

(** ** common.hpp: the environment *)

(** [getenv]. *)
Definition Env : Type := bytes -> option bytes.

Definition env_i64 (env : Env) (k : bytes) (def : Z) : Z :=
  match env k with
  | None | Some [] => def
  | Some v => strtoll v
  end.

Definition env_str (env : Env) (k : bytes) (def : bytes) : bytes :=
  match env k with
  | None | Some [] => def
  | Some v => v
  end.

Definition track_hits (env : Env) : bool := negb (env_i64 env (B "TRACK_HITS") 1 =? 0).

(** ** common.hpp: [itoa] *)

(** [uint64_t v = n < 0 ? (uint64_t)(-(n + 1)) + 1 : (uint64_t)n]. *)
Definition itoa_abs (n : Z) : Z := if n <? 0 then u64 (u64 (- (n + 1)) + 1) else u64 n.

(** The do-while digit loop with [i] cells of [tmp] left. *)
Fixpoint itoa_loop (i : nat) (v : Z) (acc : bytes) : option (nat * bytes) :=
  match i with
  | O => None
  | S i' =>
      let acc := chr (48 + v mod 10) :: acc in
      if v / 10 =? 0 then Some (i', acc) else itoa_loop i' (v / 10) acc
  end.

Definition itoa_buf (n : Z) : option bytes :=
  match itoa_loop 24 (itoa_abs n) [] with
  | None => None
  | Some (i, tmp) =>
      if n <? 0 then match i with O => None | S _ => Some ("-"%char :: tmp) end
      else Some tmp
  end.

(** [itoa(b, n)] appends to [b]. *)
Definition itoa (b : bytes) (n : Z) : bytes := b ++ default [] (itoa_buf n).

Lemma itoa_loop_spec i : forall v acc,
  0 <= v < 10 ^ Z.of_nat i -> (0 < i)%nat ->
  exists ds, dec_digits i v acc = ds ++ acc /\ (length ds <= i)%nat /\
             itoa_loop i v acc = Some ((i - length ds)%nat, ds ++ acc).
Proof.
  induction i as [|i IH]; intros v acc Hv Hi; [lia|]. cbn [itoa_loop dec_digits].
  destruct (v / 10 =? 0) eqn:E; bool_facts.
  - exists [digit (v mod 10)]. simpl. rewrite Nat.sub_0_r. repeat split; lia.
  - rewrite Nat2Z.inj_succ, Z.pow_succ_r in Hv by lia.
    assert (0 <= v / 10) by (apply Z.div_pos; lia).
    assert (v / 10 < 10 ^ Z.of_nat i) by (apply Z.div_lt_upper_bound; lia).
    destruct i as [|i]; [simpl in *; lia|].
    destruct (IH (v / 10) (chr (48 + v mod 10) :: acc)) as (ds & H1 & H2 & H3); [lia..|].
    exists (ds ++ [digit (v mod 10)]). unfold digit at 1. rewrite H1, H3, length_app, <- !app_assoc.
    simpl. repeat split; [lia|]. do 2 f_equal. lia.
Qed.

Lemma itoa_abs_abs n : in_i64 n -> itoa_abs n = Z.abs n.
Proof.
  unfold in_i64, itoa_abs. intros Hn. destruct (n <? 0) eqn:E; bool_facts.
  - rewrite (u64_id (- (n + 1))), u64_id by (unfold in_u64; lia). lia.
  - rewrite u64_id by (unfold in_u64; lia). lia.
Qed.

(** The buffer of 24 is never overrun: at most 20 cells are written for the
    digits and one for the sign. *)
Lemma itoa_buf_to_string n : in_i64 n -> itoa_buf n = Some (to_string n).
Proof.
  intros Hn. unfold itoa_buf. rewrite itoa_abs_abs by done. unfold in_i64 in Hn.
  assert (Hlt : Z.abs n < 10 ^ Z.of_nat 20) by (change (10 ^ Z.of_nat 20) with 100000000000000000000; lia).
  destruct (dec_digits_spec 20 (Z.abs n) []) as (ds & Hd & _ & _ & _ & Hlen); [lia..|].
  destruct (itoa_loop_spec 24 (Z.abs n) []) as (ds' & Hd' & _ & ->);
    [change (10 ^ Z.of_nat 24) with 1000000000000000000000000; lia|lia|].
  assert (ds' = ds) as ->.
  { rewrite !app_nil_r in *. rewrite <- Hd, <- Hd'. symmetry. apply dec_digits_fuel; lia. }
  rewrite app_nil_r in *.
  assert (Hs : dec_digits (dec_fuel (Z.abs n)) (Z.abs n) [] = ds).
  { rewrite <- Hd. destruct (Nat.le_ge_cases (dec_fuel (Z.abs n)) 20).
    - apply dec_digits_fuel; [|lia|unfold dec_fuel; lia]. split; [lia|apply dec_fuel_ok; lia].
    - symmetry. apply dec_digits_fuel; lia. }
  unfold to_string. destruct (n <? 0) eqn:E; bool_facts.
  - rewrite <- (Z.abs_neq n), Hs by lia.
    destruct (24 - length ds)%nat eqn:E24; [lia|done].
  - rewrite <- Hs, Z.abs_eq by lia. done.
Qed.

Lemma itoa_to_string b n : in_i64 n -> itoa b n = b ++ to_string n.
Proof. intros H. unfold itoa. by rewrite itoa_buf_to_string. Qed.
