(* ===== verification/Codec.v ===== *)
(** * codec.cpp: the lines of the append-only log

    A log line is a row [{"c","u","a","e","i","n"}], a hit delta
    [{"h","d","i"}] or a tombstone [{"x"}]. This file holds the writers
    ([row_line], [hit_line], [del_line] over [esc] and [itoa]), the decoder
    [parse_op] with [unescape], and the proof that decoding inverts
    encoding. *)

From S2P Require Import Prelude CLib Common.

(** ** Data *)

(** [struct Op]. *)
Record Op := mkOp {
  o_c : bytes; o_u : bytes; o_h : bytes; o_x : bytes;
  o_a : Z; o_e : Z; o_i : Z; o_n : Z; o_d : Z;
  o_has_e : bool
}.
Definition Op0 : Op := mkOp [] [] [] [] 0 0 0 0 0 false.

(** ** Writers *)

Definition hexdigit (d : Z) : ascii := if d <? 10 then chr (48 + d) else chr (97 + d - 10).

(** [snprintf("\\u%04x", ch)] for [ch < 0x20]. *)
Definition u_escape (ch : ascii) : bytes :=
  bslash :: B "u00" ++ [hexdigit (cc ch / 16); hexdigit (cc ch mod 16)].

(** One iteration of the loop of [esc]. *)
Definition esc1 (ch : ascii) : bytes :=
  if ch =c dq then [bslash; dq]
  else if ch =c bslash then [bslash; bslash]
  else if ch =c LF then [bslash; "n"%char]
  else if ch =c CR then [bslash; "r"%char]
  else if ch =c TAB then [bslash; "t"%char]
  else if cc ch <? 32 then u_escape ch
  else [ch].

Definition esc (dst s : bytes) : bytes := fold_left (fun d ch => d ++ esc1 ch) s dst.

Definition row_line_into (b c u : bytes) (a e i n : Z) : bytes :=
  let b := b ++ Q "{'c':'" in
  let b := b ++ c in
  let b := b ++ Q "','u':'" in
  let b := esc b u in
  let b := b ++ Q "','a':" in
  let b := itoa b a in
  let b := b ++ Q ",'e':" in
  let b := if e =? 0 then b ++ B "null" else itoa b e in
  let b := b ++ Q ",'i':" in
  let b := itoa b i in
  let b := b ++ Q ",'n':" in
  let b := itoa b n in
  b ++ B "}".

Definition hit_line_into (b c : bytes) (d i : Z) : bytes :=
  let b := b ++ Q "{'h':'" in
  let b := b ++ c in
  let b := b ++ Q "','d':" in
  let b := itoa b d in
  let b := b ++ Q ",'i':" in
  let b := itoa b i in
  b ++ B "}".

Definition del_line_into (b c : bytes) : bytes :=
  let b := b ++ Q "{'x':'" in
  let b := b ++ c in
  b ++ Q "'}".

Definition row_line (c u : bytes) (a e i n : Z) : bytes := row_line_into [] c u a e i n.
Definition hit_line (c : bytes) (d i : Z) : bytes := hit_line_into [] c d i.
Definition del_line (c : bytes) : bytes := del_line_into [] c.

(** ** Decoder *)

(** The UTF-8 bytes of the 32-bit [cp]; each is narrowed to [char]. *)
Definition utf8 (cp : Z) : bytes :=
  if cp <? 128 then [chr cp]
  else if cp <? 2048 then
    [chr (Z.lor 192 (Z.shiftr cp 6)); chr (Z.lor 128 (Z.land cp 63))]
  else
    [chr (Z.lor 224 (Z.shiftr cp 12)); chr (Z.lor 128 (Z.land (Z.shiftr cp 6) 63));
     chr (Z.lor 128 (Z.land cp 63))].

Fixpoint unescape (b : bytes) : bytes :=
  match b with
  | [] => []
  | c :: r =>
      if c ≠c bslash then c :: unescape r
      else match r with
           | [] => [c]
           | e :: r' =>
               if e =c "n" then LF :: unescape r'
               else if e =c "r" then CR :: unescape r'
               else if e =c "t" then TAB :: unescape r'
               else if e =c "u" then
                 match r' with
                 | h1 :: h2 :: h3 :: h4 :: r'' =>
                     utf8 (u32 (strtoul16 [h1; h2; h3; h4])) ++ unescape r''
                 | _ => unescape r'
                 end
               else e :: unescape r'
           end
  end.

(** The inner loop over a quoted value: the raw value, whether it holds an
    escape, and what is left (at the closing quote, or at the end). *)
Fixpoint scan_str (s : bytes) : bytes * bool * bytes :=
  match s with
  | [] => ([], false, [])
  | c :: r =>
      if c =c bslash then
        match r with
        | [] => ([c], true, [])
        | d :: r' => let '(v, _, t) := scan_str r' in (c :: d :: v, true, t)
        end
      else if c =c dq then ([], false, s)
      else let '(v, e, t) := scan_str r in (c :: v, e, t)
  end.

Definition set_str (key : ascii) (s : bytes) (o : Op) : Op :=
  let 'mkOp c u h x a e i n d he := o in
  if key =c "c" then mkOp s u h x a e i n d he
  else if key =c "u" then mkOp c s h x a e i n d he
  else if key =c "h" then mkOp c u s x a e i n d he
  else if key =c "x" then mkOp c u h s a e i n d he
  else o.

Definition set_num (key : ascii) (is_null : bool) (v : Z) (o : Op) : Op :=
  let 'mkOp c u h x a e i n d he := o in
  if key =c "a" then mkOp c u h x v e i n d he
  else if key =c "e" then (if is_null then o else mkOp c u h x a v i n d true)
  else if key =c "i" then mkOp c u h x a e v n d he
  else if key =c "n" then mkOp c u h x a e i v d he
  else if key =c "d" then mkOp c u h x a e i n v he
  else o.

Definition blank (c : ascii) : bool := (c =c SP) || (c =c TAB).

(** The outcome of one iteration of the outer loop of [parse_op]: leave the
    loop, return false, or go on with the rest of the line. *)
Inductive field := Stop (o : Op) | Fail | Next (s : bytes) (o : Op).

Definition parse_field (s : bytes) (o : Op) : field :=
  match drop_while (fun c => c ≠c dq) s with
  | [] => Stop o
  | _ :: s2 =>
      match span (fun c => c ≠c dq) s2 with
      | (_, []) => Fail
      | (k, _ :: s4) =>
          let key := match k with [] => Ascii.zero | c :: _ => c end in
          match drop_while (fun c => c ≠c ":") s4 with
          | [] => Fail
          | _ :: s6 =>
              match drop_while blank s6 with
              | [] => Fail
              | c :: s8 =>
                  if c =c dq then
                    let '(val, escapes, s9) := scan_str s8 in
                    let v := if escapes : bool then unescape val else val in
                    Next (tail s9) (set_str key v o)
                  else
                    let '(num0, s9) := span (fun c => (c ≠c ",") && (c ≠c "}")) (c :: s8) in
                    let num := drop_while_end blank num0 in
                    let is_null := num =s B "null" in
                    let v := if is_null then 0 else strtoll num in
                    Next s9 (set_num key is_null v o)
              end
          end
      end
  end.

(** [while (pos < L)]: every iteration consumes a character, so one unit of
    fuel more than the length is enough ([parse_loop_fuel]). *)
Fixpoint parse_loop (fuel : nat) (s : bytes) (o : Op) : option Op :=
  match fuel with
  | O => None
  | S f =>
      match s with
      | [] => Some o
      | _ => match parse_field s o with
             | Stop o' => Some o'
             | Fail => None
             | Next s' o' => parse_loop f s' o'
             end
      end
  end.

Definition op_nonempty (o : Op) : bool :=
  negb (o_c o =s []) || negb (o_h o =s []) || negb (o_x o =s []).

Definition parse_run (s : bytes) (o : Op) : option Op := parse_loop (S (length s)) s o.

(** [parse_op]: [None] for [false]. *)
Definition parse_op (line : bytes) : option Op :=
  match parse_run line Op0 with
  | Some o => if op_nonempty o then Some o else None
  | None => None
  end.

Example parse_row_example :
  parse_op (row_line (B "abc") (B "https://e.com/?q=" ++ [dq; bslash; LF; chr 1]) 1700 0 3 12)
  = Some (mkOp (B "abc") (B "https://e.com/?q=" ++ [dq; bslash; LF; chr 1]) [] [] 1700 0 3 12 0 false).
Proof. vm_compute. reflexivity. Qed.

(** ** Termination of the decoder *)
Lemma scan_str_cons c r :
  scan_str (c :: r) =
    if c =c bslash then
      match r with
      | [] => ([c], true, [])
      | d :: r' => let '(v, _, t) := scan_str r' in (c :: d :: v, true, t)
      end
    else if c =c dq then ([], false, c :: r)
    else let '(v, e, t) := scan_str r in (c :: v, e, t).
Proof. done. Qed.

Lemma scan_str_app s : forall v e t, scan_str s = (v, e, t) -> s = v ++ t.
Proof.
  induction s as [|c|c d s IH IH'] using bytes_ind2; intros v e t.
  - naive_solver.
  - simpl. repeat case_if; naive_solver.
  - rewrite scan_str_cons. destruct (c =c bslash).
    + destruct (scan_str s) as [[v' e'] t']. intros [= <- <- <-]. simpl. by rewrite (IH _ _ _ eq_refl).
    + destruct (c =c dq); [naive_solver|].
      destruct (scan_str (d :: s)) as [[v' e'] t']. intros [= <- <- <-]. simpl.
      by rewrite (IH' _ _ _ eq_refl).
Qed.

Lemma length_tail_le (l : bytes) : (length (tail l) <= length l)%nat.
Proof. destruct l; simpl; lia. Qed.

Lemma parse_field_decreases s o s' o' :
  parse_field s o = Next s' o' -> (length s' < length s)%nat.
Proof.
  unfold parse_field, drop_while. intros H.
  repeat match type of H with
  | context [span ?p ?x] =>
      let L := fresh in pose proof (span_length p x) as L; destruct (span p x) as [? ?] eqn:?; simpl in *
  | context [match ?l with [] => _ | _ :: _ => _ end] => destruct l; simpl in *; try discriminate
  | context [if ?b then _ else _] => destruct b
  | context [scan_str ?x] =>
      let E := fresh in destruct (scan_str x) as [[? ?] ?] eqn:E;
      apply scan_str_app in E; apply (f_equal length) in E; rewrite length_app in E
  end; simplify_eq; try lia.
  all: try match goal with |- context [length (tail ?l)] => pose proof (length_tail_le l) end; simpl in *; lia.
Qed.

Lemma parse_loop_fuel f1 : forall f2 s o,
  (length s < f1)%nat -> (length s < f2)%nat -> parse_loop f1 s o = parse_loop f2 s o.
Proof.
  induction f1 as [|f1 IH]; intros [|f2] s o H1 H2; try lia. cbn [parse_loop].
  destruct s as [|c s]; [done|]. destruct (parse_field (c :: s) o) as [| |s' o'] eqn:E; try done.
  apply parse_field_decreases in E. simpl in *. apply IH; lia.
Qed.

Lemma parse_run_next s o s' o' : parse_field s o = Next s' o' -> parse_run s o = parse_run s' o'.
Proof.
  intros H. pose proof (parse_field_decreases _ _ _ _ H) as Hlt. unfold parse_run.
  destruct s as [|c s]; [simpl in *; lia|].
  etrans; [|apply (parse_loop_fuel (length (c :: s))); simpl in *; lia].
  cbn [parse_loop]. by rewrite H.
Qed.

Lemma parse_run_stop s o o' : parse_field s o = Stop o' -> s ≠ [] -> parse_run s o = Some o'.
Proof. intros H Hs. unfold parse_run. destruct s; [done|]. cbn [parse_loop]. by rewrite H. Qed.

(** ** Escaping *)
Lemma esc_app dst s : esc dst s = dst ++ esc [] s.
Proof.
  unfold esc. revert dst. induction s as [|c s IH]; intros dst; simpl.
  - by rewrite app_nil_r.
  - rewrite IH, (IH (esc1 c)). by rewrite app_assoc.
Qed.

Lemma esc_cons c s : esc [] (c :: s) = esc1 c ++ esc [] s.
Proof. unfold esc at 1. simpl. apply (esc_app (esc1 c)). Qed.

(** What one escaped character does to the scanner and to [unescape]:
    decided on the 256 characters. *)
Definition esc1_scan_ok (c : ascii) : bool :=
  match esc1 c with
  | [d] => (d =c c) && (d ≠c bslash) && (d ≠c dq)
  | [a; d] => (a =c bslash) &&
      (if d =c "n" then c =c LF else if d =c "r" then c =c CR
       else if d =c "t" then c =c TAB else (d ≠c "u") && (d =c c))
  | [a; b; h1; h2; h3; h4] =>
      (a =c bslash) && (b =c "u") && (utf8 (u32 (strtoul16 [h1; h2; h3; h4])) =s [c]) &&
      (h1 ≠c bslash) && (h2 ≠c bslash) && (h3 ≠c bslash) && (h4 ≠c bslash) &&
      (h1 ≠c dq) && (h2 ≠c dq) && (h3 ≠c dq) && (h4 ≠c dq)
  | _ => false
  end.

Lemma esc1_scan c : esc1_scan_ok c = true.
Proof. revert c. apply forall_ascii. vm_compute. done. Qed.

(** Case analysis on the three shapes of an escaped character. *)
Ltac esc1_cases c :=
  let H := fresh "Hesc" in
  pose proof (esc1_scan c) as H; unfold esc1_scan_ok in H;
  destruct (esc1 c) as [|? [|? [|? [|? [|? [|? [|? ?]]]]]]]; try discriminate H; bool_facts.

Lemma unescape_esc_cons c s : unescape (esc1 c ++ s) = c :: unescape s.
Proof.
  esc1_cases c; simplify_eq; simpl; rewrite ?eqc_refl; simpl.
  - by rewrite eqc_ne.
  - repeat case_if; bool_facts; simplify_eq; done.
  - match goal with H : utf8 _ = _ |- _ => by rewrite H end.
Qed.

Lemma unescape_esc s : unescape (esc [] s) = s.
Proof.
  induction s as [|c s IH]; [done|]. by rewrite esc_cons, unescape_esc_cons, IH.
Qed.

(** ** The scanner on the fields the writers produce *)

(** No character of [s] is a quote or a backslash. *)
Definition plain (s : bytes) : Prop := Forall (fun c => (c =c bslash) = false /\ (c =c dq) = false) s.

Lemma scan_str_plain p s :
  plain p -> scan_str (p ++ s) = let '(v, e, t) := scan_str s in (p ++ v, e, t).
Proof.
  induction 1 as [|c p [Hb Hd] Hp IH]; [simpl; by destruct (scan_str s) as [[? ?] ?]|].
  rewrite <- app_comm_cons, scan_str_cons, Hb, Hd, IH. by destruct (scan_str s) as [[? ?] ?].
Qed.

Lemma scan_str_code c r : plain c -> scan_str (c ++ dq :: r) = (c, false, dq :: r).
Proof. intros H. rewrite scan_str_plain by done. simpl. by rewrite app_nil_r. Qed.

Lemma scan_str_esc u r :
  exists e, scan_str (esc [] u ++ dq :: r) = (esc [] u, e, dq :: r) /\ (e = false -> esc [] u = u).
Proof.
  induction u as [|c u (e & IH & IHe)]; [by exists false|].
  rewrite esc_cons, <- app_assoc. esc1_cases c; simplify_eq.
  - exists e. rewrite <- app_comm_cons, app_nil_l, scan_str_cons, !eqc_ne, IH by done.
    split; [done|]. intros ->. simpl. by rewrite IHe.
  - exists true. rewrite <- !app_comm_cons, scan_str_cons, eqc_refl, app_nil_l, IH. done.
  - exists true. rewrite <- !app_comm_cons, scan_str_cons, eqc_refl.
    match goal with |- context [scan_str (?a :: ?b :: ?c :: ?d :: [] ++ ?x)] =>
      change (scan_str (a :: b :: c :: d :: [] ++ x)) with (scan_str ([a; b; c; d] ++ x)) end.
    rewrite scan_str_plain, IH; [done|]. repeat constructor; by apply eqc_ne.
Qed.

Lemma decode_esc u r :
  exists v e, scan_str (esc [] u ++ dq :: r) = (v, e, dq :: r) /\ (if e : bool then unescape v else v) = u.
Proof.
  destruct (scan_str_esc u r) as (e & -> & He). exists (esc [] u), e. split; [done|].
  destruct e; [apply unescape_esc|auto].
Qed.

Lemma parse_field_str pre key s val e r o :
  Forall (fun c => (c =c dq) = false) pre -> (key =c dq) = false ->
  scan_str s = (val, e, dq :: r) ->
  parse_field (pre ++ dq :: key :: dq :: ":"%char :: dq :: s) o
  = Next r (set_str key (if e : bool then unescape val else val) o).
Proof.
  intros Hpre Hkey Hs. unfold parse_field, drop_while.
  rewrite span_stop; [|eapply Forall_impl; [exact Hpre|by intros ? ->]|done].
  simpl. rewrite Hkey. simpl. by rewrite Hs.
Qed.

(** The fields of a number: what stops it and what it is made of. *)
Lemma parse_field_value pre key v c r o num :
  Forall (fun c => (c =c dq) = false) pre -> (key =c dq) = false ->
  num ≠ [] -> Forall (fun c => isalnum c || (c =c "-") = true) num ->
  (c = ","%char \/ c = "}"%char) ->
  v = (if num =s B "null" then 0 else strtoll num) ->
  parse_field (pre ++ dq :: key :: dq :: ":"%char :: num ++ c :: r) o
  = Next (c :: r) (set_num key (num =s B "null") v o).
Proof.
  intros Hpre Hkey Hne Hnum Hc ->. unfold parse_field, drop_while.
  rewrite span_stop; [|eapply Forall_impl; [exact Hpre|by intros ? ->]|done].
  simpl. rewrite Hkey. simpl.
  assert (Hout : Forall (fun c => blank c = false /\ (c =c dq) = false /\
                                  ((c ≠c ",") && (c ≠c "}")) = true) num).
  { eapply Forall_impl; [exact Hnum|]. intros x. cbv beta.
    assert (A : (negb (isalnum x || (x =c "-")) ||
                 (negb (blank x) && (x ≠c dq) && ((x ≠c ",") && (x ≠c "}")))) = true)
      by (revert x; apply forall_ascii; vm_compute; done).
    intros Hx. rewrite Hx in A. simpl in A. bool_facts. split_and!; [done|by apply eqc_ne|].
    by rewrite !eqc_ne. }
  destruct num as [|d num]; [done|]. pose proof Hout as Hout'.
  apply Forall_cons in Hout' as [(Hb & Hq & Hd) Hnum']. simpl (_ ++ _).
  change (snd (span blank (d :: num ++ c :: r))) with (drop_while blank (d :: num ++ c :: r)).
  rewrite drop_while_stop, Hq by done. cbn [span]. rewrite Hd, span_stop.
  - rewrite drop_while_end_none; [done|]. eapply Forall_impl; [exact Hout|]. naive_solver.
  - eapply Forall_impl; [exact Hnum'|]. naive_solver.
  - by destruct Hc as [-> | ->].
Qed.

Lemma parse_field_num pre key z c r o :
  Forall (fun c => (c =c dq) = false) pre -> (key =c dq) = false ->
  (c = ","%char \/ c = "}"%char) -> in_i64 z ->
  parse_field (pre ++ dq :: key :: dq :: ":"%char :: to_string z ++ c :: r) o
  = Next (c :: r) (set_num key false z o).
Proof.
  intros Hpre Hkey Hc Hz. destruct (to_string_cons z) as (d & ds & E & Hd).
  assert (Hnull : (to_string z =s B "null") = false).
  { apply bool_decide_eq_false. rewrite E. intros [= -> ->]. vm_compute in Hd. done. }
  rewrite (parse_field_value _ _ z); try done; rewrite ?Hnull; try done.
  - by rewrite E.
  - eapply Forall_impl; [apply to_string_chars|]. intros x. cbv beta. unfold isalnum.
    destruct (isdigit x); [done|]. simpl. intros ->. by rewrite !orb_true_r.
  - rewrite <- (app_nil_r (to_string z)), strtoll_to_string; done.
Qed.

(** ** Log records

    The three kinds of line a store writes, as data: the specification the
    codec implements. *)
Inductive LogRec :=
| Row (c u : bytes) (a e i n : Z)
| Hit (c : bytes) (d i : Z)
| Del (c : bytes).

Definition line_of (r : LogRec) : bytes :=
  match r with
  | Row c u a e i n => row_line c u a e i n
  | Hit c d i => hit_line c d i
  | Del c => del_line c
  end.

(** What [parse_op] must return for it: [e] is set only when not 0. *)
Definition op_of (r : LogRec) : Op :=
  match r with
  | Row c u a e i n => mkOp c u [] [] a e i n 0 (negb (e =? 0))
  | Hit c d i => mkOp [] [] c [] 0 0 i 0 d false
  | Del c => mkOp [] [] [] c 0 0 0 0 0 false
  end.

(** A code that is written unescaped: not empty, no quote, backslash or
    line feed. The url of a row is arbitrary. *)
Definition plain_code (c : bytes) : Prop := c ≠ [] /\ plain c /\ LF ∉ c.

Definition rec_ok (r : LogRec) : Prop :=
  match r with
  | Row c u a e i n => plain_code c /\ in_i64 a /\ in_i64 e /\ in_i64 i /\ in_i64 n
  | Hit c d i => plain_code c /\ in_i64 d /\ in_i64 i
  | Del c => plain_code c
  end.

(** One string field, one number, one [null]: the rewriting steps of the
    round trip. [p] is the punctuation before the key. *)
Lemma run_str p key s val e r o :
  (p =c dq) = false -> (key =c dq) = false -> scan_str s = (val, e, dq :: r) ->
  parse_run (p :: dq :: key :: dq :: ":"%char :: dq :: s) o
  = parse_run r (set_str key (if e : bool then unescape val else val) o).
Proof. intros. apply parse_run_next, (parse_field_str [p]); auto. Qed.

Lemma run_num p key z c r o :
  (p =c dq) = false -> (key =c dq) = false -> (c = ","%char \/ c = "}"%char) -> in_i64 z ->
  parse_run (p :: dq :: key :: dq :: ":"%char :: to_string z ++ c :: r) o
  = parse_run (c :: r) (set_num key false z o).
Proof. intros. apply parse_run_next, (parse_field_num [p]); auto. Qed.

Lemma run_null p key c r o :
  (p =c dq) = false -> (key =c dq) = false -> (c = ","%char \/ c = "}"%char) ->
  parse_run (p :: dq :: key :: dq :: ":"%char :: B "null" ++ c :: r) o
  = parse_run (c :: r) (set_num key true 0 o).
Proof.
  intros. apply parse_run_next.
  apply (parse_field_value [p] key 0 c r o (B "null")); auto.
  repeat constructor; vm_compute; done.
Qed.

Lemma run_end o : parse_run (B "}") o = Some o.
Proof. by apply parse_run_stop. Qed.

(** A quoted one-letter key and its colon. *)
#[local] Notation "k ⟩ x" := (dq :: k%char :: dq :: ":"%char :: x)
  (at level 60, right associativity).

Lemma row_line_eq c u a e i n :
  in_i64 a -> in_i64 e -> in_i64 i -> in_i64 n ->
  row_line c u a e i n =
    "{"%char :: ("c" ⟩ dq :: c ++ dq :: ","%char :: ("u" ⟩ dq :: esc [] u ++ dq ::
    ","%char :: ("a" ⟩ to_string a ++
    ","%char :: ("e" ⟩ (if e =? 0 then B "null" else to_string e) ++
    ","%char :: ("i" ⟩ to_string i ++
    ","%char :: ("n" ⟩ to_string n ++ "}"%char :: [])))))).
Proof.
  intros Ha He Hi Hn. unfold row_line, row_line_into. rewrite esc_app.
  destruct (e =? 0); rewrite !itoa_to_string by done; rewrite <- !app_assoc; done.
Qed.

(** The numbers of a line, each followed by a comma or the closing brace. *)
Ltac run_nums := repeat (rewrite run_num by auto).

Lemma parse_row_line c u a e i n :
  rec_ok (Row c u a e i n) ->
  parse_run (row_line c u a e i n) Op0 = Some (op_of (Row c u a e i n)).
Proof.
  intros ((_ & Hc & _) & Ha & He & Hi & Hn). rewrite row_line_eq by done.
  erewrite run_str; [|done|done|by apply scan_str_code].
  match goal with |- context [esc [] u ++ dq :: ?x] =>
    destruct (decode_esc u x) as (v & fl & Hs & Hv) end.
  erewrite run_str; [|done|done|exact Hs]. rewrite Hv, run_num by auto.
  destruct (e =? 0) eqn:E; bool_facts.
  - rewrite run_null by auto. run_nums. rewrite run_end. by rewrite E.
  - run_nums. rewrite run_end. simpl. by rewrite (proj2 (Z.eqb_neq _ _) E).
Qed.

Lemma parse_hit_line c d i :
  rec_ok (Hit c d i) -> parse_run (hit_line c d i) Op0 = Some (op_of (Hit c d i)).
Proof.
  intros ((_ & Hc & _) & Hd & Hi).
  assert (hit_line c d i =
    "{"%char :: ("h" ⟩ dq :: c ++ dq :: ","%char :: ("d" ⟩ to_string d ++
    ","%char :: ("i" ⟩ to_string i ++ "}"%char :: [])))) as ->.
  { unfold hit_line, hit_line_into. rewrite !itoa_to_string, <- !app_assoc by done. done. }
  erewrite run_str; [|done|done|by apply scan_str_code]. run_nums. apply run_end.
Qed.

Lemma parse_del_line c :
  rec_ok (Del c) -> parse_run (del_line c) Op0 = Some (op_of (Del c)).
Proof.
  intros (_ & Hc & _).
  assert (del_line c = "{"%char :: ("x" ⟩ dq :: c ++ dq :: "}"%char :: [])) as ->.
  { unfold del_line, del_line_into. by rewrite <- !app_assoc. }
  erewrite run_str; [|done|done|by apply scan_str_code]. apply run_end.
Qed.

Lemma op_of_nonempty r : rec_ok r -> op_nonempty (op_of r) = true.
Proof.
  unfold op_nonempty. destruct r; simpl; intros H;
    destruct_and?; match goal with H : plain_code _ |- _ => destruct H as (? & _ & _) end;
    rewrite (bool_decide_eq_false_2 (_ = [])) by done; by rewrite ?orb_true_r.
Qed.

(** The decoder inverts the writers. *)
Lemma parse_op_line_of r : rec_ok r -> parse_op (line_of r) = Some (op_of r).
Proof.
  intros Hr. unfold parse_op.
  assert (parse_run (line_of r) Op0 = Some (op_of r)) as ->
    by (destruct r; [by apply parse_row_line|by apply parse_hit_line|by apply parse_del_line]).
  by rewrite op_of_nonempty.
Qed.

(** ** Framing: a line holds no line feed *)
Lemma esc1_no_lf c : LF ∉ esc1 c.
Proof.
  assert (H : bool_decide (LF ∈ esc1 c) = false).
  { apply negb_true_iff. revert c. apply forall_ascii. vm_compute. done. }
  by apply bool_decide_eq_false in H.
Qed.

Lemma esc_no_lf s : LF ∉ esc [] s.
Proof.
  induction s as [|c s IH]; [apply not_elem_of_nil|].
  rewrite esc_cons, elem_of_app. intros [H|H]; [by apply esc1_no_lf in H|done].
Qed.

Lemma to_string_no_lf z : LF ∉ to_string z.
Proof.
  intros H. pose proof (to_string_chars z) as F. rewrite Forall_forall in F.
  specialize (F _ H). vm_compute in F. done.
Qed.

Lemma itoa_no_lf b n : in_i64 n -> LF ∉ b -> LF ∉ itoa b n.
Proof.
  intros Hn Hb. rewrite itoa_to_string, elem_of_app by done.
  intros [?|H]; [done|by apply to_string_no_lf in H].
Qed.

Lemma app_no_lf (a b : bytes) : LF ∉ a -> LF ∉ b -> LF ∉ a ++ b.
Proof. rewrite elem_of_app. tauto. Qed.

Lemma nil_no_lf : LF ∉ ([] : bytes).
Proof. apply not_elem_of_nil. Qed.

(** A literal of the source: decided by evaluation. *)
Ltac lit_no_lf := apply (bool_decide_unpack _); vm_compute; exact I.
#[local] Hint Resolve itoa_no_lf app_no_lf nil_no_lf esc_no_lf : shrt.
#[local] Hint Extern 5 (LF ∉ B _) => lit_no_lf : shrt.
#[local] Hint Extern 5 (LF ∉ Q _) => lit_no_lf : shrt.

Lemma line_of_framed r : rec_ok r -> (LF ∉ line_of r) /\ line_of r ≠ [].
Proof.
  destruct r as [c u a e i n|c d i|c]; simpl; intros H; destruct_and?;
    match goal with H : plain_code c |- _ => destruct H as (_ & _ & Hlf) end.
  - split; [|by rewrite row_line_eq]. unfold row_line, row_line_into. rewrite esc_app.
    destruct (e =? 0); eauto 30 with shrt.
  - split; [unfold hit_line, hit_line_into; eauto 30 with shrt|].
    unfold hit_line, hit_line_into. by rewrite !itoa_to_string.
  - split; [unfold del_line, del_line_into; eauto 30 with shrt|done].
Qed.

(** The writers only append. *)
Lemma row_line_into_app b c u a e i n : row_line_into b c u a e i n = b ++ row_line c u a e i n.
Proof.
  unfold row_line, row_line_into, itoa. rewrite (esc_app (((b ++ _) ++ _) ++ _)), (esc_app ((([] ++ _) ++ _) ++ _)).
  destruct (e =? 0); rewrite <- !app_assoc, app_nil_l; reflexivity.
Qed.

Lemma hit_line_into_app b c d i : hit_line_into b c d i = b ++ hit_line c d i.
Proof. unfold hit_line, hit_line_into, itoa. rewrite <- !app_assoc, app_nil_l. reflexivity. Qed.
