(* ===== verification/Aof.v ===== *)
(** * aof.cpp: the append-only log, its readers and the instance locks

    The operating system is a record [Os] of what it answers (the clock, the
    result of every [read] and [write], which pids are alive) and a state
    [Sys]: the files and how many answers were consumed. Nothing is assumed
    of the answers unless a lemma says so. *)

From S2P Require Import Prelude CLib Common Codec.

(** ** The operating system *)

(** [files]: path to contents. [denied]: the paths the process may not open
    for writing. *)
Record Fs := mkFs { files : gmap bytes bytes; denied : gset bytes }.

Record Os := mkOs {
  os_clock : nat -> Z;   (* the k-th reading of [now_ms] *)
  os_write : nat -> Z;   (* what the k-th [write] returns, at most what was asked *)
  os_read : nat -> Z;    (* the same for [read] *)
  os_alive : Z -> bool;  (* [kill(pid, 0) == 0 || errno == EPERM] *)
  os_pid : Z             (* [getpid()] *)
}.

Record Sys := mkSys { fs : Fs; k_clock : nat; k_write : nat; k_read : nat }.

Definition set_files (f : gmap bytes bytes -> gmap bytes bytes) (s : Sys) : Sys :=
  mkSys (mkFs (f (files (fs s))) (denied (fs s))) (k_clock s) (k_write s) (k_read s).
Definition set_kwrite (k : nat) (s : Sys) : Sys := mkSys (fs s) (k_clock s) k (k_read s).
Definition set_kread (k : nat) (s : Sys) : Sys := mkSys (fs s) (k_clock s) (k_write s) k.

(** The contents of a file. *)
Definition content (s : Sys) (path : bytes) : option bytes := files (fs s) !! path.

(** [now_ms()]. *)
Definition now_ms (os : Os) (s : Sys) : Z * Sys :=
  (i64 (os_clock os (k_clock s)), mkSys (fs s) (S (k_clock s)) (k_write s) (k_read s)).

(** An open descriptor: opened with [O_APPEND], or at a position. *)
Record Fd := mkFd { fd_append : bool; fd_pos : nat }.

(** The contents after [data] is written at [pos]. *)
Definition write_at (pos : nat) (data old : bytes) : bytes :=
  take pos old ++ replicate (pos - length old) Ascii.zero ++ data ++ drop (pos + length data) old.

(** [open(path, O_WRONLY | flags | O_CREAT)]. *)
Definition open_write (path : bytes) (append trunc : bool) (s : Sys) : option Fd * Sys :=
  if bool_decide (path ∈ denied (fs s)) then (None, s)
  else
    (Some (mkFd append 0),
     set_files (fun m => <[path := if trunc then [] else default [] (m !! path)]> m) s).

(** ** [struct Aof] *)
Definition NL : ascii := LF.

Record Aof := mkAof { a_buf : bytes; a_fd : option Fd; a_path : bytes }.
Definition Aof0 : Aof := mkAof [] None [].

Definition path_join (dir name : bytes) : bytes := dir ++ B "/" ++ name.

Definition open_at (a : Aof) (dir name : bytes) (s : Sys) : bool * Aof * Sys :=
  let path := path_join dir name in
  let '(fd, s') := open_write path true false s in
  (bool_decide (is_Some fd), mkAof (a_buf a) fd path, s').

Definition push (a : Aof) (line : bytes) : Aof :=
  mkAof (a_buf a ++ line ++ [NL]) (a_fd a) (a_path a).
Definition push_raw (a : Aof) (bs : bytes) : Aof :=
  mkAof (a_buf a ++ bs) (a_fd a) (a_path a).
Definition pending_bytes (a : Aof) : nat := length (a_buf a).

(** [flush]: nothing without a descriptor; otherwise the write loop, after
    which the buffer is cleared whether or not it went through. *)
Definition flush (os : Os) (a : Aof) (s : Sys) : Aof * Sys :=
  match a_fd a with
  | None => (a, s)
  | Some fd =>
      if a_buf a =s [] then (a, s)
      else
        let '(n, k') := xfer (os_write os) (k_write s) (length (a_buf a)) in
        let data := take n (a_buf a) in
        let old := default [] (content s (a_path a)) in
        let pos := if fd_append fd then length old else fd_pos fd in
        (mkAof [] (Some (mkFd (fd_append fd) (pos + n))) (a_path a),
         set_kwrite k' (set_files <[a_path a := write_at pos data old]> s))
  end.

(** [sync]: [flush] and [fsync]; the page cache is the file here. *)
Definition sync (os : Os) (a : Aof) (s : Sys) : Aof * Sys := flush os a s.

(** [truncate]: the new descriptor is opened without [O_APPEND]. *)
Definition truncate (os : Os) (a : Aof) (s : Sys) : Aof * Sys :=
  let '(a1, s1) := flush os a s in
  let '(fd, s2) := open_write (a_path a1) false true s1 in
  (mkAof (a_buf a1) fd (a_path a1), s2).

Definition close (os : Os) (a : Aof) (s : Sys) : Aof * Sys :=
  match a_fd a with
  | None => (a, s)
  | Some _ =>
      let '(a1, s1) := flush os a s in
      (mkAof (a_buf a1) None (a_path a1), s1)
  end.

(** ** Readers *)

Definition file_size (s : Sys) (path : bytes) : nat := length (default [] (content s path)).

(** The loop over a buffer that calls back on every complete line that is
    not empty; [cur] is the current line. The result is the lines, in order,
    and the unfinished tail. *)
Fixpoint split_lines (cur s : bytes) : list bytes * bytes :=
  match s with
  | [] => ([], cur)
  | c :: r =>
      if c =c NL then
        let '(ls, rest) := split_lines [] r in
        (if cur =s [] then ls else cur :: ls, rest)
      else split_lines (cur ++ [c]) r
  end.

Definition lines_of (s : bytes) : list bytes := fst (split_lines [] s).
Definition torn_of (s : bytes) : bytes := snd (split_lines [] s).

(** [replay_file]: the lines passed to the callback. *)
Definition replay_file (os : Os) (path : bytes) (s : Sys) : list bytes * Sys :=
  match content s path with
  | None => ([], s)
  | Some c =>
      let '(got, k') := xfer (os_read os) (k_read s) (length c) in
      (lines_of (take got c), set_kread k' s)
  end.

(** [struct TailReader]. *)
Record TailReader := mkTail { t_path : bytes; t_offset : nat; t_leftover : bytes }.
Definition TailReader0 (path : bytes) : TailReader := mkTail path 0 [].

Definition read_new (os : Os) (t : TailReader) (s : Sys) : list bytes * TailReader * Sys :=
  let size := file_size s (t_path t) in
  let t1 := if (size <? t_offset t)%nat then mkTail (t_path t) 0 [] else t in
  if (size <=? t_offset t1)%nat then ([], t1, s)
  else
    match content s (t_path t1) with
    | None => ([], t1, s)
    | Some c =>
        let '(got, k') := xfer (os_read os) (k_read s) (size - t_offset t1) in
        let buf := take got (drop (t_offset t1) c) in
        let '(ls, rest) := split_lines [] (t_leftover t1 ++ buf) in
        (ls, mkTail (t_path t1) (t_offset t1 + got) rest, set_kread k' s)
    end.

(** ** Instance locks *)

Definition lock_path (dir : bytes) (i : nat) : bytes :=
  path_join dir (B "instance-" ++ to_string (Z.of_nat i) ++ B ".lock").

(** [open(lock, O_WRONLY | O_CREAT | O_EXCL)] and the pid written into it. *)
Definition try_lock (os : Os) (lock : bytes) (s : Sys) : bool * Sys :=
  match content s lock with
  | Some _ => (false, s)
  | None =>
      if bool_decide (lock ∈ denied (fs s)) then (false, s)
      else (true, set_files <[lock := to_string (os_pid os)]> s)
  end.

(** One turn of the loop of [claim_instance]: [true] when [i] is claimed. *)
Definition claim_one (os : Os) (dir : bytes) (i : nat) (s : Sys) : bool * Sys :=
  let lock := lock_path dir i in
  match try_lock os lock s with
  | (true, s1) => (true, s1)
  | (false, s1) =>
      match content s1 lock with
      | None => (false, s1)
      | Some c =>
          let buf := take 31 c in
          if buf =s [] then (false, s1)
          else
            let pid := i32 (strtoll buf) in
            if (pid <=? 0) || os_alive os pid then (false, s1)
            else try_lock os lock (set_files (delete lock) s1)
      end
  end.

Fixpoint claim_loop (os : Os) (dir : bytes) (i n : nat) (s : Sys) : option (nat * bytes) * Sys :=
  match n with
  | O => (None, s)
  | S n' =>
      match claim_one os dir i s with
      | (true, s') => (Some (i, lock_path dir i), s')
      | (false, s') => claim_loop os dir (S i) n' s'
      end
  end.

(** [claim_instance]: [None] for [{-1, {}}]. *)
Definition claim_instance (os : Os) (dir : bytes) (s : Sys) : option (nat * bytes) * Sys :=
  claim_loop os dir 0 1024 s.

(** ** Sibling logs *)

(** [std::string::operator<=], character by character as unsigned bytes. *)
Fixpoint bytes_leb (a b : bytes) : bool :=
  match a, b with
  | [], _ => true
  | _ :: _, [] => false
  | x :: a', y :: b' => (cc x <? cc y) || ((x =c y) && bytes_leb a' b')
  end.

(** The names in a directory. *)
Definition name_in (dir path : bytes) : option bytes :=
  if starts_with (dir ++ B "/") path then
    let n := drop (S (length dir)) path in
    if bool_decide ("/"%char ∈ n) then None else Some n
  else None.

Definition dir_names (s : Sys) (dir : bytes) : list bytes :=
  omap (fun kv => name_in dir (fst kv)) (map_to_list (files (fs s))).

Definition ends_with (suf s : bytes) : bool := starts_with (rev suf) (rev s).

(** [data-*.log], and not our own. *)
Definition is_shard_name (own n : bytes) : bool :=
  starts_with (B "data-") n && (4 <? length n)%nat && ends_with (B ".log") n && negb (n =s own).

Definition shard_files (s : Sys) (dir own : bytes) : list bytes :=
  merge_sort (fun a b => Is_true (bytes_leb a b)) (filter (fun n => Is_true (is_shard_name own n)) (dir_names s dir)).

(** ** Lemmas: splitting into lines *)

Lemma split_lines_app a : forall cur b,
  split_lines cur (a ++ b) =
    (fst (split_lines cur a) ++ fst (split_lines (snd (split_lines cur a)) b),
     snd (split_lines (snd (split_lines cur a)) b)).
Proof.
  induction a as [|c a IH]; intros cur b; simpl; [by destruct (split_lines cur b)|].
  destruct (c =c NL); [|apply IH]. rewrite IH.
  destruct (split_lines [] a) as [la ra]. simpl. by case_bool_decide.
Qed.

Lemma lines_of_app a b : lines_of (a ++ b) = lines_of a ++ fst (split_lines (torn_of a) b).
Proof. unfold lines_of, torn_of. by rewrite split_lines_app. Qed.

Lemma torn_of_app a b : torn_of (a ++ b) = snd (split_lines (torn_of a) b).
Proof. unfold torn_of. by rewrite split_lines_app. Qed.

(** Characters other than a line feed only extend the current line. *)
Lemma split_lines_no_lf l : forall cur s, LF ∉ l -> split_lines cur (l ++ s) = split_lines (cur ++ l) s.
Proof.
  induction l as [|c l IH]; intros cur s Hl; simpl; [by rewrite app_nil_r|].
  rewrite not_elem_of_cons in Hl. destruct Hl as [Hc Hl]. rewrite eqc_ne by done.
  rewrite IH by done. by rewrite <- app_assoc.
Qed.

(** The unfinished tail holds no line feed. *)
Lemma split_lines_torn s : forall cur, LF ∉ cur -> LF ∉ snd (split_lines cur s).
Proof.
  induction s as [|c s IH]; intros cur Hc; simpl; [done|].
  destruct (c =c NL) eqn:E.
  - specialize (IH [] ltac:(apply not_elem_of_nil)). by destruct (split_lines [] s).
  - bool_facts. apply IH. rewrite elem_of_app, list_elem_of_singleton. naive_solver.
Qed.

(** A tail kept from earlier can be put back in front. *)
Lemma split_lines_carry a b :
  split_lines [] (torn_of a ++ b) = split_lines (torn_of a) b.
Proof.
  rewrite split_lines_no_lf; [done|]. apply split_lines_torn, not_elem_of_nil.
Qed.

(** A framed line: not empty, no line feed. *)
Definition framed (l : bytes) : Prop := l ≠ [] /\ LF ∉ l.

Definition frame (ls : list bytes) : bytes := concat (map (fun l => l ++ [NL]) ls).

Lemma frame_app a b : frame (a ++ b) = frame a ++ frame b.
Proof. unfold frame. by rewrite map_app, concat_app. Qed.

Lemma frame_one l : frame [l] = l ++ [NL].
Proof. unfold frame. simpl. by rewrite app_nil_r. Qed.

Lemma frame_cons l ls : frame (l :: ls) = (l ++ [NL]) ++ frame ls.
Proof. done. Qed.

Lemma split_lines_frame ls : Forall framed ls -> split_lines [] (frame ls) = (ls, []).
Proof.
  induction 1 as [|l ls [Hne Hlf] Hls IH]; [done|]. unfold frame in *. simpl.
  rewrite <- app_assoc, split_lines_no_lf by done. simpl. rewrite IH.
  by rewrite bool_decide_eq_false_2.
Qed.

Lemma lines_of_frame ls : Forall framed ls -> lines_of (frame ls) = ls.
Proof. intros H. unfold lines_of. by rewrite split_lines_frame. Qed.

(** Reading on from a framed stream. *)
Lemma lines_of_frame_app ls s : Forall framed ls -> lines_of (frame ls ++ s) = ls ++ lines_of s.
Proof.
  intros H. rewrite lines_of_app, lines_of_frame by done.
  unfold torn_of. by rewrite split_lines_frame.
Qed.

(** Any prefix of the bytes gives a prefix of the lines. *)
Lemma lines_of_prefix k s : prefix (lines_of (take k s)) (lines_of s).
Proof.
  rewrite <- (take_drop k s) at 2. rewrite lines_of_app. by eexists.
Qed.

(** Cutting a framed stream leaves the whole lines before the cut, as many
    as there are, and an unfinished one. *)
Lemma take_frame ls : Forall framed ls -> forall k, exists m torn,
  take k (frame ls) = frame (take m ls) ++ torn /\ (LF ∉ torn) /\
  ((length (frame ls) <= k)%nat -> torn = [] /\ m = length ls) /\
  (m <= length ls)%nat /\ (length (frame (take m ls)) <= k)%nat /\
  ((m < length ls)%nat -> (k < length (frame (take (S m) ls)))%nat).
Proof.
  induction 1 as [|l ls [Hne Hlf] Hls IH]; intros k.
  { exists 0%nat, []. split; [unfold frame; simpl; by rewrite take_nil|]. split; [apply not_elem_of_nil|]. split_and!; [done|simpl; lia..]. }
  change (frame (l :: ls)) with (frame ([l] ++ ls)). rewrite frame_app, frame_one, length_app.
  destruct (decide (length (l ++ [NL]) <= k)%nat) as [Hle|Hgt].
  - destruct (IH (k - length (l ++ [NL]))%nat) as (m & torn & Ht & Hn & Hk & H1 & H2 & H3).
    exists (S m), torn. rewrite take_app, (take_ge (l ++ [NL])) by lia. cbn [take length].
    rewrite (frame_cons l (take m ls)), (frame_cons l (take (S m) ls)), Ht. rewrite !length_app in *.
    split_and!; [by rewrite <- !app_assoc|done| |lia|lia|lia]. intros ?. destruct Hk as [-> ->]; [lia|]. done.
  - exists 0%nat, (take k l). assert (Hk : (k <= length l)%nat) by (rewrite length_app in Hgt; simpl in Hgt; lia). split_and!.
    + rewrite take_app_le by (rewrite length_app; simpl; lia). by rewrite take_app_le by lia.
    + intros Hin. apply Hlf. rewrite <- (take_drop k l). apply elem_of_app. by left.
    + lia.
    + lia.
    + simpl. lia.
    + intros _. cbn [take]. rewrite take_0, frame_one. lia.
Qed.

(** ** Lemmas: the log *)

Lemma write_at_end old data : write_at (length old) data old = old ++ data.
Proof.
  unfold write_at. rewrite firstn_all, Nat.sub_diag, drop_ge by lia. simpl. by rewrite app_nil_r.
Qed.

(** The position a log writes at is the end of its file: always with
    [O_APPEND], and after [truncate] as long as nobody else writes. *)
Definition aof_ok (a : Aof) (s : Sys) : Prop :=
  match a_fd a with
  | None => False
  | Some fd =>
      is_Some (content s (a_path a)) /\ a_path a ∉ denied (fs s) /\
      (fd_append fd = false -> fd_pos fd = file_size s (a_path a))
  end.

Definition contents (s : Sys) (path : bytes) : bytes := default [] (content s path).

Lemma content_set_files f s p : content (set_files f s) p = f (files (fs s)) !! p.
Proof. done. Qed.
Lemma content_set_kwrite k s p : content (set_kwrite k s) p = content s p.
Proof. done. Qed.
Lemma content_set_kread k s p : content (set_kread k s) p = content s p.
Proof. done. Qed.
#[export] Hint Rewrite content_set_files content_set_kwrite content_set_kread : shrt.

(** What [flush] does to its file: the first [n] bytes of the buffer are
    appended, [n] being what the writes accepted. *)
Lemma flush_spec os a s :
  aof_ok a s ->
  exists n, (n <= length (a_buf a))%nat /\
    (no_io_error (os_write os) -> n = length (a_buf a)) /\
    let '(a', s') := flush os a s in
    a_buf a' = [] /\ a_path a' = a_path a /\ aof_ok a' s' /\
    contents s' (a_path a) = contents s (a_path a) ++ take n (a_buf a) /\
    (forall p, p ≠ a_path a -> content s' p = content s p) /\
    denied (fs s') = denied (fs s) /\ k_clock s' = k_clock s /\ k_read s' = k_read s.
Proof.
  unfold aof_ok, flush. destruct (a_fd a) as [fd|] eqn:Efd; [|done]. intros (Hc & Hden & Hpos).
  case_bool_decide as Hb.
  - exists 0%nat. rewrite Hb, Efd. repeat split; simpl; rewrite ?app_nil_r; auto with lia.
  - pose proof (xfer_le (os_write os) (k_write s) (length (a_buf a))) as Hle.
    pose proof (xfer_all (os_write os) (k_write s) (length (a_buf a))) as Hall.
    destruct (xfer (os_write os) (k_write s) (length (a_buf a))) as [n k']. simpl in *.
    exists n. split; [done|]. split; [auto|].
    set (old := default [] (content s (a_path a))).
    assert ((if fd_append fd then length old else fd_pos fd) = length old) as ->
      by (destruct (fd_append fd); auto).
    rewrite write_at_end. unfold contents, file_size. autorewrite with shrt. simpl.
    rewrite lookup_insert_eq. simpl. repeat split; auto.
    + rewrite length_app, length_take. lia.
    + intros p Hp. autorewrite with shrt. by rewrite lookup_insert_ne.
Qed.

(** [truncate] empties the file once the buffer went to it. *)
Lemma truncate_spec os a s :
  aof_ok a s ->
  let '(a', s') := truncate os a s in
  a_buf a' = [] /\ a_path a' = a_path a /\ aof_ok a' s' /\
  content s' (a_path a) = Some [] /\
  (forall p, p ≠ a_path a -> content s' p = content s p) /\
  denied (fs s') = denied (fs s) /\ k_clock s' = k_clock s /\ k_read s' = k_read s.
Proof.
  intros Ha. destruct (flush_spec os a s Ha) as (n & _ & _ & H). unfold truncate.
  destruct (flush os a s) as [a1 s1]. destruct H as (Hb & Hp & Hok & Hc & Hother & Hd & Hk & Hr).
  assert (a_path a ∉ denied (fs s1)).
  { unfold aof_ok in Hok. rewrite Hp in Hok. destruct (a_fd a1); naive_solver. }
  unfold open_write. rewrite Hp, bool_decide_eq_false_2 by done. simpl.
  unfold aof_ok, file_size. simpl. autorewrite with shrt. rewrite lookup_insert_eq.
  repeat split; eauto. intros p Hne. autorewrite with shrt. rewrite lookup_insert_ne by done. by apply Hother.
Qed.

(** ** Lemmas: readers *)

Lemma replay_file_spec os path s :
  let '(ls, s') := replay_file os path s in
  fs s' = fs s /\ k_clock s' = k_clock s /\ k_write s' = k_write s /\
  prefix ls (lines_of (contents s path)) /\
  (no_io_error (os_read os) -> ls = lines_of (contents s path)).
Proof.
  unfold replay_file, contents. destruct (content s path) as [c|]; [|done].
  pose proof (xfer_all (os_read os) (k_read s) (length c)) as Hall.
  destruct (xfer (os_read os) (k_read s) (length c)) as [got k']. simpl in *.
  repeat split; [apply lines_of_prefix|]. intros Hok. rewrite Hall by done. by rewrite firstn_all.
Qed.

(** A reader in step with a file: its offset is inside and the tail it kept
    is the unfinished line there. *)
Definition tail_at (t : TailReader) (c : bytes) : Prop :=
  (t_offset t <= length c)%nat /\ t_leftover t = torn_of (take (t_offset t) c).

Lemma tail_at_grow t c d : tail_at t c -> tail_at t (c ++ d).
Proof.
  intros [H1 H2]. split; [rewrite length_app; lia|]. by rewrite take_app_le.
Qed.

Lemma read_new_spec os t s :
  let c := contents s (t_path t) in
  tail_at t c ->
  let '(ls, t', s') := read_new os t s in
  fs s' = fs s /\ k_clock s' = k_clock s /\ k_write s' = k_write s /\ t_path t' = t_path t /\
  tail_at t' c /\ (t_offset t <= t_offset t')%nat /\
  lines_of (take (t_offset t') c) = lines_of (take (t_offset t) c) ++ ls /\
  (no_io_error (os_read os) -> t_offset t' = length c).
Proof.
  intros c [Hoff Hleft]. unfold read_new, file_size. fold (contents s (t_path t)). fold c.
  rewrite (proj2 (Nat.ltb_ge _ _) Hoff).
  destruct (length c <=? t_offset t)%nat eqn:E.
  - apply Nat.leb_le in E. repeat split; auto; [by rewrite app_nil_r|lia].
  - apply Nat.leb_gt in E.
    destruct (content s (t_path t)) as [c'|] eqn:Ec; cycle 1.
    { exfalso. subst c. unfold contents in *. rewrite Ec in *. simpl in *. lia. }
    assert (c' = c) as -> by (subst c; unfold contents; by rewrite Ec).
    pose proof (xfer_le (os_read os) (k_read s) (length c - t_offset t)) as Hle.
    pose proof (xfer_all (os_read os) (k_read s) (length c - t_offset t)) as Hall.
    destruct (xfer (os_read os) (k_read s) (length c - t_offset t)) as [got k']. simpl in *.
    rewrite Hleft, split_lines_carry.
    destruct (split_lines (torn_of (take (t_offset t) c)) (take got (drop (t_offset t) c)))
      as [ls rest] eqn:Es. simpl.
    assert (Ht : take (t_offset t + got) c = take (t_offset t) c ++ take got (drop (t_offset t) c))
      by (by rewrite take_take_drop).
    unfold tail_at. simpl. rewrite Ht, lines_of_app, torn_of_app, Es. simpl.
    repeat split; auto; [lia..|]. intros Hok. rewrite Hall by done. lia.
Qed.

(** A file that grows by chunks, polled after each: what is delivered. *)
Fixpoint tail_run (os : Os) (t : TailReader) (s : Sys) (chunks : list bytes)
  : list bytes * TailReader * Sys :=
  match chunks with
  | [] => ([], t, s)
  | d :: ds =>
      let s1 := set_files (fun m => <[t_path t := default [] (m !! t_path t) ++ d]> m) s in
      let '(ls, t', s2) := read_new os t s1 in
      let '(ls', t'', s3) := tail_run os t' s2 ds in
      (ls ++ ls', t'', s3)
  end.

Lemma tail_run_spec os chunks : no_io_error (os_read os) -> forall t s,
  tail_at t (contents s (t_path t)) -> t_offset t = length (contents s (t_path t)) ->
  let '(ls, t', s') := tail_run os t s chunks in
  lines_of (contents s (t_path t) ++ concat chunks) = lines_of (contents s (t_path t)) ++ ls.
Proof.
  intros Hok. induction chunks as [|d ds IH]; intros t s Hat Hoff; simpl.
  { by rewrite !app_nil_r. }
  set (s1 := set_files _ s). set (c := contents s (t_path t)) in *.
  assert (Hc1 : contents s1 (t_path t) = c ++ d).
  { unfold contents, s1. autorewrite with shrt. by rewrite lookup_insert_eq. }
  pose proof (read_new_spec os t s1) as H. cbv zeta in H. rewrite Hc1 in H.
  specialize (H (tail_at_grow t c d Hat)).
  destruct (read_new os t s1) as [[ls t'] s2].
  destruct H as (Hfs & _ & _ & Hp & Hat' & _ & Hl & Hend). specialize (Hend Hok).
  assert (Hc2 : contents s2 (t_path t') = c ++ d).
  { rewrite Hp, <- Hc1. unfold contents, content. by rewrite Hfs. }
  specialize (IH t' s2). rewrite Hc2 in IH. specialize (IH Hat' Hend).
  destruct (tail_run os t' s2 ds) as [[ls' t''] s3].
  rewrite Hend, firstn_all, Hoff, take_app_length in Hl.
  by rewrite app_assoc, IH, Hl, <- app_assoc.
Qed.

(** ** Lemmas: instance locks *)

(** A lock that [claim_instance] must respect: it names a live process, or
    nothing that can be told dead. *)
Definition held (os : Os) (s : Sys) (lock : bytes) : Prop :=
  exists c, content s lock = Some c /\
    (take 31 c = [] \/ i32 (strtoll (take 31 c)) <= 0 \/ os_alive os (i32 (strtoll (take 31 c))) = true).

Lemma lock_path_inj dir i j : lock_path dir i = lock_path dir j -> i = j.
Proof.
  unfold lock_path, path_join. intros H. apply app_inv_head, app_inv_head, app_inv_head in H.
  apply app_inv_tail, to_string_inj in H. lia.
Qed.

Lemma claim_one_spec os dir i s :
  lock_path dir i ∉ denied (fs s) ->
  let '(ok, s') := claim_one os dir i s in
  (ok = true <-> ~ held os s (lock_path dir i)) /\
  (ok = false -> s' = s) /\
  (ok = true -> content s' (lock_path dir i) = Some (to_string (os_pid os)) /\
                denied (fs s') = denied (fs s) /\
                forall p, p ≠ lock_path dir i -> content s' p = content s p).
Proof.
  intros Hden. unfold claim_one, held, try_lock.
  destruct (content s (lock_path dir i)) as [c|] eqn:Ec; rewrite ?Ec.
  - case_bool_decide as Hb; [naive_solver|].
    set (pid := i32 (strtoll (take 31 c))).
    destruct ((pid <=? 0) || os_alive os pid) eqn:E.
    + split; [|split; [done|done]]. split; [done|]. intros Hn. exfalso. apply Hn. exists c.
      split; [done|]. apply orb_prop in E as [E|E]; bool_facts; auto.
    + bool_facts. autorewrite with shrt. rewrite lookup_delete_eq. simpl.
      rewrite bool_decide_eq_false_2 by done. split; [|split; [done|]].
      * split; [|done]. intros _ (c' & [= <-] & [?|[?|?]]); subst pid; [done|lia|congruence].
      * intros _. autorewrite with shrt. simpl. rewrite lookup_insert_eq. repeat split; auto.
        intros p Hp. autorewrite with shrt. simpl. by rewrite lookup_insert_ne, lookup_delete_ne.
  - rewrite bool_decide_eq_false_2 by done. split; [|split; [done|]].
    + split; [|done]. intros _ (c & ? & _). congruence.
    + intros _. autorewrite with shrt. rewrite lookup_insert_eq. repeat split; auto.
      intros p Hp. autorewrite with shrt. by rewrite lookup_insert_ne.
Qed.

Lemma claim_loop_spec os dir n : forall i s,
  (forall j, lock_path dir j ∉ denied (fs s)) ->
  match claim_loop os dir i n s with
  | (None, s') => s' = s /\ forall j, (i <= j < i + n)%nat -> held os s (lock_path dir j)
  | (Some (j, lock), s') =>
      lock = lock_path dir j /\ (i <= j < i + n)%nat /\ ~ held os s lock /\
      (forall j', (i <= j' < j)%nat -> held os s (lock_path dir j')) /\
      content s' lock = Some (to_string (os_pid os)) /\
      (forall p, p ≠ lock -> content s' p = content s p)
  end.
Proof.
  induction n as [|n IH]; intros i s Hden; cbn [claim_loop]; [split; [done|lia]|].
  pose proof (claim_one_spec os dir i s (Hden i)) as H.
  destruct (claim_one os dir i s) as [[] s1]; destruct H as (Hiff & Hf & Ht).
  - destruct (Ht eq_refl) as (Hc & _ & Ho). split_and!; auto; [lia..|by apply Hiff|lia].
  - rewrite (Hf eq_refl). clear Hf Ht. specialize (IH (S i) s Hden).
    assert (held os s (lock_path dir i)).
    { unfold held in *. destruct (content s (lock_path dir i)) as [c|] eqn:Ec.
      - exists c. split; [done|]. destruct (decide (take 31 c = [])); [by left|].
        destruct (decide (i32 (strtoll (take 31 c)) <= 0)); [auto|].
        destruct (os_alive os (i32 (strtoll (take 31 c)))) eqn:Ea; [auto|].
        exfalso. assert (false = true) by (apply Hiff; naive_solver). done.
      - exfalso. assert (false = true) by (apply Hiff; naive_solver). done. }
    destruct (claim_loop os dir (S i) n s) as [[[j lock]|] s'].
    + destruct IH as (? & ? & ? & Hlow & ? & ?). split_and!; auto; [lia..|].
      intros j' Hj'. destruct (decide (j' = i)) as [->|]; [done|]. apply Hlow. lia.
    + destruct IH as [? Hall]. split; [done|]. intros j Hj.
      destruct (decide (j = i)) as [->|]; [done|]. apply Hall. lia.
Qed.

(** The pid a lock file names is the pid that was written. *)
Lemma lock_pid_roundtrip pid : 0 < pid < 2 ^ 31 -> i32 (strtoll (take 31 (to_string pid))) = pid.
Proof.
  intros Hp. assert (length (to_string pid) <= 10)%nat
    by (apply to_string_length; [lia|change (10 ^ Z.of_nat 10) with 10000000000; lia]).
  rewrite take_ge by lia. rewrite <- (app_nil_r (to_string pid)), strtoll_to_string by (unfold in_i64; done || lia).
  apply i32_id. unfold in_i32. lia.
Qed.

(** ** A machine to run examples on: a clock that ticks, no i/o errors, short
    writes and reads, one other live process. *)
Definition RefOs : Os :=
  mkOs (fun k => 1000 + Z.of_nat k) (fun _ => 64) (fun _ => 48) (fun pid => pid =? 77) 42.
Definition RefSys : Sys := mkSys (mkFs ∅ ∅) 0 0 0.

Lemma RefOs_write : no_io_error (os_write RefOs). Proof. intros k. reflexivity. Qed.
Lemma RefOs_read : no_io_error (os_read RefOs). Proof. intros k. reflexivity. Qed.
