(* ===== verification/BaseClaims.v ===== *)
(** * The claims about the printers, the log format, its readers and the locks *)

From S2P Require Import Prelude CLib Common Codec Aof.

(** What the log writes is what a reader gets back: the line of a row, of
    a hit count and of a deletion decode to their fields, for every url
    (quotes, backslashes, control characters and non-ASCII bytes included)
    and every 64-bit number, the smallest included; and the line holds no
    line feed, so that it is one line of the log. *)
Theorem log_line_roundtrip r :
  rec_ok r -> parse_op (line_of r) = Some (op_of r) /\ line_of r ≠ [] /\ LF ∉ line_of r.
Proof.
  intros H. destruct (line_of_framed r H) as [? ?]. split; [by apply parse_op_line_of|done].
Qed.

Lemma log_line_roundtrip_witness :
  parse_op (row_line (B "aB3") (B "http://e.com/" ++ [dq; LF; chr 200]) (- 2 ^ 63) 5 61 7)
  = Some (mkOp (B "aB3") (B "http://e.com/" ++ [dq; LF; chr 200]) [] [] (- 2 ^ 63) 5 61 7 0 true).
Proof.
  apply (log_line_roundtrip (Row (B "aB3") (B "http://e.com/" ++ [dq; LF; chr 200]) (- 2 ^ 63) 5 61 7)).
  assert (plain_code (B "aB3")).
  { split; [done|]. split; [by repeat constructor|]. by apply (bool_decide_unpack (_ ∉ _)). }
  by split_and!.
Defined.

(** A log is a sequence of records: reading the bytes of any records,
    one line each, with an unfinished line behind them, gives these records
    in order and nothing of the unfinished line. *)
Theorem log_stream_roundtrip rs torn :
  Forall rec_ok rs -> LF ∉ torn ->
  map parse_op (lines_of (frame (map line_of rs) ++ torn)) = map (fun r => Some (op_of r)) rs.
Proof.
  intros H Ht. rewrite lines_of_frame_app.
  - assert (lines_of torn = []) as ->.
    { unfold lines_of. rewrite <- (app_nil_r torn). by rewrite split_lines_no_lf. }
    rewrite app_nil_r, map_map. apply map_ext_in. intros r Hr. apply parse_op_line_of.
    rewrite Forall_forall in H. by apply H, list_elem_of_In.
  - apply Forall_map. eapply Forall_impl; [exact H|]. intros r Hr. cbv beta.
    apply line_of_framed in Hr as [? ?]. by split.
Qed.

Lemma log_stream_roundtrip_witness :
  map parse_op (lines_of (frame (map line_of [Del (B "a"); Hit (B "b") 3 1]) ++ B "{"))
  = map (fun r => Some (op_of r)) [Del (B "a"); Hit (B "b") 3 1].
Proof.
  assert (H : forall c, c = "a"%char \/ c = "b"%char -> plain_code [c]).
  { intros c Hc. split; [done|]. split.
    - constructor; [|constructor]. by destruct Hc as [-> | ->].
    - destruct Hc as [-> | ->]; by apply (bool_decide_unpack (_ ∉ _)). }
  apply log_stream_roundtrip; [|by apply (bool_decide_unpack (_ ∉ _))].
  constructor; [by apply H; left|]. constructor; [|constructor]. split_and!; [by apply H; right|done..].
Defined.

(** The decoder always ends: each turn of its loop consumes at least one
    byte, so any bound above the length of the line gives the result of
    [parse_op]'s own, on every line, well formed or not. *)
Theorem parse_op_terminates line fuel :
  (length line < fuel)%nat -> parse_loop fuel line Op0 = parse_loop (S (length line)) line Op0.
Proof. intros H. apply parse_loop_fuel; lia. Qed.

Lemma parse_op_terminates_witness :
  parse_loop 1000 (Q "{'c':'a") Op0 = parse_loop (S (length (Q "{'c':'a"))) (Q "{'c':'a") Op0.
Proof. apply parse_op_terminates. simpl. lia. Defined.

(** [itoa] prints every 64-bit integer in decimal as [std::to_string]
    does, the smallest included, and never writes below its buffer of 24. *)
Theorem itoa_correct b n : in_i64 n -> is_Some (itoa_buf n) /\ itoa b n = b ++ to_string n.
Proof. intros H. split; [rewrite itoa_buf_to_string by done; eauto|by apply itoa_to_string]. Qed.

Lemma itoa_correct_witness : itoa [] (- 2 ^ 63) = B "-9223372036854775808".
Proof. etrans; [by apply (itoa_correct [] (- 2 ^ 63))|reflexivity]. Defined.

(** [base62_encode] stays inside its buffer of twelve for every 64-bit
    number and writes its base-62 numeral, so that no two numbers share a
    code. *)
Theorem base62_encode_correct n :
  in_u64 n -> exists ds, Base62.base62_encode n = Some ds /\ Base62.base62_value ds = n /\
    ds ≠ [] /\ (length ds <= 11)%nat.
Proof.
  intros H. unfold Base62.base62_encode. destruct (n =? 0) eqn:E.
  { bool_facts. subst. exists (B "0"). split_and!; [done|done|done|simpl; lia]. }
  bool_facts. assert (H11 : 0 <= n < 62 ^ Z.of_nat 11) by (unfold in_u64 in H; simpl; lia).
  destruct (Base62.encode_loop_spec 11 n [] H11) as (ds & Hr & Hv & Hl).
  exists ds. split_and!; [|done|intros ->; by simpl in Hv|done].
  rewrite app_nil_r in Hr.
  assert (Hmono : forall i j m acc r, (i <= j)%nat -> Base62.encode_loop i m acc = Some r ->
    Base62.encode_loop j m acc = Some r).
  { clear. induction i as [|i IH]; intros [|j] m acc r Hij; cbn [Base62.encode_loop];
      destruct (m =? 0); try done; [lia|]. apply IH. lia. }
  by apply (Hmono 11%nat); [lia|].
Qed.

Lemma base62_encode_correct_witness :
  exists ds, Base62.base62_encode (2 ^ 64 - 1) = Some ds /\ Base62.base62_value ds = 2 ^ 64 - 1.
Proof. destruct (base62_encode_correct (2 ^ 64 - 1)) as (ds & ? & ? & _); [done|by exists ds]. Defined.

(** C33 A reader that polls a growing log sees every complete line exactly
    once and in order, however the writes cut the lines into pieces. *)
Theorem tail_reader_exactly_once os chunks t s :
  no_io_error (os_read os) -> t = TailReader0 (t_path t) -> contents s (t_path t) = [] ->
  fst (fst (tail_run os t s chunks)) = lines_of (concat chunks).
Proof.
  intros Hr Ht Hc. pose proof (tail_run_spec os chunks Hr t s) as H. rewrite Hc in H.
  destruct (tail_run os t s chunks) as [[ls t'] s']. simpl in *. symmetry. apply H; [|by rewrite Ht].
  rewrite Ht. split; [simpl; lia|done].
Qed.

Lemma tail_reader_exactly_once_witness :
  fst (fst (tail_run RefOs (TailReader0 (B "d/l")) RefSys [B "ab"; [LF]; B "c" ++ [LF] ++ B "d"]))
  = [B "ab"; B "c"].
Proof. etrans; [by apply (tail_reader_exactly_once RefOs); [exact RefOs_read|..]|reflexivity]. Defined.

(** [flush] only ever appends to the log: the file grows by a prefix of
    the buffer, by all of it when no write fails however short the writes
    are, no other file changes, and the buffer is empty afterwards. *)
Theorem flush_appends os a s :
  aof_ok a s ->
  let '(a', s') := flush os a s in
  a_buf a' = [] /\ aof_ok a' s' /\
  (exists n, (n <= length (a_buf a))%nat /\
     contents s' (a_path a) = contents s (a_path a) ++ take n (a_buf a)) /\
  (no_io_error (os_write os) -> contents s' (a_path a) = contents s (a_path a) ++ a_buf a) /\
  forall p, p ≠ a_path a -> content s' p = content s p.
Proof.
  intros H. destruct (flush_spec os a s H) as (n & Hn & Hall & HH).
  destruct (flush os a s) as [a' s']. destruct HH as (Hb & Hp & Hok & Hc & Ho & _).
  split_and!; [done|done|by exists n| |done]. intros Hw. by rewrite Hc, (Hall Hw), firstn_all.
Qed.

Lemma flush_appends_witness :
  let s := set_files <[B "d/l" := B "x"]> RefSys in
  contents (snd (flush RefOs (mkAof (B "yz") (Some (mkFd true 0)) (B "d/l")) s)) (B "d/l") = B "xyz".
Proof.
  intros s. assert (Hok : aof_ok (mkAof (B "yz") (Some (mkFd true 0)) (B "d/l")) s)
    by (split_and!; [by eexists|by apply (bool_decide_unpack (_ ∉ _))|done]).
  pose proof (flush_appends RefOs _ s Hok) as H.
  destruct (flush RefOs _ s) as [a' s']. destruct H as (_ & _ & _ & H & _). simpl.
  etrans; [exact (H RefOs_write)|reflexivity].
Defined.

(** [claim_instance] takes the lowest instance number whose lock is not
    held by a live process, writes its pid there and touches no other file;
    a dead process's lock is taken over, a live one's never. *)
Theorem claim_instance_lowest os dir s :
  (forall j, lock_path dir j ∉ denied (fs s)) ->
  match claim_instance os dir s with
  | (Some (j, lock), s') =>
      lock = lock_path dir j /\ (j < 1024)%nat /\ ~ held os s lock /\
      (forall j', (j' < j)%nat -> held os s (lock_path dir j')) /\
      content s' lock = Some (to_string (os_pid os)) /\
      (forall p, p ≠ lock -> content s' p = content s p)
  | (None, s') => s' = s /\ forall j, (j < 1024)%nat -> held os s (lock_path dir j)
  end.
Proof.
  intros Hd. pose proof (claim_loop_spec os dir 1024 0 s Hd) as H. unfold claim_instance.
  destruct (claim_loop os dir 0 1024 s) as [[[j lock]|] s'].
  - destruct H as (? & ? & ? & Hlow & ? & ?). split_and!; auto; [lia|]. intros j' Hj. apply Hlow. lia.
  - destruct H as [? Hall]. split; [done|]. intros j Hj. apply Hall. lia.
Qed.

Lemma claim_instance_lowest_witness :
  match claim_instance RefOs (B "d") RefSys with (Some (j, _), _) => (j < 1024)%nat | _ => False end.
Proof.
  pose proof (claim_instance_lowest RefOs (B "d") RefSys) as H.
  assert (Hd : forall j, lock_path (B "d") j ∉ denied (fs RefSys)) by (intros j; apply not_elem_of_empty).
  specialize (H Hd). destruct (claim_instance RefOs (B "d") RefSys) as [[[j l]|] s'].
  - by destruct H as (_ & H & _).
  - destruct H as [_ H]. destruct (H 0%nat) as (c & Hc & _); [lia|]. unfold content in Hc. simpl in Hc.
    by rewrite lookup_empty in Hc.
Defined.

(** Two processes that claim one after the other in a directory, the
    first still alive, never get the same instance number. *)
Theorem claims_are_distinct os1 os2 dir s i l1 s1 j l2 s2 :
  (forall k, lock_path dir k ∉ denied (fs s)) -> denied (fs s1) = denied (fs s) ->
  0 < os_pid os1 < 2 ^ 31 -> os_alive os2 (os_pid os1) = true ->
  claim_instance os1 dir s = (Some (i, l1), s1) -> claim_instance os2 dir s1 = (Some (j, l2), s2) ->
  i ≠ j /\ content s2 l1 = Some (to_string (os_pid os1)).
Proof.
  intros Hd Hd1 Hpid Hal H1 H2.
  pose proof (claim_loop_spec os1 dir 1024 0 s Hd) as C1. unfold claim_instance in *. rewrite H1 in C1.
  destruct C1 as (-> & _ & _ & _ & Hc1 & _).
  pose proof (claim_loop_spec os2 dir 1024 0 s1) as C2. rewrite Hd1, H2 in C2.
  destruct (C2 Hd) as (-> & _ & Hnh & _ & _ & Ho).
  assert (Hij : i ≠ j).
  { intros <-. apply Hnh. exists (to_string (os_pid os1)). split; [done|].
    right. right. by rewrite lock_pid_roundtrip. }
  split; [done|]. rewrite Ho; [done|]. intros He. by apply lock_path_inj in He.
Qed.

Lemma claims_are_distinct_witness :
  let os2 := mkOs (os_clock RefOs) (os_write RefOs) (os_read RefOs) (fun pid => pid =? 42) 77 in
  0%nat ≠ 1%nat /\
  content (snd (claim_instance os2 (B "d") (snd (claim_instance RefOs (B "d") RefSys)))) (lock_path (B "d") 0)
  = Some (B "42").
Proof.
  intros os2. eapply (claims_are_distinct RefOs os2 (B "d") RefSys 0 (lock_path (B "d") 0)
    (snd (claim_instance RefOs (B "d") RefSys)) 1 (lock_path (B "d") 1)).
  - intros k. apply not_elem_of_empty.
  - reflexivity.
  - simpl. lia.
  - reflexivity.
  - vm_compute. reflexivity.
  - vm_compute. reflexivity.
Defined.
