(* ===== verification/Store.v ===== *)
(** * store.cpp: the append-only-log store

    The sharded in-memory index, its hit counters, the tailing of sibling
    logs, the write path through the log, and [compact]. The state of one
    process is a [World]: the [Inner] of the code, the operating system, the
    state of the random generator and the [LINKS_TOTAL] gauge. Locks are not
    part of this file: every operation runs to completion.

    Every [int64_t] sum wraps to 64 bits. The atomics are defined to; for the
    plain sums an overflow is undefined in C++ and the wrap is one outcome. *)

From S2P Require Import Prelude CLib Common Codec Aof.

(** ** What the standard library leaves open

    The order in which an [unordered_map] is walked, and the order
    [std::sort] gives to elements its comparison does not tell apart. *)
Class StdImpl := {
  umap_iter : forall {V : Type}, gmap bytes V -> list (bytes * V);
  umap_iter_perm : forall {V : Type} (m : gmap bytes V), umap_iter m ≡ₚ map_to_list m;
  std_sort : forall {A : Type}, (A -> Z) -> list A -> list A;
  std_sort_perm : forall {A : Type} (key : A -> Z) l, std_sort key l ≡ₚ l;
  std_sort_sorted : forall {A : Type} (key : A -> Z) l,
    StronglySorted (fun x y => key y <= key x) (std_sort key l)
}.

(** ** Data *)

Definition FLUSH_BYTES : Z := 256 * 1024.
Definition TAIL_MIN_INTERVAL : Z := 200.
Definition NUM_SHARDS : nat := 256.
Definition MAX_STRAY_HITS : Z := 10000.

Inductive MutResult := MOk | MMissing | MRemote.

(** [struct Link], the public view of an entry. *)
Record Link := mkLink {
  l_code : bytes; l_url : bytes; l_hits : Z; l_created : Z; l_expires : Z }.

(** [struct Entry]. *)
Record Entry := mkEntry {
  e_u : bytes; e_a : Z; e_e : Z; e_i : Z; e_h : Z; e_oh : Z }.

(** [struct Shard], without its locks. *)
Record Shard := mkShard { sh_data : gmap bytes Entry; sh_dirty : gmap bytes Z }.
Definition Shard0 : Shard := mkShard ∅ ∅.

(** [StrayMap]: total and own hits of codes not seen yet. *)
Abbreviation StrayMap := (gmap bytes (Z * Z)).

(** [struct Tail]. *)
Record Tail := mkTailSt { tl_readers : gmap bytes TailReader; tl_stray : StrayMap; tl_last_poll : Z }.
Definition Tail0 : Tail := mkTailSt ∅ ∅ 0.

(** [struct Inner], without its locks and threads. *)
Record Inner := mkInner {
  shards : list Shard; tail : Tail; aof : option Aof; instance : Z; prefix : ascii;
  dir : bytes; own_name : bytes; lock : bytes; stopped : bool; closed : bool }.

Definition Inner0 : Inner :=
  mkInner (replicate NUM_SHARDS Shard0) Tail0 None 0 (Base62.alpha 0) [] [] [] false false.

Definition set_shards (x : list Shard) (i : Inner) : Inner :=
  mkInner x (tail i) (aof i) (instance i) (prefix i) (dir i) (own_name i) (lock i) (stopped i) (closed i).
Definition set_tail (x : Tail) (i : Inner) : Inner :=
  mkInner (shards i) x (aof i) (instance i) (prefix i) (dir i) (own_name i) (lock i) (stopped i) (closed i).
Definition set_aof (x : option Aof) (i : Inner) : Inner :=
  mkInner (shards i) (tail i) x (instance i) (prefix i) (dir i) (own_name i) (lock i) (stopped i) (closed i).
Definition set_closed (i : Inner) : Inner :=
  mkInner (shards i) (tail i) (aof i) (instance i) (prefix i) (dir i) (own_name i) (lock i) true true.

Record World := mkWorld { inner : Inner; sys : Sys; rng : Z; links_total : Z }.

Definition with_inner (f : Inner -> Inner) (w : World) : World :=
  mkWorld (f (inner w)) (sys w) (rng w) (links_total w).
Definition with_sys (s : Sys) (w : World) : World := mkWorld (inner w) s (rng w) (links_total w).
(** [metrics::links_delta], an atomic addition. *)
Definition links_delta (n : Z) (w : World) : World :=
  mkWorld (inner w) (sys w) (rng w) (i64 (links_total w + n)).

(** ** The sharded index *)

(** [shard_of]: 32-bit FNV-1a, the low eight bits. *)
Definition fnv1a (code : bytes) : Z :=
  fold_left (fun h b => u32 (Z.lxor h (cc b) * 16777619)) code 2166136261.
Definition shard_of (code : bytes) : nat := Z.to_nat (Z.land (fnv1a code) 255).

Definition shard_at (i : Inner) (code : bytes) : Shard := default Shard0 (shards i !! shard_of code).
Definition upd_shard (code : bytes) (f : Shard -> Shard) (i : Inner) : Inner :=
  set_shards (alter f (shard_of code) (shards i)) i.

(** [sh.data.find(code)], [try_emplace] on an absent key, [erase], and a
    write through the iterator. *)
Definition find (i : Inner) (code : bytes) : option Entry := sh_data (shard_at i code) !! code.
Definition data_insert (code : bytes) (e : Entry) : Inner -> Inner :=
  upd_shard code (fun sh => mkShard (<[code := e]> (sh_data sh)) (sh_dirty sh)).
Definition data_erase (code : bytes) : Inner -> Inner :=
  upd_shard code (fun sh => mkShard (delete code (sh_data sh)) (sh_dirty sh)).
Definition dirty_of (i : Inner) (code : bytes) : Z := default 0 (sh_dirty (shard_at i code) !! code).
(** [sh.dirty[code] += 1]. *)
Definition dirty_bump (code : bytes) : Inner -> Inner :=
  upd_shard code (fun sh =>
    mkShard (sh_data sh) (<[code := i64 (default 0 (sh_dirty sh !! code) + 1)]> (sh_dirty sh))).

(** [h.fetch_add(d)], and [oh.fetch_add(d)] when [own]. *)
Definition add_hits (e : Entry) (d : Z) (own : bool) : Entry :=
  mkEntry (e_u e) (e_a e) (e_e e) (e_i e) (i64 (e_h e + d))
    (if own then i64 (e_oh e + d) else e_oh e).

Section Store.
Context {std : StdImpl} (os : Os) (env : Env).

(** ** Folding log lines into the index *)

(** [apply]. The hit counts of an entry are atomics, whose [fetch_add] wraps;
    the sums with a stray hit are plain [int64_t] sums, undefined in C++ when
    they leave the range. The model wraps them like the others; [Bounds]
    shows when no sum leaves the range. *)
Definition apply (inn : Inner) (o : Op) (stray : StrayMap) : Inner * StrayMap :=
  if negb (o_x o =s []) then (data_erase (o_x o) inn, delete (o_x o) stray)
  else if negb (o_h o =s []) then
    let own := instance inn =? i32 (o_i o) in
    match find inn (o_h o) with
    | Some e => (data_insert (o_h o) (add_hits e (o_d o) own) inn, stray)
    | None =>
        let stray :=
          if MAX_STRAY_HITS <=? Z.of_nat (size stray)
          then match umap_iter stray with [] => stray | (k, _) :: _ => delete k stray end
          else stray in
        let st := default (0, 0) (stray !! o_h o) in
        (inn, <[o_h o := (i64 (fst st + o_d o), if own then i64 (snd st + o_d o) else snd st)]> stray)
    end
  else if o_c o =s [] then (inn, stray)
  else
    let st := default (0, 0) (stray !! o_c o) in
    let stray := delete (o_c o) stray in
    let inn := data_erase (o_c o) inn in
    (data_insert (o_c o)
       (mkEntry (o_u o) (o_a o) (if o_has_e o then o_e o else 0) (i32 (o_i o))
          (i64 (o_n o + fst st)) (i64 (o_n o + snd st))) inn,
     stray).

Definition apply_line (st : Inner * StrayMap) (line : bytes) : Inner * StrayMap :=
  match parse_op line with
  | Some o => apply (fst st) o (snd st)
  | None => st
  end.

Definition apply_lines (ls : list bytes) (st : Inner * StrayMap) : Inner * StrayMap :=
  fold_left apply_line ls st.

(** The callback of the readers: fold into the index with [tail.stray]. *)
Definition feed (ls : list bytes) (inn : Inner) : Inner :=
  let '(inn', stray') := apply_lines ls (inn, tl_stray (tail inn)) in
  let t := tail inn' in
  set_tail (mkTailSt (tl_readers t) stray' (tl_last_poll t)) inn'.

Definition set_reader (name : bytes) (t : TailReader) (inn : Inner) : Inner :=
  let tl := tail inn in
  set_tail (mkTailSt (<[name := t]> (tl_readers tl)) (tl_stray tl) (tl_last_poll tl)) inn.
Definition set_last_poll (now : Z) (inn : Inner) : Inner :=
  let tl := tail inn in set_tail (mkTailSt (tl_readers tl) (tl_stray tl) now) inn.

(** One [read_new] of the reader called [name]. *)
Definition poll_one (w : World) (nt : bytes * TailReader) : World :=
  let '(ls, t', s') := read_new os (snd nt) (sys w) in
  with_sys s' (with_inner (fun i => feed ls (set_reader (fst nt) t' i)) w).

Definition new_reader (inn : Inner) (f : bytes) : Inner :=
  match tl_readers (tail inn) !! f with
  | Some _ => inn
  | None => set_reader f (TailReader0 (path_join (dir inn) f)) inn
  end.

(** [poll_locked]. *)
Definition poll_locked (w : World) : World :=
  let fs := shard_files (sys w) (dir (inner w)) (own_name (inner w)) in
  let w := with_inner (fun i => fold_left new_reader fs i) w in
  let w := fold_left poll_one (umap_iter (tl_readers (tail (inner w)))) w in
  let '(now, s) := now_ms os (sys w) in
  with_sys s (with_inner (set_last_poll now) w).

(** [Store::poll_tails] and [Inner::poll_tails_pub]. *)
Definition poll_tails (w : World) : World :=
  match aof (inner w) with None => w | Some _ => poll_locked w end.

Definition log_name (i : Z) : bytes := B "data-" ++ to_string i ++ B ".log".
Definition snap_name (i : Z) : bytes := B "data-" ++ to_string i ++ B ".snap".

(** [tail_missed]. *)
Definition tail_missed (code : bytes) (w : World) : World :=
  match code, aof (inner w) with
  | [], _ | _, None => w
  | c0 :: _, Some _ =>
      let owner := Base62.alpha_idx c0 in
      if (0 <=? owner) && negb (owner =? instance (inner w)) then
        let name := log_name owner in
        let t := default (TailReader0 (path_join (dir (inner w)) name))
                         (tl_readers (tail (inner w)) !! name) in
        let w := poll_one w (name, t) in
        let '(now, s) := now_ms os (sys w) in
        with_sys s (with_inner (set_last_poll now) w)
      else
        let '(now, s) := now_ms os (sys w) in
        let w := with_sys s w in
        if TAIL_MIN_INTERVAL <=? now - tl_last_poll (tail (inner w)) then poll_locked w else w
  end.

(** ** Codes *)

(** [rng_next]: xorshift64*; the new state and the output. *)
Definition rng_next (st : Z) : Z * Z :=
  let st := Z.lxor st (Z.shiftr st 12) in
  let st := u64 (Z.lxor st (Z.shiftl st 25)) in
  let st := Z.lxor st (Z.shiftr st 27) in
  (st, u64 (st * 2685821657736338717)).

Fixpoint gen_suffix (n : nat) (st : Z) : bytes * Z :=
  match n with
  | O => ([], st)
  | S n' =>
      let '(st1, r) := rng_next st in
      let '(s, st2) := gen_suffix n' st1 in
      (Base62.alpha (r mod Base62.MAX_INSTANCES) :: s, st2)
  end.

Definition gen_code (inn : Inner) (st : Z) : bytes * Z :=
  let '(s, st') := gen_suffix (Base62.CODE_LEN - 1) st in (prefix inn :: s, st').

(** The retry loop of [shorten] and [shorten_many]: the first generated code
    that is not in the index; [None] when [fuel] draws collided. *)
Fixpoint gen_free (fuel : nat) (inn : Inner) (st : Z) : option (bytes * Z) :=
  match fuel with
  | O => None
  | S f =>
      let '(c, st') := gen_code inn st in
      match find inn c with Some _ => gen_free f inn st' | None => Some (c, st') end
  end.

(** ** Write path *)

(** Push under [aof_mu], and flush past the threshold. *)
Definition aof_push (line : bytes) (w : World) : World :=
  match aof (inner w) with
  | None => w
  | Some a => with_inner (set_aof (Some (push a line))) w
  end.

Definition aof_flush_if_full (w : World) : World :=
  match aof (inner w) with
  | None => w
  | Some a =>
      if FLUSH_BYTES <? Z.of_nat (pending_bytes a) then
        let '(a', s') := flush os a (sys w) in
        with_sys s' (with_inner (set_aof (Some a')) w)
      else w
  end.

Definition expiry (now ttl_ms : Z) : Z := if 0 <? ttl_ms then i64 (now + ttl_ms) else 0.

(** The outcome of a store operation with a retry loop. *)
Inductive Outcome (A : Type) := Done (a : A) (w : World) | OutOfFuel.
Arguments Done {A}.
Arguments OutOfFuel {A}.

(** The tail of [shorten] once the entry is in the index. *)
Definition shorten_log (code url : bytes) (now exp : Z) (w : World) : World :=
  links_delta 1 (aof_flush_if_full
    (aof_push (row_line code url now exp (instance (inner w)) 0) w)).

Definition new_entry (inn : Inner) (url : bytes) (now exp : Z) : Entry :=
  mkEntry url now exp (instance inn) 0 0.

(** [Store::shorten]; [Done None] for a taken alias. *)
Definition shorten (fuel : nat) (url : bytes) (alias : option bytes) (ttl_ms : Z) (w : World)
  : Outcome (option bytes) :=
  let '(now, s) := now_ms os (sys w) in
  let w := with_sys s w in
  let exp := expiry now ttl_ms in
  match alias with
  | Some code =>
      match find (inner w) code with
      | Some _ => Done None w
      | None =>
          let w := with_inner (fun i => data_insert code (new_entry i url now exp) i) w in
          Done (Some code) (shorten_log code url now exp w)
      end
  | None =>
      match gen_free fuel (inner w) (rng w) with
      | None => OutOfFuel
      | Some (code, st) =>
          let w := mkWorld (inner w) (sys w) st (links_total w) in
          let w := with_inner (fun i => data_insert code (new_entry i url now exp) i) w in
          Done (Some code) (shorten_log code url now exp w)
      end
  end.

(** The loop of [shorten_many]: the codes, the lines in one buffer. *)
Fixpoint shorten_each (fuel : nat) (urls : list bytes) (now exp : Z) (codes : list bytes)
    (lines : bytes) (w : World) : option (list bytes * bytes * World) :=
  match urls with
  | [] => Some (codes, lines, w)
  | u :: us =>
      match gen_free fuel (inner w) (rng w) with
      | None => None
      | Some (cb, st) =>
          let w := mkWorld (inner w) (sys w) st (links_total w) in
          let w := with_inner (fun i => data_insert cb (new_entry i u now exp) i) w in
          let lines :=
            match aof (inner w) with
            | Some _ => row_line_into lines cb u now exp (instance (inner w)) 0 ++ [NL]
            | None => lines
            end in
          shorten_each fuel us now exp (codes ++ [cb]) lines w
      end
  end.

Definition aof_push_raw (bs : bytes) (w : World) : World :=
  match aof (inner w) with
  | None => w
  | Some a => with_inner (set_aof (Some (push_raw a bs))) w
  end.

(** [Store::shorten_many]. *)
Definition shorten_many (fuel : nat) (urls : list bytes) (ttl_ms : Z) (w : World)
  : Outcome (list bytes) :=
  let '(now, s) := now_ms os (sys w) in
  let exp := expiry now ttl_ms in
  match shorten_each fuel urls now exp [] [] (with_sys s w) with
  | None => OutOfFuel
  | Some (codes, lines, w) =>
      let w := aof_flush_if_full (aof_push_raw lines w) in
      Done codes (links_delta (Z.of_nat (length codes)) w)
  end.

(** ** Read path *)

(** [e.e == 0 || e.e > now_ms()]: the clock is read only when needed. *)
Definition live (e : Z) (s : Sys) : bool * Sys :=
  if e =? 0 then (true, s) else let '(now, s') := now_ms os s in (now <? e, s').

Definition count_hit (code : bytes) (e : Entry) (w : World) : World :=
  if track_hits env
  then with_inner (fun i => dirty_bump code (data_insert code (add_hits e 1 true) i)) w
  else w.

(** [Store::resolve]. *)
Definition resolve (code : bytes) (w : World) : option bytes * World :=
  match find (inner w) code with
  | Some e =>
      let '(ok, s) := live (e_e e) (sys w) in
      let w := with_sys s w in
      if ok then (Some (e_u e), count_hit code e w) else (None, w)
  | None =>
      match aof (inner w) with
      | None => (None, w)
      | Some _ =>
          let w := tail_missed code w in
          match find (inner w) code with
          | None => (None, w)
          | Some e =>
              let '(ok, s) := live (e_e e) (sys w) in
              let w := with_sys s w in
              if ok then (Some (e_u e), count_hit code e w) else (None, w)
          end
      end
  end.

(** [Store::stats]. *)
Definition link_of (code : bytes) (e : Entry) : Link :=
  mkLink code (e_u e) (e_h e) (e_a e) (e_e e).
Definition stats (code : bytes) (w : World) : option Link := link_of code <$> find (inner w) code.

(** [Store::empty]. *)
Definition empty (w : World) : bool := forallb (fun sh => bool_decide (sh_data sh = ∅)) (shards (inner w)).

(** Every entry, shard by shard, in the order each map is walked. *)
Definition all_data (inn : Inner) : list (bytes * Entry) :=
  concat (map (fun sh => umap_iter (sh_data sh)) (shards inn)).

Definition matches (q code url : bytes) : bool :=
  (q =s []) || bool_decide (is_Some (find_sub q code)) || bool_decide (is_Some (find_sub q url)).

(** [Store::list]: the page and the number of matches. *)
Definition list_links (limit offset : nat) (sort q : bytes) (w : World) : list Link * nat :=
  let items := map (fun ce => link_of (fst ce) (snd ce))
                 (filter (fun ce => Is_true (matches q (fst ce) (e_u (snd ce)))) (all_data (inner w))) in
  let items := if sort =s B "hits" then std_sort l_hits items else std_sort l_created items in
  let total := length items in
  if (total <=? offset)%nat then ([], total)
  else
    let stop := Nat.min (offset + limit) total in
    (take (stop - offset) (drop offset items), total).

(** ** Mutations of the owner *)

(** [Store::update]. *)
Definition update (code url : bytes) (ttl_ms : Z) (has_ttl : bool) (w : World) : MutResult * World :=
  match find (inner w) code with
  | None => (MMissing, w)
  | Some e =>
      if negb (e_i e =? instance (inner w)) then (MRemote, w)
      else
        let '(exp, s) :=
          if has_ttl then
            if 0 <? ttl_ms then let '(now, s) := now_ms os (sys w) in (i64 (now + ttl_ms), s)
            else (0, sys w)
          else (e_e e, sys w) in
        let w := with_sys s w in
        let w := with_inner (data_insert code (mkEntry url (e_a e) exp (e_i e) (e_h e) (e_oh e))) w in
        (MOk, aof_push (row_line code url (e_a e) exp (instance (inner w)) 0) w)
  end.

(** [Store::remove]. *)
Definition remove (code : bytes) (w : World) : MutResult * World :=
  match find (inner w) code with
  | None => (MMissing, w)
  | Some e =>
      if negb (e_i e =? instance (inner w)) then (MRemote, w)
      else
        let w := with_inner (data_erase code) w in
        (MOk, links_delta (-1) (aof_push (del_line code) w))
  end.

(** ** Flushing, compaction, closing *)

(** The hit lines of the dirty counters, shard by shard. *)
Definition hit_lines (inn : Inner) : bytes :=
  fold_left (fun b sh =>
    fold_left (fun b cd => hit_line_into b (fst cd) (snd cd) (instance inn) ++ [NL])
      (umap_iter (sh_dirty sh)) b) (shards inn) [].

Definition clear_dirty (inn : Inner) : Inner :=
  set_shards (map (fun sh => mkShard (sh_data sh) ∅) (shards inn)) inn.

(** [Inner::flush_locked] (and [flush_public], [Store::flush]). *)
Definition flush_store (w : World) : World :=
  match aof (inner w) with
  | None => w
  | Some a =>
      let lines := hit_lines (inner w) in
      let '(a', s') := flush os (push_raw a lines) (sys w) in
      with_sys s' (with_inner (fun i => set_aof (Some a') (clear_dirty i)) w)
  end.

(** The fsync thread. *)
Definition sync_store (w : World) : World :=
  match aof (inner w) with
  | None => w
  | Some a => let '(a', s') := sync os a (sys w) in with_sys s' (with_inner (set_aof (Some a')) w)
  end.

(** [Store::seed]. *)
Definition seed (fuel : nat) (urls : list bytes) (w : World) : Outcome nat :=
  match shorten_many fuel urls 0 w with
  | Done _ w => Done (length urls) (flush_store w)
  | OutOfFuel => OutOfFuel
  end.

Definition snap_line (ce : bytes * Entry) : bytes :=
  row_line (fst ce) (e_u (snd ce)) (e_a (snd ce)) (e_e (snd ce)) (e_i (snd ce)) (e_oh (snd ce)).

(** The lines of a snapshot: the own rows, with the own hits. *)
Definition snap_lines (inn : Inner) : list bytes :=
  map snap_line (filter (fun ce => e_i (snd ce) = instance inn) (all_data inn)).

(** [rename(from, to)]. *)
Definition rename (from to : bytes) (s : Sys) : Sys :=
  match content s from with
  | Some c => if bool_decide (to ∈ denied (fs s)) then s
              else set_files (fun m => <[to := c]> (delete from m)) s
  | None => s
  end.

Definition write_snapshot (inn : Inner) (s : Sys) : Sys :=
  let snap_path := path_join (dir inn) (snap_name (instance inn)) in
  let tmp := snap_path ++ B ".tmp" in
  match open_write tmp false true s with
  | (None, s') => s'
  | (Some _, s') => rename tmp snap_path (set_files <[tmp := frame (snap_lines inn)]> s')
  end.

(** [Store::compact]: the log is truncated whether or not the snapshot could
    be written. *)
Definition compact (w : World) : World :=
  match aof (inner w) with
  | None => w
  | Some _ =>
      let w := flush_store w in
      let w := with_sys (write_snapshot (inner w) (sys w)) w in
      match aof (inner w) with
      | None => w
      | Some a =>
          let '(a', s') := truncate os a (sys w) in
          with_sys s' (with_inner (set_aof (Some a')) w)
      end
  end.

(** [Store::close]. *)
Definition close_store (w : World) : World :=
  if closed (inner w) then w
  else
    let w := with_inner set_closed w in
    let w := flush_store w in
    let w :=
      match aof (inner w) with
      | None => w
      | Some a => let '(a', s') := close os a (sys w) in with_sys s' (with_inner (set_aof (Some a')) w)
      end in
    if lock (inner w) =s [] then w
    else with_sys (set_files (delete (lock (inner w))) (sys w)) w.

(** ** Opening *)

Inductive OpenError := NoFreeInstance | OpenAofFailed.

(** [replay_file] with the index as the callback. *)
Definition replay_into (path : bytes) (w : World) : World :=
  let '(ls, s') := replay_file os path (sys w) in
  with_sys s' (with_inner (feed ls) w).

(** One sibling at boot: its snapshot is replayed and a reader registered. *)
Definition open_sibling (w : World) (f : bytes) : World :=
  let snap := take (length f - 4) f ++ B ".snap" in
  let w := replay_into (path_join (dir (inner w)) snap) w in
  with_inner (fun i => new_reader i f) w.

Definition boot (w : World) : World :=
  let w := replay_into (path_join (dir (inner w)) (snap_name (instance (inner w)))) w in
  let w := replay_into (path_join (dir (inner w)) (own_name (inner w))) w in
  fold_left open_sibling (shard_files (sys w) (dir (inner w)) (own_name (inner w))) w.

(** [Store::open]: [inr] with the state when it throws. *)
Definition open_store (d : bytes) (inst : Z) (s : Sys) (seed : Z) (links : Z)
  : World + OpenError * Sys :=
  if d =s B ":memory:" then inl (mkWorld Inner0 s seed links)
  else
    let '(id, lk, s) :=
      if 0 <=? inst then (inst, [], s)
      else match claim_instance os d s with
           | (Some (i, l), s') => (Z.of_nat i, l, s')
           | (None, s') => (-1, [], s')
           end in
    if (id <? 0) || (Base62.MAX_INSTANCES <=? id) then inr (NoFreeInstance, s)
    else
      let '(ok, a, s) := open_at Aof0 d (log_name id) s in
      if (ok : bool) then
        inl (boot (mkWorld
          (mkInner (replicate NUM_SHARDS Shard0) Tail0 (Some a) id (Base62.alpha id) d (log_name id) lk
             false false) s seed links))
      else inr (OpenAofFailed, s).

End Store.
Arguments Done {A}.
Arguments OutOfFuel {A}.
