(* ===== verification/StoreFacts.v ===== *)
(** * The index of store.cpp as one finite map

    The 256 shards hold disjoint parts of one map from codes to entries:
    [data] puts them together, and every operation on a shard is an
    operation on [data]. *)

From S2P Require Import Prelude CLib Common Codec Aof Store.

(** ** Shards *)
Lemma fnv1a_range code : 0 <= fnv1a code < 2 ^ 32.
Proof.
  unfold fnv1a. assert (H : 0 <= 2166136261 < 2 ^ 32) by lia. revert H.
  generalize 2166136261. induction code as [|c code IH]; intros h Hh; simpl; [done|].
  apply IH. unfold u32. apply Z.mod_pos_bound. lia.
Qed.

Lemma shard_of_lt code : (shard_of code < NUM_SHARDS)%nat.
Proof.
  unfold shard_of, NUM_SHARDS. change 255 with (Z.ones 8). rewrite Z.land_ones by lia.
  pose proof (Z.mod_pos_bound (fnv1a code) (2 ^ 8) ltac:(lia)). lia.
Qed.

(** The index is well formed: 256 shards, every key in the shard its hash
    names. *)
Record inner_wf (i : Inner) : Prop := {
  wf_len : length (shards i) = NUM_SHARDS;
  wf_data : forall k sh c, shards i !! k = Some sh -> is_Some (sh_data sh !! c) -> shard_of c = k;
  wf_dirty : forall k sh c, shards i !! k = Some sh -> is_Some (sh_dirty sh !! c) -> shard_of c = k
}.

Lemma shard_at_lookup i c : inner_wf i -> shards i !! shard_of c = Some (shard_at i c).
Proof.
  intros H. unfold shard_at. pose proof (shard_of_lt c) as Hlt. rewrite <- (wf_len i H) in Hlt.
  apply lookup_lt_is_Some in Hlt as [sh ->]. done.
Qed.

Lemma shard_at_upd i c f c' :
  inner_wf i ->
  shard_at (upd_shard c f i) c' =
    if decide (shard_of c = shard_of c') then f (shard_at i c') else shard_at i c'.
Proof.
  intros H. unfold shard_at at 1, upd_shard. simpl. case_decide as E.
  - rewrite E, list_lookup_alter_eq, (shard_at_lookup i c' H). done.
  - by rewrite list_lookup_alter_ne.
Qed.

Lemma upd_shard_wf i c f :
  inner_wf i ->
  (forall sh c', is_Some (sh_data (f sh) !! c') -> c' = c \/ is_Some (sh_data sh !! c')) ->
  (forall sh c', is_Some (sh_dirty (f sh) !! c') -> c' = c \/ is_Some (sh_dirty sh !! c')) ->
  inner_wf (upd_shard c f i).
Proof.
  intros [Hl Hd Hy] H1 H2. constructor; unfold upd_shard; simpl.
  - by rewrite length_alter.
  - intros k sh c' Hk Hc'. destruct (decide (shard_of c = k)) as [<-|].
    + rewrite list_lookup_alter_eq in Hk. apply fmap_Some in Hk as (sh0 & Hk & ->).
      destruct (H1 _ _ Hc') as [-> | ?]; eauto.
    + rewrite list_lookup_alter_ne in Hk by done. eauto.
  - intros k sh c' Hk Hc'. destruct (decide (shard_of c = k)) as [<-|].
    + rewrite list_lookup_alter_eq in Hk. apply fmap_Some in Hk as (sh0 & Hk & ->).
      destruct (H2 _ _ Hc') as [-> | ?]; eauto.
    + rewrite list_lookup_alter_ne in Hk by done. eauto.
Qed.

Lemma data_insert_wf c e i : inner_wf i -> inner_wf (data_insert c e i).
Proof.
  intros H. apply upd_shard_wf; [done| |naive_solver]. intros sh c'. simpl.
  rewrite lookup_insert. case_decide; naive_solver.
Qed.

Lemma data_erase_wf c i : inner_wf i -> inner_wf (data_erase c i).
Proof.
  intros H. apply upd_shard_wf; [done| |naive_solver]. intros sh c'. simpl.
  rewrite lookup_delete. case_decide; naive_solver.
Qed.

Lemma dirty_bump_wf c i : inner_wf i -> inner_wf (dirty_bump c i).
Proof.
  intros H. apply upd_shard_wf; [done|naive_solver|]. intros sh c'. simpl.
  rewrite lookup_insert. case_decide; naive_solver.
Qed.

Lemma fresh_wf i : shards i = replicate NUM_SHARDS Shard0 -> inner_wf i.
Proof.
  intros E. constructor; rewrite E; [done|..]; intros k sh c Hk; apply lookup_replicate in Hk as [-> _];
    simpl; rewrite lookup_empty; intros []; done.
Qed.

(** Well-formedness depends on the shards alone. *)
Lemma wf_shards i j : shards i = shards j -> inner_wf i -> inner_wf j.
Proof. intros E [? ? ?]. constructor; rewrite <- E; auto. Qed.
#[export] Hint Resolve data_insert_wf data_erase_wf dirty_bump_wf : shrt.

(** ** Lookups *)
Lemma find_insert c e i c' :
  inner_wf i -> find (data_insert c e i) c' = if decide (c = c') then Some e else find i c'.
Proof.
  intros H. unfold find, data_insert. rewrite shard_at_upd by done.
  repeat case_decide; simplify_eq; simpl; try done; [by rewrite lookup_insert_eq|by rewrite lookup_insert_ne].
Qed.

Lemma find_erase c i c' :
  inner_wf i -> find (data_erase c i) c' = if decide (c = c') then None else find i c'.
Proof.
  intros H. unfold find, data_erase. rewrite shard_at_upd by done.
  repeat case_decide; simplify_eq; simpl; try done; [by rewrite lookup_delete_eq|by rewrite lookup_delete_ne].
Qed.

Lemma find_bump c i c' : inner_wf i -> find (dirty_bump c i) c' = find i c'.
Proof.
  intros H. unfold find, dirty_bump. rewrite shard_at_upd by done. by case_decide.
Qed.

Lemma dirty_insert c e i c' : inner_wf i -> dirty_of (data_insert c e i) c' = dirty_of i c'.
Proof. intros H. unfold dirty_of, data_insert. rewrite shard_at_upd by done. by case_decide. Qed.

Lemma dirty_erase c i c' : inner_wf i -> dirty_of (data_erase c i) c' = dirty_of i c'.
Proof. intros H. unfold dirty_of, data_erase. rewrite shard_at_upd by done. by case_decide. Qed.

Lemma dirty_bump_of c i c' :
  inner_wf i ->
  dirty_of (dirty_bump c i) c' = if decide (c = c') then i64 (dirty_of i c' + 1) else dirty_of i c'.
Proof.
  intros H. unfold dirty_of, dirty_bump. rewrite shard_at_upd by done.
  repeat case_decide; simplify_eq; simpl; try done; [by rewrite lookup_insert_eq|by rewrite lookup_insert_ne].
Qed.

(** ** The union of the shards *)
Definition data_of (l : list Shard) : gmap bytes Entry := foldr (fun sh m => sh_data sh ∪ m) ∅ l.
Definition data (i : Inner) : gmap bytes Entry := data_of (shards i).

Lemma data_of_lookup l c k :
  (forall k' sh, l !! k' = Some sh -> is_Some (sh_data sh !! c) -> k' = k) ->
  data_of l !! c = (l !! k) ≫= (fun sh => sh_data sh !! c).
Proof.
  revert k. induction l as [|sh l IH]; intros k H; simpl; [by rewrite lookup_empty|].
  rewrite lookup_union. destruct k as [|k].
  - simpl. assert (data_of l !! c = None) as ->.
    { rewrite (IH (length l)); [by rewrite lookup_ge_None_2|].
      intros k' sh' Hk Hc. specialize (H (S k') sh' Hk Hc). lia. }
    by rewrite option_union_right_id.
  - rewrite (IH k); [|intros k' sh' Hk Hc; specialize (H (S k') sh' Hk Hc); lia].
    destruct (sh_data sh !! c) eqn:E.
    + specialize (H 0%nat sh eq_refl ltac:(by rewrite E)). lia.
    + by rewrite option_union_left_id.
Qed.

Lemma data_find i c : inner_wf i -> data i !! c = find i c.
Proof.
  intros H. unfold data. rewrite (data_of_lookup _ _ (shard_of c)).
  - rewrite shard_at_lookup by done. done.
  - intros k sh Hk Hc. symmetry. by eapply wf_data.
Qed.

Lemma data_data_insert c e i : inner_wf i -> data (data_insert c e i) = <[c := e]> (data i).
Proof.
  intros H. apply map_eq. intros c'. rewrite data_find by auto with shrt.
  rewrite find_insert, lookup_insert, data_find by done. done.
Qed.

Lemma data_data_erase c i : inner_wf i -> data (data_erase c i) = delete c (data i).
Proof.
  intros H. apply map_eq. intros c'. rewrite data_find by auto with shrt.
  rewrite find_erase, lookup_delete, data_find by done. done.
Qed.

Lemma data_dirty_bump c i : inner_wf i -> data (dirty_bump c i) = data i.
Proof.
  intros H. apply map_eq. intros c'. rewrite !data_find by auto with shrt. by apply find_bump.
Qed.

Lemma data_of_replicate n : data_of (replicate n Shard0) = ∅.
Proof. induction n as [|n IH]; [done|]. simpl. by rewrite IH, map_union_empty. Qed.

Lemma data_fresh i : shards i = replicate NUM_SHARDS Shard0 -> data i = ∅.
Proof. intros E. unfold data. rewrite E. apply data_of_replicate. Qed.
#[export] Hint Rewrite data_data_insert data_data_erase data_dirty_bump using auto with shrt : shrt.

Lemma data_clear_dirty i : data (clear_dirty i) = data i.
Proof.
  unfold data, clear_dirty. simpl. induction (shards i) as [|sh l IH]; [done|]. simpl. by rewrite IH.
Qed.

Lemma clear_dirty_wf i : inner_wf i -> inner_wf (clear_dirty i).
Proof.
  intros [Hl Hd Hy]. constructor; unfold clear_dirty; simpl; [by rewrite length_map|..];
    intros k sh c Hk; rewrite list_lookup_fmap in Hk; apply fmap_Some in Hk as (sh0 & Hk & ->); simpl; eauto.
  rewrite lookup_empty. intros []; done.
Qed.

Lemma dirty_clear_dirty i c : dirty_of (clear_dirty i) c = 0.
Proof.
  unfold dirty_of, shard_at, clear_dirty. simpl. rewrite list_lookup_fmap.
  destruct (shards i !! shard_of c); simpl; by rewrite lookup_empty.
Qed.
#[export] Hint Resolve clear_dirty_wf : shrt.

(** ** Walking the index *)
Section Walk.
Context {std : StdImpl}.

Lemma umap_iter_elem {V} (m : gmap bytes V) c v : (c, v) ∈ umap_iter m <-> m !! c = Some v.
Proof. rewrite umap_iter_perm. apply elem_of_map_to_list. Qed.

Lemma umap_iter_nodup {V} (m : gmap bytes V) : NoDup (umap_iter m).*1.
Proof. rewrite umap_iter_perm. apply NoDup_fst_map_to_list. Qed.

Lemma all_data_elem i c e : inner_wf i -> (c, e) ∈ all_data i <-> data i !! c = Some e.
Proof.
  intros H. unfold all_data. rewrite list_elem_of_In, in_concat, data_find by done. split.
  - intros (l & Hl & Hce). apply in_map_iff in Hl as (sh & <- & Hsh).
    rewrite <- list_elem_of_In, umap_iter_elem in Hce.
    apply list_elem_of_In, list_elem_of_lookup in Hsh as (k & Hk).
    assert (shard_of c = k) as <- by (eapply wf_data; eauto).
    unfold find. rewrite (shard_at_lookup i c H) in Hk. by simplify_eq.
  - intros Hf. exists (umap_iter (sh_data (shard_at i c))). split.
    + apply in_map_iff. exists (shard_at i c). split; [done|].
      apply list_elem_of_In, list_elem_of_lookup. eauto using shard_at_lookup.
    + by apply list_elem_of_In, umap_iter_elem.
Qed.

(** A concatenation of pieces with keys that tell the piece. *)
Lemma nodup_concat_keys {V} (ls : list (list (bytes * V))) n :
  (forall k l, ls !! k = Some l -> NoDup l.*1 /\ forall c, c ∈ l.*1 -> shard_of c = (n + k)%nat) ->
  NoDup (concat ls).*1.
Proof.
  revert n. induction ls as [|l ls IH]; intros n H; simpl; [constructor|].
  rewrite fmap_app. apply NoDup_app. split_and!.
  - by destruct (H 0%nat l eq_refl).
  - intros c Hc Hc'. destruct (H 0%nat l eq_refl) as [_ H0]. specialize (H0 c Hc).
    apply list_elem_of_fmap in Hc' as ([c' v] & -> & Hin).
    apply list_elem_of_In, in_concat in Hin as (l' & Hl' & Hin).
    apply list_elem_of_In, list_elem_of_lookup in Hl' as (k & Hk).
    destruct (H (S k) l' Hk) as [_ Hk']. simpl in *.
    rewrite Hk' in H0; [lia|]. apply list_elem_of_fmap. exists (c', v).
    split; [done|]. by apply list_elem_of_In.
  - apply (IH (S n)). intros k l' Hk. destruct (H (S k) l' Hk) as [? Hs]. split; [done|].
    intros c Hc. rewrite (Hs c Hc). lia.
Qed.

Lemma all_data_nodup i : inner_wf i -> NoDup (all_data i).*1.
Proof.
  intros H. unfold all_data. apply (nodup_concat_keys _ 0). intros k l Hk.
  rewrite list_lookup_fmap in Hk. apply fmap_Some in Hk as (sh & Hk & ->).
  split; [apply umap_iter_nodup|]. intros c Hc.
  apply list_elem_of_fmap in Hc as ([c' e] & -> & Hc). apply umap_iter_elem in Hc.
  by eapply wf_data.
Qed.

(** The walk lists the map exactly once. *)
Lemma all_data_perm i : inner_wf i -> all_data i ≡ₚ map_to_list (data i).
Proof.
  intros H. apply NoDup_Permutation.
  - eapply NoDup_fmap_1, all_data_nodup, H.
  - apply NoDup_map_to_list.
  - intros [c e]. rewrite all_data_elem by done. by rewrite elem_of_map_to_list.
Qed.

End Walk.

(** ** A standard library

    One choice for what [StdImpl] leaves open: the concrete sessions run on
    it. Maps are walked in the order of [map_to_list], the sort is stable. *)
Definition key_ge {A} (key : A -> Z) (x y : A) : Prop := key y <= key x.
#[export] Instance key_ge_dec {A} (key : A -> Z) : RelDecision (key_ge key).
Proof. intros x y. unfold key_ge. apply _. Defined.
#[export] Instance key_ge_total {A} (key : A -> Z) : Total (key_ge key).
Proof. intros x y. unfold key_ge. lia. Qed.
#[export] Instance key_ge_trans {A} (key : A -> Z) : Transitive (key_ge key).
Proof. intros x y z. unfold key_ge. lia. Qed.

Definition RefStd : StdImpl := {|
  umap_iter := fun V m => map_to_list m;
  umap_iter_perm := fun V m => reflexivity _;
  std_sort := fun A key l => merge_sort (key_ge key) l;
  std_sort_perm := fun A key l => merge_sort_Permutation (key_ge key) l;
  std_sort_sorted := fun A key l => StronglySorted_merge_sort (key_ge key) l
|}.
