(* ===== verification/StoreSpec.v ===== *)
(** * What each operation of the log store does to the map of links

    The index invariant and its preservation by every operation, the effect
    of every operation on [data], and the generated codes. *)

From S2P Require Import Prelude CLib Common Codec Aof Store StoreFacts.

Definition wf (w : World) : Prop := inner_wf (inner w).

Lemma shards_set_tail x i : shards (set_tail x i) = shards i. Proof. done. Qed.
Lemma shards_set_aof x i : shards (set_aof x i) = shards i. Proof. done. Qed.
Lemma data_set_tail x i : data (set_tail x i) = data i. Proof. done. Qed.
Lemma data_set_aof x i : data (set_aof x i) = data i. Proof. done. Qed.
Lemma wf_set_tail x i : inner_wf i -> inner_wf (set_tail x i).
Proof. by apply wf_shards. Qed.
Lemma wf_set_aof x i : inner_wf i -> inner_wf (set_aof x i).
Proof. by apply wf_shards. Qed.
#[export] Hint Resolve wf_set_tail wf_set_aof : shrt.
#[export] Hint Rewrite data_set_tail data_set_aof : shrt.

(** Operations change the fields the code changes and nothing else: the
    configuration of an instance never moves. *)
Definition same_config (i j : Inner) : Prop :=
  instance i = instance j /\ prefix i = prefix j /\ dir i = dir j /\
  own_name i = own_name j /\ lock i = lock j.

#[export] Instance same_config_equiv : Equivalence same_config.
Proof. unfold same_config. split; red; intuition congruence. Qed.

Lemma config_data_insert c e i : same_config (data_insert c e i) i. Proof. done. Qed.
Lemma config_data_erase c i : same_config (data_erase c i) i. Proof. done. Qed.
Lemma config_dirty_bump c i : same_config (dirty_bump c i) i. Proof. done. Qed.
Lemma config_set_tail x i : same_config (set_tail x i) i. Proof. done. Qed.
Lemma config_set_aof x i : same_config (set_aof x i) i. Proof. done. Qed.
#[export] Hint Resolve config_data_insert config_data_erase config_dirty_bump config_set_tail
  config_set_aof : shrt.

Section Spec.
Context {std : StdImpl} (os : Os) (env : Env).

(** ** Folding lines *)

(** [apply] keeps the index well formed and touches neither the
    configuration nor the log nor the readers. *)
Lemma apply_frame inn o stray :
  inner_wf inn ->
  let i' := fst (apply inn o stray) in
  inner_wf i' /\ same_config i' inn /\ aof i' = aof inn /\ tail i' = tail inn.
Proof.
  intros H. unfold apply. repeat case_match; simpl; split_and!; auto 6 with shrt; done.
Qed.

Lemma apply_lines_frame ls : forall st,
  inner_wf (fst st) ->
  let i' := fst (apply_lines ls st) in
  inner_wf i' /\ same_config i' (fst st) /\ aof i' = aof (fst st) /\ tail i' = tail (fst st).
Proof.
  induction ls as [|l ls IH]; intros st H; simpl; [done|].
  assert (H1 : inner_wf (fst (apply_line st l)) /\ same_config (fst (apply_line st l)) (fst st) /\
               aof (fst (apply_line st l)) = aof (fst st) /\ tail (fst (apply_line st l)) = tail (fst st)).
  { unfold apply_line. destruct (parse_op l); [by apply apply_frame|done]. }
  destruct H1 as (H1 & H2 & H3 & H4).
  destruct (IH (apply_line st l) H1) as (? & Hc & -> & ->). split_and!; auto. by etrans.
Qed.

Lemma feed_frame ls inn :
  inner_wf inn ->
  inner_wf (feed ls inn) /\ same_config (feed ls inn) inn /\ aof (feed ls inn) = aof inn /\
  tl_readers (tail (feed ls inn)) = tl_readers (tail inn).
Proof.
  intros H. unfold feed. pose proof (apply_lines_frame ls (inn, tl_stray (tail inn)) H) as HH.
  destruct (apply_lines ls (inn, tl_stray (tail inn))) as [i' stray']. simpl in *.
  destruct HH as (? & ? & ? & ->). split_and!; auto with shrt.
Qed.

Lemma feed_nil inn : feed [] inn = inn.
Proof. unfold feed. simpl. by destruct inn as [? [] ? ? ? ? ? ? ?]. Qed.

(** Generic preservation of a property of worlds along a fold. *)
Lemma fold_left_preserves {A B} (P : A -> Prop) (f : A -> B -> A) l :
  (forall a b, P a -> P (f a b)) -> forall a, P a -> P (fold_left f l a).
Proof. intros Hf. induction l as [|b l IH]; simpl; auto. Qed.

Lemma poll_one_wf w nt : wf w -> wf (poll_one os w nt).
Proof.
  intros H. unfold poll_one. destruct (read_new os (snd nt) (sys w)) as [[ls t'] s'].
  unfold wf. simpl. apply feed_frame. by apply wf_set_tail.
Qed.

Lemma new_reader_wf inn f : inner_wf inn -> inner_wf (new_reader inn f).
Proof. intros H. unfold new_reader. case_match; [done|]. by apply wf_set_tail. Qed.

Lemma poll_locked_wf w : wf w -> wf (poll_locked os w).
Proof.
  intros H. unfold poll_locked. simpl.
  unfold wf. simpl. apply wf_set_tail.
  apply (fold_left_preserves wf (poll_one os)); [intros; by apply poll_one_wf|].
  unfold wf. simpl. by apply (fold_left_preserves inner_wf), H; intros; apply new_reader_wf.
Qed.

Lemma tail_missed_wf code w : wf w -> wf (tail_missed os code w).
Proof.
  intros H. unfold tail_missed. destruct code as [|c0 code]; [done|].
  destruct (aof (inner w)); [|done]. case_match.
  - simpl. unfold wf. simpl. by apply wf_set_tail, poll_one_wf.
  - simpl. case_match; [|done]. by apply poll_locked_wf.
Qed.

(** ** Log plumbing *)
Lemma aof_push_wf l w : wf w -> wf (aof_push l w).
Proof. intros H. unfold aof_push. case_match; [|done]. by apply wf_set_aof. Qed.
Lemma aof_push_raw_wf l w : wf w -> wf (aof_push_raw l w).
Proof. intros H. unfold aof_push_raw. case_match; [|done]. by apply wf_set_aof. Qed.
Lemma aof_flush_if_full_wf w : wf w -> wf (aof_flush_if_full os w).
Proof.
  intros H. unfold aof_flush_if_full. case_match; [|done]. case_match; [|done].
  destruct (flush os _ _). by apply wf_set_aof.
Qed.

Lemma data_aof_push l w : data (inner (aof_push l w)) = data (inner w).
Proof. unfold aof_push. by case_match. Qed.
Lemma data_aof_push_raw l w : data (inner (aof_push_raw l w)) = data (inner w).
Proof. unfold aof_push_raw. by case_match. Qed.
Lemma data_flush_if_full w : data (inner (aof_flush_if_full os w)) = data (inner w).
Proof. unfold aof_flush_if_full. repeat case_match; try done. Qed.

(** ** Codes *)
Lemma rng_next_range st : 0 <= st < 2 ^ 64 ->
  0 <= fst (rng_next st) < 2 ^ 64 /\ 0 <= snd (rng_next st) < 2 ^ 64.
Proof.
  intros H. unfold rng_next. simpl. split; [|apply u64_range].
  set (x := u64 _). assert (Hx : 0 <= x < 2 ^ 64) by apply u64_range.
  pose proof (Z.shiftr_nonneg x 27) as Hs. split; [apply Z.lxor_nonneg; lia|].
  destruct (Z.eq_dec (Z.lxor x (Z.shiftr x 27)) 0) as [->|Hne]; [lia|].
  apply Z.log2_lt_pow2; [apply Z.le_neq; split; [apply Z.lxor_nonneg; lia|congruence]|].
  eapply Z.le_lt_trans; [apply Z.log2_lxor; lia|].
  assert (Hl : forall y, 0 <= y < 2 ^ 64 -> Z.log2 y < 64).
  { intros y Hy. destruct (Z.eq_dec y 0) as [->|]; [done|]. apply Z.log2_lt_pow2; lia. }
  apply Z.max_lub_lt; apply Hl; [done|]. split; [lia|].
  rewrite Z.shiftr_div_pow2 by lia. eapply Z.le_lt_trans; [apply Z.div_le_upper_bound with (q := x)|]; nia.
Qed.

Lemma gen_suffix_spec n : forall st,
  length (fst (gen_suffix n st)) = n /\ Forall (fun c => c ∈ Base62.ALPHABET) (fst (gen_suffix n st)).
Proof.
  induction n as [|n IH]; intros st; cbn [gen_suffix]; [done|].
  destruct (rng_next st) as [st1 r]. specialize (IH st1).
  destruct (gen_suffix n st1) as [s st2]. simpl in *. destruct IH as [-> IH]. split; [done|].
  constructor; [|done]. apply Base62.alpha_in. apply Z.mod_pos_bound. done.
Qed.

(** The shape of a generated code. *)
Definition code_shape (p : ascii) (c : bytes) : Prop :=
  length c = Base62.CODE_LEN /\ head c = Some p /\ Forall (fun x => x ∈ Base62.ALPHABET) (tl c).

Lemma gen_code_shape inn st : code_shape (prefix inn) (fst (gen_code inn st)).
Proof.
  unfold gen_code, code_shape. pose proof (gen_suffix_spec (Base62.CODE_LEN - 1) st) as [Hl Hf].
  destruct (gen_suffix (Base62.CODE_LEN - 1) st) as [s st']. simpl in *. by rewrite Hl.
Qed.

Lemma gen_free_spec fuel inn : forall st c st',
  gen_free fuel inn st = Some (c, st') -> find inn c = None /\ code_shape (prefix inn) c.
Proof.
  induction fuel as [|f IH]; intros st c st'; cbn [gen_free]; [done|].
  pose proof (gen_code_shape inn st) as Hs.
  destruct (gen_code inn st) as [c0 st0]. destruct (find inn c0) eqn:E; [apply IH|].
  intros [= -> ->]. done.
Qed.

(** The [n]-th code a generator [g] would draw. *)
Fixpoint nth_draw (g : Z -> bytes * Z) (n : nat) (st : Z) : bytes :=
  match n with
  | O => fst (g st)
  | S n' => nth_draw g n' (snd (g st))
  end.

Lemma nth_draw_0 g st : nth_draw g 0 st = fst (g st).
Proof. reflexivity. Qed.
Lemma nth_draw_S g n st : nth_draw g (S n) st = nth_draw g n (snd (g st)).
Proof. reflexivity. Qed.

Lemma gen_free_S f inn st :
  gen_free (S f) inn st =
    match find inn (fst (gen_code inn st)) with
    | Some _ => gen_free f inn (snd (gen_code inn st))
    | None => Some (gen_code inn st)
    end.
Proof. cbn [gen_free]. by destruct (gen_code inn st). Qed.

(** The retry loop ends as soon as one draw is free. *)
Lemma gen_free_terminates n : forall fuel inn st,
  (n < fuel)%nat -> find inn (nth_draw (gen_code inn) n st) = None -> is_Some (gen_free fuel inn st).
Proof.
  induction n as [|n IH]; intros [|fuel] inn st Hlt Hn; try lia; rewrite gen_free_S.
  - rewrite nth_draw_0 in Hn. by rewrite Hn.
  - rewrite nth_draw_S in Hn.
    destruct (find inn (fst (gen_code inn st))); [|done]. by apply IH; [lia|].
Qed.

(** ** The write path *)

(** The log side of an operation leaves the index alone. *)
Lemma shorten_log_frame code url now exp w :
  wf w ->
  let w' := shorten_log os code url now exp w in
  wf w' /\ data (inner w') = data (inner w) /\ same_config (inner w') (inner w) /\
  links_total w' = i64 (links_total w + 1) /\ rng w' = rng w.
Proof.
  intros H. unfold shorten_log. simpl. split_and!.
  - by apply aof_flush_if_full_wf, aof_push_wf.
  - by rewrite data_flush_if_full, data_aof_push.
  - unfold aof_flush_if_full, aof_push. repeat case_match; done.
  - unfold aof_flush_if_full, aof_push. repeat case_match; done.
  - unfold aof_flush_if_full, aof_push. repeat case_match; done.
Qed.

(** The clock reading an operation starts with. *)
Definition now_of (w : World) : Z := fst (now_ms os (sys w)).

(** [shorten] on every branch. *)
Lemma shorten_spec fuel url alias ttl w :
  wf w ->
  match shorten os fuel url alias ttl w with
  | OutOfFuel => alias = None /\ gen_free fuel (inner w) (rng w) = None
  | Done None w' =>
      (exists c, alias = Some c /\ is_Some (data (inner w) !! c)) /\
      inner w' = inner w /\ links_total w' = links_total w
  | Done (Some c) w' =>
      data (inner w) !! c = None /\ (alias = Some c \/ alias = None /\ code_shape (prefix (inner w)) c) /\
      data (inner w') = <[c := new_entry (inner w) url (now_of w) (expiry (now_of w) ttl)]> (data (inner w)) /\
      wf w' /\ same_config (inner w') (inner w) /\ links_total w' = i64 (links_total w + 1)
  end.
Proof.
  intros H. unfold shorten, now_of. simpl. set (now := i64 _).
  destruct alias as [c|].
  - destruct (find (inner w) c) as [e|] eqn:E.
    + split; [|done]. exists c. rewrite data_find by done. rewrite E. split; eauto.
    + rewrite data_find by done.
      match goal with |- context [shorten_log os _ _ _ _ ?w1] =>
        pose proof (shorten_log_frame c url now (expiry now ttl) w1) as HH end.
      cbv zeta in HH. destruct HH as (Hwf & Hd & Hcfg & Hl & _).
      { unfold wf. simpl. by apply data_insert_wf. }
      split_and!; auto. rewrite Hd. simpl. by rewrite data_data_insert.
  - destruct (gen_free fuel (inner w) (rng w)) as [[c st]|] eqn:E; [|done].
    apply gen_free_spec in E as [Hn Hs].
    match goal with |- context [shorten_log os _ _ _ _ ?w1] =>
      pose proof (shorten_log_frame c url now (expiry now ttl) w1) as HH end.
    cbv zeta in HH. destruct HH as (Hwf & Hd & Hcfg & Hl & _).
    { unfold wf. simpl. by apply data_insert_wf. }
    rewrite data_find by done. split_and!; auto. rewrite Hd. simpl. by rewrite data_data_insert.
Qed.

(** The rows [shorten_many] adds for codes paired with urls. *)
Definition many_rows (inn : Inner) (now exp : Z) (cus : list (bytes * bytes))
  (m : gmap bytes Entry) : gmap bytes Entry :=
  fold_left (fun m cu => <[fst cu := new_entry inn (snd cu) now exp]> m) cus m.

Lemma shorten_each_spec fuel now exp urls : forall codes lines w codes' lines' w',
  wf w -> shorten_each fuel urls now exp codes lines w = Some (codes', lines', w') ->
  exists cs, codes' = codes ++ cs /\ length cs = length urls /\ NoDup cs /\
    Forall (fun c => data (inner w) !! c = None /\ code_shape (prefix (inner w)) c) cs /\
    data (inner w') = many_rows (inner w) now exp (zip cs urls) (data (inner w)) /\
    lines' = lines ++
      match aof (inner w) with
      | Some _ => frame (zip_with (fun c u => row_line c u now exp (instance (inner w)) 0) cs urls)
      | None => []
      end /\
    wf w' /\ same_config (inner w') (inner w) /\ aof (inner w') = aof (inner w) /\
    sys w' = sys w /\ links_total w' = links_total w.
Proof.
  induction urls as [|u us IH]; intros codes lines w codes' lines' w' Hwf; cbn [shorten_each].
  { intros [= <- <- <-]. exists []. rewrite !app_nil_r. split_and!; auto; try constructor; try done.
    destruct (aof (inner w)); by rewrite app_nil_r. }
  destruct (gen_free fuel (inner w) (rng w)) as [[cb st]|] eqn:E; [|done].
  apply gen_free_spec in E as [Hn Hs]. simpl.
  set (w1 := with_inner _ _). intros Hrun.
  assert (Hwf1 : wf w1) by (unfold wf, w1; simpl; by apply data_insert_wf).
  assert (Hd1 : data (inner w1) = <[cb := new_entry (inner w) u now exp]> (data (inner w)))
    by (unfold w1; simpl; by rewrite data_data_insert).
  specialize (IH _ _ _ _ _ _ Hwf1 Hrun) as (cs & -> & Hlen & Hnd & Hall & Hdata & -> & ? & ? & ? & ? & ?).
  exists (cb :: cs). rewrite <- app_assoc. rewrite <- (data_find (inner w) cb Hwf) in Hn.
  assert (Hfree : Forall (fun c => data (inner w) !! c = None /\ c ≠ cb) cs).
  { eapply Forall_impl; [exact Hall|]. cbv beta. intros c [Hc _].
    rewrite Hd1, lookup_insert in Hc. case_decide; naive_solver. }
  split_and!; simpl; auto.
  - constructor; [|done]. intros Hin. rewrite Forall_forall in Hfree. by apply Hfree in Hin as [_ ?].
  - constructor; [done|]. rewrite Forall_forall in *. intros c Hc.
    destruct (Hall c Hc) as [_ ?]. destruct (Hfree c Hc) as [? _]. done.
  - by rewrite Hdata, Hd1.
  - unfold w1. simpl. destruct (aof (inner w)); [|by rewrite app_nil_r].
    rewrite row_line_into_app. unfold frame. simpl. by rewrite <- !app_assoc.
Qed.

(** The code of a row, and a code not in the list. *)
Lemma many_rows_lookup_ne inn now exp c cus m :
  c ∉ cus.*1 -> many_rows inn now exp cus m !! c = m !! c.
Proof.
  unfold many_rows. revert m. induction cus as [|[c' u] cus IH]; intros m Hc; simpl; [done|].
  simpl in Hc. apply not_elem_of_cons in Hc as [? ?]. rewrite IH by done. by rewrite lookup_insert_ne.
Qed.

Lemma many_rows_lookup inn now exp c u cus m :
  NoDup cus.*1 -> (c, u) ∈ cus -> many_rows inn now exp cus m !! c = Some (new_entry inn u now exp).
Proof.
  revert m. induction cus as [|[c' u'] cus IH]; intros m Hnd Hin; simpl in *; [set_solver|].
  apply NoDup_cons in Hnd as [Hc' Hnd]. apply elem_of_cons in Hin as [[= <- <-]|Hin].
  - change (many_rows inn now exp cus (<[c := new_entry inn u now exp]> m) !! c = Some (new_entry inn u now exp)).
    rewrite many_rows_lookup_ne by done. by rewrite lookup_insert_eq.
  - by apply IH.
Qed.


Lemma fst_zip_cs (cs urls : list bytes) : length cs = length urls -> (zip cs urls).*1 = cs.
Proof. intros H. apply fst_zip. lia. Qed.

Lemma shorten_many_spec fuel urls ttl w :
  wf w ->
  match shorten_many os fuel urls ttl w with
  | OutOfFuel => True
  | Done codes w' =>
      length codes = length urls /\ NoDup codes /\
      Forall (fun c => data (inner w) !! c = None /\ code_shape (prefix (inner w)) c) codes /\
      data (inner w') =
        many_rows (inner w) (now_of w) (expiry (now_of w) ttl) (zip codes urls) (data (inner w)) /\
      wf w' /\ same_config (inner w') (inner w) /\
      links_total w' = i64 (links_total w + Z.of_nat (length urls))
  end.
Proof.
  intros H. unfold shorten_many, now_of. simpl.
  set (now := i64 _). set (exp := expiry now ttl).
  destruct (shorten_each fuel urls now exp [] [] _) as [[[codes lines] w1]|] eqn:E; [|done].
  apply shorten_each_spec in E; [|done].
  destruct E as (cs & -> & Hlen & Hnd & Hall & Hd & _ & Hwf & Hcfg & _ & _ & Hl). simpl in *.
  split_and!; auto.
  - by rewrite data_flush_if_full, data_aof_push_raw.
  - by apply aof_flush_if_full_wf, aof_push_raw_wf.
  - etrans; [|exact Hcfg]. unfold aof_flush_if_full, aof_push_raw. repeat case_match; done.
  - rewrite <- Hlen, <- Hl. unfold aof_flush_if_full, aof_push_raw. repeat case_match; done.
Qed.

(** ** The read path *)
Lemma live_spec e s :
  fst (live os e s) = (e =? 0) || (fst (now_ms os s) <? e) /\ fs (snd (live os e s)) = fs s.
Proof. unfold live. simpl. by destruct (e =? 0). Qed.

Lemma count_hit_spec code e w :
  wf w -> find (inner w) code = Some e ->
  let w' := count_hit env code e w in
  wf w' /\ same_config (inner w') (inner w) /\ aof (inner w') = aof (inner w) /\ sys w' = sys w /\
  data (inner w') = (if track_hits env then <[code := add_hits e 1 true]> (data (inner w))
                     else data (inner w)) /\
  forall c, dirty_of (inner w') c =
    if track_hits env && (c =s code) then i64 (dirty_of (inner w) c + 1) else dirty_of (inner w) c.
Proof.
  intros H He. unfold count_hit, wf in *. destruct (track_hits env); simpl; [|done].
  split_and!; [auto with shrt|done|done|done|by autorewrite with shrt|].
  intros c. rewrite dirty_bump_of, dirty_insert by auto with shrt. repeat case_decide; case_bool_decide; naive_solver.
Qed.

(** A code of the index resolves to its url until it expires, and the hit is
    counted in the entry and in the dirty counter. *)
Lemma resolve_present code w e :
  wf w -> find (inner w) code = Some e ->
  let '(r, w') := resolve os env code w in
  wf w' /\
  if (e_e e =? 0) || (now_of w <? e_e e)
  then r = Some (e_u e) /\ inner w' = inner (count_hit env code e w)
  else r = None /\ inner w' = inner w.
Proof.
  intros H He. unfold resolve, now_of. rewrite He.
  destruct (live_spec (e_e e) (sys w)) as [Hl _].
  destruct (live os (e_e e) (sys w)) as [ok s]. simpl in *. subst ok.
  destruct ((e_e e =? 0) || _); [|done]. split.
  - by apply count_hit_spec.
  - unfold count_hit. by case_match.
Qed.

Lemma resolve_absent_memory code w :
  find (inner w) code = None -> aof (inner w) = None -> resolve os env code w = (None, w).
Proof. intros H Ha. unfold resolve. by rewrite H, Ha. Qed.

Lemma resolve_wf code w : wf w -> wf (snd (resolve os env code w)).
Proof.
  intros H. destruct (find (inner w) code) as [e|] eqn:E.
  - pose proof (resolve_present code w e H E) as HH. by destruct (resolve os env code w); destruct HH.
  - unfold resolve. rewrite E. destruct (aof (inner w)); [|done].
    pose proof (tail_missed_wf code w H) as Hw. set (w1 := tail_missed os code w) in *.
    destruct (find (inner w1) code) as [e|] eqn:E1; [|done].
    destruct (live os (e_e e) (sys w1)) as [ok s]. destruct ok; [|done]. by apply count_hit_spec.
Qed.

(** ** Mutations *)

(** The expiry [update] gives. *)
Definition update_expiry (ttl : Z) (has_ttl : bool) (old : Z) (w : World) : Z :=
  if has_ttl then expiry (now_of w) ttl else old.

Lemma update_spec code url ttl has_ttl w :
  wf w ->
  let '(r, w') := update os code url ttl has_ttl w in
  wf w' /\ same_config (inner w') (inner w) /\ links_total w' = links_total w /\
  match data (inner w) !! code with
  | None => r = MMissing /\ w' = w
  | Some e =>
      if e_i e =? instance (inner w) then
        r = MOk /\ data (inner w') =
          <[code := mkEntry url (e_a e) (update_expiry ttl has_ttl (e_e e) w) (e_i e) (e_h e) (e_oh e)]>
            (data (inner w))
      else r = MRemote /\ w' = w
  end.
Proof.
  intros H. unfold update. rewrite data_find by done.
  destruct (find (inner w) code) as [e|] eqn:E; [|done].
  destruct (e_i e =? instance (inner w)) eqn:Ei; simpl; [|done].
  unfold update_expiry, expiry, now_of. destruct has_ttl; [destruct (0 <? ttl)|]; simpl;
    (split_and!; [by apply aof_push_wf, data_insert_wf|unfold aof_push; by case_match|
      unfold aof_push; by case_match|done|rewrite data_aof_push; simpl; by rewrite data_data_insert]).
Qed.

Lemma remove_spec code w :
  wf w ->
  let '(r, w') := remove code w in
  wf w' /\ same_config (inner w') (inner w) /\
  match data (inner w) !! code with
  | None => r = MMissing /\ w' = w
  | Some e =>
      if e_i e =? instance (inner w) then
        r = MOk /\ data (inner w') = delete code (data (inner w)) /\
        links_total w' = i64 (links_total w - 1)
      else r = MRemote /\ w' = w
  end.
Proof.
  intros H. unfold remove. rewrite data_find by done.
  destruct (find (inner w) code) as [e|] eqn:E; [|done].
  destruct (e_i e =? instance (inner w)) eqn:Ei; simpl; [|done].
  split_and!; [by apply aof_push_wf, data_erase_wf|unfold aof_push; by case_match|done|..].
  - rewrite data_aof_push. simpl. by rewrite data_data_erase.
  - unfold aof_push. by case_match.
Qed.

(** ** Flushing *)
Lemma flush_store_frame w :
  wf w ->
  let w' := flush_store os w in
  wf w' /\ same_config (inner w') (inner w) /\ data (inner w') = data (inner w) /\
  links_total w' = links_total w.
Proof.
  intros H. unfold flush_store. destruct (aof (inner w)) as [a|]; [|done].
  destruct (flush os _ _) as [a' s']. simpl. split_and!; try done.
  - unfold wf. simpl. by apply wf_set_aof, clear_dirty_wf.
  - autorewrite with shrt. apply data_clear_dirty.
Qed.

Lemma compact_frame w :
  wf w ->
  let w' := compact os w in
  wf w' /\ same_config (inner w') (inner w) /\ data (inner w') = data (inner w).
Proof.
  intros H. unfold compact. destruct (aof (inner w)) as [a|] eqn:Ea; [|done]. simpl.
  destruct (flush_store_frame w H) as (Hw & Hc & Hd & _).
  destruct (aof (inner (flush_store os w))) as [a1|]; [|done].
  destruct (truncate os a1 _) as [a' s']. simpl. split_and!; [by apply wf_set_aof|done|done].
Qed.

End Spec.
