(* ===== verification/StoreClaims.v ===== *)
(** * The claims about the single operations of the log store *)

From S2P Require Import Prelude CLib Common Codec Aof Store StoreFacts StoreSpec.

(** Everything but one code is untouched. *)
Definition unchanged_but (c : bytes) (i j : Inner) : Prop := forall c', c' ≠ c -> find j c' = find i c'.

Lemma unchanged_insert c e i j :
  inner_wf i -> inner_wf j -> data j = <[c := e]> (data i) -> find j c = Some e /\ unchanged_but c i j.
Proof.
  intros Hi Hj Hd. split; [rewrite <- data_find by done; by rewrite Hd, lookup_insert_eq|].
  intros c' Hne. rewrite <- !data_find by done. by rewrite Hd, lookup_insert_ne.
Qed.

Lemma unchanged_delete c i j :
  inner_wf i -> inner_wf j -> data j = delete c (data i) -> find j c = None /\ unchanged_but c i j.
Proof.
  intros Hi Hj Hd. split; [rewrite <- data_find by done; by rewrite Hd, lookup_delete_eq|].
  intros c' Hne. rewrite <- !data_find by done. by rewrite Hd, lookup_delete_ne.
Qed.

(** A well-formed world to instantiate the claims at. *)
Definition mem_world : World := mkWorld Inner0 RefSys 88172645463325252 0.
Lemma mem_world_wf : wf mem_world. Proof. by apply fresh_wf. Qed.

(** C17 [shorten] adds exactly one link. With a free alias it is that code,
    with a taken one nothing changes and nothing is returned, without an
    alias it is a fresh code of eight characters that starts with the
    instance's own; the new entry has the url, the owner, no hits, and
    expires [ttl] after the creation or, for [ttl <= 0], never; no other
    code changes and [LINKS_TOTAL] grows by one. *)
Theorem shorten_correct os fuel url alias ttl w :
  wf w ->
  match shorten os fuel url alias ttl w with
  | OutOfFuel => alias = None
  | Done None w' =>
      (exists c, alias = Some c /\ is_Some (find (inner w) c)) /\ inner w' = inner w /\
      links_total w' = links_total w
  | Done (Some c) w' =>
      find (inner w) c = None /\
      (alias = Some c \/ alias = None /\ length c = 8%nat /\ head c = Some (prefix (inner w))) /\
      find (inner w') c =
        Some (mkEntry url (now_of os w) (if 0 <? ttl then i64 (now_of os w + ttl) else 0)
                (instance (inner w)) 0 0) /\
      unchanged_but c (inner w) (inner w') /\ wf w' /\ links_total w' = i64 (links_total w + 1)
  end.
Proof.
  intros H. pose proof (shorten_spec os fuel url alias ttl w H) as HH.
  destruct (shorten os fuel url alias ttl w) as [[c|] w'|].
  - destruct HH as (Hn & Ha & Hd & Hwf & _ & Hl). rewrite data_find in Hn by done.
    destruct (unchanged_insert _ _ _ _ H Hwf Hd) as [Hf Hu]. split_and!; try done.
    destruct Ha as [|(? & H1 & ? & _)]; [by left|right; split; [done|]; split; [exact H1|done]].
  - destruct HH as ((c & Ha & Hs) & HH). rewrite data_find in Hs by done. split; [eauto|done].
  - by destruct HH.
Qed.

Lemma shorten_correct_witness :
  wf mem_world /\
  match shorten RefOs 5 (B "https://a.b/c") (Some (B "x")) 60 mem_world with
  | Done (Some c) w' => c = B "x" /\ is_Some (find (inner w') c)
  | _ => False
  end.
Proof.
  pose proof (shorten_correct RefOs 5 (B "https://a.b/c") (Some (B "x")) 60 mem_world mem_world_wf) as H.
  split; [exact mem_world_wf|]. unfold shorten in *. simpl in *.
  destruct H as (_ & _ & Hf & _). split; [done|]. by rewrite Hf.
Defined.

(** The search for a free code ends: when one of the first [fuel] codes
    the generator would draw is not in the index, [shorten] without an alias
    succeeds. *)
Theorem shorten_returns os fuel n url ttl w :
  (n < fuel)%nat -> find (inner w) (nth_draw (gen_code (inner w)) n (rng w)) = None ->
  exists c w', shorten os fuel url None ttl w = Done (Some c) w'.
Proof.
  intros Hn Hf. pose proof (gen_free_terminates n fuel (inner w) (rng w) Hn Hf) as [[c st] Hg].
  unfold shorten. cbn [now_ms]. change (inner (with_sys ?s w)) with (inner w).
  change (rng (with_sys ?s w)) with (rng w). rewrite Hg. eauto.
Qed.

Lemma shorten_returns_witness :
  exists c w', shorten RefOs 1 (B "https://a.b/c") None 0 mem_world = Done (Some c) w'.
Proof.
  apply (shorten_returns RefOs 1 0 (B "https://a.b/c") 0 mem_world); [lia|].
  rewrite <- data_find by exact mem_world_wf. rewrite data_fresh by reflexivity. apply lookup_empty.
Defined.

(** A batch behaves like its urls shortened one after the other: as many
    codes as urls, all different and all new, each with its own url in the
    index, the other codes untouched, [LINKS_TOTAL] up by the batch. *)
Theorem shorten_many_correct os fuel urls ttl w :
  wf w ->
  match shorten_many os fuel urls ttl w with
  | OutOfFuel => True
  | Done codes w' =>
      length codes = length urls /\ NoDup codes /\
      (forall k c u, codes !! k = Some c -> urls !! k = Some u ->
         find (inner w) c = None /\ code_shape (prefix (inner w)) c /\
         find (inner w') c = Some (new_entry (inner w) u (now_of os w) (expiry (now_of os w) ttl))) /\
      (forall c, c ∉ codes -> find (inner w') c = find (inner w) c) /\
      wf w' /\ links_total w' = i64 (links_total w + Z.of_nat (length urls))
  end.
Proof.
  intros H. pose proof (shorten_many_spec os fuel urls ttl w H) as HH.
  destruct (shorten_many os fuel urls ttl w) as [codes w'|]; [|done].
  destruct HH as (Hlen & Hnd & Hall & Hd & Hwf & _ & Hl). split_and!; try done.
  - intros k c u Hc Hu. rewrite Forall_forall in Hall.
    destruct (Hall c) as [Hn Hs]; [by eapply list_elem_of_lookup_2|].
    rewrite <- !data_find by done. split_and!; try done. rewrite Hd.
    apply many_rows_lookup; [by rewrite fst_zip_cs|].
    apply list_elem_of_lookup. exists k. rewrite lookup_zip_with, Hc. simpl. by rewrite Hu.
  - intros c Hc. rewrite <- !data_find by done. rewrite Hd, many_rows_lookup_ne; [done|]. by rewrite fst_zip_cs.
Qed.

Lemma shorten_many_correct_witness :
  wf mem_world /\ match shorten_many RefOs 5 [] 60 mem_world with
                  | Done codes _ => codes = [] | OutOfFuel => False end.
Proof.
  split; [exact mem_world_wf|].
  pose proof (shorten_many_correct RefOs 5 [] 60 mem_world mem_world_wf) as H.
  unfold shorten_many in *. simpl in *. by destruct H as (H & _).
Defined.

(** C18 A code in the index resolves to its url exactly while it has not
    expired (no expiry, or the clock strictly before it). A successful
    lookup, with hit counting on, adds one to the entry's hits, to its own
    hits and to the counter waiting to be logged, and to those of no other
    code; an expired one changes nothing. *)
Theorem resolve_correct {std : StdImpl} os env code w e :
  wf w -> find (inner w) code = Some e ->
  let '(r, w') := resolve os env code w in
  wf w' /\
  if (e_e e =? 0) || (now_of os w <? e_e e) then
    r = Some (e_u e) /\ unchanged_but code (inner w) (inner w') /\
    find (inner w') code = Some (if track_hits env then add_hits e 1 true else e) /\
    forall c, dirty_of (inner w') c =
      if track_hits env && (c =s code) then i64 (dirty_of (inner w) c + 1) else dirty_of (inner w) c
  else r = None /\ inner w' = inner w.
Proof.
  intros H He. pose proof (resolve_present os env code w e H He) as HH.
  destruct (resolve os env code w) as [r w']. destruct HH as [Hwf HH]. split; [done|].
  case_match; [|done]. destruct HH as [-> Hi]. split; [done|].
  destruct (count_hit_spec env code e w H He) as (_ & _ & _ & _ & Hd & Hdirty).
  rewrite <- Hi in *. unfold wf in Hwf. destruct (track_hits env).
  - destruct (unchanged_insert _ _ _ _ H Hwf Hd). by split_and!.
  - assert (Heq : forall c, find (inner w') c = find (inner w) c)
      by (intros c; rewrite <- !data_find by done; by rewrite Hd).
    split; [intros c _; apply Heq|]. rewrite Heq. by split.
Qed.

(** One link that expires at 5000, and a clock that says 1000. *)
Definition one_link : World :=
  with_inner (data_insert (B "x") (mkEntry (B "https://a.b/c") 900 5000 0 0 0)) mem_world.
Lemma one_link_wf : wf one_link. Proof. apply data_insert_wf, mem_world_wf. Qed.
Lemma one_link_find : find (inner one_link) (B "x") = Some (mkEntry (B "https://a.b/c") 900 5000 0 0 0).
Proof. unfold one_link. simpl. rewrite find_insert by exact mem_world_wf. by case_decide. Qed.

Lemma resolve_correct_witness :
  fst (resolve (std := RefStd) RefOs (fun _ => None) (B "x") one_link) = Some (B "https://a.b/c").
Proof.
  pose proof (resolve_correct (std := RefStd) RefOs (fun _ => None) (B "x") one_link _ one_link_wf one_link_find) as H.
  destruct (resolve RefOs (fun _ => None) (B "x") one_link) as [r w']. simpl in H.
  by destruct H as (_ & -> & _).
Defined.

(** C19 [update] changes the url of a link and nothing else of it but the
    expiry, which stays without a ttl, is [now + ttl] for a positive one and
    "never" otherwise; creation, owner and hits stay. A missing code, or one
    another instance owns, is refused and changes nothing. *)
Theorem update_correct os code url ttl has_ttl w :
  wf w ->
  let '(r, w') := update os code url ttl has_ttl w in
  wf w' /\ links_total w' = links_total w /\
  match find (inner w) code with
  | None => r = MMissing /\ w' = w
  | Some e =>
      if e_i e =? instance (inner w) then
        r = MOk /\ unchanged_but code (inner w) (inner w') /\
        exists exp, find (inner w') code = Some (mkEntry url (e_a e) exp (e_i e) (e_h e) (e_oh e)) /\
          exp = if has_ttl then (if 0 <? ttl then i64 (now_of os w + ttl) else 0) else e_e e
      else r = MRemote /\ w' = w
  end.
Proof.
  intros H. pose proof (update_spec os code url ttl has_ttl w H) as HH.
  destruct (update os code url ttl has_ttl w) as [r w']. destruct HH as (Hwf & _ & Hl & HH).
  rewrite data_find in HH by done. split_and!; try done.
  destruct (find (inner w) code) as [e|]; [|done]. case_match; [|done]. destruct HH as [-> Hd].
  destruct (unchanged_insert _ _ _ _ H Hwf Hd). split_and!; try done. by eexists.
Qed.

Lemma update_correct_witness :
  fst (update RefOs (B "x") (B "https://d.e/f") 60 true one_link) = MOk.
Proof.
  pose proof (update_correct RefOs (B "x") (B "https://d.e/f") 60 true one_link one_link_wf) as H.
  destruct (update RefOs (B "x") (B "https://d.e/f") 60 true one_link) as [r w'].
  rewrite one_link_find in H. by destruct H as (_ & _ & -> & _).
Defined.

(** [remove] deletes exactly the code, takes one from [LINKS_TOTAL], and
    refuses a missing code and a link of another instance. *)
Theorem remove_correct code w :
  wf w ->
  let '(r, w') := remove code w in
  wf w' /\
  match find (inner w) code with
  | None => r = MMissing /\ w' = w
  | Some e =>
      if e_i e =? instance (inner w) then
        r = MOk /\ find (inner w') code = None /\ unchanged_but code (inner w) (inner w') /\
        links_total w' = i64 (links_total w - 1)
      else r = MRemote /\ w' = w
  end.
Proof.
  intros H. pose proof (remove_spec code w H) as HH.
  destruct (remove code w) as [r w']. destruct HH as (Hwf & _ & HH).
  rewrite data_find in HH by done. split; [done|].
  destruct (find (inner w) code) as [e|]; [|done]. case_match; [|done]. destruct HH as (-> & Hd & Hl).
  destruct (unchanged_delete _ _ _ H Hwf Hd). by split_and!.
Qed.

Lemma remove_correct_witness : fst (remove (B "x") one_link) = MOk.
Proof.
  pose proof (remove_correct (B "x") one_link one_link_wf) as H.
  destruct (remove (B "x") one_link) as [r w']. rewrite one_link_find in H. by destruct H as (_ & -> & _).
Defined.

(** Two instances never generate the same code: their first characters
    are the digits of different instance numbers, whatever the state of
    their generators; and the first character of a code gives its owner
    back, which is where a miss looks for it. *)
Theorem generated_codes_disjoint i j st st' :
  0 <= instance i < Base62.MAX_INSTANCES -> 0 <= instance j < Base62.MAX_INSTANCES ->
  prefix i = Base62.alpha (instance i) -> prefix j = Base62.alpha (instance j) ->
  (instance i ≠ instance j -> fst (gen_code i st) ≠ fst (gen_code j st')) /\
  Base62.alpha_idx (default Ascii.zero (head (fst (gen_code i st)))) = instance i.
Proof.
  intros Hi Hj Pi Pj. destruct (gen_code_shape i st) as (_ & H1 & _), (gen_code_shape j st') as (_ & H2 & _).
  split.
  - intros Hne Heq. rewrite Heq, H2 in H1. injection H1 as H1. rewrite Pi, Pj in H1. apply Hne.
    symmetry. by apply Base62.alpha_inj.
  - rewrite H1. simpl. rewrite Pi. by apply Base62.alpha_idx_alpha.
Qed.

Lemma generated_codes_disjoint_witness :
  let j := mkInner (replicate NUM_SHARDS Shard0) Tail0 None 1 (Base62.alpha 1) [] [] [] false false in
  fst (gen_code Inner0 7) ≠ fst (gen_code j 7).
Proof.
  intros j. destruct (generated_codes_disjoint Inner0 j 7 7) as [H _];
    [by split|by split|done|done|by apply H].
Defined.

(** A page of [list] is that slice of one fixed enumeration of the
    links that match: every link whose code or url contains [q] once, each
    with its own url, hits and times, sorted from the most hits or from the
    newest; [total] counts them whatever the page. *)
Theorem list_correct {std : StdImpl} limit offset sort q w :
  wf w ->
  let '(page, total) := list_links limit offset sort q w in
  exists every : list Link,
    page = take limit (drop offset every) /\ total = length every /\
    every ≡ₚ map (fun ce => link_of (fst ce) (snd ce))
               (filter (fun ce => Is_true (matches q (fst ce) (e_u (snd ce)))) (map_to_list (data (inner w)))) /\
    StronglySorted (fun x y => (if sort =s B "hits" then l_hits y else l_created y) <=
                               (if sort =s B "hits" then l_hits x else l_created x)) every.
Proof.
  intros H. unfold list_links. set (items := map _ _).
  assert (Hperm : items ≡ₚ map (fun ce => link_of (fst ce) (snd ce))
    (filter (fun ce => Is_true (matches q (fst ce) (e_u (snd ce)))) (map_to_list (data (inner w)))))
    by (unfold items; apply Permutation_map; by rewrite (all_data_perm _ H)).
  set (every := if sort =s B "hits" then std_sort l_hits items else std_sort l_created items).
  assert (Hev : every ≡ₚ items) by (unfold every; case_match; apply std_sort_perm).
  assert (Hsort : StronglySorted (fun x y => (if sort =s B "hits" then l_hits y else l_created y) <=
                               (if sort =s B "hits" then l_hits x else l_created x)) every)
    by (unfold every; case_match; apply std_sort_sorted).
  destruct (length every <=? offset)%nat eqn:E; exists every; (split_and!; [|done|by etrans|done]).
  - apply Nat.leb_le in E. by rewrite drop_ge, take_nil.
  - apply Nat.leb_gt in E. destruct (decide (offset + limit <= length every)%nat).
    + f_equal. lia.
    + rewrite !take_ge; [done|rewrite length_drop; lia..].
Qed.

Lemma list_correct_witness :
  snd (list_links (std := RefStd) 10 0 (B "hits") (B "a.b") one_link) = 1%nat.
Proof.
  pose proof (list_correct (std := RefStd) 10 0 (B "hits") (B "a.b") one_link one_link_wf) as H.
  destruct (list_links 10 0 (B "hits") (B "a.b") one_link) as [page total].
  destruct H as (every & _ & -> & Hp & _). simpl. rewrite (Permutation_length Hp), length_map.
  unfold one_link. simpl. rewrite data_data_insert by exact mem_world_wf. by rewrite data_fresh.
Defined.

(** A stopped process does not lose counts twice: [close] run again
    changes nothing, and the first run gives the lock file back. *)
Theorem close_idempotent {std : StdImpl} os w :
  close_store os (close_store os w) = close_store os w /\
  (closed (inner w) = false -> lock (inner w) ≠ [] ->
     content (sys (close_store os w)) (lock (inner w)) = None).
Proof.
  assert (Hc : closed (inner (close_store os w)) = true).
  { unfold close_store. destruct (closed (inner w)) eqn:E; [done|].
    unfold flush_store. simpl. destruct (aof (inner w)) as [a|] eqn:Ea; simpl; rewrite ?Ea; simpl.
    - destruct (flush os _ _) as [a1 s1]. simpl. destruct (close os a1 s1) as [a2 s2]. by case_match.
    - by case_match. }
  split; [unfold close_store at 1; by rewrite Hc|]. intros Hcl Hl. unfold close_store. rewrite Hcl.
  unfold flush_store. simpl. destruct (aof (inner w)) as [a|] eqn:Ea; simpl; rewrite ?Ea; simpl.
  - destruct (flush os _ _) as [a1 s1]. simpl. destruct (close os a1 s1) as [a2 s2]. simpl.
    rewrite bool_decide_eq_false_2 by done. simpl. autorewrite with shrt. by rewrite lookup_delete_eq.
  - rewrite bool_decide_eq_false_2 by done. simpl. autorewrite with shrt. by rewrite lookup_delete_eq.
Qed.
