(* ===== verification/Durability.v ===== *)
(** * The log as the truth: replaying it rebuilds the links

    The abstract state of the store is a table from codes to rows; a log is
    a list of records and means the table its replay builds. The file shows
    that [apply] implements that meaning, that every operation of an
    instance keeps (snapshot, log, buffer) a description of its table, and
    that opening the directory again rebuilds it. *)

From S2P Require Import Prelude CLib Common Codec Aof Store StoreFacts StoreSpec.

(** ** The abstract table *)
Record LinkRow := mkRow { r_u : bytes; r_a : Z; r_e : Z; r_i : Z }.
Abbreviation Table := (gmap bytes LinkRow).

Definition row_of (e : Entry) : LinkRow := mkRow (e_u e) (e_a e) (e_e e) (e_i e).
Definition table (i : Inner) : Table := row_of <$> data i.

(** The meaning of a record. *)
Definition t_rec (t : Table) (r : LogRec) : Table :=
  match r with
  | Row c u a e i n => <[c := mkRow u a e (i32 i)]> t
  | Hit _ _ _ => t
  | Del c => delete c t
  end.

Definition replay_table (rs : list LogRec) : Table := fold_left t_rec rs ∅.

Lemma replay_table_app a b : replay_table (a ++ b) = fold_left t_rec b (replay_table a).
Proof. unfold replay_table. apply fold_left_app. Qed.

Lemma replay_table_snoc rs r : replay_table (rs ++ [r]) = t_rec (replay_table rs) r.
Proof. by rewrite replay_table_app. Qed.

(** Records of hits mean nothing for the table. *)
Definition is_hit (r : LogRec) : Prop := match r with Hit _ _ _ => True | _ => False end.

Lemma replay_table_hits rs hs : Forall is_hit hs -> replay_table (rs ++ hs) = replay_table rs.
Proof.
  intros H. rewrite replay_table_app. generalize (replay_table rs).
  induction H as [|r hs Hr _ IH]; intros t; simpl; [done|]. by destruct r.
Qed.

Lemma table_insert c e i : inner_wf i -> table (data_insert c e i) = <[c := row_of e]> (table i).
Proof. intros H. unfold table. by rewrite data_data_insert, fmap_insert. Qed.

Lemma table_erase c i : inner_wf i -> table (data_erase c i) = delete c (table i).
Proof. intros H. unfold table. by rewrite data_data_erase, fmap_delete. Qed.

(** Writing back an entry with other counters leaves the table alone. *)
Lemma table_insert_same c e e' i :
  inner_wf i -> find i c = Some e -> row_of e' = row_of e -> table (data_insert c e' i) = table i.
Proof.
  intros H Hf Hr. rewrite table_insert by done. apply insert_id.
  unfold table. by rewrite lookup_fmap, data_find, Hf, Hr.
Qed.

Section Durability.
Context {std : StdImpl}.

(** ** [apply] implements the meaning of a record *)
Lemma apply_op_of inn r stray :
  inner_wf inn -> rec_ok r -> table (fst (apply inn (op_of r) stray)) = t_rec (table inn) r.
Proof.
  intros H Hr. unfold apply. destruct r as [c u a e i n|c d i|c]; simpl in *.
  - assert (c ≠ []) by (by destruct Hr as [[? _] _]). rewrite bool_decide_eq_false_2 by done. simpl.
    rewrite table_insert by auto with shrt. unfold row_of. simpl.
    assert ((if negb (e =? 0) then e else 0) = e) as -> by (destruct (e =? 0) eqn:E; simpl; lia).
    rewrite table_erase by done. by rewrite insert_delete_eq.
  - assert (c ≠ []) by (by destruct Hr as [[? _] _]).
    rewrite bool_decide_eq_false_2 by done. simpl.
    destruct (find inn c) as [e|] eqn:E; [|done]. simpl. by eapply table_insert_same.
  - assert (c ≠ []) by (by destruct Hr as [? _]).
    rewrite bool_decide_eq_false_2 by done. simpl. by apply table_erase.
Qed.

Lemma apply_lines_table rs : forall st,
  inner_wf (fst st) -> Forall rec_ok rs ->
  table (fst (apply_lines (map line_of rs) st)) = fold_left t_rec rs (table (fst st)).
Proof.
  induction rs as [|r rs IH]; intros st H Hrs; simpl; [done|].
  apply Forall_cons in Hrs as [Hr Hrs].
  assert (apply_line st (line_of r) = apply (fst st) (op_of r) (snd st)) as ->
    by (unfold apply_line; by rewrite parse_op_line_of).
  rewrite IH; [|by apply apply_frame|done]. by rewrite apply_op_of.
Qed.

Lemma feed_table rs inn :
  inner_wf inn -> Forall rec_ok rs -> table (feed (map line_of rs) inn) = fold_left t_rec rs (table inn).
Proof.
  intros H Hrs. unfold feed.
  pose proof (apply_lines_table rs (inn, tl_stray (tail inn)) H Hrs) as HH.
  by destruct (apply_lines (map line_of rs) (inn, tl_stray (tail inn))) as [i' stray'].
Qed.

(** ** The lines a store writes *)

(** Lines of records are framed. *)
Lemma lines_framed rs : Forall rec_ok rs -> Forall framed (map line_of rs).
Proof.
  intros H. apply Forall_map. eapply Forall_impl; [exact H|].
  intros r Hr. cbv beta. apply line_of_framed in Hr as [? ?]. by split.
Qed.

Definition log_bytes (rs : list LogRec) : bytes := frame (map line_of rs).

Lemma log_bytes_app a b : log_bytes (a ++ b) = log_bytes a ++ log_bytes b.
Proof. unfold log_bytes. by rewrite map_app, frame_app. Qed.

Lemma log_bytes_one r : log_bytes [r] = line_of r ++ [NL].
Proof. apply frame_one. Qed.

Lemma lines_of_log rs : Forall rec_ok rs -> lines_of (log_bytes rs) = map line_of rs.
Proof. intros H. by apply lines_of_frame, lines_framed. Qed.

(** The records an instance writes: every row is its own. *)
Definition own_rec (inst : Z) (r : LogRec) : Prop :=
  rec_ok r /\ match r with Row _ _ _ _ i _ => i = inst | _ => True end.

Lemma own_rec_ok inst rs : Forall (own_rec inst) rs -> Forall rec_ok rs.
Proof. intros H. eapply Forall_impl; [exact H|]. by intros r [? _]. Qed.

(** The hit records of the dirty counters. *)
Definition hit_recs (inn : Inner) : list LogRec :=
  concat (map (fun sh => map (fun cd => Hit (fst cd) (snd cd) (instance inn)) (umap_iter (sh_dirty sh)))
    (shards inn)).

(** The hit records of one shard's counters, and their lines. *)
Definition dirty_recs (inst : Z) (l : list (bytes * Z)) : list LogRec := map (fun cd => Hit (fst cd) (snd cd) inst) l.

Lemma dirty_lines inst l : forall b,
  fold_left (fun b cd => hit_line_into b (fst cd) (snd cd) inst ++ [NL]) l b = b ++ log_bytes (dirty_recs inst l).
Proof.
  induction l as [|[c d] l IH]; intros b; simpl; [by rewrite app_nil_r|].
  rewrite IH, hit_line_into_app. change (Hit c d inst :: ?x) with ([Hit c d inst] ++ x).
  by rewrite log_bytes_app, log_bytes_one, <- !app_assoc.
Qed.

Lemma hit_lines_recs inn : hit_lines inn = log_bytes (hit_recs inn).
Proof.
  unfold hit_lines, hit_recs.
  assert (Hout : forall l b,
    fold_left (fun b sh => fold_left (fun b cd => hit_line_into b (fst cd) (snd cd) (instance inn) ++ [NL])
                             (umap_iter (sh_dirty sh)) b) l b =
    b ++ log_bytes (concat (map (fun sh => dirty_recs (instance inn) (umap_iter (sh_dirty sh))) l))).
  { induction l as [|sh l IH]; intros b; simpl; [by rewrite app_nil_r|].
    by rewrite IH, dirty_lines, log_bytes_app, <- app_assoc. }
  by rewrite Hout.
Qed.

(** What makes the counters printable. *)
Definition dirty_ok (i : Inner) : Prop :=
  forall k sh c d, shards i !! k = Some sh -> sh_dirty sh !! c = Some d -> plain_code c /\ in_i64 d.

Lemma hit_recs_ok inn : dirty_ok inn -> in_i64 (instance inn) -> Forall (own_rec (instance inn)) (hit_recs inn).
Proof.
  intros H Hi. unfold hit_recs. apply Forall_concat, Forall_map, Forall_forall. intros sh Hsh.
  apply list_elem_of_lookup in Hsh as (k & Hk). apply Forall_map, Forall_forall. intros [c d] Hcd.
  apply umap_iter_elem in Hcd. simpl. destruct (H k sh c d Hk Hcd). done.
Qed.

Lemma hit_recs_hits inn : Forall is_hit (hit_recs inn).
Proof.
  unfold hit_recs. apply Forall_concat, Forall_map, Forall_forall. intros sh _.
  apply Forall_map, Forall_forall. done.
Qed.

Lemma dirty_ok_upd c f i :
  (forall sh, sh_dirty (f sh) = sh_dirty sh) -> dirty_ok i -> dirty_ok (upd_shard c f i).
Proof.
  intros Hf H k sh c' d Hk Hd. unfold upd_shard in Hk. simpl in Hk.
  destruct (decide (shard_of c = k)) as [<-|].
  - rewrite list_lookup_alter_eq in Hk. apply fmap_Some in Hk as (sh0 & Hk & ->). rewrite Hf in Hd. eauto.
  - rewrite list_lookup_alter_ne in Hk by done. eauto.
Qed.

Lemma dirty_ok_bump c i : dirty_ok i -> plain_code c -> dirty_ok (dirty_bump c i).
Proof.
  intros H Hc k sh c' d Hk Hd. unfold dirty_bump, upd_shard in Hk. simpl in Hk.
  destruct (decide (shard_of c = k)) as [<-|].
  - rewrite list_lookup_alter_eq in Hk. apply fmap_Some in Hk as (sh0 & Hk & ->). simpl in Hd.
    rewrite lookup_insert in Hd. case_decide; [|eauto]. simplify_eq. split; [done|apply i64_range].
  - rewrite list_lookup_alter_ne in Hk by done. eauto.
Qed.

Lemma dirty_ok_clear i : dirty_ok (clear_dirty i).
Proof.
  intros k sh c d Hk Hd. unfold clear_dirty in Hk. simpl in Hk. rewrite list_lookup_fmap in Hk.
  apply fmap_Some in Hk as (sh0 & _ & ->). simpl in Hd. by rewrite lookup_empty in Hd.
Qed.

(** ** File names *)
Definition log_path (i : Inner) : bytes := path_join (dir i) (own_name i).
Definition snap_path (i : Inner) : bytes := path_join (dir i) (snap_name (instance i)).
Definition tmp_path (i : Inner) : bytes := snap_path i ++ B ".tmp".

Lemma path_join_inj d a b : path_join d a = path_join d b -> a = b.
Proof. unfold path_join. intros H. by apply app_inv_head, app_inv_head in H. Qed.

Lemma ends_with_app suf s : ends_with suf (s ++ suf) = true.
Proof. unfold ends_with. rewrite rev_app_distr. apply starts_with_app. Qed.

Lemma shard_name_log i j : i ≠ j -> is_shard_name (log_name i) (log_name j) = true.
Proof.
  intros Hne. unfold is_shard_name. rewrite !andb_true_iff. split_and!.
  - apply starts_with_app.
  - apply Nat.ltb_lt. unfold log_name. rewrite !length_app. simpl. lia.
  - unfold log_name. rewrite app_assoc. apply ends_with_app.
  - rewrite bool_decide_eq_false_2; [done|]. unfold log_name. intros H.
    apply app_inv_head, app_inv_tail, to_string_inj in H. done.
Qed.

Lemma shard_name_ends own n : is_shard_name own n = true -> ends_with (B ".log") n = true /\ n ≠ own.
Proof.
  unfold is_shard_name. intros H. bool_facts. done.
Qed.

(** Only names that end in [.log] are taken for sibling logs. *)
Lemma shard_path_ne own n i :
  own = own_name i -> is_shard_name own n = true ->
  path_join (dir i) n ≠ log_path i /\ path_join (dir i) n ≠ snap_path i /\ path_join (dir i) n ≠ tmp_path i.
Proof.
  intros -> Hn. apply shard_name_ends in Hn as [He Hne]. split_and!; intros H.
  - by apply path_join_inj in H.
  - apply path_join_inj in H. subst n. unfold snap_name, ends_with in He.
    rewrite app_assoc, rev_app_distr in He. done.
  - unfold tmp_path, snap_path, path_join in H. rewrite <- !app_assoc in H.
    apply app_inv_head, app_inv_head in H. subst n. unfold ends_with in He.
    rewrite rev_app_distr in He. done.
Qed.

Lemma log_snap_ne i :
  own_name i = log_name (instance i) ->
  log_path i ≠ snap_path i /\ log_path i ≠ tmp_path i /\ snap_path i ≠ tmp_path i.
Proof.
  intros Ho. split_and!.
  - unfold log_path, snap_path. rewrite Ho. intros H. apply path_join_inj in H.
    unfold log_name, snap_name in H. apply (f_equal (fun l => head (rev l))) in H.
    rewrite !rev_app_distr in H. done.
  - unfold log_path, tmp_path, snap_path, path_join. rewrite Ho. intros H.
    apply (f_equal (fun l => head (rev l))) in H. unfold log_name in H. rewrite !rev_app_distr in H. done.
  - unfold tmp_path. intros H. apply (f_equal length) in H. rewrite length_app in H. simpl in H. lia.
Qed.

(** ** The invariant *)
Definition cfg_ok (i : Inner) : Prop :=
  own_name i = log_name (instance i) /\ prefix i = Base62.alpha (instance i) /\
  0 <= instance i < Base62.MAX_INSTANCES /\ dir i ≠ B ":memory:".

(** Every entry can be written as a row of this instance. *)
Definition entry_ok (inst : Z) (e : Entry) : Prop :=
  in_i64 (e_a e) /\ in_i64 (e_e e) /\ in_i64 (e_oh e) /\ e_i e = inst.

Definition index_ok (i : Inner) : Prop :=
  inner_wf i /\ dirty_ok i /\
  forall c e, data i !! c = Some e -> plain_code c /\ entry_ok (instance i) e.

(** The snapshot, the log and the buffer hold the records [S], [L], [Bf]. *)
Definition disk (w : World) (S L Bf : list LogRec) : Prop :=
  exists a, aof (inner w) = Some a /\ a_path a = log_path (inner w) /\ aof_ok a (sys w) /\
    (snap_path (inner w) ∉ denied (fs (sys w))) /\ (tmp_path (inner w) ∉ denied (fs (sys w))) /\
    contents (sys w) (snap_path (inner w)) = log_bytes S /\
    contents (sys w) (log_path (inner w)) = log_bytes L /\
    a_buf a = log_bytes Bf.

(** No sibling log exists; the readers registered so far wait for one. *)
Definition alone (w : World) : Prop :=
  (forall n, is_shard_name (own_name (inner w)) n = true ->
     content (sys w) (path_join (dir (inner w)) n) = None) /\
  (forall n t, tl_readers (tail (inner w)) !! n = Some t ->
     exists n', t_path t = path_join (dir (inner w)) n' /\
       is_shard_name (own_name (inner w)) n' = true /\ t_offset t = 0%nat).

Record durable (w : World) (S L Bf : list LogRec) : Prop := {
  du_cfg : cfg_ok (inner w);
  du_index : index_ok (inner w);
  du_disk : disk w S L Bf;
  du_alone : alone w;
  du_recs : Forall (own_rec (instance (inner w))) (S ++ L ++ Bf);
  du_table : table (inner w) = replay_table (S ++ L ++ Bf)
}.

(** Without the last: between two steps of a request the records and the
    index may differ. *)
Record base (w : World) (S L Bf : list LogRec) : Prop := {
  ba_cfg : cfg_ok (inner w);
  ba_index : index_ok (inner w);
  ba_disk : disk w S L Bf;
  ba_alone : alone w;
  ba_recs : Forall (own_rec (instance (inner w))) (S ++ L ++ Bf)
}.

Lemma durable_base w S L Bf : durable w S L Bf -> base w S L Bf.
Proof. by intros []. Qed.
Lemma base_durable w S L Bf : base w S L Bf -> table (inner w) = replay_table (S ++ L ++ Bf) -> durable w S L Bf.
Proof. by intros []. Qed.

(** The parts depend on parts of the world. *)
Lemma config_paths i j : same_config i j ->
  log_path i = log_path j /\ snap_path i = snap_path j /\ tmp_path i = tmp_path j.
Proof.
  intros (H1 & H2 & H3 & H4 & H5). unfold tmp_path, snap_path, log_path. by rewrite H1, H3, H4.
Qed.

Lemma cfg_ok_ext i j : same_config i j -> cfg_ok j -> cfg_ok i.
Proof. intros (H1 & H2 & H3 & H4 & H5). unfold cfg_ok. by rewrite H1, H2, H3, H4. Qed.

Lemma disk_ext w w' S L Bf :
  same_config (inner w') (inner w) -> aof (inner w') = aof (inner w) -> fs (sys w') = fs (sys w) ->
  disk w S L Bf -> disk w' S L Bf.
Proof.
  intros Hc Ha Hf (a & H1 & H2 & H3 & H4 & H5 & H6 & H7 & H8).
  destruct (config_paths _ _ Hc) as (E1 & E2 & E3). exists a.
  unfold disk, aof_ok, contents, content, file_size in *. rewrite Ha, E1, E2, E3.
  unfold content in *. rewrite Hf. done.
Qed.

Lemma alone_ext w w' :
  same_config (inner w') (inner w) -> tl_readers (tail (inner w')) = tl_readers (tail (inner w)) ->
  fs (sys w') = fs (sys w) -> alone w -> alone w'.
Proof.
  intros (H1 & H2 & H3 & H4 & H5) Ht Hf [A1 A2]. unfold alone, content in *.
  rewrite H3, H4, Ht, Hf. done.
Qed.

Lemma index_ok_ext i j :
  shards i = shards j -> instance i = instance j -> index_ok j -> index_ok i.
Proof.
  intros Hs Hi (H1 & H2 & H3). split_and!.
  - by eapply wf_shards.
  - unfold dirty_ok. by rewrite Hs.
  - unfold data. rewrite Hs, Hi. done.
Qed.

Lemma index_ok_insert c e i :
  index_ok i -> plain_code c -> entry_ok (instance i) e -> index_ok (data_insert c e i).
Proof.
  intros (H1 & H2 & H3) Hc He. split_and!; [auto with shrt|by apply dirty_ok_upd|].
  rewrite data_data_insert by done. intros c' e'. rewrite lookup_insert. case_decide; [|apply H3].
  intros [= <-]. by subst.
Qed.

Lemma index_ok_erase c i : index_ok i -> index_ok (data_erase c i).
Proof.
  intros (H1 & H2 & H3). split_and!; [auto with shrt|by apply dirty_ok_upd|].
  rewrite data_data_erase by done. intros c' e'. rewrite lookup_delete. case_decide; [done|apply H3].
Qed.

Lemma index_ok_bump c i : index_ok i -> plain_code c -> index_ok (dirty_bump c i).
Proof.
  intros (H1 & H2 & H3) Hc. split_and!; [auto with shrt|by apply dirty_ok_bump|].
  by rewrite data_dirty_bump.
Qed.

Lemma index_ok_clear i : index_ok i -> index_ok (clear_dirty i).
Proof.
  intros (H1 & H2 & H3). split_and!; [auto with shrt|apply dirty_ok_clear|].
  by rewrite data_clear_dirty.
Qed.

Lemma instance_i64 i : cfg_ok i -> in_i64 (instance i) /\ i32 (instance i) = instance i.
Proof.
  unfold cfg_ok, Base62.MAX_INSTANCES, in_i64. intros (_ & _ & H & _). split; [lia|].
  apply i32_id. unfold in_i32. lia.
Qed.

(** ** The log under the operations *)
Section Ops.
Context (os : Os) (env : Env) (Hw : no_io_error (os_write os)).

Lemma disk_push_raw rs w S L Bf :
  disk w S L Bf -> disk (aof_push_raw (log_bytes rs) w) S L (Bf ++ rs).
Proof.
  intros (a & H1 & H2 & H3 & H4 & H5 & H6 & H7 & H8). exists (push_raw a (log_bytes rs)).
  unfold aof_push_raw. rewrite H1. split_and!; try done. simpl. by rewrite log_bytes_app, H8.
Qed.

Lemma aof_push_one r w : aof_push (line_of r) w = aof_push_raw (log_bytes [r]) w.
Proof. unfold aof_push, aof_push_raw. rewrite log_bytes_one. by destruct (aof (inner w)). Qed.

Lemma disk_push r w S L Bf : disk w S L Bf -> disk (aof_push (line_of r) w) S L (Bf ++ [r]).
Proof. rewrite aof_push_one. apply disk_push_raw. Qed.

(** Flushing moves the buffer behind the log. *)
Lemma disk_flush w S L Bf a :
  cfg_ok (inner w) -> disk w S L Bf -> aof (inner w) = Some a ->
  let '(a', s') := flush os a (sys w) in
  disk (with_sys s' (with_inner (set_aof (Some a')) w)) S (L ++ Bf) [] /\
  (forall p, p ≠ log_path (inner w) -> content s' p = content (sys w) p).
Proof.
  intros [Hcfg _] (a0 & H1 & H2 & H3 & H4 & H5 & H6 & H7 & H8) Ha. assert (a0 = a) as -> by congruence.
  destruct (flush_spec os a (sys w) H3) as (n & _ & Hn & HH). specialize (Hn Hw). subst n.
  destruct (flush os a (sys w)) as [a' s'].
  destruct HH as (F1 & F2 & F3 & F4 & F5 & F6 & _). rewrite H2 in *. split; [|done].
  destruct (log_snap_ne (inner w) Hcfg) as (E1 & E2 & E3).
  exists a'. split_and!; try done; simpl.
  - rewrite F6. exact H4.
  - rewrite F6. exact H5.
  - etrans; [exact (f_equal (default []) (F5 _ (not_eq_sym E1)))|exact H6].
  - rewrite log_bytes_app, <- H7, <- H8. rewrite firstn_all in F4. exact F4.
Qed.

Lemma alone_fs w w' :
  same_config (inner w') (inner w) -> tl_readers (tail (inner w')) = tl_readers (tail (inner w)) ->
  (forall p, p ≠ log_path (inner w) -> p ≠ snap_path (inner w) -> p ≠ tmp_path (inner w) ->
     content (sys w') p = content (sys w) p) ->
  alone w -> alone w'.
Proof.
  intros Hc Ht Hf [A1 A2]. pose proof Hc as (C1 & C2 & C3 & C4 & C5). unfold alone.
  rewrite C3, C4, Ht. split; [|done]. intros n Hn.
  destruct (shard_path_ne _ n (inner w) eq_refl Hn) as (? & ? & ?). rewrite Hf by done. auto.
Qed.

(** Moving records from the buffer to the log is not a change. *)
Lemma durable_flush_if_full w S L Bf :
  durable w S L Bf ->
  exists L' Bf', L' ++ Bf' = L ++ Bf /\ durable (aof_flush_if_full os w) S L' Bf'.
Proof.
  intros [D1 D2 D3 D4 D5 D6]. unfold aof_flush_if_full.
  pose proof D3 as (a & Ha & _). rewrite Ha. case_match; [|exists L, Bf; by split].
  pose proof (disk_flush w S L Bf a D1 D3 Ha) as HH.
  destruct (flush os a (sys w)) as [a' s']. destruct HH as [HH Hp].
  exists (L ++ Bf), []. split; [by rewrite app_nil_r|]. 
  constructor; rewrite ?app_nil_r; try done.
  - by eapply index_ok_ext; [..|exact D2].
  - apply (alone_fs w); [done|done| |exact D4]. intros p ? _ _. by apply Hp.
Qed.

(** A mutation of the index with the record that describes it. *)
Lemma durable_change (f : Inner -> Inner) rs w w' S L Bf :
  durable w S L Bf ->
  inner w' = f (inner w) -> fs (sys w') = fs (sys w) ->
  same_config (f (inner w)) (inner w) -> aof (f (inner w)) = aof (inner w) ->
  tail (f (inner w)) = tail (inner w) ->
  index_ok (f (inner w)) -> Forall (own_rec (instance (inner w))) rs ->
  table (f (inner w)) = fold_left t_rec rs (table (inner w)) ->
  durable (aof_push_raw (log_bytes rs) w') S L (Bf ++ rs).
Proof.
  intros [D1 D2 D3 D4 D5 D6] Hi Hs Hc Ha Ht Hx Hr Htab.
  assert (Dd : disk w' S L Bf) by (apply (disk_ext w); [..|exact D3]; by rewrite ?Hi, ?Hs).
  pose proof (disk_push_raw rs w' S L Bf Dd) as Dp. destruct Dd as (a & Hav & _).
  assert (He : inner (aof_push_raw (log_bytes rs) w') = set_aof (Some (push_raw a (log_bytes rs))) (f (inner w))
               /\ fs (sys (aof_push_raw (log_bytes rs) w')) = fs (sys w)).
  { unfold aof_push_raw. rewrite Hav. simpl. by rewrite Hi, Hs. }
  destruct He as [He1 He2]. constructor; [..|done| | |]; rewrite ?He1.
  - by eapply cfg_ok_ext; [exact Hc|].
  - by eapply index_ok_ext; [..|exact Hx].
  - apply (alone_ext w); [..|exact D4]; rewrite ?He1, ?He2; simpl; by rewrite ?Ht.
  - destruct Hc as (Hc & _). simpl. rewrite Hc, !Forall_app in *. tauto.
  - change (table (f (inner w)) = replay_table (S ++ L ++ Bf ++ rs)).
    by rewrite Htab, D6, !app_assoc, <- replay_table_app, <- !app_assoc.
Qed.

(** The invariant depends on the process state and the files. *)
Lemma durable_ext w w' S L Bf :
  inner w' = inner w -> fs (sys w') = fs (sys w) -> durable w S L Bf -> durable w' S L Bf.
Proof.
  intros Hi Hf [D1 D2 D3 D4 D5 D6]. constructor; rewrite ?Hi; try done.
  - by apply (disk_ext w); rewrite ?Hi.
  - by apply (alone_ext w); rewrite ?Hi.
Qed.

(** *** [shorten] *)
Lemma durable_new code url now exp w w' S L Bf :
  durable w S L Bf -> plain_code code -> in_i64 now -> in_i64 exp ->
  inner w' = data_insert code (new_entry (inner w) url now exp) (inner w) -> fs (sys w') = fs (sys w) ->
  let r := Row code url now exp (instance (inner w)) 0 in
  exists L' Bf', L' ++ Bf' = L ++ Bf ++ [r] /\ durable (shorten_log os code url now exp w') S L' Bf'.
Proof.
  intros D Hc Hn He Hi Hf r. destruct (instance_i64 _ (du_cfg _ _ _ _ D)) as [I1 I2].
  pose proof (du_index _ _ _ _ D) as Hx.
  assert (D1 : durable (aof_push_raw (log_bytes [r]) w') S L (Bf ++ [r])).
  { eapply (durable_change (data_insert code (new_entry (inner w) url now exp))); try done.
    - by apply index_ok_insert.
    - constructor; [|done]. split_and!; done.
    - rewrite table_insert by apply Hx. simpl. by rewrite I2. }
  destruct (durable_flush_if_full _ _ _ _ D1) as (L' & Bf' & Heq & D2).
  exists L', Bf'. split; [done|]. unfold shorten_log. rewrite Hi. simpl.
  change (row_line code url now exp (instance (inner w)) 0) with (line_of r).
  rewrite aof_push_one. by eapply durable_ext; [..|exact D2].
Qed.

Lemma expiry_range now ttl : in_i64 (expiry now ttl).
Proof. unfold expiry. case_match; [apply i64_range|done]. Qed.

(** Generated codes are written unescaped. *)
Lemma code_shape_plain p c : p ∈ Base62.ALPHABET -> code_shape p c -> plain_code c.
Proof.
  intros Hp (Hl & Hh & Ht). destruct c as [|x c]; [done|]. simpl in Hh. injection Hh as ->.
  assert (Ha : Forall (fun x => x ∈ Base62.ALPHABET) (p :: c)) by (by constructor).
  assert (Hgood : forall x, x ∈ Base62.ALPHABET -> (x =c bslash) = false /\ (x =c dq) = false /\ x ≠ LF).
  { assert ((bslash ∉ Base62.ALPHABET) /\ (dq ∉ Base62.ALPHABET) /\ (LF ∉ Base62.ALPHABET)) as (? & ? & ?)
      by (split_and!; by apply (bool_decide_unpack (_ ∉ _))).
    intros x Hx. split_and!; try (apply eqc_ne); intros ->; done. }
  split_and!; [done| |].
  - eapply Forall_impl; [exact Ha|]. cbv beta. intros y Hy. by destruct (Hgood y Hy) as (? & ? & _).
  - intros Hin. rewrite Forall_forall in Ha. by destruct (Hgood _ (Ha _ Hin)) as (_ & _ & ?).
Qed.

Lemma gen_plain i x : cfg_ok i -> code_shape (prefix i) x -> plain_code x.
Proof. intros (_ & Hp & ? & _) Hs. rewrite Hp in Hs. eapply code_shape_plain, Hs. by apply Base62.alpha_in. Qed.

Lemma durable_shorten fuel url alias ttl w S L Bf :
  durable w S L Bf -> (forall c, alias = Some c -> plain_code c) ->
  match shorten os fuel url alias ttl w with
  | OutOfFuel => True
  | Done None w' => durable w' S L Bf
  | Done (Some c) w' =>
      exists L' Bf', durable w' S L' Bf' /\
        L' ++ Bf' = L ++ Bf ++ [Row c url (now_of os w) (expiry (now_of os w) ttl) (instance (inner w)) 0]
  end.
Proof.
  intros D Ha. unfold shorten. cbn [now_ms]. set (now := i64 _).
  change (now_of os w) with now.
  assert (Hn : in_i64 now) by apply i64_range. pose proof (expiry_range now ttl) as He.
  destruct alias as [c|]; simpl.
  - destruct (find (inner w) c) eqn:E; [by eapply durable_ext; [..|exact D]|].
    match goal with |- context [shorten_log os _ _ _ _ ?w1] =>
      destruct (durable_new c url now (expiry now ttl) w w1 S L Bf D (Ha c eq_refl) Hn He) as (L' & Bf' & ? & ?);
        [done|done|by exists L', Bf'] end.
  - destruct (gen_free fuel (inner w) (rng w)) as [[c st]|] eqn:E; [|done].
    apply gen_free_spec in E as [_ Hs].
    assert (Hc : plain_code c).
    { eapply code_shape_plain, Hs. destruct (du_cfg _ _ _ _ D) as (_ & -> & ? & _). by apply Base62.alpha_in. }
    match goal with |- context [shorten_log os _ _ _ _ ?w1] =>
      destruct (durable_new c url now (expiry now ttl) w w1 S L Bf D Hc Hn He) as (L' & Bf' & ? & ?);
        [done|done|by exists L', Bf'] end.
Qed.

(** *** [shorten_many] *)
Definition many_recs (inn : Inner) (now exp : Z) (cus : list (bytes * bytes)) : list LogRec :=
  map (fun cu => Row (fst cu) (snd cu) now exp (instance inn) 0) cus.

Lemma many_recs_log inn now exp cs urls :
  frame (zip_with (fun c u => row_line c u now exp (instance inn) 0) cs urls) =
  log_bytes (many_recs inn now exp (zip cs urls)).
Proof.
  unfold log_bytes, many_recs. f_equal. revert urls.
  induction cs as [|c cs IH]; intros [|u us]; simpl; f_equal; auto.
Qed.

(** The rows added to the map are the meaning of the records. *)
Lemma many_rows_table inn now exp cus : forall m,
  i32 (instance inn) = instance inn ->
  row_of <$> many_rows inn now exp cus m = fold_left t_rec (many_recs inn now exp cus) (row_of <$> m).
Proof.
  induction cus as [|[c u] cus IH]; intros m Hi; [done|]. unfold many_rows, many_recs in *. simpl.
  rewrite IH, fmap_insert by done. by rewrite Hi.
Qed.

Lemma shorten_each_ok fuel now exp urls : forall codes lines w codes' lines' w',
  index_ok (inner w) -> cfg_ok (inner w) -> in_i64 now -> in_i64 exp ->
  shorten_each fuel urls now exp codes lines w = Some (codes', lines', w') ->
  index_ok (inner w') /\ tail (inner w') = tail (inner w).
Proof.
  induction urls as [|u us IH]; intros codes lines w codes' lines' w' Hx Hc Hn He; cbn [shorten_each].
  { by intros [= <- <- <-]. }
  destruct (gen_free fuel (inner w) (rng w)) as [[cb st]|] eqn:E; [|done].
  apply gen_free_spec in E as [_ Hs]. intros Hrun.
  eapply IH in Hrun; [exact Hrun|simpl..|done|done].
  - apply index_ok_insert; [done| |done].
    eapply code_shape_plain, Hs. destruct Hc as (_ & -> & ? & _). by apply Base62.alpha_in.
  - by eapply cfg_ok_ext; [|exact Hc].
Qed.

Lemma durable_shorten_many fuel urls ttl w S L Bf :
  durable w S L Bf ->
  match shorten_many os fuel urls ttl w with
  | OutOfFuel => True
  | Done codes w' =>
      exists L' Bf', durable w' S L' Bf' /\
        L' ++ Bf' = L ++ Bf ++
          many_recs (inner w) (now_of os w) (expiry (now_of os w) ttl) (zip codes urls)
  end.
Proof.
  intros D. pose proof D as [D1 D2 D3 D4 D5 D6]. unfold shorten_many. cbn [now_ms]. set (now := i64 _).
  change (now_of os w) with now. set (exp := expiry now ttl). set (w0 := with_sys _ w).
  destruct (shorten_each fuel urls now exp [] [] w0) as [[[codes lines] w1]|] eqn:E; [|done].
  assert (Hn : in_i64 now) by apply i64_range. assert (He : in_i64 exp) by apply expiry_range.
  destruct (shorten_each_ok _ _ _ _ _ _ w0 _ _ _ D2 D1 Hn He E) as [Hx Ht].
  apply shorten_each_spec in E; [|apply D2].
  destruct E as (cs & -> & Hlen & Hnd & Hall & Hd & -> & Hwf & Hcfg & Ha & Hs & _).
  destruct D3 as (a & Hav & _). change (inner w0) with (inner w) in *. rewrite Hav. simpl.
  rewrite many_recs_log. set (rs := many_recs _ _ _ _).
  destruct (instance_i64 _ D1) as [I1 I2].
  assert (Dp : durable (aof_push_raw (log_bytes rs) w1) S L (Bf ++ rs)).
  { eapply (durable_change (fun _ => inner w1)); [exact D|done|by rewrite Hs|done|done|done|done| |].
    - apply Forall_map, Forall_forall. intros [c u] Hcu. simpl.
      apply elem_of_zip_l in Hcu. rewrite Forall_forall in Hall. destruct (Hall c Hcu) as [_ Hsh].
      split; [|done]. split_and!; try done. eapply code_shape_plain, Hsh.
      destruct D1 as (_ & -> & ? & _). by apply Base62.alpha_in.
    - unfold table. rewrite Hd. by apply many_rows_table. }
  destruct (durable_flush_if_full _ _ _ _ Dp) as (L' & Bf' & Heq & D').
  exists L', Bf'. split; [|done]. by eapply durable_ext; [..|exact D'].
Qed.

(** *** [update] and [remove] *)
Lemma update_expiry_range ttl has_ttl e w : in_i64 e -> in_i64 (update_expiry os ttl has_ttl e w).
Proof. unfold update_expiry. destruct has_ttl; [intros; apply expiry_range|done]. Qed.

(** [update] in one equation once the code is known to be ours. *)
Lemma update_own code url ttl has_ttl w e :
  find (inner w) code = Some e -> e_i e = instance (inner w) ->
  let exp := update_expiry os ttl has_ttl (e_e e) w in
  exists w1,
    update os code url ttl has_ttl w =
      (MOk, aof_push (line_of (Row code url (e_a e) exp (instance (inner w)) 0)) w1) /\
    inner w1 = data_insert code (mkEntry url (e_a e) exp (e_i e) (e_h e) (e_oh e)) (inner w) /\
    fs (sys w1) = fs (sys w).
Proof.
  intros Hf Hi. unfold update, update_expiry, expiry, now_of. rewrite Hf, Hi, Z.eqb_refl. simpl.
  destruct has_ttl; [destruct (0 <? ttl)|]; simpl; eexists; (split; [reflexivity|]); simpl; by rewrite ?Hi.
Qed.

Lemma durable_update code url ttl has_ttl w S L Bf :
  durable w S L Bf ->
  let '(r, w') := update os code url ttl has_ttl w in
  match r, data (inner w) !! code with
  | MOk, Some e =>
      durable w' S L (Bf ++ [Row code url (e_a e) (update_expiry os ttl has_ttl (e_e e) w)
                               (instance (inner w)) 0])
  | MMissing, None => w' = w
  | _, _ => False
  end.
Proof.
  intros D. pose proof (du_index _ _ _ _ D) as Hx. pose proof Hx as (Hwf & _ & Hall).
  rewrite data_find by done. destruct (find (inner w) code) as [e|] eqn:E; cycle 1.
  { unfold update. by rewrite E. }
  destruct (Hall code e) as (Hc & Ha & He & Ho & Hi); [by rewrite data_find|].
  destruct (update_own code url ttl has_ttl w e E Hi) as (w1 & -> & Hw1 & Hf).
  destruct (instance_i64 _ (du_cfg _ _ _ _ D)) as [I1 I2].
  rewrite aof_push_one. pose proof (update_expiry_range ttl has_ttl (e_e e) w He) as He'.
  eapply durable_change; [exact D|exact Hw1|done|done|done|done| | |].
  - by apply index_ok_insert.
  - constructor; [|done]. split_and!; done.
  - rewrite table_insert by done. unfold row_of. simpl. by rewrite I2, Hi.
Qed.

Lemma durable_remove code w S L Bf :
  durable w S L Bf ->
  let '(r, w') := remove code w in
  match r, data (inner w) !! code with
  | MOk, Some _ => durable w' S L (Bf ++ [Del code])
  | MMissing, None => w' = w
  | _, _ => False
  end.
Proof.
  intros D. pose proof (du_index _ _ _ _ D) as Hx. pose proof Hx as (Hwf & _ & Hall).
  rewrite data_find by done. unfold remove. destruct (find (inner w) code) as [e|] eqn:E; [|done].
  destruct (Hall code e) as (Hc & _ & _ & _ & Hi); [by rewrite data_find|].
  rewrite Hi, Z.eqb_refl. simpl.
  change (del_line code) with (line_of (Del code)). rewrite aof_push_one.
  apply (durable_ext (aof_push_raw (log_bytes [Del code]) (with_inner (data_erase code) w))); [done|done|].
  eapply (durable_change (data_erase code)); [exact D|done..| | |].
  - by apply index_ok_erase.
  - by constructor.
  - by rewrite table_erase.
Qed.

(** *** Flushing *)
Lemma base_flush_store w S L Bf :
  base w S L Bf ->
  base (flush_store os w) S (L ++ Bf ++ hit_recs (inner w)) [] /\ data (inner (flush_store os w)) = data (inner w).
Proof.
  intros [D1 D2 D3 D4 D5]. unfold flush_store. pose proof D3 as (a & Ha & _). rewrite Ha.
  destruct (instance_i64 _ D1) as [I1 I2]. pose proof (hit_recs_ok (inner w) (proj1 (proj2 D2)) I1) as Hr.
  rewrite hit_lines_recs. set (hr := hit_recs (inner w)) in *.
  set (w1 := aof_push_raw (log_bytes hr) w).
  assert (Hw1 : w1 = with_inner (set_aof (Some (push_raw a (log_bytes hr)))) w)
    by (unfold w1, aof_push_raw; by rewrite Ha).
  assert (D3' : disk w1 S L (Bf ++ hr)) by (by apply disk_push_raw).
  pose proof (disk_flush w1 S L (Bf ++ hr) (push_raw a (log_bytes hr))) as HH. rewrite Hw1 in HH, D3'.
  specialize (HH D1 D3' eq_refl). cbn [sys with_inner] in HH.
  destruct (flush os (push_raw a (log_bytes hr)) (sys w)) as [a' s']. destruct HH as [HH Hp].
  split; [|apply data_clear_dirty]. constructor.
  - done.
  - eapply index_ok_ext; [..|exact (index_ok_clear _ D2)]; done.
  - eapply disk_ext; [..|exact HH]; done.
  - apply (alone_fs w); [done|done| |exact D4]. intros p ? _ _. by apply Hp.
  - rewrite app_nil_r, !Forall_app in *. tauto.
Qed.

Lemma durable_flush w S L Bf :
  durable w S L Bf ->
  durable (flush_store os w) S (L ++ Bf ++ hit_recs (inner w)) [] /\
  data (inner (flush_store os w)) = data (inner w).
Proof.
  intros D. destruct (base_flush_store w S L Bf (durable_base _ _ _ _ D)) as [B Hd]. split; [|done]. apply base_durable; [done|].
  rewrite app_nil_r, !app_assoc, replay_table_hits by apply hit_recs_hits.
  rewrite <- app_assoc, <- (du_table _ _ _ _ D). unfold table. by rewrite Hd.
Qed.

Lemma durable_sync w S L Bf :
  durable w S L Bf -> durable (sync_store os w) S (L ++ Bf) [].
Proof.
  intros [D1 D2 D3 D4 D5 D6]. unfold sync_store, sync. pose proof D3 as (a & Ha & _). rewrite Ha.
  pose proof (disk_flush w S L Bf a D1 D3 Ha) as HH.
  destruct (flush os a (sys w)) as [a' s']. destruct HH as [HH Hp].
  constructor; rewrite ?app_nil_r; try done.
  - by eapply index_ok_ext; [..|exact D2].
  - apply (alone_fs w); [done|done| |exact D4]. intros p ? _ _. by apply Hp.
Qed.

(** *** [compact] *)
Definition snap_rec (ce : bytes * Entry) : LogRec :=
  Row (fst ce) (e_u (snd ce)) (e_a (snd ce)) (e_e (snd ce)) (e_i (snd ce)) (e_oh (snd ce)).
Definition snap_recs (inn : Inner) : list LogRec :=
  map snap_rec (filter (fun ce => e_i (snd ce) = instance inn) (all_data inn)).

Lemma snap_lines_recs inn : frame (snap_lines inn) = log_bytes (snap_recs inn).
Proof. unfold log_bytes, snap_recs, snap_lines. by rewrite map_map. Qed.

(** Rows with distinct codes mean their own table. *)
Lemma replay_rows l : forall t,
  NoDup l.*1 -> Forall (fun ce => i32 (e_i (snd ce)) = e_i (snd ce)) l ->
  fold_left t_rec (map snap_rec l) t = (row_of <$> list_to_map l) ∪ t.
Proof.
  induction l as [|[c e] l IH]; intros t Hnd Hi; simpl.
  { by rewrite fmap_empty, map_empty_union. }
  apply Forall_cons in Hi as [He Hi]. simpl in Hnd, He. apply NoDup_cons in Hnd as [Hc Hnd].
  rewrite IH by done. rewrite He, fmap_insert. change (mkRow _ _ _ _) with (row_of e).
  rewrite <- insert_union_l, insert_union_r; [done|]. rewrite lookup_fmap.
  by rewrite not_elem_of_list_to_map_1.
Qed.

(** When every entry is ours, the snapshot has them all. *)
Lemma filter_own inst (l : list (bytes * Entry)) :
  Forall (fun ce => e_i (snd ce) = inst) l -> filter (fun ce => e_i (snd ce) = inst) l = l.
Proof. induction 1 as [|ce l H _ IH]; [done|]. rewrite filter_cons_True by done. by f_equal. Qed.

Lemma snap_recs_all inn :
  index_ok inn -> snap_recs inn = map snap_rec (all_data inn).
Proof.
  intros (Hwf & _ & Hall). unfold snap_recs. f_equal.
  apply filter_own, Forall_forall. intros [c e] Hce. apply all_data_elem in Hce; [|done].
  by apply Hall in Hce as (_ & _ & _ & _ & ?).
Qed.

Lemma snap_recs_table inn :
  index_ok inn -> cfg_ok inn -> replay_table (snap_recs inn) = table inn /\
  Forall (own_rec (instance inn)) (snap_recs inn).
Proof.
  intros Hx Hc. destruct (instance_i64 _ Hc) as [I1 I2]. rewrite snap_recs_all by done.
  destruct Hx as (Hwf & _ & Hall).
  assert (Hel : Forall (fun ce => data inn !! fst ce = Some (snd ce)) (all_data inn)).
  { apply Forall_forall. intros [c e] Hce. by apply all_data_elem. }
  split.
  - unfold replay_table. rewrite replay_rows, map_union_empty.
    + unfold table. f_equal. apply map_eq. intros c. apply option_eq. intros e.
      rewrite <- elem_of_list_to_map by (by apply all_data_nodup). by apply all_data_elem.
    + by apply all_data_nodup.
    + eapply Forall_impl; [exact Hel|]. intros [c e] Hce. cbv beta in *. simpl in *.
      by apply Hall in Hce as (_ & _ & _ & _ & ->).
  - apply Forall_map. eapply Forall_impl; [exact Hel|]. intros [c e] Hce. cbv beta in *. simpl in *.
    apply Hall in Hce as (? & ? & ? & ? & Hi). split; [|done]. unfold snap_rec. simpl. by rewrite Hi.
Qed.

Lemma write_snapshot_spec inn s :
  snap_path inn ∉ denied (fs s) -> tmp_path inn ∉ denied (fs s) -> snap_path inn ≠ tmp_path inn ->
  let s' := write_snapshot inn s in
  contents s' (snap_path inn) = frame (snap_lines inn) /\ denied (fs s') = denied (fs s) /\
  (forall p, p ≠ snap_path inn -> p ≠ tmp_path inn -> content s' p = content s p).
Proof.
  intros Hs Ht Hne. unfold write_snapshot, open_write.
  fold (snap_path inn). fold (tmp_path inn). rewrite bool_decide_eq_false_2 by done.
  unfold rename. autorewrite with shrt. rewrite lookup_insert_eq. simpl.
  rewrite bool_decide_eq_false_2 by done. unfold contents. autorewrite with shrt. split_and!; [|done|].
  - by rewrite lookup_insert_eq.
  - intros p H1 H2. autorewrite with shrt. simpl.
    by rewrite lookup_insert_ne, lookup_delete_ne, !lookup_insert_ne by done.
Qed.

Lemma durable_compact w S L Bf :
  durable w S L Bf ->
  durable (compact os w) (snap_recs (inner w)) [] [] /\ data (inner (compact os w)) = data (inner w).
Proof.
  intros D. unfold compact. pose proof (du_disk _ _ _ _ D) as (a0 & Ha0 & _). rewrite Ha0.
  destruct (durable_flush w S L Bf D) as [D' Hd].
  assert (Hsr : snap_recs (inner (flush_store os w)) = snap_recs (inner w)).
  { unfold flush_store. rewrite Ha0. destruct (flush os _ _). unfold snap_recs, all_data. simpl.
    by rewrite map_map. }
  rewrite <- Hsr, <- Hd. clear Hsr Hd D Ha0. revert D'.
  generalize (flush_store os w) (L ++ Bf ++ hit_recs (inner w)). clear w. intros w Lf [D1 D2 D3 D4 D5 D6].
  destruct D3 as (a & Ha & Hp & Hok & Hs & Ht & _ & _ & _).
  destruct (log_snap_ne (inner w)) as (E1 & E2 & E3); [apply D1|].
  destruct (write_snapshot_spec (inner w) (sys w) Hs Ht E3) as (W1 & W2 & W3).
  set (s1 := write_snapshot (inner w) (sys w)) in *. cbn [inner with_sys]. rewrite Ha.
  assert (Hok1 : aof_ok a s1).
  { unfold aof_ok, file_size in *. rewrite W2, Hp in *. by rewrite W3. }
  pose proof (truncate_spec os a s1 Hok1) as HT. cbn [sys with_sys].
  destruct (truncate os a s1) as [a' s2]. rewrite Hp in HT.
  destruct HT as (T1 & T2 & T3 & T4 & T5 & T6 & _). split; [|done].
  destruct (snap_recs_table (inner w) D2 D1) as [R1 R2]. constructor.
  - done.
  - by eapply index_ok_ext; [..|exact D2].
  - exists a'. split_and!; try done; simpl; rewrite ?T6, ?W2; try done.
    + etrans; [exact (f_equal (default []) (T5 _ (not_eq_sym E1)))|].
      etrans; [exact W1|]. apply snap_lines_recs.
    + exact (f_equal (default []) T4).
  - apply (alone_fs w); [done|done| |exact D4]. intros p H1 H2 H3. simpl. by rewrite T5, W3.
  - by rewrite !app_nil_r.
  - by rewrite !app_nil_r.
Qed.

(** *** Reading siblings that are not there *)
Definition quiet (w w' : World) : Prop :=
  shards (inner w') = shards (inner w) /\ same_config (inner w') (inner w) /\
  aof (inner w') = aof (inner w) /\ fs (sys w') = fs (sys w) /\ (alone w -> alone w').

Lemma quiet_refl w : quiet w w.
Proof. split_and!; done. Qed.

Lemma quiet_trans w1 w2 w3 : quiet w1 w2 -> quiet w2 w3 -> quiet w1 w3.
Proof.
  intros (A1 & A2 & A3 & A4 & A5) (B1 & B2 & B3 & B4 & B5). unfold quiet.
  rewrite B1, B3, B4. split_and!; auto. by etrans.
Qed.

Lemma durable_quiet w w' S L Bf : quiet w w' -> durable w S L Bf -> durable w' S L Bf.
Proof.
  intros (Q1 & Q2 & Q3 & Q4 & Q5) [D1 D2 D3 D4 D5 D6]. constructor; auto.
  - by eapply cfg_ok_ext.
  - eapply index_ok_ext; [done| |exact D2]. by destruct Q2.
  - by eapply disk_ext.
  - by destruct Q2 as (-> & _).
  - unfold table, data. by rewrite Q1.
Qed.

Lemma quiet_clock w s : fs s = fs (sys w) -> quiet w (with_sys s w).
Proof. intros H. do 4 (split; [done|]). by apply alone_ext. Qed.

Lemma quiet_last_poll now w : quiet w (with_inner (set_last_poll now) w).
Proof. do 4 (split; [done|]). by apply alone_ext. Qed.

(** A reader of a sibling log that is not there. *)
Definition idle (w : World) (t : TailReader) : Prop :=
  exists n, t_path t = path_join (dir (inner w)) n /\
    is_shard_name (own_name (inner w)) n = true /\ t_offset t = 0%nat.

Lemma poll_one_quiet w name t : alone w -> idle w t -> quiet w (poll_one os w (name, t)).
Proof.
  intros Al (n & Hp & Hn & Ho). unfold poll_one, read_new, file_size. simpl.
  rewrite Ho, Hp, (proj1 Al n Hn). simpl.
  split_and!; simpl; rewrite ?feed_nil; try done. intros [A1 A2]. split; simpl; rewrite ?feed_nil; [done|].
  intros m t'. simpl. rewrite lookup_insert. case_decide; [|apply A2]. intros [= <-]. eauto.
Qed.

Lemma fold_poll_quiet l : forall w,
  alone w -> Forall (fun nt => idle w (snd nt)) l -> quiet w (fold_left (poll_one os) l w).
Proof.
  induction l as [|[n t] l IH]; intros w Al Hl; simpl; [apply quiet_refl|].
  apply Forall_cons in Hl as [Ht Hl]. pose proof (poll_one_quiet w n t Al Ht) as Hq.
  pose proof Hq as (Q1 & Q2 & Q3 & Q4 & Q5). eapply quiet_trans; [exact Hq|]. apply IH; [auto|].
  destruct Q2 as (C1 & C2 & C3 & C4 & C5). unfold idle. by rewrite C3, C4.
Qed.

Lemma shard_files_alone w : alone w -> shard_files (sys w) (dir (inner w)) (own_name (inner w)) = [].
Proof.
  intros [Al _]. unfold shard_files. set (l := filter _ _).
  assert (l = []) as ->; [|done]. destruct l as [|n l'] eqn:El; [done|exfalso].
  assert (Hin : n ∈ l) by (rewrite El; left). subst l.
  apply list_elem_of_filter in Hin as [Hn Hin]. apply Is_true_true in Hn.
  unfold dir_names in Hin. apply list_elem_of_omap in Hin as ([p c] & Hp & Hname).
  apply elem_of_map_to_list in Hp. simpl in Hname. unfold name_in in Hname.
  destruct (starts_with _ p) eqn:Es; [|done]. apply starts_with_spec in Es as [r ->].
  case_bool_decide; [done|]. injection Hname as <-.
  specialize (Al _ Hn). unfold path_join, content in Al.
  rewrite app_assoc, drop_app_ge in Al by (rewrite length_app; simpl; lia).
  rewrite length_app in Al. simpl in Al. replace (S (length (dir (inner w))) - (length (dir (inner w)) + 1))%nat
    with 0%nat in Al by lia. rewrite drop_0 in Al. clear -Al Hp. simpl in *.
  congruence.
Qed.

Lemma poll_locked_quiet w : alone w -> quiet w (poll_locked os w).
Proof.
  intros Al. unfold poll_locked. rewrite shard_files_alone by done. cbn [fold_left now_ms].
  set (w1 := with_inner (fun i => i) w). set (rd := umap_iter _).
  assert (Hq : quiet w (fold_left (poll_one os) rd w1)).
  { eapply quiet_trans; [|apply fold_poll_quiet].
    - split_and!; done.
    - done.
    - apply Forall_forall. intros [n t] Hnt. unfold rd in Hnt. apply umap_iter_elem in Hnt.
      by apply (proj2 Al) in Hnt. }
  eapply quiet_trans; [exact Hq|]. eapply quiet_trans; [|apply quiet_clock; done].
  apply quiet_last_poll.
Qed.

Lemma tail_missed_quiet code w : cfg_ok (inner w) -> alone w -> quiet w (tail_missed os code w).
Proof.
  intros Hc Al. unfold tail_missed. destruct code as [|c0 code]; [apply quiet_refl|].
  destruct (aof (inner w)); [|apply quiet_refl]. destruct ((0 <=? _) && _) eqn:E; cbn [now_ms].
  - bool_facts. set (owner := Base62.alpha_idx c0) in *. set (t := default _ _).
    eapply quiet_trans; [apply (poll_one_quiet w (log_name owner) t Al)|].
    + unfold t. destruct (tl_readers (tail (inner w)) !! log_name owner) as [t0|] eqn:Et; simpl.
      * by apply (proj2 Al) in Et.
      * exists (log_name owner). split_and!; try done. destruct Hc as [-> _].
        apply shard_name_log. lia.
    + eapply quiet_trans; [|apply quiet_clock; done]. apply quiet_last_poll.
  - assert (Hq : forall s, fs s = fs (sys w) -> quiet w (with_sys s w)) by (intros; by apply quiet_clock).
    case_match; [|by apply Hq].
    eapply quiet_trans; [|apply poll_locked_quiet; by apply (alone_ext w)]. by apply Hq.
Qed.

(** *** [resolve] *)
Lemma durable_count_hit code e w S L Bf :
  durable w S L Bf -> find (inner w) code = Some e -> durable (count_hit env code e w) S L Bf.
Proof.
  intros D Hf. unfold count_hit. destruct (track_hits env); [|done].
  pose proof (du_index _ _ _ _ D) as Hx. pose proof Hx as (Hwf & _ & Hall).
  destruct (Hall code e) as (Hc & Ha & He & Ho & Hi); [by rewrite data_find|].
  set (i1 := data_insert code (add_hits e 1 true) (inner w)).
  assert (Hx1 : index_ok (dirty_bump code i1)).
  { apply index_ok_bump; [|done]. apply index_ok_insert; [done|done|].
    split_and!; try done. apply i64_range. }
  destruct D as [D1 D2 D3 D4 D5 D6]. constructor; try done.
  change (table (dirty_bump code i1) = replay_table (S ++ L ++ Bf)).
  unfold table. rewrite data_dirty_bump by (unfold i1; auto with shrt). fold (table i1).
  rewrite <- D6. unfold i1. by eapply table_insert_same.
Qed.

Lemma durable_live e w S L Bf :
  durable w S L Bf -> durable (with_sys (snd (live os e (sys w))) w) S L Bf.
Proof. intros D. eapply durable_ext; [..|exact D]; [done|]. apply live_spec. Qed.

(** A lookup never changes what is on disk, and what it answers. *)
Lemma durable_resolve code w S L Bf :
  durable w S L Bf ->
  let '(r, w') := resolve os env code w in
  durable w' S L Bf /\ (data (inner w) !! code = None -> r = None).
Proof.
  intros D. pose proof (du_index _ _ _ _ D) as (Hwf & _ & _).
  rewrite data_find by done. unfold resolve. destruct (find (inner w) code) as [e|] eqn:E.
  - pose proof (durable_live (e_e e) w S L Bf D) as D'.
    destruct (live os (e_e e) (sys w)) as [ok s]. simpl in D'. destruct ok; [|done].
    split; [|done]. by apply durable_count_hit.
  - destruct (aof (inner w)); [|done].
    pose proof (tail_missed_quiet code w (du_cfg _ _ _ _ D) (du_alone _ _ _ _ D)) as Hq.
    pose proof (durable_quiet _ _ _ _ _ Hq D) as D'. destruct Hq as (Q1 & _).
    set (w1 := tail_missed os code w) in *.
    assert (find (inner w1) code = None) as ->; [|done]. unfold find, shard_at in *. by rewrite Q1.
Qed.

End Ops.
End Durability.
