(* ===== verification/Recovery.v ===== *)
(** * Sessions: opening, running operations, crashing and opening again

    The operations of an instance as one step function, the directory a
    session starts from, and what opening finds in it. The claims at the end
    are about whole sessions: what was flushed is rebuilt, a crash loses only
    the unflushed end, compaction keeps every link. *)

From S2P Require Import Prelude CLib Common Codec Aof Store StoreFacts StoreSpec Durability.

(** ** Operations as data *)
Inductive StoreOp :=
| DoShorten (url : bytes) (alias : option bytes) (ttl : Z)
| DoShortenMany (urls : list bytes) (ttl : Z)
| DoResolve (code : bytes)
| DoUpdate (code url : bytes) (ttl : Z) (has_ttl : bool)
| DoRemove (code : bytes)
| DoFlush | DoSync | DoPoll | DoCompact.

(** An alias the file format can hold; [code_ok] of app.cpp implies it. *)
Definition op_ok (o : StoreOp) : Prop :=
  match o with DoShorten _ (Some c) _ => plain_code c | _ => True end.

Section Recovery.
Context {std : StdImpl} (os : Os) (env : Env).

Definition step (fuel : nat) (o : StoreOp) (w : World) : option World :=
  match o with
  | DoShorten url alias ttl =>
      match shorten os fuel url alias ttl w with Done _ w' => Some w' | OutOfFuel => None end
  | DoShortenMany urls ttl =>
      match shorten_many os fuel urls ttl w with Done _ w' => Some w' | OutOfFuel => None end
  | DoResolve code => Some (snd (resolve os env code w))
  | DoUpdate code url ttl has_ttl => Some (snd (update os code url ttl has_ttl w))
  | DoRemove code => Some (snd (remove code w))
  | DoFlush => Some (flush_store os w)
  | DoSync => Some (sync_store os w)
  | DoPoll => Some (poll_tails os w)
  | DoCompact => Some (compact os w)
  end.

Fixpoint run (fuel : nat) (ops : list StoreOp) (w : World) : option World :=
  match ops with
  | [] => Some w
  | o :: ops => match step fuel o w with Some w' => run fuel ops w' | None => None end
  end.

(** ** Every step keeps the log a description of the index *)
Lemma poll_tails_quiet w : alone w -> quiet w (poll_tails os w).
Proof. intros Al. unfold poll_tails. case_match; [by apply poll_locked_quiet|apply quiet_refl]. Qed.

Lemma step_durable fuel o w w' S L Bf :
  no_io_error (os_write os) -> op_ok o -> durable w S L Bf -> step fuel o w = Some w' ->
  exists S' L' Bf', durable w' S' L' Bf'.
Proof.
  intros Hw Ho D. destruct o as [url alias ttl|urls ttl|code|code url ttl has_ttl|code| | | |]; simpl.
  - assert (Ha : forall c, alias = Some c -> plain_code c) by (by intros c ->).
    pose proof (durable_shorten os Hw fuel url alias ttl w S L Bf D Ha) as H.
    destruct (shorten os fuel url alias ttl w) as [[c|] w1|]; intros [= <-]; naive_solver.
  - pose proof (durable_shorten_many os Hw fuel urls ttl w S L Bf D) as H.
    destruct (shorten_many os fuel urls ttl w) as [cs w1|]; intros [= <-]. naive_solver.
  - pose proof (durable_resolve os env code w S L Bf D) as H.
    destruct (resolve os env code w) as [r w1]. intros [= <-]. naive_solver.
  - pose proof (durable_update os code url ttl has_ttl w S L Bf D) as H.
    destruct (update os code url ttl has_ttl w) as [[] w1]; intros [= <-];
      destruct (data (inner w) !! code); naive_solver.
  - pose proof (durable_remove code w S L Bf D) as H.
    destruct (remove code w) as [[] w1]; intros [= <-];
      destruct (data (inner w) !! code); naive_solver.
  - intros [= <-]. destruct (durable_flush os Hw w S L Bf D) as [? _]. eauto.
  - intros [= <-]. eauto using durable_sync.
  - intros [= <-]. exists S, L, Bf. eapply durable_quiet; [|exact D].
    apply poll_tails_quiet, (du_alone _ _ _ _ D).
  - intros [= <-]. destruct (durable_compact os Hw w S L Bf D) as [? _]. eauto.
Qed.

Lemma run_durable fuel ops : forall w w' S L Bf,
  no_io_error (os_write os) -> Forall op_ok ops -> durable w S L Bf -> run fuel ops w = Some w' ->
  exists S' L' Bf', durable w' S' L' Bf'.
Proof.
  induction ops as [|o ops IH]; intros w w' S L Bf Hw Ho D; simpl; [intros [= <-]; eauto|].
  apply Forall_cons in Ho as [Ho Hops].
  destruct (step fuel o w) as [w1|] eqn:E; [|done].
  destruct (step_durable fuel o w w1 S L Bf Hw Ho D E) as (S1 & L1 & B1 & D1). eauto.
Qed.

(** ** The directory a session starts from *)

(** The files of instance [inst] in [d] hold the records [S] (snapshot) and
    [L] (log) and possibly an unfinished line after them; nobody else ever
    wrote there. *)
Record dir_ok (d : bytes) (inst : Z) (s : Sys) (S L : list LogRec) (torn : bytes) : Prop := {
  do_inst : 0 <= inst < Base62.MAX_INSTANCES;
  do_dir : d ≠ B ":memory:";
  do_snap : contents s (path_join d (snap_name inst)) = log_bytes S;
  do_log : contents s (path_join d (log_name inst)) = log_bytes L ++ torn;
  do_torn : LF ∉ torn;
  do_recs : Forall (own_rec inst) (S ++ L);
  do_alone : forall n, is_shard_name (log_name inst) n = true -> content s (path_join d n) = None;
  do_open : (path_join d (log_name inst) ∉ denied (fs s)) /\
            (path_join d (snap_name inst) ∉ denied (fs s)) /\
            (path_join d (snap_name inst) ++ B ".tmp" ∉ denied (fs s))
}.

(** Replaying own records keeps the index in shape. *)
Lemma index_ok_apply inn r stray :
  index_ok inn -> cfg_ok inn -> own_rec (instance inn) r ->
  index_ok (fst (apply inn (op_of r) stray)).
Proof.
  intros Hx Hcfg [Hr Hown]. destruct (instance_i64 _ Hcfg) as [_ I2].
  unfold apply. destruct r as [c u a e i n|c d i|c]; simpl in *.
  - destruct Hr as (Hc & Ha & He & Hi & Hn). assert (c ≠ []) by apply Hc.
    rewrite bool_decide_eq_false_2 by done. simpl.
    apply index_ok_insert; [by apply index_ok_erase|done|]. subst i.
    split_and!; simpl; [done|by case_match|apply i64_range|done].
  - destruct Hr as (Hc & Hd & Hi). assert (c ≠ []) by apply Hc.
    rewrite bool_decide_eq_false_2 by done. simpl.
    destruct (find inn c) as [e|] eqn:E; [|done]. simpl. apply index_ok_insert; [done|done|].
    destruct Hx as (Hwf & _ & Hall). rewrite <- data_find in E by done.
    destruct (Hall c e E) as (_ & Ha & He & Ho & Hi'). split_and!; simpl; try done.
    case_match; [apply i64_range|done].
  - assert (c ≠ []) by apply Hr. rewrite bool_decide_eq_false_2 by done. simpl.
    by apply index_ok_erase.
Qed.

Lemma index_ok_apply_lines rs : forall st,
  index_ok (fst st) -> cfg_ok (fst st) -> Forall (own_rec (instance (fst st))) rs ->
  index_ok (fst (apply_lines (map line_of rs) st)).
Proof.
  induction rs as [|r rs IH]; intros st Hx Hc Hrs; simpl; [done|].
  pose proof Hrs as Hrs'. apply Forall_cons in Hrs as [Hr Hrs].
  assert (apply_line st (line_of r) = apply (fst st) (op_of r) (snd st)) as ->
    by (unfold apply_line; rewrite parse_op_line_of; [done|apply Hr]).
  destruct (apply_frame (fst st) (op_of r) (snd st) (proj1 Hx)) as (_ & Hcfg & _ & _).
  apply IH; [by apply index_ok_apply|by eapply cfg_ok_ext|]. by destruct Hcfg as (-> & _).
Qed.

(** A world during boot: everything of [durable] but the table. *)
Definition booting (w : World) (rs : list LogRec) : Prop :=
  cfg_ok (inner w) /\ index_ok (inner w) /\ table (inner w) = replay_table rs.

Lemma lines_of_torn torn : LF ∉ torn -> lines_of torn = [].
Proof.
  intros H. unfold lines_of. rewrite <- (app_nil_r torn). by rewrite split_lines_no_lf.
Qed.

Lemma replay_into_own path w pre rs torn :
  no_io_error (os_read os) -> booting w pre -> Forall (own_rec (instance (inner w))) rs ->
  contents (sys w) path = log_bytes rs ++ torn -> LF ∉ torn ->
  let w' := replay_into os path w in
  booting w' (pre ++ rs) /\ same_config (inner w') (inner w) /\ aof (inner w') = aof (inner w) /\
  tl_readers (tail (inner w')) = tl_readers (tail (inner w)) /\ fs (sys w') = fs (sys w).
Proof.
  intros Hrd (Hc & Hx & Ht) Hrs Hcont Htorn. unfold replay_into.
  pose proof (replay_file_spec os path (sys w)) as HR.
  destruct (replay_file os path (sys w)) as [ls s']. destruct HR as (R1 & _ & _ & _ & R2).
  rewrite R2, Hcont by done. unfold log_bytes.
  rewrite lines_of_frame_app, lines_of_torn, app_nil_r by (done || eapply lines_framed, own_rec_ok, Hrs).
  destruct (feed_frame (map line_of rs) (inner w) (proj1 Hx)) as (_ & F2 & F3 & F4).
  simpl. split; [|done]. split; [|split].
  - by eapply cfg_ok_ext.
  - unfold feed. pose proof (index_ok_apply_lines rs (inner w, tl_stray (tail (inner w))) Hx Hc Hrs) as HH.
    cbn [inner with_sys with_inner]. destruct (apply_lines _ _) as [i' st'].
    by eapply index_ok_ext; [..|exact HH].
  - cbn [inner with_sys with_inner]. rewrite feed_table by (apply Hx || by eapply own_rec_ok). by rewrite replay_table_app, Ht.
Qed.

(** *** Opening *)
Definition opened (d : bytes) (inst : Z) (a : Aof) (s : Sys) (seed links : Z) : World :=
  mkWorld (mkInner (replicate NUM_SHARDS Shard0) Tail0 (Some a) inst (Base62.alpha inst) d (log_name inst) []
             false false) s seed links.

Lemma open_store_eq d inst s seed links :
  d ≠ B ":memory:" -> 0 <= inst < Base62.MAX_INSTANCES -> path_join d (log_name inst) ∉ denied (fs s) ->
  let '(fd, s') := open_write (path_join d (log_name inst)) true false s in
  open_store os d inst s seed links =
    inl (boot os (opened d inst (mkAof [] fd (path_join d (log_name inst))) s' seed links)).
Proof.
  intros Hd Hi Hden. unfold open_store, open_at, open_write. rewrite !bool_decide_eq_false_2 by done.
  unfold Base62.MAX_INSTANCES in *. rewrite (proj2 (Z.leb_le 0 inst)) by lia.
  rewrite (proj2 (Z.ltb_ge inst 0)), (proj2 (Z.leb_gt 62 inst)) by lia.
  simpl. by rewrite bool_decide_eq_false_2.
Qed.

(** Opening rebuilds the table of the records on disk, and the state it
    returns is again described by them; a torn last line is invisible to the
    replay but still in the file. *)
Lemma open_store_ok d inst s seed links S L torn :
  no_io_error (os_read os) -> dir_ok d inst s S L torn ->
  exists w, open_store os d inst s seed links = inl w /\
    table (inner w) = replay_table (S ++ L) /\ instance (inner w) = inst /\ dir (inner w) = d /\
    (torn = [] -> durable w S L []).
Proof.
  intros Hrd [D1 D2 D3 D4 D5 D6 D7 (D8 & D9 & D10)].
  pose proof (open_store_eq d inst s seed links D2 D1 D8) as HE.
  unfold open_write in HE. rewrite bool_decide_eq_false_2 in HE by done.
  set (p := path_join d (log_name inst)) in *. set (a := mkAof [] (Some (mkFd true 0)) p) in *.
  set (s1 := set_files _ s) in *. eexists; split; [exact HE|]. clear HE.
  assert (Hc1 : forall q, contents s1 q = contents s q).
  { intros q. unfold contents, s1. autorewrite with shrt. unfold content.
    destruct (decide (p = q)) as [<-|]; [by rewrite lookup_insert_eq|by rewrite lookup_insert_ne]. }
  set (w0 := opened d inst a s1 seed links).
  assert (B0 : booting w0 []).
  { split; [done|]. split; [|unfold table; by rewrite data_fresh, fmap_empty].
    split_and!; [by apply fresh_wf| |].
    - intros k sh c dd Hk Hy. apply lookup_replicate in Hk as [-> _]. simpl in Hy. by rewrite lookup_empty in Hy.
    - intros c e. by rewrite data_fresh, lookup_empty. }
  apply Forall_app in D6 as [DS DL]. unfold boot.
  destruct (replay_into_own (path_join (dir (inner w0)) (snap_name (instance (inner w0)))) w0 [] S [])
    as (B1 & C1 & A1 & T1 & F1); [done|done|done| |apply not_elem_of_nil|].
  { simpl. by rewrite Hc1, D3, app_nil_r. }
  set (w1 := replay_into os _ w0) in *. pose proof C1 as (E1 & E2 & E3 & E4 & E5).
  destruct (replay_into_own (path_join (dir (inner w1)) (own_name (inner w1))) w1 S L torn)
    as (B2 & C2 & A2 & T2 & F2); [done|done|by rewrite E1| |done|].
  { unfold contents, content. rewrite F1, E3, E4. simpl. fold p. change (contents s1 p = log_bytes L ++ torn).
    by rewrite Hc1. }
  set (w2 := replay_into os _ w1) in *. assert (C3 : same_config (inner w2) (inner w0)) by (by etrans).
  pose proof C3 as (G1 & G2 & G3 & G4 & G5).
  assert (Al : alone w2).
  { split; [|intros n t; rewrite T2, T1; simpl; by rewrite lookup_empty].
    intros n Hn. unfold content. rewrite F2, F1, G3. rewrite G4 in Hn. simpl in *.
    change (content s1 (path_join d n) = None). unfold s1. autorewrite with shrt.
    rewrite lookup_insert_ne; [by apply D7|]. intros Hp. apply path_join_inj in Hp. subst n.
    apply shard_name_ends in Hn as [_ ?]. done. }
  pose proof (shard_files_alone w2 Al) as Hsf. rewrite Hsf. simpl.
  destruct B2 as (K1 & K2 & K3). split_and!; [done|by rewrite G1|by rewrite G3|]. intros ->.
  destruct (config_paths _ _ C3) as (P1 & P2 & P3).
  assert (Hc2 : forall q, contents (sys w2) q = contents s q).
  { intros q. rewrite <- Hc1. unfold contents, content. by rewrite F2, F1. }
  constructor; [done|done| |done| |by rewrite app_nil_r].
  - exists a. rewrite A2, A1, P1, P2, P3, F2, F1. split; [done|]. split; [done|]. split.
    { unfold aof_ok. simpl. unfold content. rewrite F2, F1. simpl. by rewrite lookup_insert_eq. }
    split; [done|]. split; [done|]. split; [by rewrite Hc2|]. split; [|done].
    rewrite Hc2. etrans; [exact D4|apply app_nil_r].
  - rewrite G1, app_nil_r. by apply Forall_app.
Qed.

(** The directory of a session, at rest or in the middle of a flush. *)
Lemma base_dir w S L Bf s :
  base w S L Bf -> denied (fs s) = denied (fs (sys w)) ->
  (forall p, p ≠ log_path (inner w) -> content s p = content (sys w) p) ->
  forall L' torn, contents s (log_path (inner w)) = log_bytes L' ++ torn -> (LF ∉ torn) ->
  Forall (own_rec (instance (inner w))) L' ->
  dir_ok (dir (inner w)) (instance (inner w)) s S L' torn.
Proof.
  intros [(C1 & C2 & C3 & C4) D2 D3 D4 D5] Hd Hf L' torn Hl Ht HL.
  destruct D3 as (a & Ha & Hp & Hok & H4 & H5 & H6 & _).
  destruct (log_snap_ne (inner w) C1) as (E1 & _). constructor; auto.
  - change (contents s (snap_path (inner w)) = log_bytes S). unfold contents in *. by rewrite Hf.
  - by rewrite <- C1.
  - rewrite Forall_app in *. tauto.
  - intros n Hn. rewrite <- C1 in Hn. rewrite Hf; [by apply D4|].
    by destruct (shard_path_ne _ n (inner w) eq_refl Hn).
  - rewrite Hd. split; [|done]. rewrite <- C1. change (log_path (inner w) ∉ denied (fs (sys w))).
    rewrite <- Hp. unfold aof_ok in Hok. destruct (a_fd a); naive_solver.
Qed.

Lemma open_store_full d inst s seed links S L w :
  no_io_error (os_read os) -> dir_ok d inst s S L [] -> open_store os d inst s seed links = inl w ->
  durable w S L [].
Proof.
  intros Hrd Hd Ho. destruct (open_store_ok d inst s seed links S L [] Hrd Hd) as (w' & H1 & _ & _ & _ & H2).
  rewrite Ho in H1. injection H1 as ->. by apply H2.
Qed.

(** The instance and directory of a session never change. *)
Lemma flush_if_full_config w : same_config (inner (aof_flush_if_full os w)) (inner w).
Proof. unfold aof_flush_if_full. repeat case_match; done. Qed.

Lemma resolve_config code w S L Bf : durable w S L Bf -> same_config (inner (snd (resolve os env code w))) (inner w).
Proof.
  intros D. pose proof (du_index _ _ _ _ D) as (Hwf & _).
  assert (Hcount : forall e w0, same_config (inner (count_hit env code e w0)) (inner w0))
    by (intros; unfold count_hit; by case_match).
  unfold resolve. destruct (find (inner w) code) as [e|] eqn:E.
  - destruct (live os (e_e e) (sys w)) as [[] s]; [exact (Hcount e (with_sys s w))|done].
  - destruct (aof (inner w)); [|done].
    destruct (tail_missed_quiet os code w (du_cfg _ _ _ _ D) (du_alone _ _ _ _ D)) as (_ & Q & _).
    set (w1 := tail_missed os code w) in *. destruct (find (inner w1) code) as [e|]; [|done].
    destruct (live os (e_e e) (sys w1)) as [[] s]; [|done].
    etrans; [exact (Hcount e (with_sys s w1))|done].
Qed.

Lemma step_config fuel o w w' S L Bf :
  durable w S L Bf -> step fuel o w = Some w' -> same_config (inner w') (inner w).
Proof.
  intros D. pose proof (du_index _ _ _ _ D) as (H & _).
  destruct o as [url alias ttl|urls ttl|code|code url ttl has_ttl|code| | | |]; simpl.
  - pose proof (shorten_spec os fuel url alias ttl w H) as HH.
    destruct (shorten os fuel url alias ttl w) as [[c|] w1|]; intros [= <-];
      [by destruct HH as (_ & _ & _ & _ & ? & _)|by destruct HH as (_ & -> & _)].
  - pose proof (shorten_many_spec os fuel urls ttl w H) as HH.
    destruct (shorten_many os fuel urls ttl w); intros [= <-]. by destruct HH as (_ & _ & _ & _ & _ & ? & _).
  - intros [= <-]. by eapply resolve_config.
  - intros [= <-]. pose proof (update_spec os code url ttl has_ttl w H) as HH.
    destruct (update os code url ttl has_ttl w). by destruct HH as (_ & ? & _).
  - intros [= <-]. pose proof (remove_spec code w H) as HH. destruct (remove code w). by destruct HH as (_ & ? & _).
  - intros [= <-]. by destruct (flush_store_frame os w H) as (_ & ? & _).
  - intros [= <-]. unfold sync_store. case_match; [|done]. by destruct (sync os _ _).
  - intros [= <-]. by destruct (poll_tails_quiet w (du_alone _ _ _ _ D)) as (_ & ? & _).
  - intros [= <-]. by destruct (compact_frame os w H) as (_ & ? & _).
Qed.

Lemma run_config fuel ops : forall w w' S L Bf,
  no_io_error (os_write os) -> Forall op_ok ops -> durable w S L Bf -> run fuel ops w = Some w' ->
  same_config (inner w') (inner w).
Proof.
  induction ops as [|o ops IH]; intros w w' S L Bf Hw Ho D; simpl; [by intros [= <-]|].
  apply Forall_cons in Ho as [Ho Hops]. destruct (step fuel o w) as [w1|] eqn:E; [|done]. intros Hr.
  destruct (step_durable fuel o w w1 S L Bf Hw Ho D E) as (S1 & L1 & B1 & D1).
  etrans; [by eapply IH|by eapply step_config].
Qed.

(** What a crash leaves: of the buffer, the first [k] bytes reached the
    file. *)
Definition crash (k : nat) (w : World) : Sys :=
  match aof (inner w) with
  | None => sys w
  | Some a => set_files (fun m => <[a_path a := default [] (m !! a_path a) ++ take k (a_buf a)]> m) (sys w)
  end.

(** How many records of [Bf] have their line, its end included, in the first
    [k] bytes. *)
Definition whole_before (k : nat) (Bf : list LogRec) (m : nat) : Prop :=
  (m <= length Bf)%nat /\ (length (log_bytes (take m Bf)) <= k)%nat /\
  ((m < length Bf)%nat -> (k < length (log_bytes (take (Datatypes.S m) Bf)))%nat).

Lemma crash_dir w S L Bf k :
  durable w S L Bf ->
  exists m torn, dir_ok (dir (inner w)) (instance (inner w)) (crash k w) S (L ++ take m Bf) torn /\
    ((length (log_bytes Bf) <= k)%nat -> torn = [] /\ m = length Bf) /\ whole_before k Bf m.
Proof.
  intros D. pose proof D as [D1 D2 D3 D4 D5 D6]. destruct D3 as (a & Ha & Hp & Hok & H4 & H5 & H6 & H7 & H8).
  apply Forall_app in D5 as [DS D5]. apply Forall_app in D5 as [DL DB].
  destruct (take_frame (map line_of Bf) (lines_framed _ (own_rec_ok _ _ DB)) k) as (m & torn & Ht & Hn & Hk & M1 & M2 & M3).
  rewrite length_map in *. rewrite firstn_map in Ht, M2, M3. exists m, torn. split; [|split; [exact Hk|by split_and!]].
  unfold crash. rewrite Ha. eapply (base_dir w S L Bf _ (durable_base _ _ _ _ D)); [done|..|done|].
  - intros p Hne. rewrite content_set_files, Hp. by rewrite lookup_insert_ne.
  - unfold contents in *. autorewrite with shrt. rewrite Hp, lookup_insert_eq. simpl.
    unfold content in H7. rewrite H7, H8, log_bytes_app, <- app_assoc. f_equal.
    unfold log_bytes. by rewrite Ht.
  - apply Forall_app. split; [done|]. by apply Forall_take.
Qed.

(** Opening what a session with an empty buffer left. *)
Lemma reopen_at_rest w S L seed links :
  no_io_error (os_read os) -> durable w S L [] ->
  exists w2, open_store os (dir (inner w)) (instance (inner w)) (sys w) seed links = inl w2 /\
    table (inner w2) = table (inner w) /\ wf w2.
Proof.
  intros Hr D. pose proof (du_recs _ _ _ _ D) as HR. rewrite !Forall_app in HR.
  pose proof (du_disk _ _ _ _ D) as (_ & _ & _ & _ & _ & _ & _ & HL & _).
  assert (Hd : dir_ok (dir (inner w)) (instance (inner w)) (sys w) S L []).
  { apply (base_dir w S L [] _ (durable_base _ _ _ _ D)); try done; [by rewrite app_nil_r|apply not_elem_of_nil|tauto]. }
  destruct (open_store_ok _ _ _ seed links _ _ _ Hr Hd) as (w2 & H1 & H2 & _ & _ & H3).
  exists w2. split_and!; [done|by rewrite H2, (du_table _ _ _ _ D), app_nil_r|].
  apply (du_index _ _ _ _ (H3 eq_refl)).
Qed.

Lemma reopen_table w S L Bf seed links :
  no_io_error (os_write os) -> no_io_error (os_read os) -> durable w S L Bf ->
  exists w2, open_store os (dir (inner w)) (instance (inner w)) (sys (flush_store os w)) seed links = inl w2 /\
    table (inner w2) = table (inner w) /\ wf w2.
Proof.
  intros Hw Hr D. destruct (durable_flush os Hw w S L Bf D) as [D' Hd].
  destruct (reopen_at_rest _ _ _ seed links Hr D') as (w2 & H1 & H2 & H3).
  destruct (flush_store_frame os w (proj1 (du_index _ _ _ _ D))) as (_ & (I1 & _ & I3 & _) & _).
  rewrite I1, I3 in H1. exists w2. split_and!; [done| |done]. rewrite H2. unfold table. by rewrite Hd.
Qed.

End Recovery.

(** ** A session to instantiate the claims at *)
Definition Env0 : Env := fun _ => None.
Definition no_world : World := mkWorld Inner0 RefSys 0 0.

Lemma empty_dir_ok : dir_ok (B "data") 0 RefSys [] [] [].
Proof.
  constructor; try done. apply not_elem_of_nil.
Qed.

Definition demo_ops : list StoreOp :=
  [DoShorten (B "https://a.b/c") (Some (B "x")) 0; DoResolve (B "x"); DoFlush;
   DoShorten (B "https://a.b/d") (Some (B "y")) 60].

Lemma demo_ops_ok : Forall op_ok demo_ops.
Proof.
  assert (H : forall c, c = "x"%char \/ c = "y"%char -> plain_code [c]).
  { intros c Hc. split; [done|]. split.
    - constructor; [|constructor]. by destruct Hc as [-> | ->].
    - destruct Hc as [-> | ->]; by apply (bool_decide_unpack (_ ∉ _)). }
  repeat (constructor; [by (simpl; auto)|]). constructor.
Qed.

Definition demo_open : World :=
  match open_store (std := RefStd) RefOs (B "data") 0 RefSys 1 0 with inl w => w | inr _ => no_world end.
Definition demo_world : World := default no_world (run (std := RefStd) RefOs Env0 1 demo_ops demo_open).

Lemma demo_open_eq : open_store (std := RefStd) RefOs (B "data") 0 RefSys 1 0 = inl demo_open.
Proof. vm_compute. reflexivity. Qed.
Lemma demo_run_eq : run (std := RefStd) RefOs Env0 1 demo_ops demo_open = Some demo_world.
Proof. vm_compute. reflexivity. Qed.

Lemma demo_durable : exists S L Bf, durable demo_world S L Bf.
Proof.
  eapply (run_durable (std := RefStd) RefOs Env0 1 demo_ops demo_open demo_world [] [] []);
    [exact RefOs_write|exact demo_ops_ok| |exact demo_run_eq].
  eapply (open_store_full (std := RefStd) RefOs); [exact RefOs_read|exact empty_dir_ok|exact demo_open_eq].
Qed.

(** Two links behind the last flush. *)
Definition demo_two_ops : list StoreOp := demo_ops ++ [DoShorten (B "https://a.b/e") (Some (B "z")) 0].
Definition demo_two : World := default no_world (run (std := RefStd) RefOs Env0 1 demo_two_ops demo_open).
Lemma demo_two_durable : exists S L Bf, durable demo_two S L Bf.
Proof.
  eapply (run_durable (std := RefStd) RefOs Env0 1 demo_two_ops demo_open demo_two [] [] []); [exact RefOs_write| | |].
  - apply Forall_app. split; [exact demo_ops_ok|]. constructor; [|done]. split; [done|]. split.
    + by constructor.
    + by apply (bool_decide_unpack (_ ∉ _)).
  - eapply (open_store_full (std := RefStd) RefOs); [exact RefOs_read|exact empty_dir_ok|exact demo_open_eq].
  - vm_compute. reflexivity.
Qed.

(** ** The claims *)

(** C2 Every state a session reaches, from opening its directory through any
    sequence of operations, is described by its files: replaying the
    snapshot, the log and the buffer, in this order, gives exactly the links
    of the index. *)
Theorem session_log_describes_index {std : StdImpl} os env fuel d inst s seed links S L ops w0 w1 :
  no_io_error (os_write os) -> no_io_error (os_read os) ->
  dir_ok d inst s S L [] -> Forall op_ok ops ->
  open_store os d inst s seed links = inl w0 -> run os env fuel ops w0 = Some w1 ->
  exists S' L' Bf',
    contents (sys w1) (path_join d (snap_name inst)) = log_bytes S' /\
    contents (sys w1) (path_join d (log_name inst)) = log_bytes L' /\
    (exists a, aof (inner w1) = Some a /\ a_buf a = log_bytes Bf') /\
    table (inner w1) = replay_table (S' ++ L' ++ Bf').
Proof.
  intros Hw Hr Hd Hops Ho Hrun. pose proof (open_store_full os d inst s seed links S L w0 Hr Hd Ho) as D0.
  destruct (run_durable os env fuel ops w0 w1 S L [] Hw Hops D0 Hrun) as (S' & L' & B' & D1).
  destruct (run_config os env fuel ops w0 w1 S L [] Hw Hops D0 Hrun) as (I1 & _ & I3 & I4 & _).
  destruct (open_store_ok os d inst s seed links S L [] Hr Hd) as (w & Hw0 & _ & J1 & J2 & _).
  rewrite Ho in Hw0. injection Hw0 as <-. exists S', L', B'.
  destruct (du_disk _ _ _ _ D1) as (a & Ha & _ & _ & _ & _ & HS & HL & HB).
  unfold snap_path, log_path in *. destruct (du_cfg _ _ _ _ D1) as (C1 & _).
  rewrite C1, I1, I3, J1, J2 in *. split_and!; try done; [by exists a|apply D1].
Qed.

Lemma session_log_describes_index_witness :
  exists S L Bf, table (inner demo_world) = replay_table (S ++ L ++ Bf) /\
    is_Some (table (inner demo_world) !! B "y").
Proof.
  destruct (session_log_describes_index (std := RefStd) RefOs Env0 1 (B "data") 0 RefSys 1 0 [] [] demo_ops
    demo_open demo_world RefOs_write RefOs_read empty_dir_ok demo_ops_ok demo_open_eq demo_run_eq)
    as (S & L & Bf & _ & _ & _ & H).
  exists S, L, Bf. split; [exact H|]. vm_compute. by eexists.
Defined.

(** C1 What was flushed is durable: open a directory, run any operations,
    flush and open the directory again, and the new index has exactly the
    links (url, creation, expiry, owner) of the old one. *)
Theorem session_survives_reopen {std : StdImpl} os env fuel d inst s seed links seed' links' S L ops w0 w1 :
  no_io_error (os_write os) -> no_io_error (os_read os) ->
  dir_ok d inst s S L [] -> Forall op_ok ops ->
  open_store os d inst s seed links = inl w0 -> run os env fuel ops w0 = Some w1 ->
  exists w2, open_store os d inst (sys (flush_store os w1)) seed' links' = inl w2 /\
    forall c, row_of <$> find (inner w2) c = row_of <$> find (inner w1) c.
Proof.
  intros Hw Hr Hd Hops Ho Hrun. pose proof (open_store_full os d inst s seed links S L w0 Hr Hd Ho) as D0.
  destruct (run_durable os env fuel ops w0 w1 S L [] Hw Hops D0 Hrun) as (S' & L' & B' & D1).
  destruct (run_config os env fuel ops w0 w1 S L [] Hw Hops D0 Hrun) as (I1 & _ & I3 & _).
  destruct (open_store_ok os d inst s seed links S L [] Hr Hd) as (w & Hw0 & _ & J1 & J2 & _).
  rewrite Ho in Hw0. injection Hw0 as <-.
  destruct (reopen_table os w1 S' L' B' seed' links' Hw Hr D1) as (w2 & H1 & H2 & H3).
  rewrite I1, I3, J1, J2 in H1. exists w2. split; [done|]. intros c.
  rewrite <- !data_find, <- !lookup_fmap by (apply D1 || done). by change (table (inner w2) !! c = table (inner w1) !! c); rewrite H2.
Qed.

Lemma session_survives_reopen_witness :
  exists w2, open_store (std := RefStd) RefOs (B "data") 0 (sys (flush_store (std := RefStd) RefOs demo_world)) 2 0
      = inl w2 /\ r_u <$> (row_of <$> find (inner w2) (B "x")) = Some (B "https://a.b/c").
Proof.
  destruct (session_survives_reopen (std := RefStd) RefOs Env0 1 (B "data") 0 RefSys 1 0 2 0 [] [] demo_ops
    demo_open demo_world RefOs_write RefOs_read empty_dir_ok demo_ops_ok demo_open_eq demo_run_eq)
    as (w2 & H1 & H2).
  exists w2. split; [exact H1|]. rewrite H2. vm_compute. reflexivity.
Defined.

(** C3 A crash loses only the unflushed end: if only the first [k] bytes of
    the buffer reached the log, the index found at the next start is the one
    that the snapshot, the log and the first [m] buffered records describe,
    where [m] is the number of records whose lines are complete before the
    cut: no complete record is lost, and a line cut in the middle is
    ignored. With every byte written nothing is lost. *)
Theorem crash_recovers_prefix {std : StdImpl} os w S L Bf k seed links :
  no_io_error (os_read os) -> durable w S L Bf ->
  exists w2 m, open_store os (dir (inner w)) (instance (inner w)) (crash k w) seed links = inl w2 /\
    table (inner w2) = replay_table (S ++ L ++ take m Bf) /\
    (m <= length Bf)%nat /\ (length (log_bytes (take m Bf)) <= k)%nat /\
    ((m < length Bf)%nat -> (k < length (log_bytes (take (Datatypes.S m) Bf)))%nat) /\
    ((length (log_bytes Bf) <= k)%nat -> table (inner w2) = table (inner w)).
Proof.
  intros Hr D. destruct (crash_dir w S L Bf k D) as (m & torn & Hd & Hall & M1 & M2 & M3).
  destruct (open_store_ok os _ _ _ seed links _ _ _ Hr Hd) as (w2 & Ho & Ht & _).
  exists w2, m. split_and!; [done..|]. intros Hk. destruct (Hall Hk) as [_ ->].
  by rewrite Ht, firstn_all, (du_table _ _ _ _ D).
Qed.

Lemma crash_recovers_prefix_witness :
  exists S L Bf w2 m,
    open_store (std := RefStd) RefOs (dir (inner demo_two)) (instance (inner demo_two)) (crash 60 demo_two) 3 0 = inl w2 /\
    table (inner w2) = replay_table (S ++ L ++ take m Bf) /\ (length (log_bytes (take m Bf)) <= 60)%nat /\
    is_Some (table (inner w2) !! B "y") /\ table (inner w2) !! B "z" = None.
Proof.
  destruct demo_two_durable as (S & L & Bf & D).
  destruct (crash_recovers_prefix (std := RefStd) RefOs demo_two S L Bf 60 3 0 RefOs_read D)
    as (w2 & m & H1 & H2 & _ & H3 & _).
  assert (H : match open_store (std := RefStd) RefOs (dir (inner demo_two)) (instance (inner demo_two)) (crash 60 demo_two) 3 0 with
    | inl w => is_Some (table (inner w) !! B "y") /\ table (inner w) !! B "z" = None | inr _ => False end).
  { vm_compute. split; [by eexists|reflexivity]. }
  rewrite H1 in H. exists S, L, Bf, w2, m. exact (conj H1 (conj H2 (conj H3 H))).
Defined.

(** C4 Compaction keeps every link and shrinks the files to one row a link:
    afterwards the log is empty, the snapshot holds one record for each code,
    and opening the directory finds the same links. *)
Theorem compact_keeps_links {std : StdImpl} os w S L Bf seed links :
  no_io_error (os_write os) -> no_io_error (os_read os) -> durable w S L Bf ->
  let w' := compact os w in
  data (inner w') = data (inner w) /\
  contents (sys w') (log_path (inner w)) = [] /\
  (exists rs, contents (sys w') (snap_path (inner w)) = log_bytes rs /\
     length rs = size (data (inner w))) /\
  exists w2, open_store os (dir (inner w)) (instance (inner w)) (sys w') seed links = inl w2 /\
    table (inner w2) = table (inner w).
Proof.
  intros Hw Hr D w'. destruct (durable_compact os Hw w S L Bf D) as [D' Hd].
  pose proof (du_index _ _ _ _ D) as Hx.
  destruct (compact_frame os w (proj1 Hx)) as (_ & Hcfg & _). destruct (config_paths _ _ Hcfg) as (P1 & P2 & _).
  pose proof (du_disk _ _ _ _ D') as (a & _ & _ & _ & _ & _ & HS & HL & _). rewrite P1 in HL. rewrite P2 in HS.
  split; [done|]. split; [done|]. split.
  - exists (snap_recs (inner w)). split; [done|]. rewrite snap_recs_all by done.
    rewrite length_map, (all_data_perm _ (proj1 Hx)). apply length_map_to_list.
  - destruct (reopen_at_rest os _ _ _ seed links Hr D') as (w2 & H1 & H2 & _).
    destruct Hcfg as (I1 & _ & I3 & _). fold w' in H1. unfold w' in H1. rewrite I1, I3 in H1.
    exists w2. split; [done|]. rewrite H2. unfold table. by rewrite Hd.
Qed.

Lemma compact_keeps_links_witness :
  data (inner (compact (std := RefStd) RefOs demo_world)) = data (inner demo_world).
Proof.
  destruct demo_durable as (S & L & Bf & D).
  apply (compact_keeps_links (std := RefStd) RefOs demo_world S L Bf 3 0 RefOs_write RefOs_read D).
Defined.
