(* ===== verification/Findings.v ===== *)
(** * Sessions that lose something

    Concrete sessions on the machine [RefOs], evaluated by the kernel: the
    places where the log does not keep what the index held. *)

From S2P Require Import Prelude CLib Common Codec Aof Store StoreFacts StoreSpec Durability Recovery.

#[local] Existing Instance RefStd.

(** Open [data] as instance 0 on the files of [s], run the operations, flush,
    and open again on what is left. *)
Definition session (s : Sys) (ops : list StoreOp) : option World :=
  match open_store RefOs (B "data") 0 s 1 0 with
  | inl w => run RefOs (fun _ => None) 1 ops w
  | inr _ => None
  end.

Definition reopened (s : Sys) (ops : list StoreOp) : option World :=
  match session s ops with
  | Some w =>
      match open_store RefOs (B "data") 0 (sys (flush_store RefOs w)) 1 0 with
      | inl w' => Some w'
      | inr _ => None
      end
  | None => None
  end.

Definition hits_of (ow : option World) (code : bytes) : option Z :=
  w ← ow; l ← stats code w; Some (l_hits l).
Definition url_of (ow : option World) (code : bytes) : option bytes :=
  w ← ow; l ← stats code w; Some (l_url l).

Definition add (code : bytes) : StoreOp := DoShorten (B "https://a.b/c") (Some code) 0.

(** Counting survives a restart for a link that is only visited: two
    visits, one before a flush and one after, are both found again. *)
Theorem visited_link_keeps_hits :
  hits_of (session RefSys [add (B "x"); DoResolve (B "x"); DoFlush; DoResolve (B "x")]) (B "x") = Some 2 /\
  hits_of (reopened RefSys [add (B "x"); DoResolve (B "x"); DoFlush; DoResolve (B "x")]) (B "x") = Some 2.
Proof. split; vm_compute; reflexivity. Qed.

(** An update throws logged visits away: the row it logs says zero hits,
    so that the index still shows the visit and the next start does not. *)
Theorem update_forgets_hits :
  let ops := [add (B "x"); DoResolve (B "x"); DoFlush; DoUpdate (B "x") (B "https://a.b/d") 0 false] in
  hits_of (session RefSys ops) (B "x") = Some 1 /\ hits_of (reopened RefSys ops) (B "x") = Some 0.
Proof. split; vm_compute; reflexivity. Qed.

(** A deleted link leaves its visits behind: the counter of a removed
    code is still logged, and a new link with that alias, never visited,
    starts the next session with them. *)
Theorem removed_hits_leak :
  let ops := [add (B "x"); DoResolve (B "x"); DoRemove (B "x"); DoFlush; add (B "x")] in
  hits_of (session RefSys ops) (B "x") = Some 0 /\ hits_of (reopened RefSys ops) (B "x") = Some 1.
Proof. split; vm_compute; reflexivity. Qed.

(** Compaction truncates the log even when the snapshot could not be
    written: with the snapshot's temporary file not writable every link is
    gone after the next start. *)
Theorem compact_without_snapshot_loses :
  let s := mkSys (mkFs ∅ {[ B "data/data-0.snap.tmp" ]}) 0 0 0 in
  url_of (session s [add (B "x"); DoCompact]) (B "x") = Some (B "https://a.b/c") /\
  url_of (reopened s [add (B "x"); DoCompact]) (B "x") = None.
Proof. split; vm_compute; reflexivity. Qed.

(** A log that ends in a cut line swallows the first record after the
    restart: it is appended to the unfinished line, and a link whose
    creation was flushed is not there at the next start. *)
Theorem torn_log_swallows_next :
  let s := set_files <[B "data/data-0.log" := Q "{'c':'y','u':'htt"]> RefSys in
  url_of (session s [add (B "x")]) (B "x") = Some (B "https://a.b/c") /\
  url_of (reopened s [add (B "x")]) (B "x") = None.
Proof. split; vm_compute; reflexivity. Qed.

(** A sibling's alias that starts with a base-62 character is looked for
    only in the log of the instance that character names: the full poll the
    comment promises never runs, and the link is not found although its row
    is in a log of the directory. *)
Theorem sibling_alias_missed :
  let row := row_line (B "9x") (B "https://a.b/c") 1000 0 1 0 ++ [NL] in
  let s := set_files <[B "data/data-1.log" := row]> RefSys in
  match session s [] with
  | Some w => fst (resolve RefOs (fun _ => None) (B "9x") w) = None /\
              fst (resolve RefOs (fun _ => None) (B "9x") (poll_tails RefOs w)) = Some (B "https://a.b/c")
  | None => False
  end.
Proof. vm_compute. split; reflexivity. Qed.
