(* ===== verification/Siblings.v ===== *)
(** * Instances that share a directory

    Every instance appends to its own log and reads the logs of the others:
    in full when it is polled, the log of a code's owner when a code is not
    in the index. An instance sees of another one only the files; [see] gives
    it the files another one left. *)

From S2P Require Import Prelude CLib Common Codec Aof Store StoreFacts StoreSpec Durability Recovery.

Section Siblings.
Context {std : StdImpl} (os : Os) (env : Env).
Context (Hr : no_io_error (os_read os)).

(** The files of another process. *)
Definition see_files (f : Fs) (s : Sys) : Sys := mkSys f (k_clock s) (k_write s) (k_read s).
Definition see (f : Fs) (w : World) : World := with_sys (see_files f (sys w)) w.

(** ** Reading a log *)

(** A log file: the lines of records and an unfinished one. *)
Record holds (s : Sys) (p : bytes) (L : list LogRec) (torn : bytes) : Prop := {
  ho_bytes : contents s p = log_bytes L ++ torn;
  ho_torn : LF ∉ torn;
  ho_recs : Forall rec_ok L
}.

Lemma holds_lines s p L torn : holds s p L torn -> lines_of (contents s p) = map line_of L.
Proof.
  intros [-> Ht HL]. unfold log_bytes. rewrite lines_of_frame_app by by apply lines_framed.
  unfold lines_of. rewrite <- (app_nil_r torn), split_lines_no_lf by done. simpl. apply app_nil_r.
Qed.

(** The reader has handed out the first [k] lines. *)
Definition read_upto (t : TailReader) (s : Sys) (L : list LogRec) (k : nat) : Prop :=
  tail_at t (contents s (t_path t)) /\ lines_of (take (t_offset t) (contents s (t_path t))) = map line_of (take k L).

(** A reader in step has handed out some of them. *)
Lemma tail_at_upto t s L torn : tail_at t (contents s (t_path t)) -> holds s (t_path t) L torn ->
  read_upto t s L (length (lines_of (take (t_offset t) (contents s (t_path t))))).
Proof.
  intros Ht Hh. pose proof (lines_of_prefix (t_offset t) (contents s (t_path t))) as Hp.
  rewrite (holds_lines _ _ _ _ Hh) in Hp. destruct Hp as [r Hp].
  split; [done|].
  rewrite <- firstn_map, Hp, take_app_length. done.
Qed.

Lemma read_rest t s L torn k : holds s (t_path t) L torn -> read_upto t s L k ->
  let '(ls, _, _) := read_new os t s in ls = map line_of (drop k L).
Proof.
  intros Hh [Ht Hk]. pose proof (read_new_spec os t s Ht) as HR. destruct (read_new os t s) as [[ls t'] s'].
  destruct HR as (_ & _ & _ & _ & _ & _ & R3 & R4). rewrite (R4 Hr), firstn_all, (holds_lines _ _ _ _ Hh), Hk in R3.
  rewrite <- (take_drop k L) in R3 at 1. rewrite map_app in R3. by apply app_inv_head in R3.
Qed.

(** One poll reads the rest and folds it in. *)
Lemma poll_one_log w name t L torn k : wf w -> holds (sys w) (t_path t) L torn -> read_upto t (sys w) L k ->
  let w' := poll_one os w (name, t) in
  wf w' /\ table (inner w') = fold_left t_rec (drop k L) (table (inner w)) /\ same_config (inner w') (inner w) /\
  aof (inner w') = aof (inner w) /\ fs (sys w') = fs (sys w) /\ (k_clock (sys w') = k_clock (sys w)) /\
  exists t', tl_readers (tail (inner w')) = <[name := t']> (tl_readers (tail (inner w))) /\
    t_path t' = t_path t /\ read_upto t' (sys w') L (length L).
Proof.
  intros H Hh Hk. pose proof (read_rest t (sys w) L torn k Hh Hk) as Hls. destruct Hk as [Ht Hk]. unfold poll_one. cbn [fst snd].
  pose proof (read_new_spec os t (sys w) Ht) as HR. destruct (read_new os t (sys w)) as [[ls t'] s']. subst ls.
  destruct HR as (R1 & R2 & _ & Rp & Rt & _ & _ & R4). specialize (R4 Hr).
  assert (Hw : inner_wf (set_reader name t' (inner w))) by by apply wf_set_tail.
  destruct (feed_frame (map line_of (drop k L)) _ Hw) as (F1 & F2 & F3 & F4).
  cbn [inner with_sys with_inner sys]. split; [exact F1|]. split.
  { rewrite feed_table; [done|done|]. apply Forall_drop, (ho_recs _ _ _ _ Hh). }
  split; [exact F2|]. split; [exact F3|]. split; [exact R1|]. split; [exact R2|]. exists t'.
  split; [by rewrite F4|]. split; [done|]. assert (Hc : contents s' (t_path t') = contents (sys w) (t_path t)).
  { rewrite Rp. unfold contents, content. by rewrite R1. }
  split; cbn [sys with_sys with_inner]; rewrite Hc; [done|]. by rewrite R4, !firstn_all, (holds_lines _ _ _ _ Hh).
Qed.

(** The reader of the log of instance [o]. *)
Definition reader_of (w : World) (o : Z) : TailReader :=
  default (TailReader0 (path_join (dir (inner w)) (log_name o))) (tl_readers (tail (inner w)) !! log_name o).

(** A missing code makes the instance read the log of the code's owner. *)
Lemma tail_missed_owner w c0 c L torn k : wf w -> is_Some (aof (inner w)) ->
  let o := Base62.alpha_idx c0 in
  0 <= o -> o ≠ instance (inner w) ->
  holds (sys w) (t_path (reader_of w o)) L torn -> read_upto (reader_of w o) (sys w) L k ->
  let w' := tail_missed os (c0 :: c) w in
  wf w' /\ table (inner w') = fold_left t_rec (drop k L) (table (inner w)) /\ k_clock (sys w') = S (k_clock (sys w)) /\
  aof (inner w') = aof (inner w).
Proof.
  intros H [a Ha] o Ho Hne Hh Hk. cbv zeta. unfold tail_missed. rewrite Ha. fold o.
  rewrite (proj2 (Z.leb_le 0 o) Ho), (proj2 (Z.eqb_neq o _) Hne). cbn [andb negb].
  destruct (poll_one_log w (log_name o) (reader_of w o) L torn k H Hh Hk) as (P1 & P2 & _ & P4 & _ & P6 & _).
  unfold reader_of in *. set (w1 := poll_one _ _ _) in *. clearbody w1. unfold now_ms.
  split_and!; [by apply wf_set_tail|exact P2|by simpl; f_equal|simpl; congruence].
Qed.

(** A record says nothing about another code; the last row of a code wins. *)
Lemma fold_row_last c u a e i n pre suf t : Forall is_hit suf ->
  fold_left t_rec (pre ++ [Row c u a e i n] ++ suf) t !! c = Some (mkRow u a e (i32 i)).
Proof.
  intros H. rewrite !fold_left_app. cbn [fold_left t_rec]. set (t0 := <[c := _]> _).
  assert (E : fold_left t_rec suf t0 = t0); [|rewrite E; unfold t0; by rewrite lookup_insert_eq].
  clearbody t0. revert t0. induction H as [|r suf Hx _ IH]; intros t0; [done|]. destruct r; try done. apply IH.
Qed.

(** ** Following the siblings *)

(** A name the poll looks for; directory entries have no slash. *)
Definition sibling_name (own m : bytes) : Prop := is_shard_name own m = true /\ ("/"%char ∉ m).

Lemma drop_dir (d r : bytes) : drop (S (length d)) ((d ++ B "/") ++ r) = r.
Proof. replace (S (length d)) with (length (d ++ B "/")); [apply drop_app_length|rewrite length_app; simpl; lia]. Qed.

Lemma shard_files_elem s d own m : m ∈ shard_files s d own <-> sibling_name own m /\ is_Some (content s (path_join d m)).
Proof.
  unfold shard_files, sibling_name. rewrite merge_sort_Permutation, list_elem_of_filter, Is_true_true.
  assert (Hd : m ∈ dir_names s d <-> ("/"%char ∉ m) /\ is_Some (content s (path_join d m))); [|tauto].
  unfold dir_names, content, name_in. rewrite list_elem_of_omap. split.
  - intros ([p c] & Hp & Hn). apply elem_of_map_to_list in Hp. cbn [fst] in Hn.
    destruct (starts_with _ p) eqn:Es; [|done]. apply starts_with_spec in Es as [r ->].
    case_bool_decide as Hs; [done|]. injection Hn as <-. rewrite drop_dir in *.
    split; [done|]. exists c. unfold path_join. by rewrite app_assoc.
  - intros [Hs [c Hc]]. exists (path_join d m, c). split; [by apply elem_of_map_to_list|].
    unfold path_join. cbn [fst]. rewrite app_assoc, starts_with_app, drop_dir. by rewrite bool_decide_eq_false_2.
Qed.

(** The logs hold [F]; the readers have handed out the first [k] records. *)
Record following (w : World) (F : bytes -> list LogRec) (k : bytes -> nat) : Prop := {
  fo_wf : wf w;
  fo_logs : forall m, sibling_name (own_name (inner w)) m -> exists torn, holds (sys w) (path_join (dir (inner w)) m) (F m) torn;
  fo_readers : forall m t, tl_readers (tail (inner w)) !! m = Some t ->
    sibling_name (own_name (inner w)) m /\ t_path t = path_join (dir (inner w)) m /\ read_upto t (sys w) (F m) (k m);
  fo_new : forall m, sibling_name (own_name (inner w)) m -> tl_readers (tail (inner w)) !! m = None -> k m = 0%nat
}.

Definition read_logs (F : bytes -> list LogRec) (k : bytes -> nat) (m : bytes) : bytes -> nat :=
  fun j => if decide (j = m) then length (F m) else k j.

Definition rec_code (r : LogRec) : bytes := match r with Row c _ _ _ _ _ | Hit c _ _ | Del c => c end.
Definition silent (c : bytes) (R : list LogRec) : Prop := Forall (fun r => is_hit r \/ rec_code r ≠ c) R.

(** Since the moment the row of [c] was as in [T] and [k0] records of log [n]
    were read, the index has followed log [n] at [c]. *)
Definition caught (T : Table) (k0 : nat) (w : World) (F : bytes -> list LogRec) (k : bytes -> nat) (n c : bytes) : Prop :=
  exists X, F n = take k0 (F n) ++ X ++ drop (k n) (F n) /\ table (inner w) !! c = fold_left t_rec X T !! c.

Lemma fold_at c R : forall t t' : Table, t !! c = t' !! c -> fold_left t_rec R t !! c = fold_left t_rec R t' !! c.
Proof.
  induction R as [|r R IH]; intros t t' H; [done|]. apply IH. destruct r as [c'| |c']; simpl; [|done|].
  - destruct (decide (c' = c)) as [->|]; [by rewrite !lookup_insert_eq|by rewrite !lookup_insert_ne].
  - destruct (decide (c' = c)) as [->|]; [by rewrite !lookup_delete_eq|by rewrite !lookup_delete_ne].
Qed.

Lemma fold_silent c R : silent c R -> forall t : Table, fold_left t_rec R t !! c = t !! c.
Proof.
  induction 1 as [|r R Hx _ IH]; intros t; [done|]. simpl. rewrite IH.
  destruct r; simpl; [|done|]; (destruct Hx as [[]|Hx]; simpl in Hx; rewrite ?lookup_insert_ne, ?lookup_delete_ne by done; done).
Qed.

(** A record about [c] makes what was there before irrelevant. *)
Lemma fold_loud c R : ~ silent c R -> forall t t' : Table, fold_left t_rec R t !! c = fold_left t_rec R t' !! c.
Proof.
  induction R as [|r R IH]; intros Hs t t'; [by contradict Hs; constructor|]. cbn [fold_left].
  destruct (decide (rec_code r = c)) as [Hc|Hc]; [|by apply IH; contradict Hs; constructor; [right|]].
  destruct r as [c' u a e i n|c' d i|c']; simpl in Hc; subst c'.
  - apply fold_at. simpl. by rewrite !lookup_insert_eq.
  - apply IH. contradict Hs. by constructor; [left|].
  - apply fold_at. simpl. by rewrite !lookup_delete_eq.
Qed.

Lemma following_poll w F k m t : following w F k -> tl_readers (tail (inner w)) !! m = Some t ->
  let w' := poll_one os w (m, t) in
  following w' F (read_logs F k m) /\ same_config (inner w') (inner w) /\ fs (sys w') = fs (sys w) /\
  aof (inner w') = aof (inner w) /\ (exists t', tl_readers (tail (inner w')) = <[m := t']> (tl_readers (tail (inner w)))) /\
  forall T k0 n c, (m ≠ n -> silent c (F m)) -> caught T k0 w F k n c -> caught T k0 w' F (read_logs F k m) n c.
Proof.
  intros [H1 H2 H3 H4] Hm. destruct (H3 m t Hm) as (Hs & Hp & Hk). destruct (H2 m Hs) as [torn Hh]. rewrite <- Hp in Hh.
  destruct (poll_one_log w m t (F m) torn (k m) H1 Hh Hk) as (P1 & P2 & P3 & P4 & P5 & _ & t' & P6 & P7 & P8).
  cbv zeta. set (w' := poll_one _ _ _) in *. clearbody w'. pose proof P3 as (C1 & C2 & C3 & C4 & C5).
  assert (Hc : forall p, contents (sys w') p = contents (sys w) p) by (intros p; unfold contents, content; by rewrite P5).
  split_and!; [|done|done|done|by exists t'|].
  - split; [done|..].
    + intros j Hj. rewrite C4 in Hj. destruct (H2 j Hj) as [tn [? ? ?]]. exists tn. rewrite C3. split; [by rewrite Hc|done|done].
    + intros j tj. rewrite P6, C3, C4, lookup_insert. unfold read_logs. case_decide as Hd.
      * intros [= <-]. subst j. rewrite decide_True by done. split_and!; [done|by rewrite P7|exact P8].
      * intros Hj. rewrite decide_False by done. destruct (H3 j tj Hj) as (? & ? & ? & ?). split_and!; [done|done|].
        split; by rewrite Hc.
    + intros j Hj. rewrite P6, lookup_insert_None. rewrite C4 in Hj. intros [? ?]. unfold read_logs. rewrite decide_False by done. auto.
  - intros T k0 n c Hsil (X & HX & Hca). unfold caught, read_logs. rewrite P2. case_decide as Hd.
    + subst n. exists (X ++ drop (k m) (F m)). rewrite drop_all, app_nil_r. split; [done|].
      rewrite fold_left_app. by apply fold_at.
    + exists X. split; [done|]. rewrite fold_silent; [done|]. unfold silent. apply Forall_drop, Hsil. congruence.
Qed.

Lemma following_ext w w' F k : inner w' = inner w -> fs (sys w') = fs (sys w) -> following w F k -> following w' F k.
Proof.
  intros Hi Hf [H1 H2 H3 H4]. assert (Hc : forall p, contents (sys w') p = contents (sys w) p) by (intros p; unfold contents, content; by rewrite Hf).
  split; [unfold wf; by rewrite Hi|..]; rewrite Hi; [| |done].
  - intros m Hm. destruct (H2 m Hm) as [tn [? ? ?]]. exists tn. split; [by rewrite Hc|done|done].
  - intros m t Hm. destruct (H3 m t Hm) as (? & ? & ? & ?). split_and!; [done|done|]. split; by rewrite Hc.
Qed.

Lemma following_last_poll now w F k : following w F k -> following (with_inner (set_last_poll now) w) F k.
Proof. intros [H1 H2 H3 H4]. by split; [apply wf_set_tail|..]. Qed.

Lemma following_k w F k k' : (forall j, sibling_name (own_name (inner w)) j -> k j = k' j) -> following w F k -> following w F k'.
Proof.
  intros Hk [H1 H2 H3 H4]. split; [done|done|..].
  - intros m t Hm. destruct (H3 m t Hm) as (? & ? & ?). rewrite <- Hk by done. done.
  - intros m Hm ?. rewrite <- Hk by done. auto.
Qed.

Lemma following_polls l : forall w F k, NoDup l.*1 -> (forall m t, (m, t) ∈ l -> tl_readers (tail (inner w)) !! m = Some t) ->
  following w F k ->
  let w' := fold_left (poll_one os) l w in
  let k' := fun j => if decide (j ∈ l.*1) then length (F j) else k j in
  following w' F k' /\ same_config (inner w') (inner w) /\ fs (sys w') = fs (sys w) /\ aof (inner w') = aof (inner w) /\
  (forall m, is_Some (tl_readers (tail (inner w')) !! m) <-> is_Some (tl_readers (tail (inner w)) !! m)) /\
  forall T k0 n c, (forall m, m ≠ n -> m ∈ l.*1 -> silent c (F m)) -> caught T k0 w F k n c -> caught T k0 w' F k' n c.
Proof.
  induction l as [|[m t] l IH]; intros w F k Hnd Hl H; cbv zeta; [by split_and!|]. cbn [fold_left].
  apply NoDup_cons in Hnd as [Hni Hnd]. destruct (following_poll w F k m t H (Hl m t (list_elem_of_here _ _))) as (G1 & G2 & G3 & G4 & (t' & G5) & G6).
  set (w1 := poll_one os w (m, t)) in *. clearbody w1.
  destruct (IH w1 F (read_logs F k m) Hnd) as (I1 & I2 & I3 & I4 & I5 & I6); [|done|].
  { intros j tj Hj. rewrite G5, lookup_insert_ne; [apply Hl; by apply list_elem_of_further|].
    intros <-. apply Hni. by apply (list_elem_of_fmap_2 fst l (m, tj)). }
  set (w' := fold_left _ l w1) in *. clearbody w'.
  assert (Hk : forall j, (if decide (j ∈ l.*1) then length (F j) else read_logs F k m j) = (if decide (j ∈ m :: l.*1) then length (F j) else k j)).
  { intros j. unfold read_logs. repeat case_decide; subst; set_solver. }
  split_and!.
  - eapply following_k; [intros j _; apply Hk|done].
  - by etrans.
  - by rewrite I3.
  - by rewrite I4.
  - intros j. rewrite I5, G5, lookup_insert. case_decide; [|done]. subst j.
    rewrite (Hl m t) by apply list_elem_of_here. split; by eexists.
  - intros T k0 n c Hs Hc. unfold caught. rewrite <- Hk. apply I6; [intros j Hj Hin; apply Hs; [done|by right]|].
    apply G6; [intros Hne; apply Hs; [done|by left]|done].
Qed.

Lemma following_new l : forall w F k, (forall m, m ∈ l -> sibling_name (own_name (inner w)) m) -> following w F k ->
  let w' := with_inner (fun i => fold_left new_reader l i) w in
  following w' F k /\ same_config (inner w') (inner w) /\ aof (inner w') = aof (inner w) /\ table (inner w') = table (inner w) /\
  forall m, is_Some (tl_readers (tail (inner w')) !! m) <-> m ∈ l \/ is_Some (tl_readers (tail (inner w)) !! m).
Proof.
  clear Hr.
  induction l as [|m l IH]; intros w F k Hl H; cbv zeta.
  { split_and!; [by eapply following_ext; [| |exact H]; destruct w|done|done|done|]. intros m. simpl. set_solver. }
  set (w1 := with_inner (fun i => new_reader i m) w).
  assert (H1 : following w1 F k /\ same_config (inner w1) (inner w) /\ aof (inner w1) = aof (inner w) /\ table (inner w1) = table (inner w) /\
    forall j, is_Some (tl_readers (tail (inner w1)) !! j) <-> j = m \/ is_Some (tl_readers (tail (inner w)) !! j)).
  { assert (Hi : inner w1 = new_reader (inner w) m) by done. assert (Hs : fs (sys w1) = fs (sys w)) by done.
    clearbody w1. unfold new_reader in Hi. destruct (tl_readers (tail (inner w)) !! m) as [t|] eqn:Em; rewrite Hi.
    - split_and!; [by eapply following_ext|done|done|done|]. intros j. split; [by right|].
      intros [->|]; [by rewrite Em|done].
    - split_and!; [|done|done|done|].
      + apply (following_ext (with_inner (set_reader m (TailReader0 (path_join (dir (inner w)) m))) w)); [done|done|].
        destruct H as [H1 H2 H3 H4]. split; [by apply wf_set_tail|done|..].
        * intros j tj. cbn. rewrite lookup_insert. case_decide as Hd; [|apply H3]. intros [= <-]. subst j.
          rewrite (H4 m) by (done || (apply Hl; left)). split_and!; [apply Hl; left|done|]. split; [split; [apply Nat.le_0_l|done]|done].
        * intros j Hj. cbn. rewrite lookup_insert_None. intros [? _]. auto.
      + intros j. cbn. rewrite lookup_insert. case_decide as Hd; [naive_solver|split; [by right|by intros [?|?]; [congruence|]]]. }
  destruct H1 as (J1 & J2 & J3 & J4 & J5). destruct (IH w1 F k) as (I1 & I2 & I3 & I4 & I5); [|done|].
  { intros j Hj. destruct J2 as (_ & _ & _ & -> & _). apply Hl. by right. }
  split_and!; [exact I1|by etrans|by etrans|by etrans|]. intros j. cbn in *. rewrite I5, J5, elem_of_cons. tauto.
Qed.

Lemma log_bytes_nil R x : log_bytes R ++ x = [] -> R = [].
Proof.
  intros E. apply app_eq_nil in E as [E _]. destruct R as [|r R]; [done|].
  change (r :: R) with ([r] ++ R) in E. rewrite log_bytes_app, log_bytes_one in E. by destruct (line_of r).
Qed.

(** A poll reads every log to its end. *)
Lemma poll_following w F k : following w F k -> is_Some (aof (inner w)) ->
  let w' := poll_tails os w in
  following w' F (fun m => length (F m)) /\ same_config (inner w') (inner w) /\ fs (sys w') = fs (sys w) /\
  forall T k0 n c, sibling_name (own_name (inner w)) n -> (forall m, m ≠ n -> sibling_name (own_name (inner w)) m -> silent c (F m)) ->
    caught T k0 w F k n c -> caught T k0 w' F (fun m => length (F m)) n c.
Proof.
  intros H [a Ha]. unfold poll_tails. rewrite Ha. unfold poll_locked. set (l := shard_files _ _ _).
  assert (Hl : forall m, m ∈ l <-> sibling_name (own_name (inner w)) m /\ is_Some (content (sys w) (path_join (dir (inner w)) m)))
    by (intros m; apply shard_files_elem).
  destruct (following_new l w F k (fun m Hm => proj1 (proj1 (Hl m) Hm)) H) as (N1 & N2 & N3 & N4 & N5).
  set (w1 := with_inner _ w) in *. assert (Hf1 : fs (sys w1) = fs (sys w)) by done. clearbody w1.
  destruct (following_polls (umap_iter (tl_readers (tail (inner w1)))) w1 F k) as (P1 & P2 & P3 & P4 & P5 & P6);
    [apply umap_iter_nodup|intros m t; by apply umap_iter_elem|done|].
  set (w2 := fold_left _ _ w1) in *. clearbody w2. cbn [now_ms].
  assert (Hin : forall m, m ∈ (umap_iter (tl_readers (tail (inner w1)))).*1 <-> is_Some (tl_readers (tail (inner w1)) !! m)).
  { intros m. rewrite list_elem_of_fmap. split; [intros ([? t] & -> & Ht); apply umap_iter_elem in Ht; by exists t|].
    intros [t Ht]. exists (m, t). split; [done|]. by apply umap_iter_elem. }
  assert (HC : same_config (inner w2) (inner w)) by by etrans. pose proof HC as (C1 & C2 & C3 & C4 & C5).
  assert (Hk : forall j, sibling_name (own_name (inner w)) j ->
    (if decide (j ∈ (umap_iter (tl_readers (tail (inner w1)))).*1) then length (F j) else k j) = length (F j)).
  { intros j Hj. case_decide as Hd; [done|]. destruct N2 as (_ & _ & _ & E & _).
    rewrite (fo_new _ _ _ N1 j); [|by rewrite E|].
    - destruct (fo_logs _ _ _ H j Hj) as [torn [Hb _ _]]. unfold contents in Hb.
      destruct (content (sys w) _) as [x|] eqn:Ex; [|by rewrite (log_bytes_nil _ _ (eq_sym Hb))].
      contradict Hd. apply Hin, N5. left. apply Hl. split; [done|by exists x].
    - apply eq_None_not_Some. intros Hs. by apply Hd, Hin. }
  split_and!; [|done|by rewrite <- Hf1, <- P3|].
  - eapply (following_ext (with_inner (set_last_poll _) w2)); [done|done|]. apply following_last_poll.
    eapply following_k; [|exact P1]. intros j. rewrite C4. apply Hk.
  - intros T k0 n c Hn Hs Hc. unfold caught. rewrite <- Hk by done. apply (P6 T k0 n c).
    + intros m Hne Hm. apply Hs; [done|]. apply Hin in Hm as [t Ht]. destruct N2 as (_ & _ & _ & <- & _).
      by apply (fo_readers _ _ _ N1 m t).
    + unfold caught. by rewrite N4.
Qed.

(** Resolving a code that the index lacks: the log of its owner decides. *)
Lemma resolve_owner w c0 c L torn k : wf w -> is_Some (aof (inner w)) ->
  let o := Base62.alpha_idx c0 in
  0 <= o -> o ≠ instance (inner w) ->
  holds (sys w) (t_path (reader_of w o)) L torn -> read_upto (reader_of w o) (sys w) L k -> find (inner w) (c0 :: c) = None ->
  let '(r, _) := resolve os env (c0 :: c) w in
  r = (x ← fold_left t_rec (drop k L) (table (inner w)) !! (c0 :: c);
       if (r_e x =? 0) || (i64 (os_clock os (S (k_clock (sys w)))) <? r_e x) then Some (r_u x) else None).
Proof.
  intros H Ha o Ho Hne Hh Hk Hf. unfold resolve. rewrite Hf. pose proof Ha as [a Ea]. rewrite Ea.
  destruct (tail_missed_owner w c0 c L torn k H Ha Ho Hne Hh Hk) as (T1 & T2 & T3 & _).
  rewrite <- T2, <- T3. set (w1 := tail_missed _ _ _) in *. clearbody w1. unfold table. rewrite lookup_fmap, data_find by done.
  destruct (find (inner w1) (c0 :: c)) as [e|]; [|done]. cbn [fmap option_fmap option_map mbind option_bind].
  destruct (live_spec os (e_e e) (sys w1)) as [Hl _]. destruct (live os (e_e e) (sys w1)) as [ok s]. cbn [fst] in Hl. subst ok.
  cbn [now_ms fst row_of r_e r_u]. by destruct ((e_e e =? 0) || _).
Qed.

(** ** Writing a log *)
Context (Hw : no_io_error (os_write os)).

(** An instance whose log, file and buffer together, is [R]. *)
Record writer (w : World) (R : list LogRec) : Prop := {
  wr_cfg : cfg_ok (inner w);
  wr_wf : wf w;
  wr_dirty : dirty_ok (inner w);
  wr_recs : Forall rec_ok R;
  wr_log : exists a, aof (inner w) = Some a /\ a_path a = log_path (inner w) /\ aof_ok a (sys w) /\
    contents (sys w) (log_path (inner w)) ++ a_buf a = log_bytes R
}.

Lemma writer_index w w' R : writer w R -> same_config (inner w') (inner w) -> aof (inner w') = aof (inner w) ->
  fs (sys w') = fs (sys w) -> wf w' -> dirty_ok (inner w') -> writer w' R.
Proof.
  intros [H1 H2 H3 H4 (a & A1 & A2 & A3 & A4)] Hc Ha Hf Hwf Hd. destruct (config_paths _ _ Hc) as (E1 & _ & _).
  split; [by eapply cfg_ok_ext|done|done|done|]. exists a. rewrite Ha, E1. unfold aof_ok, contents, file_size, content in *.
  rewrite Hf. by split_and!.
Qed.

Lemma writer_push rs w R : writer w R -> Forall rec_ok rs -> writer (aof_push_raw (log_bytes rs) w) (R ++ rs).
Proof.
  intros [H1 H2 H3 H4 (a & A1 & A2 & A3 & A4)] Hrs. unfold aof_push_raw. rewrite A1.
  split; [done|by apply wf_set_aof|done|by apply Forall_app|]. exists (push_raw a (log_bytes rs)). split_and!; try done.
  simpl. by rewrite log_bytes_app, <- A4, app_assoc.
Qed.

(** Whatever is flushed, nothing of the log changes. *)
Lemma writer_flush w R a : writer w R -> aof (inner w) = Some a ->
  let '(a', s') := flush os a (sys w) in
  writer (with_sys s' (with_inner (set_aof (Some a')) w)) R /\ contents s' (log_path (inner w)) = log_bytes R /\
  (forall p, p ≠ log_path (inner w) -> content s' p = content (sys w) p).
Proof.
  intros [H1 H2 H3 H4 (a0 & A1 & A2 & A3 & A4)] Ha. assert (a0 = a) as -> by congruence.
  destruct (flush_spec os a (sys w) A3) as (n & _ & Hn & HH). specialize (Hn Hw). subst n.
  destruct (flush os a (sys w)) as [a' s']. destruct HH as (F1 & F2 & F3 & F4 & F5 & _). rewrite A2 in *. rewrite firstn_all, A4 in F4.
  split; [|done]. split; [done|by apply wf_set_aof|done|done|]. exists a'. split_and!; try done. rewrite F1, app_nil_r. exact F4.
Qed.

Lemma writer_flush_if_full w R : writer w R ->
  writer (aof_flush_if_full os w) R /\
  (forall p, p ≠ log_path (inner w) -> content (sys (aof_flush_if_full os w)) p = content (sys w) p).
Proof.
  intros H. unfold aof_flush_if_full. destruct (wr_log _ _ H) as (a & Ha & _). rewrite Ha. case_match; [|done].
  pose proof (writer_flush w R a H Ha) as HF. destruct (flush os a (sys w)). split; apply HF.
Qed.

(** A flush brings all of the log into the file, the visits behind it. *)
Lemma writer_flush_store w R : writer w R ->
  let w' := flush_store os w in
  writer w' (R ++ hit_recs (inner w)) /\ contents (sys w') (log_path (inner w)) = log_bytes (R ++ hit_recs (inner w)) /\
  (forall p, p ≠ log_path (inner w) -> content (sys w') p = content (sys w) p).
Proof.
  intros H. pose proof H as [H1 H2 H3 _ _]. destruct (wr_log _ _ H) as (a & Ha & _). cbv zeta. unfold flush_store. rewrite Ha.
  destruct (instance_i64 _ H1) as [I1 _].
  assert (Hh : Forall rec_ok (hit_recs (inner w))) by by eapply own_rec_ok, hit_recs_ok.
  rewrite hit_lines_recs. pose proof (writer_push (hit_recs (inner w)) w R H Hh) as HP. unfold aof_push_raw in HP. rewrite Ha in HP.
  pose proof (writer_flush _ _ (push_raw a (log_bytes (hit_recs (inner w)))) HP eq_refl) as HF. cbn [sys with_inner] in HF.
  destruct (flush os (push_raw a (log_bytes (hit_recs (inner w)))) (sys w)) as [a' s']. destruct HF as (G1 & G2 & G3). split; [|done].
  eapply writer_index; [exact G1|done..| |apply dirty_ok_clear]. unfold wf. simpl. by apply wf_set_aof, clear_dirty_wf.
Qed.

(** A new link of a generated code is in the log. *)
Lemma writer_shorten fuel u ttl w R c w' : writer w R -> shorten os fuel u None ttl w = Done (Some c) w' ->
  let now := now_of os w in
  let r := Row c u now (expiry now ttl) (instance (inner w)) 0 in
  writer w' (R ++ [r]) /\ code_shape (prefix (inner w)) c /\ same_config (inner w') (inner w) /\
  (forall p, p ≠ log_path (inner w) -> content (sys w') p = content (sys w) p).
Proof.
  intros H E. cbv zeta. pose proof (shorten_spec os fuel u None ttl w (wr_wf _ _ H)) as Hs. rewrite E in Hs.
  destruct Hs as (_ & [?|[_ Hsh]] & _ & _ & Hcfg & _); [done|]. enough (HH : writer w' (R ++ [Row c u (now_of os w) (expiry (now_of os w) ttl) (instance (inner w)) 0]) /\
    (forall p, p ≠ log_path (inner w) -> content (sys w') p = content (sys w) p)) by by destruct HH.
  - unfold shorten in E. cbn [now_ms] in E. destruct (gen_free fuel _ _) as [[c1 st]|]; [|done]. injection E as -> <-.
    pose proof (wr_cfg _ _ H) as Hc. destruct (instance_i64 _ Hc) as [I1 _].
    set (w1 := with_inner _ _). assert (H1 : writer w1 R).
    { eapply writer_index; [exact H|done..| |]; [unfold wf; simpl; by apply data_insert_wf, (wr_wf _ _ H)|].
      apply dirty_ok_upd; [done|apply H]. }
    assert (Hr1 : Forall rec_ok [Row c u (now_of os w) (expiry (now_of os w) ttl) (instance (inner w)) 0]).
    { constructor; [|done]. split_and!; [|apply i64_range|apply expiry_range|done|unfold in_i64; lia].
      eapply code_shape_plain, Hsh. destruct Hc as (_ & -> & ? & _). by apply Base62.alpha_in. }
    unfold shorten_log. change (row_line c u _ _ (instance (inner w1)) 0) with
      (line_of (Row c u (now_of os w) (expiry (now_of os w) ttl) (instance (inner w)) 0)).
    rewrite aof_push_one. destruct (writer_flush_if_full _ _ (writer_push _ _ _ H1 Hr1)) as [H2 H3].
    cbn [links_delta]. split; [by eapply writer_index; [exact H2|..]; try done; apply H2|].
    intros p Hp. etrans; [apply H3|]; unfold aof_push_raw; by case_match.
Qed.

(** A reader that was in step with the flushed part is not past the log. *)
Lemma read_upto_old w R a t : writer w R -> aof (inner w) = Some a ->
  t_path t = log_path (inner w) -> tail_at t (contents (sys w) (t_path t)) ->
  forall s X, contents s (t_path t) = log_bytes (R ++ X) -> Forall rec_ok X -> exists k, (k <= length R)%nat /\ read_upto t s (R ++ X) k.
Proof.
  clear Hr Hw. intros [_ _ _ H4 (a0 & A1 & A2 & A3 & A4)] Ha Hp Ht s X Hs HX.
  assert (Hg : contents s (t_path t) = contents (sys w) (t_path t) ++ (a_buf a0 ++ log_bytes X)).
  { rewrite Hs, log_bytes_app, <- A4, Hp. by rewrite <- app_assoc. }
  assert (Hh : holds s (t_path t) (R ++ X) []).
  { split; [by rewrite app_nil_r|set_solver|by apply Forall_app]. }
  eexists. split; [|apply (tail_at_upto t s (R ++ X) []); [rewrite Hg; by apply tail_at_grow|done]].
  destruct Ht as [Ho _]. rewrite Hg, take_app_le by done. rewrite <- (length_map line_of R), <- lines_of_log, <- A4 by done.
  etrans; [apply prefix_length, lines_of_prefix|]. rewrite Hp, lines_of_app. apply prefix_length. by eexists.
Qed.
End Siblings.

(** An instance in step with its own files writes its log. *)
Lemma durable_writer w S L Bf : durable w S L Bf -> writer w (L ++ Bf).
Proof.
  intros [D1 D2 (a & A1 & A2 & A3 & _ & _ & _ & A4 & A5) _ D5 _]. split; [done|apply D2|apply D2| |].
  - apply own_rec_ok in D5. by apply Forall_app in D5 as [_ D5].
  - exists a. split_and!; try done. by rewrite A4, A5, log_bytes_app.
Qed.

(** An instance that has read nothing yet, beside one that was alone. *)
Lemma following_first {std : StdImpl} (oa : Os) wa S L Bf wb : no_io_error (os_write oa) -> durable wa S L Bf ->
  wf wb -> tl_readers (tail (inner wb)) = ∅ -> dir (inner wb) = dir (inner wa) ->
  following (see (fs (sys (flush_store oa wa))) wb)
    (fun m => if decide (m = own_name (inner wa)) then (L ++ Bf) ++ hit_recs (inner wa) else []) (fun _ => 0%nat).
Proof.
  intros Hwa D Hb Hr Hd. pose proof (durable_writer _ _ _ _ D) as W.
  destruct (writer_flush_store oa Hwa wa _ W) as (W2 & G & Go). destruct D as [_ _ _ [Al _] _ _].
  split; [done|..].
  - intros m [Hm Hs]. exists []. cbn [see with_sys inner]. rewrite Hd. change (contents (sys (see ?f wb))) with (contents (mkSys f 0 0 0)).
    case_decide as E.
    + subst m. split; [rewrite app_nil_r; exact G|apply not_elem_of_nil|apply W2].
    + split; [|apply not_elem_of_nil|constructor]. assert (Hm' : is_shard_name (own_name (inner wa)) m = true).
      { unfold is_shard_name in *. rewrite !andb_true_iff in *. destruct Hm as [Hm _]. split; [done|]. by rewrite bool_decide_eq_false_2. }
      unfold contents. change (default [] (content (sys (flush_store oa wa)) (path_join (dir (inner wa)) m)) = []). rewrite Go; [by rewrite (Al m Hm')|].
      intros H. by apply path_join_inj in H.
  - intros m t. change (tl_readers (tail (inner (see ?f wb)))) with (tl_readers (tail (inner wb))). rewrite Hr. by rewrite lookup_empty.
  - done.
Qed.

(** Two instances of one directory: [Recovery.demo_world] is instance 0. *)
Definition demo_other : World :=
  match open_store (std := RefStd) RefOs (B "data") 5 RefSys 3 0 with inl w => w | inr _ => no_world end.

Lemma fresh_dir_ok inst : 0 <= inst < Base62.MAX_INSTANCES -> dir_ok (B "data") inst RefSys [] [] [].
Proof. intros H. constructor; [exact H|done|done|done|apply not_elem_of_nil|done|done|done]. Qed.

Lemma demo_other_ok : wf demo_other /\ alone demo_other.
Proof.
  assert (Hi : 0 <= 5 < Base62.MAX_INSTANCES) by (unfold Base62.MAX_INSTANCES; lia).
  pose proof (fresh_dir_ok 5 Hi) as Hd.
  assert (E : open_store (std := RefStd) RefOs (B "data") 5 RefSys 3 0 = inl demo_other) by (vm_compute; reflexivity).
  pose proof (open_store_full (std := RefStd) RefOs (B "data") 5 RefSys 3 0 [] [] demo_other RefOs_read Hd E) as D.
  destruct D as [_ [D2 _] _ D4 _ _]. split; [exact D2|exact D4].
Qed.
Definition demo_url : bytes := B "https://new.example/".
Definition demo_linked : bytes * World :=
  match shorten RefOs 5 demo_url None 0 demo_world with Done (Some c) w => (c, w) | _ => ([], no_world) end.

Lemma demo_linked_eq : shorten RefOs 5 demo_url None 0 demo_world = Done (Some (fst demo_linked)) (snd demo_linked).
Proof. vm_compute. reflexivity. Qed.

Section Claims.
Context {std : StdImpl}.

(** C8 A new link with a generated code is served by every instance of the
    directory: when A draws a code for a url, the link is on disk after A's
    next flush, and instance B, whose index does not have the code, answers
    a request for it with A's url - it takes the owner from the first
    character of the code, reads what is new in A's log and finds the row -,
    or with nothing when the link has expired by B's clock. No poll, no
    restart and no message between the two is needed. (Nothing of this holds
    for an alias, whose first character names nobody:
    [SiblingFindings.sibling_alias_missed].) *)
Theorem sibling_sees_new_link oa ob env fuel u ttl wa R wa' c wb :
  no_io_error (os_write oa) -> no_io_error (os_read ob) ->
  writer wa R -> shorten oa fuel u None ttl wa = Done (Some c) wa' ->
  wf wb -> is_Some (aof (inner wb)) -> instance (inner wb) ≠ instance (inner wa) ->
  let t := reader_of wb (instance (inner wa)) in
  t_path t = log_path (inner wa) -> tail_at t (contents (sys wa) (log_path (inner wa))) ->
  find (inner wb) c = None ->
  let e := expiry (now_of oa wa) ttl in
  let now := i64 (os_clock ob (S (k_clock (sys wb)))) in
  fst (resolve ob env c (see (fs (sys (flush_store oa wa'))) wb)) = if (e =? 0) || (now <? e) then Some u else None.
Proof.
  intros Hwa Hrb HW E Hb Hab Hne t Hp Ht Hf. destruct (writer_shorten oa Hwa fuel u ttl wa R c wa' HW E) as (W1 & Hsh & Hc & _).
  set (row := Row c u _ _ _ 0) in W1. destruct (writer_flush_store oa Hwa wa' _ W1) as (W2 & G & _).
  destruct (config_paths _ _ Hc) as (Hlp & _ & _). rewrite Hlp in G.
  set (f := fs _). set (hs := hit_recs (inner wa')) in *.
  assert (Hown : exists c1, c = prefix (inner wa) :: c1).
  { destruct Hsh as (_ & Hh & _). destruct c as [|x c1]; [done|]. injection Hh as ->. by exists c1. }
  destruct Hown as [c1 ->]. destruct (wr_cfg _ _ HW) as (_ & Hpre & Hin & _).
  assert (Ho : Base62.alpha_idx (prefix (inner wa)) = instance (inner wa)) by (rewrite Hpre; by apply Base62.alpha_idx_alpha).
  assert (HX : Forall rec_ok ([row] ++ hs)).
  { pose proof (wr_recs _ _ W2) as HH. rewrite <- app_assoc in HH. by apply Forall_app in HH as [_ HH]. }
  rewrite <- app_assoc in G. destruct (wr_log _ _ HW) as (a & Ha & _).
  assert (Hs : contents (sys (see f wb)) (t_path t) = log_bytes (R ++ [row] ++ hs)) by (rewrite Hp; exact G).
  rewrite <- Hp in Ht. destruct (read_upto_old wa R a t HW Ha Hp Ht _ _ Hs HX) as (k & Hk & Hu).
  pose proof (resolve_owner ob env Hrb (see f wb) (prefix (inner wa)) c1 (R ++ [row] ++ hs) [] k Hb Hab) as HR.
  rewrite Ho in HR. specialize (HR (proj1 Hin) (not_eq_sym Hne)).
  rewrite drop_app_le in HR by done. unfold row, hs in HR. rewrite (fold_row_last _ _ _ _ _ _ _ _ _ (hit_recs_hits _)) in HR.
  assert (Hh : holds (sys (see f wb)) (t_path t) (R ++ [row] ++ hs) []).
  { split; [by rewrite app_nil_r|set_solver|]. apply Forall_app. split; [apply (wr_recs _ _ HW)|exact HX]. }
  specialize (HR Hh Hu Hf). destruct (resolve ob env _ (see f wb)) as [r w2]. exact HR.
Qed.

(** C9 A poll brings an instance up to date with its siblings. The logs of
    the directory are any records, the readers any number of records into
    them, the index anything: after the poll every log has been read to its
    end, and for a code that only instance [n] writes - the rule for
    generated codes, which start with the letter of their owner -, whatever
    order the logs were read in and whatever the others wrote: if an unread
    record of [n]'s log is about the code, its row is now exactly the one
    that replaying the whole log of [n] gives it; if none is, the row is the
    one from before the poll (of a snapshot read at the start, say). So a row
    in step with what was read of the log is in step with all of it. *)
Theorem poll_converges os w F k :
  no_io_error (os_read os) -> is_Some (aof (inner w)) -> following w F k ->
  let w' := poll_tails os w in
  following w' F (fun m => length (F m)) /\
  forall n c, sibling_name (own_name (inner w)) n ->
    (forall m, m ≠ n -> sibling_name (own_name (inner w)) m -> silent c (F m)) ->
    (~ silent c (drop (k n) (F n)) -> table (inner w') !! c = replay_table (F n) !! c) /\
    (silent c (drop (k n) (F n)) -> table (inner w') !! c = table (inner w) !! c) /\
    (table (inner w) !! c = replay_table (take (k n) (F n)) !! c -> table (inner w') !! c = replay_table (F n) !! c).
Proof.
  intros Hr Ha H. destruct (poll_following os Hr w F k H Ha) as (P1 & _ & _ & P2). split; [exact P1|].
  intros n c Hn Hs. destruct (P2 (table (inner w)) (k n) n c Hn Hs) as (X & HX & ->); [by (exists []; cbn [app]; rewrite take_drop)|].
  rewrite drop_all, app_nil_r in HX. rewrite <- (take_drop (k n) (F n)) in HX at 1. apply app_inv_head in HX as <-.
  assert (E : replay_table (F n) = fold_left t_rec (drop (k n) (F n)) (replay_table (take (k n) (F n))))
    by (rewrite <- (take_drop (k n) (F n)) at 1; apply replay_table_app).
  rewrite E. split_and!; [intros Hl; by apply fold_loud|intros Hq; by apply fold_silent|intros Hc; by apply fold_at].
Qed.
End Claims.

Lemma sibling_sees_new_link_witness :
  find (inner demo_other) (fst demo_linked) = None /\
  fst (resolve (std := RefStd) RefOs Env0 (fst demo_linked) (see (fs (sys (flush_store (std := RefStd) RefOs (snd demo_linked)))) demo_other))
    = Some demo_url.
Proof.
  destruct demo_durable as (S & L & Bf & D). pose proof (durable_writer _ _ _ _ D) as W.
  assert (Hf : find (inner demo_other) (fst demo_linked) = None) by (vm_compute; reflexivity).
  split; [exact Hf|]. etrans; [eapply (sibling_sees_new_link (std := RefStd) RefOs RefOs Env0 5 demo_url 0 demo_world (L ++ Bf) (snd demo_linked)
    (fst demo_linked) demo_other RefOs_write RefOs_read W demo_linked_eq (proj1 demo_other_ok))|vm_compute; reflexivity].
  - vm_compute. by eexists.
  - vm_compute. discriminate.
  - vm_compute. reflexivity.
  - split; [apply Nat.le_0_l|vm_compute; reflexivity].
  - exact Hf.
Defined.

Lemma poll_converges_witness :
  let f := fs (sys (flush_store (std := RefStd) RefOs demo_world)) in
  let w' := poll_tails (std := RefStd) RefOs (see f demo_other) in
  is_Some (table (inner w') !! B "y") /\
  exists R, contents (sys w') (B "data/data-0.log") = log_bytes R /\ table (inner w') !! B "y" = replay_table R !! B "y".
Proof.
  cbv zeta. split; [vm_compute; by eexists|]. destruct demo_durable as (S & L & Bf & D).
  pose proof (following_first (std := RefStd) RefOs demo_world S L Bf demo_other RefOs_write D (proj1 demo_other_ok) eq_refl eq_refl) as H.
  destruct (writer_flush_store (std := RefStd) RefOs RefOs_write demo_world _ (durable_writer _ _ _ _ D)) as (_ & G & _).
  assert (Ha : is_Some (aof (inner (see (fs (sys (flush_store (std := RefStd) RefOs demo_world))) demo_other)))) by (vm_compute; by eexists).
  destruct (poll_converges (std := RefStd) RefOs _ _ _ RefOs_read Ha H) as [_ P2].
  exists ((L ++ Bf) ++ hit_recs (std := RefStd) (inner demo_world)). split; [etrans; [|exact G]; vm_compute; reflexivity|].
  destruct (P2 (own_name (inner demo_world)) (B "y")) as (_ & _ & P3).
  - split; [vm_compute; reflexivity|]. apply (bool_decide_unpack (_ ∉ _)). vm_compute. exact I.
  - intros m Hm _. rewrite decide_False by exact Hm. constructor.
  - etrans; [apply P3; vm_compute; reflexivity|by rewrite decide_True].
Defined.
