(* ===== verification/SiblingFindings.v ===== *)
(** * What instances of one directory do not agree on

    Evaluated runs of two instances, 0 and 5, where the premises of the
    claims of [Siblings] fail: an alias that both take, a link its owner
    removes, and a log that is compacted before a sibling has read it. *)

From S2P Require Import Prelude CLib Common Codec Aof Store StoreFacts StoreSpec Durability Recovery Siblings.

(** One process acts on the files as it finds them. *)
Definition acts (f : World -> World) (fs0 : Fs) (w : World) : World := f (see fs0 w).
Definition files_of (w : World) : Fs := fs (sys w).

Definition opens (i : Z) (s : Sys) : World :=
  match open_store (std := RefStd) RefOs (B "data") i s 1 0 with inl w => w | inr _ => no_world end.
Definition links (alias url : bytes) (w : World) : World :=
  match shorten RefOs 5 url (Some alias) 0 w with Done _ w' => flush_store (std := RefStd) RefOs w' | OutOfFuel => w end.
Definition removes (code : bytes) (w : World) : World := flush_store (std := RefStd) RefOs (snd (remove code w)).
Definition compacts (w : World) : World := compact (std := RefStd) RefOs w.
Definition polls (w : World) : World := poll_tails (std := RefStd) RefOs w.
Definition visit (code : bytes) (w : World) : option bytes := fst (resolve (std := RefStd) RefOs Env0 code w).

Definition promo : bytes := B "promo".
Definition url_a : bytes := B "https://a.example/".
Definition url_b : bytes := B "https://b.example/".

(** Both instances are started in the empty directory. *)
Definition a0 : World := opens 0 RefSys.
Definition b0 : World := opens 5 (sys a0).

(** ** An alias taken twice *)
Definition a1 : World := acts (links promo url_a) (files_of b0) a0.
Definition b1 : World := acts (links promo url_b) (files_of a1) b0.
Definition a2 : World := acts polls (files_of b1) a1.
Definition b2 : World := acts polls (files_of a2) b1.

Example alias_taken_twice_swaps :
  visit promo a1 = Some url_a /\ visit promo b1 = Some url_b /\ visit promo a2 = Some url_b /\ visit promo b2 = Some url_a.
Proof. vm_compute. split_and!; reflexivity. Qed.

(** ** A removed link *)
Definition b_read : World := acts polls (files_of a1) b0.
Definition a_gone : World := removes promo a1.

Example removed_link_served_by_sibling :
  visit promo a_gone = None /\ visit promo (acts id (files_of a_gone) b_read) = Some url_a.
Proof. vm_compute. split_and!; reflexivity. Qed.

(** ** A log compacted before it is read *)
Definition a_compact : World := compacts a1.

Example compacted_log_unread :
  visit promo a_compact = Some url_a /\ visit promo (acts polls (files_of a_compact) b0) = None /\
  visit promo (opens 5 (sys a_compact)) = Some url_a.
Proof. vm_compute. split_and!; reflexivity. Qed.

(** A log that is as long again as what was read of the old one. *)
Definition other : bytes := B "other".
Definition a_again : World := links other url_b a_compact.

Example compacted_log_misread :
  visit other a_again = Some url_b /\ visit other (acts polls (files_of a_again) b_read) = None.
Proof. vm_compute. split_and!; reflexivity. Qed.
