(* ===== verification/Shared.v ===== *)
(** * Restarts in a shared directory

    [Recovery] follows an instance that is alone in its directory. Here its
    siblings append to their logs between its operations, and it reads them
    when it misses a code or polls. For a code that no sibling writes the
    files of the instance go on describing its row of the index: it survives
    a restart whatever the siblings did. *)

From S2P Require Import Prelude CLib Common Codec Aof Store StoreFacts StoreSpec Durability Recovery Siblings.

(** ** What the siblings may write *)
Definition foreign (c : bytes) (r : LogRec) : Prop := rec_ok r /\ (is_hit r \/ rec_code r ≠ c).

Lemma foreign_recs c R : Forall (foreign c) R -> Forall rec_ok R.
Proof. intros H. eapply Forall_impl; [exact H|]. by intros r [? _]. Qed.
Lemma foreign_silent c R : Forall (foreign c) R -> silent c R.
Proof. intros H. eapply Forall_impl; [exact H|]. by intros r [_ ?]. Qed.

(** ** An index with rows of others in it *)
Definition entry_sane (e : Entry) : Prop := in_i64 (e_a e) /\ in_i64 (e_e e) /\ in_i64 (e_oh e).
Definition index_sane (i : Inner) : Prop :=
  inner_wf i /\ dirty_ok i /\ forall x e, data i !! x = Some e -> plain_code x /\ entry_sane e.

Lemma index_sane_ext i j : shards i = shards j -> index_sane j -> index_sane i.
Proof.
  intros Hs (H1 & H2 & H3). split_and!; [by eapply wf_shards|unfold dirty_ok; by rewrite Hs|unfold data; by rewrite Hs].
Qed.

Lemma index_sane_insert x e i : index_sane i -> plain_code x -> entry_sane e -> index_sane (data_insert x e i).
Proof.
  intros (H1 & H2 & H3) Hx He. split_and!; [auto with shrt|by apply dirty_ok_upd|].
  rewrite data_data_insert by done. intros x' e'. rewrite lookup_insert. case_decide; [|apply H3]. intros [= <-]. by subst.
Qed.

Lemma index_sane_erase x i : index_sane i -> index_sane (data_erase x i).
Proof.
  intros (H1 & H2 & H3). split_and!; [auto with shrt|by apply dirty_ok_upd|].
  rewrite data_data_erase by done. intros x' e'. rewrite lookup_delete. case_decide; [done|apply H3].
Qed.

Lemma index_sane_bump x i : index_sane i -> plain_code x -> index_sane (dirty_bump x i).
Proof. intros (H1 & H2 & H3) Hx. split_and!; [auto with shrt|by apply dirty_ok_bump|]. by rewrite data_dirty_bump. Qed.

Lemma index_sane_clear i : index_sane i -> index_sane (clear_dirty i).
Proof. intros (H1 & H2 & H3). split_and!; [auto with shrt|apply dirty_ok_clear|]. by rewrite data_clear_dirty. Qed.

Lemma index_sane_find i x e : index_sane i -> find i x = Some e -> plain_code x /\ entry_sane e.
Proof. intros (H1 & _ & H3) Hf. apply H3. by rewrite data_find. Qed.

Section Shared.
Context {std : StdImpl} (os : Os) (env : Env) (Hw : no_io_error (os_write os)) (Hr : no_io_error (os_read os)).

Lemma index_sane_apply i r stray : index_sane i -> rec_ok r -> index_sane (fst (apply i (op_of r) stray)).
Proof.
  intros Hx Hr'. unfold apply. destruct r as [x u a e j n|x d j|x]; simpl in *.
  - destruct Hr' as (Hc & Ha & He & Hi & Hn). assert (x ≠ []) by apply Hc. rewrite bool_decide_eq_false_2 by done. simpl.
    apply index_sane_insert; [by apply index_sane_erase|done|]. split_and!; simpl; [done|by case_match|apply i64_range].
  - destruct Hr' as (Hc & Hd & Hi). assert (x ≠ []) by apply Hc. rewrite bool_decide_eq_false_2 by done. simpl.
    destruct (find i x) as [e|] eqn:E; [|done]. simpl. destruct (index_sane_find i x e Hx E) as [_ (Ha & He & Ho)].
    apply index_sane_insert; [done|done|]. split_and!; simpl; [done|done|]. case_match; [apply i64_range|done].
  - assert (x ≠ []) by apply Hr'. rewrite bool_decide_eq_false_2 by done. simpl. by apply index_sane_erase.
Qed.

Lemma index_sane_feed rs i : index_sane i -> Forall rec_ok rs -> index_sane (feed (map line_of rs) i).
Proof.
  intros Hx Hrs. unfold feed. assert (H : forall st, index_sane (fst st) -> index_sane (fst (apply_lines (map line_of rs) st))).
  { clear Hx. induction Hrs as [|r rs Hr1 _ IH]; intros st Hx; [done|]. apply IH. unfold apply_line. rewrite parse_op_line_of by done.
    by apply index_sane_apply. }
  specialize (H (i, tl_stray (tail i)) Hx). destruct (apply_lines _ _) as [i' st']. by eapply index_sane_ext, H.
Qed.

(** ** The files describe the row of [c] *)
Context (c : bytes).

Definition own_at (i : Inner) : Prop := forall r, table i !! c = Some r -> r_i r = instance i.

Record mine (w : World) (S L Bf : list LogRec) : Prop := {
  mi_cfg : cfg_ok (inner w);
  mi_index : index_sane (inner w);
  mi_own : own_at (inner w);
  mi_disk : disk w S L Bf;
  mi_recs : Forall rec_ok (S ++ L ++ Bf);
  mi_table : table (inner w) !! c = replay_table (S ++ L ++ Bf) !! c
}.

Lemma mine_ext w w' S L Bf : shards (inner w') = shards (inner w) -> same_config (inner w') (inner w) ->
  aof (inner w') = aof (inner w) -> fs (sys w') = fs (sys w) -> mine w S L Bf -> mine w' S L Bf.
Proof.
  intros Hs Hc Ha Hf [M1 M2 M3 M4 M5 M6]. split; [by eapply cfg_ok_ext|by eapply index_sane_ext| |by eapply disk_ext|done|].
  - unfold own_at, table, data in *. destruct Hc as (-> & _). by rewrite Hs.
  - unfold table, data in *. by rewrite Hs.
Qed.

(** ** Operations keep to their own files *)
Definition apart (w w' : World) : Prop :=
  same_config (inner w') (inner w) /\ tl_readers (tail (inner w')) = tl_readers (tail (inner w)) /\
  forall p, p ≠ log_path (inner w) -> p ≠ snap_path (inner w) -> p ≠ tmp_path (inner w) -> content (sys w') p = content (sys w) p.

Lemma apart_refl w : apart w w.
Proof. by split_and!. Qed.

Lemma apart_trans w1 w2 w3 : apart w1 w2 -> apart w2 w3 -> apart w1 w3.
Proof.
  intros (A1 & A2 & A3) (B1 & B2 & B3). destruct (config_paths _ _ A1) as (E1 & E2 & E3). rewrite E1, E2, E3 in B3.
  split_and!; [by etrans|by rewrite B2|]. intros p ? ? ?. by rewrite B3, A3.
Qed.

Lemma apart_index w w' : same_config (inner w') (inner w) -> tl_readers (tail (inner w')) = tl_readers (tail (inner w)) ->
  fs (sys w') = fs (sys w) -> apart w w'.
Proof. intros H1 H2 H3. split_and!; [done|done|]. intros p _ _ _. unfold content. by rewrite H3. Qed.

Lemma following_apart w w' F k : wf w' -> apart w w' -> following w F k -> following w' F k.
Proof.
  intros Hwf (A1 & A2 & A3) [H1 H2 H3 H4]. pose proof A1 as (_ & _ & C3 & C4 & _).
  assert (Hc : forall m, sibling_name (own_name (inner w)) m -> contents (sys w') (path_join (dir (inner w)) m) = contents (sys w) (path_join (dir (inner w)) m)).
  { intros m [Hm _]. destruct (shard_path_ne _ m (inner w) eq_refl Hm) as (P1 & P2 & P3). unfold contents. by rewrite A3. }
  split; rewrite ?C3, ?C4, ?A2; [done|..|done].
  - intros m Hm. destruct (H2 m Hm) as [tn [? ? ?]]. exists tn. split; [by rewrite Hc|done|done].
  - intros m t Hm. destruct (H3 m t Hm) as (Q1 & Q2 & Q3 & Q4). split_and!; [done|done|]. unfold read_upto. rewrite Q2 in *. by rewrite Hc.
Qed.

Definition kept (w w' : World) : Prop := (exists S L Bf, mine w' S L Bf) /\ apart w w'.

Lemma kept_trans w1 w2 w3 : apart w1 w2 -> kept w2 w3 -> kept w1 w3.
Proof. intros H1 [H2 H3]. split; [done|by eapply apart_trans]. Qed.

(** A change of the index with the records that describe it. *)
Lemma mine_change (f : Inner -> Inner) rs w w' S L Bf :
  mine w S L Bf -> inner w' = f (inner w) -> fs (sys w') = fs (sys w) -> same_config (f (inner w)) (inner w) ->
  aof (f (inner w)) = aof (inner w) -> tail (f (inner w)) = tail (inner w) ->
  index_sane (f (inner w)) -> Forall rec_ok rs -> own_at (f (inner w)) ->
  table (f (inner w)) !! c = fold_left t_rec rs (table (inner w)) !! c ->
  mine (aof_push_raw (log_bytes rs) w') S L (Bf ++ rs) /\ apart w (aof_push_raw (log_bytes rs) w').
Proof.
  intros [M1 M2 M3 M4 M5 M6] Hi Hs Hc Ha Ht Hx Hrs Ho Htab.
  assert (Dd : disk w' S L Bf) by (apply (disk_ext w); [..|exact M4]; by rewrite ?Hi, ?Hs).
  pose proof (disk_push_raw rs w' S L Bf Dd) as Dp. destruct Dd as (a & Hav & _).
  assert (He : inner (aof_push_raw (log_bytes rs) w') = set_aof (Some (push_raw a (log_bytes rs))) (f (inner w))
               /\ fs (sys (aof_push_raw (log_bytes rs) w')) = fs (sys w)).
  { unfold aof_push_raw. rewrite Hav. simpl. by rewrite Hi, Hs. }
  destruct He as [He1 He2]. split.
  - split; [..|done| |]; rewrite ?He1.
    + by eapply cfg_ok_ext; [exact Hc|].
    + by eapply index_sane_ext, Hx.
    + exact Ho.
    + rewrite !Forall_app in *. tauto.
    + change (table (f (inner w)) !! c = replay_table (S ++ L ++ Bf ++ rs) !! c).
      rewrite Htab, !app_assoc, replay_table_app, <- !app_assoc. by apply fold_at.
  - apply apart_index; [by rewrite He1|by rewrite He1; simpl; rewrite Ht|done].
Qed.

Lemma mine_flush_if_full w S L Bf : mine w S L Bf -> kept w (aof_flush_if_full os w).
Proof.
  intros M. pose proof M as [M1 M2 M3 M4 M5 M6]. unfold aof_flush_if_full. pose proof M4 as (a & Ha & _). rewrite Ha.
  case_match; [|split; [by exists S, L, Bf|apply apart_refl]].
  pose proof (disk_flush os Hw w S L Bf a M1 M4 Ha) as HH. destruct (flush os a (sys w)) as [a' s']. destruct HH as [HH Hp].
  split; [|split_and!; [done|done|intros p ? _ _; by apply Hp]].
  exists S, (L ++ Bf), []. split; rewrite ?app_nil_r; try done. by eapply index_sane_ext, M2.
Qed.

Lemma mine_flush w S L Bf : mine w S L Bf ->
  mine (flush_store os w) S (L ++ Bf ++ hit_recs (inner w)) [] /\ apart w (flush_store os w) /\ data (inner (flush_store os w)) = data (inner w).
Proof.
  intros [M1 M2 M3 M4 M5 M6]. unfold flush_store. pose proof M4 as (a & Ha & _). rewrite Ha.
  destruct (instance_i64 _ M1) as [I1 I2]. pose proof (own_rec_ok _ _ (hit_recs_ok (inner w) (proj1 (proj2 M2)) I1)) as Hh.
  rewrite hit_lines_recs. set (hr := hit_recs (inner w)) in *. set (w1 := aof_push_raw (log_bytes hr) w).
  assert (Hw1 : w1 = with_inner (set_aof (Some (push_raw a (log_bytes hr)))) w) by (unfold w1, aof_push_raw; by rewrite Ha).
  assert (M4' : disk w1 S L (Bf ++ hr)) by (by apply disk_push_raw).
  pose proof (disk_flush os Hw w1 S L (Bf ++ hr) (push_raw a (log_bytes hr))) as HH. rewrite Hw1 in HH, M4'.
  specialize (HH M1 M4' eq_refl). cbn [sys with_inner] in HH.
  destruct (flush os (push_raw a (log_bytes hr)) (sys w)) as [a' s']. destruct HH as [HH Hp].
  assert (Hd : data (set_aof (Some a') (clear_dirty (inner w))) = data (inner w)) by apply data_clear_dirty.
  split; [|split; [split_and!; [done|done|intros p ? _ _; by apply Hp]|done]]. split.
  - done.
  - by eapply index_sane_ext, (index_sane_clear _ M2).
  - unfold own_at, table. cbn [inner with_sys with_inner]. by rewrite Hd.
  - by eapply disk_ext; [..|exact HH].
  - rewrite app_nil_r, !Forall_app in *. tauto.
  - rewrite app_nil_r, !app_assoc, replay_table_hits by apply hit_recs_hits.
    rewrite <- app_assoc, <- M6. unfold table. cbn [inner with_sys with_inner]. by rewrite Hd.
Qed.

Lemma mine_sync w S L Bf : mine w S L Bf -> kept w (sync_store os w).
Proof.
  intros [M1 M2 M3 M4 M5 M6]. unfold sync_store, sync. pose proof M4 as (a & Ha & _). rewrite Ha.
  pose proof (disk_flush os Hw w S L Bf a M1 M4 Ha) as HH. destruct (flush os a (sys w)) as [a' s']. destruct HH as [HH Hp].
  split; [|split_and!; [done|done|intros p ? _ _; by apply Hp]]. exists S, (L ++ Bf), []. split; rewrite ?app_nil_r; try done.
  by eapply index_sane_ext, M2.
Qed.

(** ** The operations on links *)
Lemma own_at_insert x e i : inner_wf i -> e_i e = instance i -> own_at i -> own_at (data_insert x e i).
Proof.
  intros H He Ho r. change (instance (data_insert x e i)) with (instance i). rewrite table_insert, lookup_insert by done.
  case_decide; [by intros [= <-]|apply Ho].
Qed.

Lemma kept_ext w w' w'' : inner w'' = inner w' -> fs (sys w'') = fs (sys w') -> kept w w' -> kept w w''.
Proof.
  intros Hi Hf [(S & L & Bf & M) A]. split; [exists S, L, Bf; apply (mine_ext w'); by rewrite ?Hi|].
  eapply apart_trans; [exact A|]. apply apart_index; by rewrite ?Hi.
Qed.

Lemma mine_new x u now exp w w' S L Bf : mine w S L Bf -> plain_code x -> in_i64 now -> in_i64 exp ->
  inner w' = data_insert x (new_entry (inner w) u now exp) (inner w) -> fs (sys w') = fs (sys w) ->
  kept w (shorten_log os x u now exp w').
Proof.
  intros M Hc Hn He Hi Hf. destruct (instance_i64 _ (mi_cfg _ _ _ _ M)) as [I1 I2]. pose proof (mi_index _ _ _ _ M) as Hx.
  set (r := Row x u now exp (instance (inner w)) 0).
  destruct (mine_change (data_insert x (new_entry (inner w) u now exp)) [r] w w' S L Bf M) as [M1 A1]; try done.
  - apply index_sane_insert; [done|done|]. by split_and!.
  - constructor; [|done]. split_and!; done.
  - apply own_at_insert; [apply Hx|done|apply M].
  - rewrite table_insert by apply Hx. simpl. by rewrite I2.
  - destruct (mine_flush_if_full _ _ _ _ M1) as [K1 K2].
    apply (kept_ext w (aof_flush_if_full os (aof_push_raw (log_bytes [r]) w'))); [..|split; [done|by eapply apart_trans]].
    + unfold shorten_log. rewrite Hi. simpl. change (row_line x u now exp (instance (inner w)) 0) with (line_of r). by rewrite aof_push_one.
    + unfold shorten_log. rewrite Hi. simpl. change (row_line x u now exp (instance (inner w)) 0) with (line_of r). by rewrite aof_push_one.
Qed.

Lemma mine_shorten fuel u alias ttl w S L Bf r w' : mine w S L Bf -> (forall x, alias = Some x -> plain_code x) ->
  shorten os fuel u alias ttl w = Done r w' -> kept w w'.
Proof.
  intros M Ha. unfold shorten. cbn [now_ms]. set (now := i64 _). assert (Hn : in_i64 now) by apply i64_range.
  pose proof (expiry_range now ttl) as He. destruct alias as [x|]; simpl.
  - destruct (find (inner w) x); intros [= <- <-].
    + apply (kept_ext w w); [done|done|]. split; [by exists S, L, Bf|apply apart_refl].
    + by eapply mine_new; [exact M|by apply Ha|done..].
  - destruct (gen_free fuel (inner w) (rng w)) as [[x st]|] eqn:E; [|done]. apply gen_free_spec in E as [_ Hs]. intros [= <- <-].
    eapply mine_new; [exact M|eapply gen_plain, Hs; apply M|done..].
Qed.

Lemma shorten_each_sane fuel now exp urls : forall codes lines w codes' lines' w',
  index_sane (inner w) -> cfg_ok (inner w) -> own_at (inner w) -> in_i64 now -> in_i64 exp ->
  shorten_each fuel urls now exp codes lines w = Some (codes', lines', w') ->
  index_sane (inner w') /\ own_at (inner w') /\ tail (inner w') = tail (inner w).
Proof.
  induction urls as [|u us IH]; intros codes lines w codes' lines' w' Hx Hc Ho Hn He; cbn [shorten_each]; [by intros [= <- <- <-]|].
  destruct (gen_free fuel (inner w) (rng w)) as [[x st]|] eqn:E; [|done]. apply gen_free_spec in E as [_ Hs]. intros Hrun.
  eapply IH in Hrun; [exact Hrun|simpl..|done|done].
  - apply index_sane_insert; [done|by eapply gen_plain|]. by split_and!.
  - by eapply cfg_ok_ext; [|exact Hc].
  - by apply own_at_insert; [apply Hx|..].
Qed.

Lemma mine_shorten_many fuel urls ttl w S L Bf r w' : mine w S L Bf -> shorten_many os fuel urls ttl w = Done r w' -> kept w w'.
Proof.
  intros M. pose proof M as [M1 M2 M3 M4 M5 M6]. unfold shorten_many. cbn [now_ms]. set (now := i64 _). set (exp := expiry now ttl).
  set (w0 := with_sys _ w). destruct (shorten_each fuel urls now exp [] [] w0) as [[[codes lines] w1]|] eqn:E; [|done].
  assert (Hn : in_i64 now) by apply i64_range. assert (He : in_i64 exp) by apply expiry_range.
  destruct (shorten_each_sane _ _ _ _ _ _ w0 _ _ _ M2 M1 M3 Hn He E) as (Hx & Ho & Ht).
  apply shorten_each_spec in E; [|apply M2]. destruct E as (cs & -> & Hlen & Hnd & Hall & Hd & -> & Hwf & Hcfg & Ha & Hs & _).
  destruct M4 as (a & Hav & _). change (inner w0) with (inner w) in *. rewrite Hav. simpl. rewrite many_recs_log.
  set (rs := many_recs _ _ _ _). destruct (instance_i64 _ M1) as [I1 I2]. intros [= <- <-].
  destruct (mine_change (fun _ => inner w1) rs w w1 S L Bf M) as [D1 A1]; try done; [by rewrite Hs| | |].
  - apply Forall_map, Forall_forall. intros [x u] Hcu. simpl. apply elem_of_zip_l in Hcu. rewrite Forall_forall in Hall.
    destruct (Hall x Hcu) as [_ Hsh]. split_and!; try done. by eapply gen_plain.
  - unfold table. rewrite Hd. f_equal. by apply many_rows_table.
  - destruct (mine_flush_if_full _ _ _ _ D1) as [K1 K2]. eapply kept_ext; [..|split; [exact K1|by eapply apart_trans]]; done.
Qed.

Lemma mine_update x u ttl has w S L Bf : mine w S L Bf -> kept w (snd (update os x u ttl has w)).
Proof.
  intros M. pose proof (mi_index _ _ _ _ M) as Hx. destruct (find (inner w) x) as [e|] eqn:E; cycle 1.
  { unfold update. rewrite E. split; [by exists S, L, Bf|apply apart_refl]. }
  destruct (decide (e_i e = instance (inner w))) as [Hi|Hi]; cycle 1.
  { unfold update. rewrite E, (proj2 (Z.eqb_neq _ _) Hi). split; [by exists S, L, Bf|apply apart_refl]. }
  destruct (index_sane_find _ _ _ Hx E) as [Hc (Ha & He & Ho)].
  destruct (update_own os x u ttl has w e E Hi) as (w1 & -> & Hw1 & Hf). cbn [snd]. rewrite aof_push_one.
  destruct (instance_i64 _ (mi_cfg _ _ _ _ M)) as [I1 I2]. pose proof (update_expiry_range os ttl has (e_e e) w He) as He'.
  edestruct (mine_change (data_insert x (mkEntry u (e_a e) (update_expiry os ttl has (e_e e) w) (e_i e) (e_h e) (e_oh e)))) as [M1 A1];
    [exact M|exact Hw1|done|done|done|done| | | | |split; [by eexists _, _, _|exact A1]].
  - by apply index_sane_insert.
  - constructor; [|done]. split_and!; done.
  - by apply own_at_insert; [apply Hx|..|apply M].
  - rewrite table_insert by apply Hx. unfold row_of. simpl. by rewrite I2, Hi.
Qed.

Lemma mine_remove x w S L Bf : mine w S L Bf -> kept w (snd (remove x w)).
Proof.
  intros M. pose proof (mi_index _ _ _ _ M) as Hx. unfold remove. destruct (find (inner w) x) as [e|] eqn:E; cycle 1.
  { split; [by exists S, L, Bf|apply apart_refl]. }
  case_match; [split; [by exists S, L, Bf|apply apart_refl]|]. cbn [snd].
  destruct (index_sane_find _ _ _ Hx E) as [Hc _]. change (del_line x) with (line_of (Del x)). rewrite aof_push_one.
  apply (kept_ext w (aof_push_raw (log_bytes [Del x]) (with_inner (data_erase x) w))); [done|done|].
  destruct (mine_change (data_erase x) [Del x] w (with_inner (data_erase x) w) S L Bf M) as [M1 A1];
    [done|done|done|done|done| | | | |split; [by eexists _, _, _|exact A1]].
  - by apply index_sane_erase.
  - by constructor.
  - intros r. rewrite table_erase, lookup_delete by apply Hx. case_decide; [done|]. apply (mi_own _ _ _ _ M).
  - by rewrite table_erase by apply Hx.
Qed.

(** ** Compaction *)

(** The snapshot holds the own rows; at [c] that is all of the index. *)
Lemma snap_recs_at i : index_sane i -> cfg_ok i -> own_at i ->
  replay_table (snap_recs i) !! c = table i !! c /\ Forall rec_ok (snap_recs i).
Proof.
  intros (Hwf & _ & Hall) Hc Ho. destruct (instance_i64 _ Hc) as [I1 I2]. unfold snap_recs. set (l := filter _ (all_data i)).
  assert (Hl : forall x e, (x, e) ∈ l <-> data i !! x = Some e /\ e_i e = instance i).
  { intros x e. unfold l. rewrite list_elem_of_filter, all_data_elem by done. cbn. tauto. }
  assert (Hnd : NoDup l.*1) by (eapply sublist_NoDup; [|apply fmap_sublist, sublist_filter]; by apply all_data_nodup). split.
  - unfold replay_table. rewrite replay_rows, map_union_empty; [|done|].
    + unfold own_at, table in *. rewrite !lookup_fmap. f_equal. apply option_eq. intros e. rewrite <- elem_of_list_to_map, Hl by done.
      split; [by intros [? _]|]. intros He. split; [done|]. specialize (Ho (row_of e)). rewrite lookup_fmap, He in Ho. by apply Ho.
    + apply Forall_forall. intros [x e] Hx. apply Hl in Hx as [_ Hx]. cbn. by rewrite Hx.
  - apply Forall_map, Forall_forall. intros [x e] Hx. apply Hl in Hx as [Hx Hi]. destruct (Hall x e Hx) as (Hp & Ha & He & Ho').
    unfold snap_rec. split_and!; cbn; try done. by rewrite Hi.
Qed.

Lemma mine_compact w S L Bf : mine w S L Bf -> kept w (compact os w).
Proof.
  intros M. unfold compact. pose proof (mi_disk _ _ _ _ M) as (a0 & Ha0 & _). rewrite Ha0.
  destruct (mine_flush w S L Bf M) as (M' & A & _). eapply kept_trans; [exact A|]. revert M'.
  generalize (flush_store os w) (L ++ Bf ++ hit_recs (inner w)). clear w M A Ha0. intros w Lf [M1 M2 M3 M4 M5 M6].
  destruct M4 as (a & Ha & Hp & Hok & Hs & Ht & _ & _ & _). destruct (log_snap_ne (inner w)) as (E1 & E2 & E3); [apply M1|].
  destruct (write_snapshot_spec (inner w) (sys w) Hs Ht E3) as (W1 & W2 & W3).
  set (s1 := write_snapshot (inner w) (sys w)) in *. cbn [inner with_sys]. rewrite Ha.
  assert (Hok1 : aof_ok a s1) by (unfold aof_ok, file_size in *; rewrite W2, Hp in *; by rewrite W3).
  pose proof (truncate_spec os a s1 Hok1) as HT. cbn [sys with_sys]. destruct (truncate os a s1) as [a' s2]. rewrite Hp in HT.
  destruct HT as (T1 & T2 & T3 & T4 & T5 & T6 & _). destruct (snap_recs_at (inner w) M2 M1 M3) as [R1 R2].
  split; [exists (snap_recs (inner w)), [], []; split|].
  - done.
  - by eapply index_sane_ext, M2.
  - done.
  - exists a'. split_and!; try done; simpl; rewrite ?T6, ?W2; try done.
    + etrans; [exact (f_equal (default []) (T5 _ (not_eq_sym E1)))|]. etrans; [exact W1|]. apply snap_lines_recs.
    + exact (f_equal (default []) T4).
  - by rewrite !app_nil_r.
  - by rewrite !app_nil_r.
  - split_and!; [done|done|]. intros p H1 H2 H3. simpl. by rewrite T5, W3.
Qed.

(** ** Reading the siblings *)
Definition all_foreign (w : World) (F : bytes -> list LogRec) : Prop :=
  forall m, sibling_name (own_name (inner w)) m -> Forall (foreign c) (F m).

Lemma mine_poll_one w F k m t S L Bf : mine w S L Bf -> following w F k -> all_foreign w F ->
  tl_readers (tail (inner w)) !! m = Some t -> mine (poll_one os w (m, t)) S L Bf.
Proof.
  intros [M1 M2 M3 M4 M5 M6] HF Hfor Hm. destruct (fo_readers _ _ _ HF m t Hm) as (Hs & Hp & Hk).
  destruct (fo_logs _ _ _ HF m Hs) as [torn Hh]. rewrite <- Hp in Hh. pose proof (Hfor m Hs) as Hfm.
  pose proof (fo_wf _ _ _ HF) as Hwf.
  destruct (poll_one_log os Hr w m t (F m) torn (k m) Hwf Hh Hk) as (P1 & P2 & P3 & P4 & P5 & _).
  assert (Hrow : table (inner (poll_one os w (m, t))) !! c = table (inner w) !! c).
  { rewrite P2. apply fold_silent. by apply Forall_drop, foreign_silent. }
  split; [by eapply cfg_ok_ext| | |by eapply disk_ext|done|by rewrite Hrow].
  - unfold poll_one. cbn [fst snd]. pose proof (read_rest os Hr t (sys w) (F m) torn (k m) Hh Hk) as HR.
    destruct (read_new os t (sys w)) as [[ls t'] s']. subst ls. cbn [inner with_sys with_inner]. apply index_sane_feed; [by eapply index_sane_ext, M2|]. by eapply Forall_drop, foreign_recs.
  - intros r. rewrite Hrow. destruct P3 as (-> & _). apply M3.
Qed.

(** ** The invariant, of an instance configured like [i0] *)
Context (i0 : Inner).

Record shared (w : World) (F : bytes -> list LogRec) : Prop := {
  sh_config : same_config (inner w) i0;
  sh_mine : exists S L Bf, mine w S L Bf;
  sh_follow : exists k, following w F k;
  sh_foreign : all_foreign w F
}.

Lemma all_foreign_config w w' F : same_config (inner w') (inner w) -> all_foreign w F -> all_foreign w' F.
Proof. intros (_ & _ & _ & E & _). unfold all_foreign. by rewrite E. Qed.

Lemma shared_kept w w' F : kept w w' -> shared w F -> shared w' F.
Proof.
  intros [(S & L & Bf & M) A] [H0 _ [k H2] H3]. split; [etrans; [apply A|done]|by exists S, L, Bf| |by eapply all_foreign_config, H3; apply A].
  exists k. eapply following_apart; [apply M|exact A|exact H2].
Qed.

Lemma shared_clock w s F : fs s = fs (sys w) -> shared w F -> shared (with_sys s w) F.
Proof.
  intros Hs H. eapply shared_kept, H. destruct H as [_ (S & L & Bf & M) _ _].
  split; [exists S, L, Bf; by apply (mine_ext w)|by apply apart_index].
Qed.

Lemma shared_last_poll now w F : shared w F -> shared (with_inner (set_last_poll now) w) F.
Proof.
  intros H. eapply shared_kept, H. destruct H as [_ (S & L & Bf & M) _ _].
  split; [exists S, L, Bf; by apply (mine_ext w)|by apply apart_index].
Qed.

Lemma shared_poll_one w F m t : shared w F -> tl_readers (tail (inner w)) !! m = Some t -> shared (poll_one os w (m, t)) F.
Proof.
  intros [H0 (S & L & Bf & M) [k H2] H3] Hm. destruct (following_poll os Hr w F k m t H2 Hm) as (G1 & G2 & _).
  split; [by etrans|exists S, L, Bf; by eapply mine_poll_one|by eexists|by eapply all_foreign_config].
Qed.

Lemma shared_polls F l : forall w, NoDup l.*1 -> (forall m t, (m, t) ∈ l -> tl_readers (tail (inner w)) !! m = Some t) ->
  shared w F -> shared (fold_left (poll_one os) l w) F.
Proof.
  induction l as [|[m t] l IH]; intros w Hnd Hl H; [done|]. apply NoDup_cons in Hnd as [Hni Hnd].
  pose proof (Hl m t (list_elem_of_here _ _)) as Hm. destruct (sh_follow _ _ H) as [k Hk].
  destruct (following_poll os Hr w F k m t Hk Hm) as (_ & _ & _ & _ & (t' & G5) & _).
  apply IH; [done| |by apply shared_poll_one]. intros j tj Hj. rewrite G5, lookup_insert_ne; [apply Hl; by apply list_elem_of_further|].
  intros <-. apply Hni. by apply (list_elem_of_fmap_2 fst l (m, tj)).
Qed.

Lemma shared_new F l w : (forall m, m ∈ l -> sibling_name (own_name (inner w)) m) -> shared w F ->
  shared (with_inner (fun i => fold_left new_reader l i) w) F.
Proof.
  intros Hl [H0 (S & L & Bf & M) [k H2] H3]. destruct (following_new l w F k Hl H2) as (G1 & G2 & G3 & _).
  split; [by etrans| |by exists k|by eapply all_foreign_config]. exists S, L, Bf. apply (mine_ext w); try done.
  cbn. apply (fold_left_preserves (fun i => shards i = shards (inner w))); [|done].
  intros i f Hi. unfold new_reader. by case_match.
Qed.

Lemma shared_poll_locked w F : shared w F -> shared (poll_locked os w) F.
Proof.
  intros H. unfold poll_locked. cbn [now_ms]. apply shared_clock; [done|]. apply shared_last_poll, shared_polls.
  - apply umap_iter_nodup.
  - intros m t. by apply umap_iter_elem.
  - apply shared_new, H. intros m Hm. by apply shard_files_elem in Hm as [? _].
Qed.

(** Reading a log for the first time registers its reader. *)
Lemma poll_one_new w m t : tl_readers (tail (inner w)) !! m = None -> t = TailReader0 (path_join (dir (inner w)) m) ->
  poll_one os w (m, t) = poll_one os (with_inner (fun i => fold_left new_reader [m] i) w) (m, t).
Proof.
  intros Hm ->. assert (E : fold_left new_reader [m] (inner w) = set_reader m (TailReader0 (path_join (dir (inner w)) m)) (inner w)).
  { cbn [fold_left]. unfold new_reader. by rewrite Hm. }
  unfold poll_one. cbn [fst snd with_inner sys]. destruct (read_new os _ (sys w)) as [[ls t'] s'].
  unfold with_sys, with_inner. cbn [inner sys rng links_total]. rewrite E. do 2 f_equal.
  unfold set_reader. cbn. by rewrite insert_insert_eq.
Qed.

Lemma log_name_sibling i j : i ≠ j -> sibling_name (log_name i) (log_name j).
Proof.
  intros H. split; [by apply shard_name_log|]. unfold log_name. rewrite !not_elem_of_app. split_and!; try (apply (bool_decide_unpack (_ ∉ _)); vm_compute; exact I).
  intros Hin. pose proof (to_string_chars j) as Hc. rewrite Forall_forall in Hc. by specialize (Hc _ Hin).
Qed.

Lemma shared_tail_missed x w F : shared w F -> shared (tail_missed os x w) F.
Proof.
  intros H. unfold tail_missed. destruct x as [|c0 x]; [done|]. destruct (aof (inner w)); [|done].
  destruct ((0 <=? _) && _) eqn:E; cbn [now_ms].
  - apply andb_true_iff in E as [_ E]. apply negb_true_iff, Z.eqb_neq in E. apply shared_clock; [done|]. apply shared_last_poll.
    set (m := log_name _). destruct (tl_readers (tail (inner w)) !! m) as [t|] eqn:Em; [by apply shared_poll_one|].
    cbn [default from_option id]. rewrite poll_one_new by done. destruct (sh_mine _ _ H) as (S & L & Bf & M).
    destruct (mi_cfg _ _ _ _ M) as (Hown & _). apply shared_poll_one; [apply shared_new; [|done]|].
    + intros m' Hm'. apply list_elem_of_singleton in Hm' as ->. rewrite Hown. apply log_name_sibling. congruence.
    + cbn [with_inner inner fold_left]. unfold new_reader. rewrite Em. cbn. by rewrite lookup_insert_eq.
  - case_match; [apply shared_poll_locked|]; by apply shared_clock.
Qed.

Lemma mine_count_hit x e w S L Bf : mine w S L Bf -> find (inner w) x = Some e -> kept w (count_hit env x e w).
Proof.
  intros M Hf. unfold count_hit. destruct (track_hits env); [|split; [by exists S, L, Bf|apply apart_refl]].
  pose proof (mi_index _ _ _ _ M) as Hx. destruct (index_sane_find _ _ _ Hx Hf) as [Hc (Ha & He & Ho)].
  set (i1 := data_insert x (add_hits e 1 true) (inner w)).
  assert (Ht : table (dirty_bump x i1) = table (inner w)).
  { unfold table. rewrite data_dirty_bump by (unfold i1; apply data_insert_wf, Hx). fold (table i1). unfold i1. by eapply table_insert_same; [apply Hx|..]. }
  destruct M as [M1 M2 M3 M4 M5 M6]. split; [exists S, L, Bf|by apply apart_index]. split; try done.
  - apply index_sane_bump; [|done]. apply index_sane_insert; [done|done|]. split_and!; try done. apply i64_range.
  - intros r. cbn [inner with_inner]. fold i1. rewrite Ht. apply M3.
  - cbn [inner with_inner]. fold i1. by rewrite Ht.
Qed.

Lemma shared_resolve x w F : shared w F -> shared (snd (resolve os env x w)) F.
Proof.
  intros H. unfold resolve.
  assert (Hh : forall w1 e, shared w1 F -> find (inner w1) x = Some e ->
    shared (snd (let '(ok, s) := live os (e_e e) (sys w1) in let w := with_sys s w1 in
      if ok then (Some (e_u e), count_hit env x e w) else (None, w))) F).
  { intros w1 e H1 Hf. destruct (live_spec os (e_e e) (sys w1)) as [_ Hs]. destruct (live os (e_e e) (sys w1)) as [ok s]. cbn [snd] in Hs.
    pose proof (shared_clock w1 s F Hs H1) as H2. cbv zeta. destruct ok; [|done]. cbn [snd]. destruct (sh_mine _ _ H2) as (S & L & Bf & M).
    eapply shared_kept, H2. by eapply mine_count_hit. }
  destruct (find (inner w) x) as [e|] eqn:E; [by apply Hh|]. destruct (aof (inner w)); [|done].
  pose proof (shared_tail_missed x w F H) as H1. set (w1 := tail_missed os x w) in *. clearbody w1. cbv zeta.
  destruct (find (inner w1) x) as [e|] eqn:E1; [by apply Hh|done].
Qed.

(** ** Lives: own operations and appends of the siblings *)
Lemma shared_step fuel o w w' F : op_ok o -> shared w F -> step os env fuel o w = Some w' -> shared w' F.
Proof.
  intros Ho H E. pose proof (sh_mine _ _ H) as (S & L & Bf & M). destruct o as [u al ttl|us ttl|x|x u ttl has|x| | | |]; cbn [step] in E.
  - destruct (shorten os fuel u al ttl w) as [r w1|] eqn:Es; [|done]. injection E as <-. eapply shared_kept, H.
    eapply mine_shorten, Es; [exact M|]. by intros x ->.
  - destruct (shorten_many os fuel us ttl w) as [r w1|] eqn:Es; [|done]. injection E as <-. eapply shared_kept, H. by eapply mine_shorten_many, Es.
  - injection E as <-. by apply shared_resolve.
  - injection E as <-. eapply shared_kept, H. by eapply mine_update.
  - injection E as <-. eapply shared_kept, H. by eapply mine_remove.
  - injection E as <-. eapply shared_kept, H. destruct (mine_flush w S L Bf M) as (M' & A & _). split; [by eexists _, _, _|done].
  - injection E as <-. eapply shared_kept, H. by eapply mine_sync.
  - injection E as <-. unfold poll_tails. case_match; [by apply shared_poll_locked|done].
  - injection E as <-. eapply shared_kept, H. by eapply mine_compact.
Qed.

(** The siblings left the files [f]: ours are as they were, their logs have
    grown by records that do not write [c]. *)
Record others (w : World) (F F' : bytes -> list LogRec) (f : Fs) : Prop := {
  ot_log : files f !! log_path (inner w) = content (sys w) (log_path (inner w));
  ot_snap : files f !! snap_path (inner w) = content (sys w) (snap_path (inner w));
  ot_denied : denied f = denied (fs (sys w));
  ot_grow : forall m, sibling_name (own_name (inner w)) m ->
    let p := path_join (dir (inner w)) m in
    exists X d torn, F' m = F m ++ X /\ Forall (foreign c) X /\
      contents (see_files f (sys w)) p = contents (sys w) p ++ d /\ holds (see_files f (sys w)) p (F' m) torn
}.

Lemma shared_others w F F' f : shared w F -> others w F F' f -> shared (see f w) F'.
Proof.
  intros [H0 (S & L & Bf & M) [k H2] H3] [O1 O2 O3 O4]. split; [done|..].
  - exists S, L, Bf. destruct M as [M1 M2 M3 M4 M5 M6]. split; try done.
    destruct M4 as (a & A1 & A2 & A3 & A4 & A5 & A6 & A7 & A8). exists a. unfold aof_ok, contents, file_size, content in *. cbn. rewrite A2 in *.
    rewrite O1, O2, O3. by split_and!.
  - exists (fun m => Nat.min (k m) (length (F m))). destruct H2 as [G1 G2 G3 G4]. split; [done|..].
    + intros m Hm. destruct (O4 m Hm) as (X & d & torn & _ & _ & _ & Hh). by exists torn.
    + intros m t Hm. destruct (G3 m t Hm) as (Q1 & Q2 & [Q3 Q4]). destruct (O4 m Q1) as (X & d & torn & E1 & _ & E2 & _).
      split_and!; [done|done|]. cbn [see sys with_sys]. split; rewrite Q2 in *; rewrite E2; [by apply tail_at_grow|].
      rewrite take_app_le by apply Q3. rewrite Q4, E1, take_app_le by lia. f_equal.
      destruct (decide (k m <= length (F m))%nat); [by rewrite Nat.min_l|]. rewrite Nat.min_r, firstn_all by lia. by rewrite take_ge by lia.
    + intros m Hm Hn. by rewrite (G4 m Hm Hn).
  - intros m Hm. destruct (O4 m Hm) as (X & d & torn & E1 & E2 & _). rewrite E1. apply Forall_app. split; [by apply H3|done].
Qed.

Inductive life (fuel : nat) (w0 : World) (F0 : bytes -> list LogRec) : World -> (bytes -> list LogRec) -> Prop :=
  | life_start : life fuel w0 F0 w0 F0
  | life_own w F o w' : life fuel w0 F0 w F -> op_ok o -> step os env fuel o w = Some w' -> life fuel w0 F0 w' F
  | life_others w F F' f : life fuel w0 F0 w F -> others w F F' f -> life fuel w0 F0 (see f w) F'.

Lemma life_shared fuel w0 F0 w F : shared w0 F0 -> life fuel w0 F0 w F -> shared w F.
Proof. intros H. induction 1; [done|by eapply shared_step|by eapply shared_others]. Qed.

(** ** The directory between two lives *)
Definition snap_of (m : bytes) : bytes := take (length m - 4) m ++ B ".snap".

Definition snaps_foreign (s : Sys) (d own : bytes) : Prop :=
  forall m, sibling_name own m -> exists G torn, Forall (foreign c) G /\ holds s (path_join d (snap_of m)) G torn.

Record shared_dir (d : bytes) (inst : Z) (s : Sys) (S L : list LogRec) (F : bytes -> list LogRec) : Prop := {
  sd_inst : 0 <= inst < Base62.MAX_INSTANCES;
  sd_dir : d ≠ B ":memory:";
  sd_snap : contents s (path_join d (snap_name inst)) = log_bytes S;
  sd_log : contents s (path_join d (log_name inst)) = log_bytes L;
  sd_recs : Forall rec_ok (S ++ L);
  sd_own : forall r, replay_table (S ++ L) !! c = Some r -> r_i r = inst;
  sd_logs : forall m, sibling_name (log_name inst) m -> Forall (foreign c) (F m) /\ exists torn, holds s (path_join d m) (F m) torn;
  sd_snaps : snaps_foreign s d (log_name inst);
  sd_open : (path_join d (log_name inst) ∉ denied (fs s)) /\ (path_join d (snap_name inst) ∉ denied (fs s)) /\
            (path_join d (snap_name inst) ++ B ".tmp" ∉ denied (fs s))
}.

(** One file of records replayed. *)
Lemma replay_into_recs p w rs torn : index_sane (inner w) -> Forall rec_ok rs -> holds (sys w) p rs torn ->
  let w' := replay_into os p w in
  index_sane (inner w') /\ table (inner w') = fold_left t_rec rs (table (inner w)) /\ same_config (inner w') (inner w) /\
  aof (inner w') = aof (inner w) /\ tl_readers (tail (inner w')) = tl_readers (tail (inner w)) /\ fs (sys w') = fs (sys w).
Proof.
  intros Hx Hrs Hh. unfold replay_into. pose proof (replay_file_spec os p (sys w)) as HR.
  destruct (replay_file os p (sys w)) as [ls s']. destruct HR as (R1 & _ & _ & _ & R2). rewrite R2, (holds_lines _ _ _ _ Hh) by done.
  destruct (feed_frame (map line_of rs) (inner w) (proj1 Hx)) as (_ & F2 & F3 & F4). cbn [inner with_sys with_inner sys].
  split_and!; [by apply index_sane_feed|by rewrite feed_table by (done || apply Hx)|done|done|done|done].
Qed.
End Shared.

Section Opening.
Context {std : StdImpl} (os : Os) (env : Env) (Hw : no_io_error (os_write os)) (Hr : no_io_error (os_read os)) (c : bytes).

Lemma shared_open_sibling i0 w F f : shared c i0 w F -> sibling_name (own_name (inner w)) f ->
  snaps_foreign c (sys w) (dir (inner w)) (own_name (inner w)) ->
  let w' := open_sibling os w f in
  shared c i0 w' F /\ table (inner w') !! c = table (inner w) !! c /\ same_config (inner w') (inner w) /\ fs (sys w') = fs (sys w).
Proof.
  intros H Hf Hsn. destruct (sh_mine _ _ _ _ H) as (S & L & Bf & M). destruct (Hsn f Hf) as (G & torn & HG & Hh).
  destruct (replay_into_recs os Hr _ w G torn (mi_index _ _ _ _ _ M) (foreign_recs _ _ HG) Hh) as (P1 & P2 & P3 & P4 & P5 & P6).
  unfold open_sibling. fold (snap_of f). set (w1 := replay_into os _ w) in *. clearbody w1.
  assert (Hrow : table (inner w1) !! c = table (inner w) !! c) by (rewrite P2; by apply fold_silent, foreign_silent).
  assert (H1 : shared c i0 w1 F).
  { eapply shared_kept, H. split; [exists S, L, Bf|by apply apart_index]. destruct M as [M1 M2 M3 M4 M5 M6].
    split; [by eapply cfg_ok_ext|done| |by eapply disk_ext|done|by rewrite Hrow]. intros r. rewrite Hrow. destruct P3 as (-> & _). apply M3. }
  assert (Hown : sibling_name (own_name (inner w1)) f) by by destruct P3 as (_ & _ & _ & -> & _).
  split; [apply (shared_new c i0 F [f] w1); [by intros m Hm; apply list_elem_of_singleton in Hm as ->|done]|].
  cbn [with_inner inner sys]. unfold new_reader. by case_match.
Qed.

Lemma shared_open_siblings i0 F l : forall w, shared c i0 w F -> (forall f, f ∈ l -> sibling_name (own_name (inner w)) f) ->
  snaps_foreign c (sys w) (dir (inner w)) (own_name (inner w)) ->
  let w' := fold_left (open_sibling os) l w in
  shared c i0 w' F /\ table (inner w') !! c = table (inner w) !! c /\ same_config (inner w') (inner w).
Proof.
  induction l as [|f l IH]; intros w H Hl Hsn; [by split_and!|]. cbn [fold_left].
  destruct (shared_open_sibling i0 w F f H (Hl f (list_elem_of_here _ _)) Hsn) as (O1 & O2 & O3 & O4).
  set (w1 := open_sibling os w f) in *. clearbody w1. pose proof O3 as (_ & _ & C3 & C4 & _).
  destruct (IH w1 O1) as (I1 & I2 & I3).
  - intros g Hg. rewrite C4. apply Hl. by right.
  - rewrite C3, C4. intros m Hm. destruct (Hsn m Hm) as (G & torn & HG & [? ? ?]). exists G, torn. split; [done|].
    split; [|done|done]. unfold contents, content in *. by rewrite O4.
  - split_and!; [done|by etrans|by etrans].
Qed.

Lemma shared_index i j w F : same_config i j -> shared c j w F -> shared c i w F.
Proof. intros Hc [H0 H1 H2 H3]. split; [|done..]. etrans; [exact H0|]. by symmetry. Qed.

Lemma open_shared d inst s seed links S L F : shared_dir c d inst s S L F ->
  exists w, open_store os d inst s seed links = inl w /\ shared c (inner w) w F /\ table (inner w) !! c = replay_table (S ++ L) !! c /\
    instance (inner w) = inst /\ dir (inner w) = d.
Proof.
  intros [D1 D2 D3 D4 D5 D6 D7 D8 (O1 & O2 & O3)]. pose proof (open_store_eq os d inst s seed links D2 D1 O1) as HE.
  unfold open_write in HE. rewrite bool_decide_eq_false_2 in HE by done.
  set (p := path_join d (log_name inst)) in *. set (a := mkAof [] (Some (mkFd true 0)) p) in *.
  set (s1 := set_files _ s) in *. eexists; split; [exact HE|]. clear HE.
  assert (Hc1 : forall q, contents s1 q = contents s q).
  { intros q. unfold contents, s1. autorewrite with shrt. unfold content.
    destruct (decide (p = q)) as [<-|]; [by rewrite lookup_insert_eq|by rewrite lookup_insert_ne]. }
  assert (Hh1 : forall q R torn, holds s q R torn -> holds s1 q R torn) by (intros q R torn [? ? ?]; split; [by rewrite Hc1|done|done]).
  set (w0 := opened d inst a s1 seed links). apply Forall_app in D5 as [DS DL].
  assert (X0 : index_sane (inner w0)).
  { split_and!; [by apply fresh_wf| |].
    - intros k sh x dd Hk Hy. apply lookup_replicate in Hk as [-> _]. simpl in Hy. by rewrite lookup_empty in Hy.
    - intros x e. by rewrite data_fresh, lookup_empty. }
  unfold boot. destruct (replay_into_recs os Hr (path_join (dir (inner w0)) (snap_name (instance (inner w0)))) w0 S [] X0 DS)
    as (P1 & P2 & P3 & P4 & P5 & P6); [apply Hh1; split; [by rewrite app_nil_r|apply not_elem_of_nil|done]|].
  set (w1 := replay_into os _ w0) in *. clearbody w1. pose proof P3 as (E1 & E2 & E3 & E4 & E5).
  destruct (replay_into_recs os Hr (path_join (dir (inner w1)) (own_name (inner w1))) w1 L [] P1 DL) as (Q1 & Q2 & Q3 & Q4 & Q5 & Q6).
  { rewrite E3, E4. split; [|apply not_elem_of_nil|done]. unfold contents, content. rewrite P6.
    change (contents s1 p = log_bytes L ++ []). by rewrite Hc1, app_nil_r. }
  set (w2 := replay_into os _ w1) in *. clearbody w2. assert (C3 : same_config (inner w2) (inner w0)) by by etrans.
  pose proof C3 as (G1 & G2 & G3 & G4 & G5). destruct (config_paths _ _ C3) as (Y1 & Y2 & Y3).
  assert (Hfs : fs (sys w2) = fs s1) by by rewrite Q6, P6.
  assert (Hc2 : forall q, contents (sys w2) q = contents s q) by (intros q; rewrite <- Hc1; unfold contents, content; by rewrite Hfs).
  assert (Ht : table (inner w2) = replay_table (S ++ L)).
  { rewrite Q2, P2, replay_table_app. unfold replay_table. unfold table. by rewrite data_fresh, fmap_empty. }
  assert (H2 : shared c (inner w2) w2 F).
  { split; [done| | |].
    - exists S, L, []. split; rewrite ?app_nil_r; [by eapply cfg_ok_ext|done| | |by apply Forall_app|by rewrite Ht].
      + intros r. rewrite Ht, G1. apply D6.
      + exists a. rewrite Q4, P4, Y1, Y2, Y3, Hfs. split; [done|]. split; [done|]. split.
        { unfold aof_ok. simpl. unfold content. rewrite Hfs. simpl. by rewrite lookup_insert_eq. }
        split; [done|]. split; [done|]. rewrite !Hc2. split; [done|]. split; done.
    - exists (fun _ => 0%nat). split; [apply Q1| | |done].
      + intros m Hm. rewrite G3. rewrite G4 in Hm. destruct (D7 m Hm) as [_ [tn [? ? ?]]]. exists tn. split; [by rewrite Hc2|done|done].
      + intros m t. rewrite Q5, P5. simpl. by rewrite lookup_empty.
    - intros m Hm. rewrite G4 in Hm. by apply D7. }
  destruct (shared_open_siblings (inner w2) F (shard_files (sys w2) (dir (inner w2)) (own_name (inner w2))) w2 H2) as (Z1 & Z2 & Z3).
  - intros f Hf. by apply shard_files_elem in Hf as [? _].
  - rewrite G3, G4. intros m Hm. destruct (D8 m Hm) as (G & torn & HG & [? ? ?]). exists G, torn. split; [done|]. split; [by rewrite Hc2|done|done].
  - split; [by eapply shared_index|]. rewrite Z2, Ht. destruct Z3 as (-> & _ & -> & _). by rewrite G1, G3.
Qed.
End Opening.

(** The snapshots of the siblings are not ours. *)
Lemma ends_with_split suf m : ends_with suf m = true -> exists x, m = x ++ suf.
Proof.
  unfold ends_with. intros H. apply starts_with_spec in H as [r H]. exists (rev r).
  by rewrite <- (rev_involutive m), H, rev_app_distr, rev_involutive.
Qed.

Lemma snap_of_ne i m : own_name i = log_name (instance i) -> sibling_name (own_name i) m ->
  path_join (dir i) (snap_of m) ≠ log_path i /\ path_join (dir i) (snap_of m) ≠ snap_path i /\ path_join (dir i) (snap_of m) ≠ tmp_path i.
Proof.
  intros Ho [Hm _]. apply shard_name_ends in Hm as [He Hne]. apply ends_with_split in He as [x ->].
  assert (Hs : snap_of (x ++ B ".log") = x ++ B ".snap").
  { unfold snap_of. rewrite length_app. change (length (B ".log")) with 4%nat. replace (length x + 4 - 4)%nat with (length x) by lia.
    by rewrite take_app_length. }
  rewrite Hs. split_and!.
  - unfold log_path. rewrite Ho. intros H. apply path_join_inj in H. unfold log_name in H.
    apply (f_equal (fun l => head (rev l))) in H. rewrite !rev_app_distr in H. done.
  - unfold snap_path, snap_name. intros H. apply path_join_inj in H. rewrite app_assoc in H. apply app_inv_tail in H. subst x.
    apply Hne. rewrite Ho. unfold log_name. by rewrite app_assoc.
  - unfold tmp_path, snap_path, path_join. rewrite <- !app_assoc. intros H. apply app_inv_head, app_inv_head in H.
    apply (f_equal (fun l => rev l !! 1%nat)) in H. rewrite !rev_app_distr in H. done.
Qed.

Lemma snaps_foreign_apart c w w' : own_name (inner w) = log_name (instance (inner w)) -> apart w w' ->
  snaps_foreign c (sys w) (dir (inner w)) (own_name (inner w)) -> snaps_foreign c (sys w') (dir (inner w')) (own_name (inner w')).
Proof.
  intros Ho ((_ & _ & -> & -> & _) & _ & A) H m Hm. destruct (H m Hm) as (G & torn & HG & [? ? ?]). exists G, torn. split; [done|].
  destruct (snap_of_ne (inner w) m Ho Hm) as (N1 & N2 & N3). split; [|done|done]. unfold contents in *. by rewrite A.
Qed.

Lemma rest_dir c i0 w S L F : mine c w S L [] -> shared c i0 w F ->
  snaps_foreign c (sys w) (dir (inner w)) (own_name (inner w)) -> shared_dir c (dir (inner w)) (instance (inner w)) (sys w) S L F.
Proof.
  intros [(M1 & M1' & M1'' & M1''') M2 M3 M4 M5 M6] [_ _ [k H2] H3] Hsn. rewrite app_nil_r in M5, M6.
  destruct M4 as (a & A1 & A2 & A3 & A4 & A5 & A6 & A7 & A8). split; rewrite <- ?M1; try done.
  - intros r. rewrite <- M6. apply M3.
  - intros m Hm. split; [by apply H3|]. by apply (fo_logs _ _ _ H2).
  - split; [|done]. change (log_path (inner w) ∉ denied (fs (sys w))). rewrite <- A2. unfold aof_ok in A3. destruct (a_fd a); naive_solver.
Qed.

(** ** The claim *)

(** C7 Links survive a restart in a shared directory. Instance [inst] opens
    a directory in which its siblings have logs and snapshots, and lives
    through any interleaving of its own operations with appends of the
    siblings to their logs, which it reads on a miss and on a poll; then it
    flushes and opens again. A code [c] that no sibling writes has after
    the restart exactly the row (url, creation, expiry, owner) it had
    before, or is missing if it was. *)
Theorem shared_session_survives {std : StdImpl} os env fuel c d inst s seed links seed' links' S L F w0 w1 F1 :
  no_io_error (os_write os) -> no_io_error (os_read os) -> shared_dir c d inst s S L F ->
  open_store os d inst s seed links = inl w0 -> life os env c fuel w0 F w1 F1 ->
  snaps_foreign c (sys w1) d (log_name inst) ->
  exists w2, open_store os d inst (sys (flush_store os w1)) seed' links' = inl w2 /\
    row_of <$> find (inner w2) c = row_of <$> find (inner w1) c.
Proof.
  intros Hw Hr Hd Ho Hlife Hsn. destruct (open_shared os Hr c d inst s seed links S L F Hd) as (w & Ho' & Hs & _ & Hi & Hdir).
  rewrite Ho in Ho'. injection Ho' as <-. pose proof (life_shared os env Hw Hr c _ fuel _ _ _ _ Hs Hlife) as H1.
  destruct (sh_mine _ _ _ _ H1) as (S1 & L1 & B1 & M). pose proof (sh_config _ _ _ _ H1) as (C1 & _ & C3 & _ & _).
  destruct (mine_flush os Hw c w1 S1 L1 B1 M) as (M' & A & Hdata). destruct (mi_cfg _ _ _ _ _ M) as (Hown & _).
  assert (K : kept c w1 (flush_store os w1)) by (split; [by eexists _, _, _|done]). pose proof (shared_kept c _ _ _ _ K H1) as H2.
  assert (Hsn1 : snaps_foreign c (sys w1) (dir (inner w1)) (own_name (inner w1))) by by rewrite Hown, C1, C3, Hi, Hdir.
  pose proof (rest_dir c _ _ _ _ _ M' H2 (snaps_foreign_apart c w1 _ Hown A Hsn1)) as Hd2.
  destruct A as ((A1 & _ & A3 & _) & _). rewrite A1, A3, C1, C3, Hi, Hdir in Hd2.
  destruct (open_shared os Hr c d inst _ seed' links' _ _ _ Hd2) as (w2 & H3 & H4 & H5 & _). exists w2. split; [done|].
  pose proof (sh_mine _ _ _ _ H4) as (S2 & L2 & B2 & M2). rewrite <- !data_find, <- !lookup_fmap by (apply M2 || apply M).
  change (table (inner w2) !! c = table (inner w1) !! c). rewrite H5. pose proof (mi_table _ _ _ _ _ M') as E. rewrite app_nil_r in E.
  rewrite <- E. unfold table. by rewrite Hdata.
Qed.

(** ** A shared directory to instantiate the claim at *)

(** One sibling appends to its log. *)
Lemma others_append c w F k m0 X : following w F k -> own_name (inner w) = log_name (instance (inner w)) ->
  sibling_name (own_name (inner w)) m0 -> Forall (foreign c) X ->
  contents (sys w) (path_join (dir (inner w)) m0) = log_bytes (F m0) ->
  others c w F (fun m => if decide (m = m0) then F m0 ++ X else F m)
    (fs (set_files (<[path_join (dir (inner w)) m0 := log_bytes (F m0 ++ X)]>) (sys w))).
Proof.
  intros HF Ho Hm0 HX Hc. destruct (shard_path_ne _ m0 (inner w) eq_refl (proj1 Hm0)) as (P1 & P2 & _).
  split; [by apply lookup_insert_ne|by apply lookup_insert_ne|done|]. intros m Hm. cbv zeta. destruct (fo_logs _ _ _ HF m Hm) as [torn [H1 H2 H3]].
  destruct (decide (m = m0)) as [->|Hne].
  - exists X, (log_bytes X), []. split; [done|]. split; [done|].
    assert (E : contents (see_files (fs (set_files (<[path_join (dir (inner w)) m0 := log_bytes (F m0 ++ X)]>) (sys w))) (sys w)) (path_join (dir (inner w)) m0)
      = log_bytes (F m0 ++ X)) by (unfold contents, content; cbn; by rewrite lookup_insert_eq).
    rewrite E, Hc. split; [apply log_bytes_app|]. split; [by rewrite E, app_nil_r|apply not_elem_of_nil|].
    apply Forall_app. split; [done|by eapply foreign_recs].
  - exists [], [], torn. split; [by rewrite app_nil_r|]. split; [done|].
    assert (E : contents (see_files (fs (set_files (<[path_join (dir (inner w)) m0 := log_bytes (F m0 ++ X)]>) (sys w))) (sys w)) (path_join (dir (inner w)) m)
      = contents (sys w) (path_join (dir (inner w)) m)).
    { unfold contents, content; cbn. rewrite lookup_insert_ne; [done|]. intros E. by apply path_join_inj in E. }
    rewrite E. split; [by rewrite app_nil_r|]. split; [by rewrite E|done|done].
Qed.

(** Only logs in the directory. *)
Lemma no_snaps c s d own : map_Forall (fun p _ => ends_with (B ".log") p = true) (files (fs s)) -> snaps_foreign c s d own.
Proof.
  intros H m _. exists [], []. split; [constructor|]. split; [|apply not_elem_of_nil|constructor]. unfold contents, content.
  destruct (files (fs s) !! path_join d (snap_of m)) as [x|] eqn:E; [|done]. apply H in E.
  unfold path_join, snap_of, ends_with in E. by rewrite !app_assoc, rev_app_distr in E.
Qed.

(** Instance 5 has one link; instance 0 starts beside it. *)
Definition sib_rec (code : bytes) : LogRec := Row code (B "https://b.example/") 7 0 5 0.
Definition sib_path : bytes := B "data/data-5.log".
Definition sib_dir : Sys := mkSys (mkFs {[sib_path := log_bytes [sib_rec (B "their")]]} ∅) 0 0 0.
Definition sib_logs (m : bytes) : list LogRec := if decide (m = log_name 5) then [sib_rec (B "their")] else [].

Lemma sib_foreign x : x = B "their" \/ x = B "more" -> Forall (foreign (B "mine")) [sib_rec x].
Proof.
  intros Hx. constructor; [|constructor]. split; [|right; by destruct Hx as [-> | ->]].
  assert (plain_code x) by (destruct Hx as [-> | ->]; (split; [done|split; [repeat constructor|apply (bool_decide_unpack (_ ∉ _)); vm_compute; exact I]])).
  by split_and!.
Qed.

Lemma sib_content p : content sib_dir p = if decide (p = sib_path) then Some (log_bytes [sib_rec (B "their")]) else None.
Proof. unfold content, sib_dir. cbn [fs files]. case_decide as Hp; [subst; by rewrite lookup_singleton_eq|by rewrite lookup_singleton_ne]. Qed.

Lemma sib_shared_dir : shared_dir (B "mine") (B "data") 0 sib_dir [] [] sib_logs.
Proof.
  assert (Hn : forall p, p ≠ sib_path -> contents sib_dir p = []) by (intros p Hp; unfold contents; rewrite sib_content; by rewrite decide_False).
  assert (Hl : sib_path = path_join (B "data") (log_name 5)) by reflexivity.
  split; [unfold Base62.MAX_INSTANCES; lia|done|by apply Hn|by apply Hn|constructor|..].
  - intros r. vm_compute. done.
  - intros m _. unfold sib_logs. destruct (decide (m = log_name 5)) as [->|Hm].
    + split; [apply sib_foreign; by left|]. exists []. split; [|apply not_elem_of_nil|eapply foreign_recs, sib_foreign; by left].
      rewrite app_nil_r. unfold contents. rewrite sib_content. by rewrite decide_True by by rewrite Hl.
    + split; [constructor|]. exists []. split; [|apply not_elem_of_nil|constructor]. rewrite Hn; [done|]. rewrite Hl. intros E. by apply path_join_inj in E.
  - apply no_snaps. cbn [sib_dir fs files]. apply map_Forall_singleton. vm_compute. reflexivity.
  - split_and!; apply not_elem_of_empty.
Qed.

Definition sw0 : World := match open_store (std := RefStd) RefOs (B "data") 0 sib_dir 1 0 with inl w => w | inr _ => no_world end.
Definition sib_step (o : StoreOp) (w : World) : World := default no_world (step (std := RefStd) RefOs Env0 1 o w).
Definition sw1 : World := sib_step (DoShorten (B "https://a.example/") (Some (B "mine")) 0) sw0.
Definition sib_logs2 (m : bytes) : list LogRec := if decide (m = log_name 5) then sib_logs (log_name 5) ++ [sib_rec (B "more")] else sib_logs m.
Definition sib_files : Fs := fs (set_files (<[path_join (dir (inner sw1)) (log_name 5) := log_bytes (sib_logs (log_name 5) ++ [sib_rec (B "more")])]>) (sys sw1)).
Definition sw2 : World := see sib_files sw1.
Definition sw3 : World := sib_step DoPoll sw2.
Definition sw4 : World := sib_step (DoResolve (B "more")) sw3.

Lemma sw0_eq : open_store (std := RefStd) RefOs (B "data") 0 sib_dir 1 0 = inl sw0. Proof. vm_compute. reflexivity. Qed.
Lemma sw1_eq : step (std := RefStd) RefOs Env0 1 (DoShorten (B "https://a.example/") (Some (B "mine")) 0) sw0 = Some sw1.
Proof. vm_compute. reflexivity. Qed.
Lemma sw3_eq : step (std := RefStd) RefOs Env0 1 DoPoll sw2 = Some sw3. Proof. vm_compute. reflexivity. Qed.
Lemma sw4_eq : step (std := RefStd) RefOs Env0 1 (DoResolve (B "more")) sw3 = Some sw4. Proof. vm_compute. reflexivity. Qed.

Lemma mine_plain : plain_code (B "mine").
Proof. split; [done|split; [repeat constructor|apply (bool_decide_unpack (_ ∉ _)); vm_compute; exact I]]. Qed.

(** What a life in a shared directory keeps up with. *)
Lemma life_follows {std : StdImpl} os env fuel c d inst s seed links S L F w0 w1 F1 : no_io_error (os_write os) -> no_io_error (os_read os) ->
  shared_dir c d inst s S L F -> open_store os d inst s seed links = inl w0 -> life os env c fuel w0 F w1 F1 -> exists k, following w1 F1 k.
Proof.
  intros Hw Hr Hd Ho Hl. destruct (open_shared os Hr c d inst s seed links S L F Hd) as (w & Ho' & H & _).
  rewrite Ho in Ho'. injection Ho' as <-. exact (sh_follow _ _ _ _ (life_shared os env Hw Hr c _ fuel _ _ _ _ H Hl)).
Qed.

Lemma sib_life1 : life (std := RefStd) RefOs Env0 (B "mine") 1 sw0 sib_logs sw1 sib_logs.
Proof. exact (life_own (std := RefStd) RefOs Env0 (B "mine") 1 sw0 sib_logs sw0 sib_logs
  (DoShorten (B "https://a.example/") (Some (B "mine")) 0) sw1 (life_start _ _ _ _ _ _) mine_plain sw1_eq). Qed.

Lemma sw1_names : own_name (inner sw1) = log_name (instance (inner sw1)) /\ own_name (inner sw1) = log_name 0.
Proof. split; vm_compute; reflexivity. Qed.

Lemma sw1_sibling : contents (sys sw1) (path_join (dir (inner sw1)) (log_name 5)) = log_bytes (sib_logs (log_name 5)).
Proof. vm_compute. reflexivity. Qed.

Lemma sib_others : others (B "mine") sw1 sib_logs sib_logs2 sib_files.
Proof.
  destruct (life_follows (std := RefStd) RefOs Env0 1 (B "mine") (B "data") 0 sib_dir 1 0 [] [] sib_logs sw0 sw1 sib_logs
    RefOs_write RefOs_read sib_shared_dir sw0_eq sib_life1) as [k Hk]. destruct sw1_names as [H1 H2].
  assert (Hs : sibling_name (own_name (inner sw1)) (log_name 5)) by (rewrite H2; apply log_name_sibling; lia).
  pose proof (others_append (B "mine") sw1 sib_logs k (log_name 5) [sib_rec (B "more")] Hk H1 Hs
    (sib_foreign _ (or_intror eq_refl)) sw1_sibling) as H.
  unfold sib_logs2, sib_files. exact H.
Qed.

Lemma sib_life : life (std := RefStd) RefOs Env0 (B "mine") 1 sw0 sib_logs sw4 sib_logs2.
Proof.
  pose proof (life_others (std := RefStd) RefOs Env0 (B "mine") 1 sw0 sib_logs sw1 sib_logs sib_logs2 sib_files sib_life1 sib_others) as L2.
  pose proof (life_own (std := RefStd) RefOs Env0 (B "mine") 1 sw0 sib_logs sw2 sib_logs2 DoPoll sw3 L2 I sw3_eq) as L3.
  exact (life_own (std := RefStd) RefOs Env0 (B "mine") 1 sw0 sib_logs sw3 sib_logs2 (DoResolve (B "more")) sw4 L3 I sw4_eq).
Qed.

Lemma shared_session_survives_witness :
  exists w2, open_store (std := RefStd) RefOs (B "data") 0 (sys (flush_store (std := RefStd) RefOs sw4)) 2 0 = inl w2 /\
    r_u <$> (row_of <$> find (inner w2) (B "mine")) = Some (B "https://a.example/").
Proof.
  assert (Hn : snaps_foreign (B "mine") (sys sw4) (B "data") (log_name 0)).
  { apply no_snaps. apply (bool_decide_unpack (map_Forall (fun p (_ : bytes) => ends_with (B ".log") p = true) (files (fs (sys sw4))))). vm_compute. exact I. }
  destruct (shared_session_survives (std := RefStd) RefOs Env0 1 (B "mine") (B "data") 0 sib_dir 1 0 2 0 [] [] sib_logs sw0 sw4 sib_logs2
    RefOs_write RefOs_read sib_shared_dir sw0_eq sib_life Hn) as (w2 & H1 & H2).
  exists w2. split; [exact H1|]. rewrite H2. vm_compute. reflexivity.
Defined.
