(* ===== verification/Concurrent.v ===== *)
(** * The log store under concurrent requests

    store.cpp serves every request on a thread of its own. An operation is a
    sequence of sections, each under one lock: the mutex of a shard, that of
    a shard's dirty counters, [aof_mu], [tail_mu], or none; around them most
    operations hold the [gate] shared and [compact] holds it alone. Here a
    section is one step of a thread, and a schedule picks the thread of each
    step. The random numbers of a thread are its own ([thread_local]). What
    happens under [tail_mu] is one step.

    A history ([Hist]) records what each step saw or did in the index: the
    specification of the operations is about these acts. *)

From S2P Require Import Prelude CLib Common Codec Aof Store StoreFacts StoreSpec Durability Recovery.

(** ** Where a thread is *)
Inductive Answer :=
| ACode (r : option bytes) | ACodes (cs : list bytes) | AUrl (r : option bytes) | AMut (r : MutResult) | AUnit.

(** The local variables that are still needed, and in the names what comes
    next. [Collect] and what follows it is [flush_locked], for [compact] if
    [all]. *)
Inductive Pc :=
| Start (o : StoreOp)
| Insert (url : bytes) (alias : option bytes) (now exp : Z)
| LogNew (code url : bytes) (now exp : Z)
| CountNew (code : bytes)
| InsertMany (urls : list bytes) (now exp : Z) (codes : list bytes) (lines : bytes)
| LogMany (codes : list bytes) (lines : bytes)
| CountMany (codes : list bytes)
| LookTail (code : bytes)
| LookAgain (code : bytes)
| Bump (code url : bytes)
| LogUpdate (code url : bytes) (a exp : Z)
| LogRemove (code : bytes)
| CountRemove
| Collect (all : bool) (k : nat) (lines : bytes)
| OpenSnap
| Snap (k : nat) (rows : list bytes)
| Truncate
| Finished (a : Answer).

(** ** What a step sees or does in the index *)
Inductive Act :=
| Saw (code : bytes) (r : option LinkRow)
| Made (code : bytes) (r : LinkRow)
| Changed (code : bytes) (old new : LinkRow)
| Erased (code : bytes) (old : LinkRow).

Section Concurrent.
Context {std : StdImpl} (os : Os) (env : Env).

(** A step gives where the thread is next, its random state, the world, and
    the act if the step was one on the index. *)
Record Stepped := mkStep { st_pc : Pc; st_rng : Z; st_world : World; st_act : option Act }.

Definition row_at (w : World) (code : bytes) : option LinkRow := row_of <$> find (inner w) code.

(** ** [Store::shorten] *)
Definition insert_new (code url : bytes) (now exp : Z) (w : World) : World :=
  with_inner (fun i => data_insert code (new_entry i url now exp) i) w.
Definition new_row (w : World) (url : bytes) (now exp : Z) : LinkRow := mkRow url now exp (instance (inner w)).

Definition shorten_start (url : bytes) (alias : option bytes) (ttl : Z) (rng : Z) (w : World) : Stepped :=
  let '(now, s) := now_ms os (sys w) in
  mkStep (Insert url alias now (expiry now ttl)) rng (with_sys s w) None.

(** Under the lock of the shard; a drawn code that is taken is drawn anew. *)
Definition shorten_insert (url : bytes) (alias : option bytes) (now exp : Z) (rng : Z) (w : World) : Stepped :=
  match alias with
  | Some code =>
      match find (inner w) code with
      | Some e => mkStep (Finished (ACode None)) rng w (Some (Saw code (Some (row_of e))))
      | None => mkStep (LogNew code url now exp) rng (insert_new code url now exp w) (Some (Made code (new_row w url now exp)))
      end
  | None =>
      let '(code, rng') := gen_code (inner w) rng in
      match find (inner w) code with
      | Some _ => mkStep (Insert url None now exp) rng' w None
      | None => mkStep (LogNew code url now exp) rng' (insert_new code url now exp w) (Some (Made code (new_row w url now exp)))
      end
  end.

(** Under [aof_mu]. *)
Definition shorten_push (code url : bytes) (now exp : Z) (rng : Z) (w : World) : Stepped :=
  mkStep (CountNew code) rng
    (aof_flush_if_full os (aof_push (row_line code url now exp (instance (inner w)) 0) w)) None.

(** ** [Store::shorten_many] *)
Definition many_start (urls : list bytes) (ttl : Z) (rng : Z) (w : World) : Stepped :=
  let '(now, s) := now_ms os (sys w) in
  mkStep (InsertMany urls now (expiry now ttl) [] []) rng (with_sys s w) None.

Definition many_insert (urls : list bytes) (now exp : Z) (codes : list bytes) (lines : bytes) (rng : Z) (w : World) : Stepped :=
  match urls with
  | [] => mkStep (LogMany codes lines) rng w None
  | u :: us =>
      let '(code, rng') := gen_code (inner w) rng in
      match find (inner w) code with
      | Some _ => mkStep (InsertMany urls now exp codes lines) rng' w None
      | None =>
          let lines :=
            match aof (inner w) with
            | Some _ => row_line_into lines code u now exp (instance (inner w)) 0 ++ [NL]
            | None => lines
            end in
          mkStep (InsertMany us now exp (codes ++ [code]) lines) rng' (insert_new code u now exp w)
            (Some (Made code (new_row w u now exp)))
      end
  end.

Definition many_push (codes : list bytes) (lines : bytes) (rng : Z) (w : World) : Stepped :=
  mkStep (CountMany codes) rng (aof_flush_if_full os (aof_push_raw lines w)) None.

(** ** [Store::resolve] *)

(** A found entry, under the shared lock of the shard: the clock, the
    counters of the entry. *)
Definition resolve_found (code : bytes) (e : Entry) (rng : Z) (w : World) : Stepped :=
  let '(ok, s) := live os (e_e e) (sys w) in
  let w := with_sys s w in
  let act := Some (Saw code (Some (row_of e))) in
  if negb ok then mkStep (Finished (AUrl None)) rng w act
  else if track_hits env
  then mkStep (Bump code (e_u e)) rng (with_inner (data_insert code (add_hits e 1 true)) w) act
  else mkStep (Finished (AUrl (Some (e_u e)))) rng w act.

Definition resolve_look (code : bytes) (rng : Z) (w : World) : Stepped :=
  match find (inner w) code with
  | Some e => resolve_found code e rng w
  | None =>
      mkStep (match aof (inner w) with None => Finished (AUrl None) | Some _ => LookTail code end) rng w (Some (Saw code None))
  end.

Definition resolve_again (code : bytes) (rng : Z) (w : World) : Stepped :=
  match find (inner w) code with
  | Some e => resolve_found code e rng w
  | None => mkStep (Finished (AUrl None)) rng w (Some (Saw code None))
  end.

(** ** [Store::update] *)
Definition update_entry (code url : bytes) (ttl : Z) (has_ttl : bool) (rng : Z) (w : World) : Stepped :=
  match find (inner w) code with
  | None => mkStep (Finished (AMut MMissing)) rng w (Some (Saw code None))
  | Some e =>
      if negb (e_i e =? instance (inner w)) then mkStep (Finished (AMut MRemote)) rng w (Some (Saw code (Some (row_of e))))
      else
        let '(exp, s) :=
          if has_ttl then
            if 0 <? ttl then let '(now, s) := now_ms os (sys w) in (i64 (now + ttl), s)
            else (0, sys w)
          else (e_e e, sys w) in
        let e' := mkEntry url (e_a e) exp (e_i e) (e_h e) (e_oh e) in
        mkStep (LogUpdate code url (e_a e) exp) rng (with_inner (data_insert code e') (with_sys s w))
          (Some (Changed code (row_of e) (row_of e')))
  end.
Definition update_push (code url : bytes) (a exp : Z) (rng : Z) (w : World) : Stepped :=
  mkStep (Finished (AMut MOk)) rng (aof_push (row_line code url a exp (instance (inner w)) 0) w) None.

(** ** [Store::remove] *)
Definition remove_entry (code : bytes) (rng : Z) (w : World) : Stepped :=
  match find (inner w) code with
  | None => mkStep (Finished (AMut MMissing)) rng w (Some (Saw code None))
  | Some e =>
      if negb (e_i e =? instance (inner w)) then mkStep (Finished (AMut MRemote)) rng w (Some (Saw code (Some (row_of e))))
      else mkStep (LogRemove code) rng (with_inner (data_erase code) w) (Some (Erased code (row_of e)))
  end.
Definition remove_push (code : bytes) (rng : Z) (w : World) : Stepped :=
  mkStep CountRemove rng (aof_push (del_line code) w) None.

(** ** [Inner::flush_locked] *)

(** The lines and the emptied counters of shard [k]. *)
Definition shard_hits (k : nat) (inn : Inner) : bytes :=
  fold_left (fun b cd => hit_line_into b (fst cd) (snd cd) (instance inn) ++ [NL])
    (umap_iter (sh_dirty (default Shard0 (shards inn !! k)))) [].
Definition clear_shard (k : nat) (inn : Inner) : Inner :=
  set_shards (alter (fun sh => mkShard (sh_data sh) ∅) k (shards inn)) inn.

Definition flush_log (lines : bytes) (w : World) : World :=
  match aof (inner w) with
  | None => w
  | Some a => let '(a', s') := flush os (push_raw a lines) (sys w) in with_sys s' (with_inner (set_aof (Some a')) w)
  end.

Definition flush_start (all : bool) (rng : Z) (w : World) : Stepped :=
  mkStep (match aof (inner w) with None => Finished AUnit | Some _ => Collect all 0 [] end) rng w None.
Definition flush_collect (all : bool) (k : nat) (lines : bytes) (rng : Z) (w : World) : Stepped :=
  if (k <? NUM_SHARDS)%nat
  then mkStep (Collect all (S k) (lines ++ shard_hits k (inner w))) rng (with_inner (clear_shard k) w) None
  else mkStep (if all then OpenSnap else Finished AUnit) rng (flush_log lines w) None.

(** ** [Store::compact] *)
Definition open_snap (rng : Z) (w : World) : Stepped :=
  match open_write (tmp_path (inner w)) false true (sys w) with
  | (None, s) => mkStep Truncate rng (with_sys s w) None
  | (Some _, s) => mkStep (Snap 0 []) rng (with_sys s w) None
  end.

(** The own rows of shard [k], under its shared lock. *)
Definition shard_rows (k : nat) (inn : Inner) : list bytes :=
  map snap_line (filter (fun ce => e_i (snd ce) = instance inn) (umap_iter (sh_data (default Shard0 (shards inn !! k))))).

Definition snap_shard (k : nat) (rows : list bytes) (rng : Z) (w : World) : Stepped :=
  if (k <? NUM_SHARDS)%nat then mkStep (Snap (S k) (rows ++ shard_rows k (inner w))) rng w None
  else
    mkStep Truncate rng
      (with_sys (rename (tmp_path (inner w)) (snap_path (inner w)) (set_files <[tmp_path (inner w) := frame rows]> (sys w))) w) None.

Definition truncate_log (w : World) : World :=
  match aof (inner w) with
  | None => w
  | Some a => let '(a', s') := truncate os a (sys w) in with_sys s' (with_inner (set_aof (Some a')) w)
  end.

(** ** A step of a thread *)
Definition start (o : StoreOp) (rng : Z) (w : World) : Stepped :=
  match o with
  | DoShorten url alias ttl => shorten_start url alias ttl rng w
  | DoShortenMany urls ttl => many_start urls ttl rng w
  | DoResolve code => resolve_look code rng w
  | DoUpdate code url ttl has_ttl => update_entry code url ttl has_ttl rng w
  | DoRemove code => remove_entry code rng w
  | DoFlush => flush_start false rng w
  | DoCompact => flush_start true rng w
  | DoSync => mkStep (Finished AUnit) rng (sync_store os w) None
  | DoPoll => mkStep (Finished AUnit) rng (poll_tails os w) None
  end.

Definition tstep (pc : Pc) (rng : Z) (w : World) : option Stepped :=
  match pc with
  | Start o => Some (start o rng w)
  | Insert url alias now exp => Some (shorten_insert url alias now exp rng w)
  | LogNew code url now exp => Some (shorten_push code url now exp rng w)
  | CountNew code => Some (mkStep (Finished (ACode (Some code))) rng (links_delta 1 w) None)
  | InsertMany urls now exp codes lines => Some (many_insert urls now exp codes lines rng w)
  | LogMany codes lines => Some (many_push codes lines rng w)
  | CountMany codes => Some (mkStep (Finished (ACodes codes)) rng (links_delta (Z.of_nat (length codes)) w) None)
  | LookTail code => Some (mkStep (LookAgain code) rng (tail_missed os code w) None)
  | LookAgain code => Some (resolve_again code rng w)
  | Bump code url => Some (mkStep (Finished (AUrl (Some url))) rng (with_inner (dirty_bump code) w) None)
  | LogUpdate code url a exp => Some (update_push code url a exp rng w)
  | LogRemove code => Some (remove_push code rng w)
  | CountRemove => Some (mkStep (Finished (AMut MOk)) rng (links_delta (-1) w) None)
  | Collect all k lines => Some (flush_collect all k lines rng w)
  | OpenSnap => Some (open_snap rng w)
  | Snap k rows => Some (snap_shard k rows rng w)
  | Truncate => Some (mkStep (Finished AUnit) rng (truncate_log w) None)
  | Finished _ => None
  end.

(** ** The gate *)
Definition holds_gate (pc : Pc) : bool :=
  match pc with
  | Insert _ _ _ _ | LogNew _ _ _ _ | CountNew _ | InsertMany _ _ _ _ _ | LogMany _ _ | CountMany _
  | LogUpdate _ _ _ _ | LogRemove _ | CountRemove | Collect false _ _ => true
  | _ => false
  end.
Definition holds_all (pc : Pc) : bool :=
  match pc with Collect true _ _ | OpenSnap | Snap _ _ | Truncate => true | _ => false end.
Definition wants_gate (pc : Pc) : bool :=
  match pc with Start (DoShorten _ _ _ | DoShortenMany _ _ | DoUpdate _ _ _ _ | DoRemove _ | DoFlush) => true | _ => false end.
Definition wants_all (pc : Pc) : bool := match pc with Start DoCompact => true | _ => false end.

(** ** Schedules *)
Record Thread := mkThread { th_op : StoreOp; th_pc : Pc; th_rng : Z }.
Record Conf := mkConf { c_world : World; c_threads : gmap nat Thread }.

(** The lock of the gate lets the step through. *)
Definition gate_open (pc : Pc) (c : Conf) : bool :=
  (negb (wants_gate pc) || bool_decide (map_Forall (fun _ th => holds_all (th_pc th) = false) (c_threads c))) &&
  (negb (wants_all pc) || bool_decide (aof (inner (c_world c)) = None) || bool_decide (map_Forall (fun _ th => holds_gate (th_pc th) || holds_all (th_pc th) = false) (c_threads c))).

(** A request arrives on a thread [i] of its own, or [i] makes a step. *)
Inductive Event := Call (i : nat) (o : StoreOp) (rng : Z) | Go (i : nat).

Definition Hist : Type := list (nat * Act).

Definition event (e : Event) (c : Conf) : option (Conf * Hist) :=
  match e with
  | Call i o rng =>
      match c_threads c !! i with
      | Some _ => None
      | None => Some (mkConf (c_world c) (<[i := mkThread o (Start o) rng]> (c_threads c)), [])
      end
  | Go i =>
      match c_threads c !! i with
      | None => None
      | Some th =>
          if negb (gate_open (th_pc th) c) then None
          else
            match tstep (th_pc th) (th_rng th) (c_world c) with
            | None => None
            | Some s =>
                Some (mkConf (st_world s) (<[i := mkThread (th_op th) (st_pc s) (st_rng s)]> (c_threads c)),
                      match st_act s with Some a => [(i, a)] | None => [] end)
            end
      end
  end.

Fixpoint schedule (es : list Event) (c : Conf) : option (Conf * Hist) :=
  match es with
  | [] => Some (c, [])
  | e :: es =>
      match event e c with
      | None => None
      | Some (c1, h1) => match schedule es c1 with Some (c2, h2) => Some (c2, h1 ++ h2) | None => None end
      end
  end.
End Concurrent.
