(* ===== verification/ConcurrentFacts.v ===== *)
(** * What every step of a thread keeps

    The world stays one whose files hold records ([base]); what a thread has
    still to log is a list of records too ([owes]); the index changes by the
    act of the step. Of an instance that is alone in its directory, whose
    writes do not fail. *)

From S2P Require Import Prelude CLib Common Codec Aof Store StoreFacts StoreSpec Durability Recovery Siblings Concurrent.

(** ** Worlds between two steps *)
Section Facts.
Context {std : StdImpl} (os : Os) (env : Env) (Hw : no_io_error (os_write os)).

Lemma base_quiet w w' S L Bf : quiet w w' -> base w S L Bf -> base w' S L Bf.
Proof.
  intros (Q1 & Q2 & Q3 & Q4 & Q5) [D1 D2 D3 D4 D5]. split; auto.
  - by eapply cfg_ok_ext.
  - eapply index_ok_ext; [done| |exact D2]. by destruct Q2.
  - by eapply disk_ext.
  - by destruct Q2 as (-> & _).
Qed.

(** Only the index has changed. *)
Lemma base_index w w' S L Bf : base w S L Bf -> same_config (inner w') (inner w) -> aof (inner w') = aof (inner w) ->
  tl_readers (tail (inner w')) = tl_readers (tail (inner w)) -> fs (sys w') = fs (sys w) -> index_ok (inner w') -> base w' S L Bf.
Proof.
  intros [D1 D2 D3 D4 D5] Hc Ha Ht Hf Hx. split; [by eapply cfg_ok_ext|done|by eapply disk_ext|by eapply alone_ext|].
  by destruct Hc as (-> & _).
Qed.

Lemma base_ext w w' S L Bf : inner w' = inner w -> fs (sys w') = fs (sys w) -> base w S L Bf -> base w' S L Bf.
Proof. intros Hi Hf D. apply (base_index w); rewrite ?Hi; try done. apply D. Qed.

Lemma base_push rs w S L Bf : base w S L Bf -> Forall (own_rec (instance (inner w))) rs ->
  base (aof_push_raw (log_bytes rs) w) S L (Bf ++ rs).
Proof.
  intros [D1 D2 D3 D4 D5] Hrs. pose proof (disk_push_raw rs w S L Bf D3) as Hd. destruct D3 as (a & Ha & _).
  revert Hd. unfold aof_push_raw. rewrite Ha. intros Hd. split; [done|by eapply index_ok_ext, D2|done|by apply (alone_ext w)|].
  rewrite !Forall_app in *. tauto.
Qed.

Lemma base_flush w S L Bf a : base w S L Bf -> aof (inner w) = Some a ->
  let '(a', s') := flush os a (sys w) in base (with_sys s' (with_inner (set_aof (Some a')) w)) S (L ++ Bf) [].
Proof.
  intros [D1 D2 D3 D4 D5] Ha. pose proof (disk_flush os Hw w S L Bf a D1 D3 Ha) as HH.
  destruct (flush os a (sys w)) as [a' s']. destruct HH as [HH Hp]. split; [done|by eapply index_ok_ext, D2|done| |by rewrite app_nil_r].
  apply (alone_fs w); [done|done| |done]. intros p ? _ _. by apply Hp.
Qed.

Lemma base_flush_if_full w S L Bf : base w S L Bf -> exists L' Bf', L' ++ Bf' = L ++ Bf /\ base (aof_flush_if_full os w) S L' Bf'.
Proof.
  intros D. unfold aof_flush_if_full. pose proof (ba_disk _ _ _ _ D) as (a & Ha & _). rewrite Ha. case_match; [|by exists L, Bf].
  pose proof (base_flush w S L Bf a D Ha) as HH. destruct (flush os a (sys w)). exists (L ++ Bf), []. by rewrite app_nil_r.
Qed.

Lemma base_flush_log rs w S L Bf : base w S L Bf -> Forall (own_rec (instance (inner w))) rs ->
  base (flush_log os (log_bytes rs) w) S (L ++ Bf ++ rs) [].
Proof.
  intros D Hrs. pose proof (base_push rs w S L Bf D Hrs) as D1. pose proof (ba_disk _ _ _ _ D) as (a & Ha & _).
  unfold flush_log, aof_push_raw in *. rewrite Ha in *. pose proof (base_flush _ _ _ _ _ D1 eq_refl) as HH. cbn [sys with_inner] in HH.
  by destruct (flush os _ (sys w)).
Qed.

Lemma base_sync w S L Bf : base w S L Bf -> base (sync_store os w) S (L ++ Bf) [].
Proof.
  intros D. pose proof (ba_disk _ _ _ _ D) as (a & Ha & _). unfold sync_store, sync. rewrite Ha.
  pose proof (base_flush _ _ _ _ _ D Ha) as HH. by destruct (flush os a (sys w)).
Qed.

(** The files of a compaction. *)
Lemma base_files w s S L Bf Q : base w S L Bf -> Forall (own_rec (instance (inner w))) Q -> denied (fs s) = denied (fs (sys w)) ->
  contents s (snap_path (inner w)) = log_bytes Q ->
  (forall p, p ≠ snap_path (inner w) -> p ≠ tmp_path (inner w) -> content s p = content (sys w) p) -> base (with_sys s w) Q L Bf.
Proof.
  intros [D1 D2 D3 D4 D5] HQ Hd Hs Hf. destruct (log_snap_ne (inner w)) as (E1 & E2 & E3); [apply D1|].
  split; [done|by eapply index_ok_ext, D2| | |].
  - destruct D3 as (a & A1 & A2 & A3 & A4 & A5 & A6 & A7 & A8). exists a.
    unfold aof_ok, file_size, contents in *. cbn [inner sys with_sys]. rewrite Hd, A2 in *. rewrite Hf by done. done.
  - apply (alone_fs w); [done|done| |done]. intros p ? ? ?. by apply Hf.
  - cbn [inner with_sys]. rewrite !Forall_app in *. tauto.
Qed.

Lemma base_truncate w S L Bf : base w S L Bf -> base (truncate_log os w) S [] [].
Proof.
  intros [D1 D2 D3 D4 D5]. unfold truncate_log. destruct D3 as (a & Ha & Hp & Hok & Hs & Ht & HS & _). rewrite Ha.
  destruct (log_snap_ne (inner w)) as (E1 & E2 & E3); [apply D1|].
  pose proof (truncate_spec os a (sys w) Hok) as HT. destruct (truncate os a (sys w)) as [a' s2]. rewrite Hp in HT.
  destruct HT as (T1 & T2 & T3 & T4 & T5 & T6 & _). split; [done|by eapply index_ok_ext, D2| | |].
  - exists a'. split_and!; try done; simpl; rewrite ?T6; try done.
    + etrans; [exact (f_equal (default []) (T5 _ (not_eq_sym E1)))|exact HS].
    + exact (f_equal (default []) T4).
  - apply (alone_fs w); [done|done| |exact D4]. intros p H1 _ _. simpl. by rewrite T5.
  - apply Forall_app in D5 as [D5 _]. by rewrite !app_nil_r.
Qed.

(** ** The table under an act *)
Definition act_table (a : option Act) (t : Table) : Table :=
  match a with
  | Some (Made x r) => <[x := r]> t
  | Some (Changed x _ r) => <[x := r]> t
  | Some (Erased x _) => delete x t
  | Some (Saw _ _) | None => t
  end.

(** What an act says is so. *)
Definition act_true (a : option Act) (t : Table) : Prop :=
  match a with
  | Some (Saw x r) => t !! x = r
  | Some (Made x _) => t !! x = None
  | Some (Changed x r _) | Some (Erased x r) => t !! x = Some r
  | None => True
  end.

(** The record it will leave in the log. *)
Definition act_recs (a : option Act) : list LogRec :=
  match a with
  | Some (Made x r) | Some (Changed x _ r) => [Row x (r_u r) (r_a r) (r_e r) (r_i r) 0]
  | Some (Erased x _) => [Del x]
  | _ => []
  end.

Lemma row_at_table w x : inner_wf (inner w) -> table (inner w) !! x = row_at w x.
Proof. intros H. unfold table, row_at. by rewrite lookup_fmap, data_find. Qed.

(** ** What a thread has still to log

    The records [R] of the lines it holds: of changes it made in the index,
    of hits it took out of the counters, of the rows of a snapshot. *)
Definition owes (i : Inner) (pc : Pc) (R : list LogRec) : Prop :=
  Forall (own_rec (instance i)) R /\
  match pc with
  | Start o => op_ok o /\ R = []
  | Insert _ alias now exp => (forall c, alias = Some c -> plain_code c) /\ in_i64 now /\ in_i64 exp /\ R = []
  | LogNew c u now exp => R = [Row c u now exp (instance i) 0]
  | InsertMany _ now exp codes lines => in_i64 now /\ in_i64 exp /\ lines = log_bytes R /\ map rec_code R = codes
  | LogMany codes lines => lines = log_bytes R /\ map rec_code R = codes
  | Bump c _ => plain_code c /\ R = []
  | LogUpdate c u a exp => R = [Row c u a exp (instance i) 0]
  | LogRemove c => R = [Del c]
  | Collect _ _ lines => lines = log_bytes R /\ Forall is_hit R
  | Snap _ rows => rows = map line_of R
  | _ => R = []
  end.

(** The codes whose changes it has still to log. *)
Definition writes (pc : Pc) : list bytes :=
  match pc with
  | LogNew c _ _ _ | LogUpdate c _ _ _ | LogRemove c => [c]
  | InsertMany _ _ _ cs _ | LogMany cs _ => cs
  | _ => []
  end.

Lemma owes_config i j pc R : instance i = instance j -> owes j pc R -> owes i pc R.
Proof. unfold owes. by intros ->. Qed.

(** The rows of shard [k] as records. *)
Definition shard_recs (k : nat) (inn : Inner) : list LogRec :=
  map snap_rec (filter (fun ce => e_i (snd ce) = instance inn) (umap_iter (sh_data (default Shard0 (shards inn !! k))))).

(** How the records move. *)
Inductive moves (S L Bf R : list LogRec) (pc : Pc) (s : Stepped) (inn : Inner) : list LogRec -> list LogRec -> list LogRec -> list LogRec -> Prop :=
| moves_in L' Bf' H : L' ++ Bf' = L ++ Bf -> Forall is_hit H ->
    writes (st_pc s) = writes pc ++ map rec_code (act_recs (st_act s)) -> (forall k rows, st_pc s = Snap k rows -> k = 0%nat /\ R = []) ->
    st_pc s ≠ Truncate -> moves S L Bf R pc s inn S L' Bf' (R ++ act_recs (st_act s) ++ H)
| moves_out L' Bf' : st_act s = None -> L' ++ Bf' = L ++ Bf ++ R -> (forall k rows, pc ≠ Snap k rows) -> writes (st_pc s) = [] ->
    (forall k rows, st_pc s ≠ Snap k rows) -> st_pc s ≠ Truncate -> moves S L Bf R pc s inn S L' Bf' []
| moves_rows k rows : st_act s = None -> pc = Snap k rows -> (k < NUM_SHARDS)%nat -> st_pc s = Snap (Datatypes.S k) (rows ++ shard_rows k inn) ->
    moves S L Bf R pc s inn S L Bf (R ++ shard_recs k inn)
| moves_snap k rows : st_act s = None -> pc = Snap k rows -> (NUM_SHARDS <= k)%nat -> st_pc s = Truncate -> moves S L Bf R pc s inn R L Bf []
| moves_cut : st_act s = None -> pc = Truncate -> st_pc s = Finished AUnit -> moves S L Bf R pc s inn S [] [] [].

Record steps (w : World) (S L Bf R : list LogRec) (pc : Pc) (s : Stepped) : Prop := {
  sp_config : same_config (inner (st_world s)) (inner w);
  sp_table : table (inner (st_world s)) = act_table (st_act s) (table (inner w));
  sp_true : act_true (st_act s) (table (inner w));
  sp_moves : exists S' L' Bf' R', moves S L Bf R pc s (inner w) S' L' Bf' R' /\ base (st_world s) S' L' Bf' /\
    owes (inner (st_world s)) (st_pc s) R'
}.

(** A step that changes nothing here. *)
Lemma steps_idle w S L Bf R pc s : base w S L Bf -> quiet w (st_world s) -> act_table (st_act s) (table (inner w)) = table (inner w) ->
  act_recs (st_act s) = [] -> act_true (st_act s) (table (inner w)) -> writes (st_pc s) = writes pc -> (forall k rows, st_pc s = Snap k rows -> k = 0%nat /\ R = []) ->
  st_pc s ≠ Truncate -> owes (inner w) (st_pc s) R -> steps w S L Bf R pc s.
Proof.
  intros D Q Ht Hr Ha Hwr Hn Hn' Ho. pose proof Q as (Q1 & Q2 & _). split; [done| |done|].
  - rewrite Ht. unfold table, data. by rewrite Q1.
  - exists S, L, Bf, R. split; [|split; [by eapply base_quiet|eapply owes_config, Ho; by destruct Q2]].
    rewrite <- (app_nil_r R) at 2. pose proof (moves_in S L Bf R pc s (inner w) L Bf [] eq_refl) as HM.
    rewrite Hr, app_nil_r in HM. cbn [map] in HM. rewrite app_nil_r in HM. rewrite app_nil_r. by apply HM.
Qed.

(** A change of the index. *)
Lemma steps_change (f : Inner -> Inner) w S L Bf R pc s s1 act : base w S L Bf ->
  st_world s = with_inner f (with_sys s1 w) -> fs s1 = fs (sys w) -> st_act s = Some act ->
  same_config (f (inner w)) (inner w) -> aof (f (inner w)) = aof (inner w) -> tail (f (inner w)) = tail (inner w) -> index_ok (f (inner w)) ->
  table (f (inner w)) = act_table (Some act) (table (inner w)) -> act_true (Some act) (table (inner w)) ->
  writes (st_pc s) = writes pc ++ map rec_code (act_recs (Some act)) -> (forall k rows, st_pc s ≠ Snap k rows) -> st_pc s ≠ Truncate ->
  owes (inner w) (st_pc s) (R ++ act_recs (Some act)) -> steps w S L Bf R pc s.
Proof.
  intros D Hs1 Hf Ha Hc Haof Ht Hx Htab Htrue Hwr Hn Hn' Ho.
  assert (Hi : inner (st_world s) = f (inner w)) by by rewrite Hs1.
  split; rewrite ?Hi, ?Ha; try done. exists S, L, Bf, (R ++ act_recs (Some act)).
  split; [|split; [|eapply owes_config, Ho; by destruct Hc]].
  - pose proof (moves_in S L Bf R pc s (inner w) L Bf [] eq_refl) as HM. rewrite Ha, app_nil_r in HM. apply HM; try done.
    intros k rows Hk. by destruct (Hn k rows).
  - apply (base_index w); rewrite ?Hi; try done; [by rewrite Ht|]. by rewrite Hs1.
Qed.

Lemma steps_made x u now exp w S L Bf R pc s : base w S L Bf -> plain_code x -> in_i64 now -> in_i64 exp -> find (inner w) x = None ->
  st_world s = insert_new x u now exp w -> st_act s = Some (Made x (new_row w u now exp)) ->
  writes (st_pc s) = writes pc ++ [x] -> (forall k rows, st_pc s ≠ Snap k rows) -> st_pc s ≠ Truncate ->
  owes (inner w) (st_pc s) (R ++ [Row x u now exp (instance (inner w)) 0]) -> steps w S L Bf R pc s.
Proof.
  intros D Hx Hn He Hf Hs Ha Hwr Hn1 Hn2 Ho. pose proof (ba_index _ _ _ _ D) as Hi.
  eapply (steps_change (fun i => data_insert x (new_entry i u now exp) i) w S L Bf R pc s (sys w)); try done.
  - by apply index_ok_insert.
  - cbn [act_table]. by rewrite table_insert by apply Hi.
  - cbn [act_true]. rewrite row_at_table by apply Hi. unfold row_at. by rewrite Hf.
Qed.

Lemma own_row i x u a e n : cfg_ok i -> plain_code x -> in_i64 a -> in_i64 e -> in_i64 n -> own_rec (instance i) (Row x u a e (instance i) n).
Proof. intros Hc Hx Ha He Hn. destruct (instance_i64 _ Hc) as [I1 I2]. by split_and!. Qed.

Lemma drawn_plain i rng x rng' : cfg_ok i -> gen_code i rng = (x, rng') -> plain_code x.
Proof. intros Hc Hg. apply (gen_plain i); [done|]. pose proof (gen_code_shape i rng) as Hs. by rewrite Hg in Hs. Qed.

(** Pushing the records held, and what may follow. *)
Lemma steps_out w S L Bf R pc s L' Bf' : base (st_world s) S L' Bf' -> L' ++ Bf' = L ++ Bf ++ R -> data (inner (st_world s)) = data (inner w) ->
  same_config (inner (st_world s)) (inner w) -> st_act s = None -> (forall k rows, pc ≠ Snap k rows) -> writes (st_pc s) = [] -> (forall k rows, st_pc s ≠ Snap k rows) -> st_pc s ≠ Truncate ->
  owes (inner w) (st_pc s) [] -> steps w S L Bf R pc s.
Proof.
  intros D HL Hd Hc Ha Hpc Hwr Hn Hn' Ho. split; [done| |by rewrite Ha|].
  - rewrite Ha. unfold table. by rewrite Hd.
  - exists S, L', Bf', []. split; [by apply moves_out|]. split; [done|]. eapply owes_config, Ho. by destruct Hc.
Qed.

Lemma same_push_raw b w : same_config (inner (aof_push_raw b w)) (inner w).
Proof. unfold aof_push_raw. by case_match. Qed.
Lemma same_flush_if_full w : same_config (inner (aof_flush_if_full os w)) (inner w).
Proof. unfold aof_flush_if_full. repeat case_match; done. Qed.
Lemma same_flush_log b w : same_config (inner (flush_log os b w)) (inner w) /\ data (inner (flush_log os b w)) = data (inner w).
Proof. unfold flush_log. repeat case_match; done. Qed.

(** A batch of lines, and a flush if there are too many. *)
Lemma steps_push w S L Bf R pc s : base w S L Bf -> Forall (own_rec (instance (inner w))) R ->
  st_world s = aof_flush_if_full os (aof_push_raw (log_bytes R) w) -> st_act s = None -> (forall k rows, pc ≠ Snap k rows) -> writes (st_pc s) = [] ->
  (forall k rows, st_pc s ≠ Snap k rows) -> st_pc s ≠ Truncate -> owes (inner w) (st_pc s) [] -> steps w S L Bf R pc s.
Proof.
  intros D HR Hs Ha Hpc Hwr Hn Hn' Ho. pose proof (base_push R w S L Bf D HR) as D1.
  destruct (base_flush_if_full _ _ _ _ D1) as (L' & Bf' & HL & D2). apply (steps_out w S L Bf R pc s L' Bf'); try done; rewrite Hs; [done|..].
  - by rewrite data_flush_if_full, data_aof_push_raw.
  - etrans; [apply same_flush_if_full|apply same_push_raw].
Qed.
End Facts.
