(* ===== verification/ConcurrentSteps.v ===== *)
(** * Each step of each operation keeps what [ConcurrentFacts] says

    One lemma per step, and [step_steps] for all of them. *)

From S2P Require Import Prelude CLib Common Codec Aof Store StoreFacts StoreSpec Durability Recovery Siblings Concurrent ConcurrentFacts.

Section Steps.
Context {std : StdImpl} (os : Os) (env : Env) (Hw : no_io_error (os_write os)).

Lemma quiet_links n w : quiet w (links_delta n w).
Proof. by split_and!. Qed.

(** ** [shorten] and [shorten_many] *)
Lemma steps_shorten_start url alias ttl g w S L Bf R : base w S L Bf -> owes (inner w) (Start (DoShorten url alias ttl)) R ->
  steps w S L Bf R (Start (DoShorten url alias ttl)) (shorten_start os url alias ttl g w).
Proof.
  intros D Ho. unfold shorten_start, now_ms. apply steps_idle; try done.
  destruct Ho as (? & Ho & ->). split; [done|]. split_and!; [by intros c ->|apply i64_range|apply expiry_range|done].
Qed.

Lemma steps_many_start urls ttl g w S L Bf R : base w S L Bf -> owes (inner w) (Start (DoShortenMany urls ttl)) R ->
  steps w S L Bf R (Start (DoShortenMany urls ttl)) (many_start os urls ttl g w).
Proof.
  intros D Ho. unfold many_start, now_ms. apply steps_idle; try done.
  destruct Ho as (? & Ho & ->). split; [done|]. split_and!; [apply i64_range|apply expiry_range|done|done].
Qed.

Lemma steps_insert url alias now exp g w S L Bf R : base w S L Bf -> owes (inner w) (Insert url alias now exp) R ->
  steps w S L Bf R (Insert url alias now exp) (shorten_insert url alias now exp g w).
Proof.
  intros D Ho. pose proof D as [Hc Hx _ _ _]. pose proof Ho as (HR & Ha & Hn & He & ->).
  assert (Hrec : forall c, plain_code c -> owes (inner w) (LogNew c url now exp) ([] ++ [Row c url now exp (instance (inner w)) 0])).
  { intros c Hcode. split; [|done]. apply Forall_singleton. by apply own_row. }
  unfold shorten_insert. destruct alias as [c|].
  - destruct (find (inner w) c) as [e|] eqn:E.
    + apply steps_idle; try done. cbn [act_true st_act]. rewrite row_at_table by apply Hx. unfold row_at. by rewrite E.
    + apply (steps_made c url now exp); try done; first [by apply Ha|by apply Hrec, Ha].
  - destruct (gen_code (inner w) g) as [c g'] eqn:Eg. destruct (find (inner w) c) as [e|] eqn:E; [by apply steps_idle|].
    apply (steps_made c url now exp); try done; [by eapply drawn_plain|]. apply Hrec. by eapply drawn_plain.
Qed.

Lemma steps_insert_many urls now exp codes lines g w S L Bf R : base w S L Bf -> owes (inner w) (InsertMany urls now exp codes lines) R ->
  steps w S L Bf R (InsertMany urls now exp codes lines) (many_insert urls now exp codes lines g w).
Proof.
  intros D Ho. pose proof D as [Hc Hx (a & Hav & _) _ _]. pose proof Ho as (HR & Hn & He & Hl & Hm).
  unfold many_insert. destruct urls as [|u us]; [by apply steps_idle|].
  destruct (gen_code (inner w) g) as [c g'] eqn:Eg. destruct (find (inner w) c) as [e|] eqn:E; [by apply steps_idle|].
  assert (Hp : plain_code c) by by eapply drawn_plain.
  apply (steps_made c u now exp); try done. cbn [st_pc]. rewrite Hav. set (r := Row _ _ _ _ _ _). split.
  - apply Forall_app. split; [done|]. apply Forall_singleton. by apply own_row.
  - split_and!; [done|done| |by rewrite map_app, Hm].
    by rewrite row_line_into_app, Hl, log_bytes_app, log_bytes_one, <- app_assoc.
Qed.

Lemma steps_log_new c url now exp g w S L Bf R : base w S L Bf -> owes (inner w) (LogNew c url now exp) R ->
  steps w S L Bf R (LogNew c url now exp) (shorten_push os c url now exp g w).
Proof.
  intros D [HR ->]. apply (steps_push os Hw); try done. cbn [st_world shorten_push]. by rewrite <- aof_push_one.
Qed.

Lemma steps_log_many codes lines g w S L Bf R : base w S L Bf -> owes (inner w) (LogMany codes lines) R ->
  steps w S L Bf R (LogMany codes lines) (many_push os codes lines g w).
Proof. intros D (HR & -> & _). by apply (steps_push os Hw). Qed.

(** ** [resolve] *)
Lemma steps_found pc c e g w S L Bf : base w S L Bf -> writes pc = [] -> find (inner w) c = Some e ->
  steps w S L Bf [] pc (resolve_found os env c e g w).
Proof.
  intros D Hpc E. pose proof (ba_index _ _ _ _ D) as (Hwf & Hd & Hall).
  destruct (Hall c e) as (Hc & Ha & He & Hh & Hi); [by rewrite data_find|].
  assert (Htrue : act_true (Some (Saw c (Some (row_of e)))) (table (inner w))).
  { cbn. rewrite row_at_table by done. unfold row_at. by rewrite E. }
  pose proof (live_spec os (e_e e) (sys w)) as [_ Hl]. unfold resolve_found. destruct (live os (e_e e) (sys w)) as [ok s].
  destruct (negb ok); [apply steps_idle; by first [done|apply quiet_clock]|].
  destruct (track_hits env); [|apply steps_idle; by first [done|apply quiet_clock]].
  assert (Hx : index_ok (data_insert c (add_hits e 1 true) (inner w))).
  { apply index_ok_insert; [done|done|]. split_and!; simpl; try done. apply i64_range. }
  apply (steps_change (data_insert c (add_hits e 1 true)) w S L Bf [] pc _ s (Saw c (Some (row_of e)))); try done.
  - by apply (table_insert_same c e).
  - by cbn [writes st_pc]; rewrite Hpc.
Qed.

Lemma steps_missed pc pc' c g w S L Bf : base w S L Bf -> writes pc = [] -> find (inner w) c = None -> writes pc' = [] ->
  (forall k rows, pc' ≠ Snap k rows) -> pc' ≠ Truncate -> owes (inner w) pc' [] ->
  steps w S L Bf [] pc (mkStep pc' g w (Some (Saw c None))).
Proof.
  intros D Hpc E Hpc' Hn Hn' Ho. apply steps_idle; try done; cbn [st_pc st_act act_true].
  - rewrite row_at_table by apply (ba_index _ _ _ _ D). unfold row_at. by rewrite E.
  - by rewrite Hpc.
  - intros k rows Hk. by destruct (Hn k rows).
Qed.

Lemma steps_look c g w S L Bf R : base w S L Bf -> owes (inner w) (Start (DoResolve c)) R ->
  steps w S L Bf R (Start (DoResolve c)) (resolve_look os env c g w).
Proof.
  intros D Ho. pose proof Ho as (_ & _ & ->). unfold resolve_look. destruct (find (inner w) c) as [e|] eqn:E; [by apply steps_found|].
  apply steps_missed; try done; by destruct (aof (inner w)).
Qed.

Lemma steps_again c g w S L Bf R : base w S L Bf -> owes (inner w) (LookAgain c) R -> steps w S L Bf R (LookAgain c) (resolve_again os env c g w).
Proof.
  intros D Ho. pose proof Ho as (_ & ->). unfold resolve_again. destruct (find (inner w) c) as [e|] eqn:E; [by apply steps_found|].
  by apply steps_missed.
Qed.

Lemma steps_bump c url g w S L Bf R : base w S L Bf -> owes (inner w) (Bump c url) R ->
  steps w S L Bf R (Bump c url) (mkStep (Finished (AUrl (Some url))) g (with_inner (dirty_bump c) w) None).
Proof.
  intros D (_ & Hc & ->). pose proof (ba_index _ _ _ _ D) as Hx. apply (steps_out w S L Bf [] _ _ L Bf); try done.
  - apply (base_index w); try done. by apply index_ok_bump.
  - by rewrite app_nil_r.
  - apply data_dirty_bump, Hx.
Qed.

(** ** [update] and [remove] *)
Lemma steps_update c url ttl has g w S L Bf R : base w S L Bf -> owes (inner w) (Start (DoUpdate c url ttl has)) R ->
  steps w S L Bf R (Start (DoUpdate c url ttl has)) (update_entry os c url ttl has g w).
Proof.
  intros D Ho. pose proof Ho as (_ & _ & ->). pose proof (ba_index _ _ _ _ D) as Hx. pose proof Hx as (Hwf & Hd & Hall).
  unfold update_entry. destruct (find (inner w) c) as [e|] eqn:E; [|by apply steps_missed].
  destruct (Hall c e) as (Hc & Ha & He & Hh & Hi); [by rewrite data_find|].
  assert (Ht : table (inner w) !! c = Some (row_of e)) by (rewrite row_at_table by done; unfold row_at; by rewrite E).
  rewrite Hi, Z.eqb_refl. cbn [negb].
  assert (HH : forall exp s, in_i64 exp -> fs s = fs (sys w) ->
    let e' := mkEntry url (e_a e) exp (instance (inner w)) (e_h e) (e_oh e) in
    steps w S L Bf [] (Start (DoUpdate c url ttl has))
      (mkStep (LogUpdate c url (e_a e) exp) g (with_inner (data_insert c e') (with_sys s w)) (Some (Changed c (row_of e) (row_of e'))))).
  { intros exp s Hexp Hs e'. apply (steps_change (data_insert c e') w S L Bf [] _ _ s (Changed c (row_of e) (row_of e'))); try done.
    - by apply index_ok_insert.
    - by apply table_insert.
    - split; [|done]. apply Forall_singleton. apply own_row; try done. by destruct (ba_cfg _ _ _ _ D) as []. }
  destruct has; [destruct (0 <? ttl)|]; apply HH; try done. apply i64_range.
Qed.

Lemma steps_log_update c url a exp g w S L Bf R : base w S L Bf -> owes (inner w) (LogUpdate c url a exp) R ->
  steps w S L Bf R (LogUpdate c url a exp) (update_push c url a exp g w).
Proof.
  intros D [HR ->]. set (r := Row _ _ _ _ _ _) in *.
  assert (Hs : st_world (update_push c url a exp g w) = aof_push_raw (log_bytes [r]) w) by by rewrite <- aof_push_one.
  apply (steps_out w S L Bf [r] _ _ L (Bf ++ [r])); try done; rewrite Hs; [by apply base_push|by apply data_aof_push_raw|apply same_push_raw].
Qed.

Lemma steps_remove c g w S L Bf R : base w S L Bf -> owes (inner w) (Start (DoRemove c)) R ->
  steps w S L Bf R (Start (DoRemove c)) (remove_entry c g w).
Proof.
  intros D Ho. pose proof Ho as (_ & _ & ->). pose proof (ba_index _ _ _ _ D) as Hx. pose proof Hx as (Hwf & Hd & Hall).
  unfold remove_entry. destruct (find (inner w) c) as [e|] eqn:E; [|by apply steps_missed].
  destruct (Hall c e) as (Hc & Ha & He & Hh & Hi); [by rewrite data_find|].
  assert (Ht : table (inner w) !! c = Some (row_of e)) by (rewrite row_at_table by done; unfold row_at; by rewrite E).
  rewrite Hi, Z.eqb_refl. cbn [negb].
  apply (steps_change (data_erase c) w S L Bf [] _ _ (sys w) (Erased c (row_of e))); try done.
  - by apply index_ok_erase.
  - by apply table_erase.
  - split; [|done]. by apply Forall_singleton.
Qed.

Lemma steps_log_remove c g w S L Bf R : base w S L Bf -> owes (inner w) (LogRemove c) R -> steps w S L Bf R (LogRemove c) (remove_push c g w).
Proof.
  intros D [HR ->]. assert (Hs : st_world (remove_push c g w) = aof_push_raw (log_bytes [Del c]) w) by by rewrite <- aof_push_one.
  apply (steps_out w S L Bf [Del c] _ _ L (Bf ++ [Del c])); try done; rewrite Hs;
    [by apply base_push|by apply data_aof_push_raw|apply same_push_raw].
Qed.

(** ** [flush] *)
Lemma steps_flush_start o all g w S L Bf R : base w S L Bf -> owes (inner w) (Start o) R ->
  steps w S L Bf R (Start o) (flush_start all g w).
Proof.
  intros D (HR & _ & ->). unfold flush_start. apply steps_idle; try done; by destruct (aof (inner w)).
Qed.

Lemma clear_shard_ok k i : index_ok i -> index_ok (clear_shard k i) /\ data (clear_shard k i) = data i.
Proof.
  intros (Hwf & Hd & Hall).
  assert (Hl : forall j, shards (clear_shard k i) !! j =
    (if decide (k = j) then (fun sh => mkShard (sh_data sh) ∅) <$> shards i !! j else shards i !! j)).
  { intros j. cbn [clear_shard set_shards shards]. case_decide as Hj; [subst; apply list_lookup_alter_eq|by apply list_lookup_alter_ne]. }
  assert (Hmap : map sh_data (shards (clear_shard k i)) = map sh_data (shards i)).
  { apply list_eq. intros j. rewrite !list_lookup_fmap, Hl. case_decide; [|done]. by destruct (shards i !! j). }
  assert (Hdata : data (clear_shard k i) = data i).
  { unfold data. revert Hmap. generalize (shards (clear_shard k i)) (shards i). intros l. induction l as [|x l IH]; intros [|y m]; simpl; try done.
    intros [= Hxy Hlm]. by rewrite Hxy, (IH m). }
  split; [|done]. split_and!; [| |by rewrite Hdata].
  - destruct Hwf as [W1 W2 W3]. split; [cbn [clear_shard set_shards shards]; by rewrite length_alter|..]; intros j sh c; rewrite Hl;
      (case_decide; [|by eauto]); intros Hj He; apply fmap_Some in Hj as (sh0 & Hj & ->); [by eapply W2|].
    cbn [sh_dirty] in He. rewrite lookup_empty in He. by destruct He.
  - intros j sh c d. rewrite Hl. case_decide; [|apply Hd]. intros Hj He. apply fmap_Some in Hj as (sh0 & Hj & ->).
    cbn [sh_dirty] in He. by rewrite lookup_empty in He.
Qed.

Lemma shard_dirty_own k i : index_ok i -> cfg_ok i ->
  Forall (own_rec (instance i)) (dirty_recs (instance i) (umap_iter (sh_dirty (default Shard0 (shards i !! k))))).
Proof.
  intros (_ & Hd & _) Hc. destruct (instance_i64 _ Hc) as [I1 _]. apply Forall_map, Forall_forall. intros [c d] Hcd.
  apply umap_iter_elem in Hcd. destruct (shards i !! k) as [sh|] eqn:Ek; simpl in Hcd; [|by rewrite lookup_empty in Hcd].
  destruct (Hd k sh c d Ek Hcd). by split.
Qed.

Lemma steps_collect all k lines g w S L Bf R : base w S L Bf -> owes (inner w) (Collect all k lines) R ->
  steps w S L Bf R (Collect all k lines) (flush_collect os all k lines g w).
Proof.
  intros D (HR & -> & Hh). pose proof D as [Hc Hx _ _ _]. unfold flush_collect. case_match.
  - destruct (clear_shard_ok k (inner w) Hx) as [Hx' Hd']. set (H' := dirty_recs (instance (inner w)) (umap_iter (sh_dirty (default Shard0 (shards (inner w) !! k))))).
    assert (HH : Forall is_hit H') by by apply Forall_map, Forall_forall.
    split; [done|exact (f_equal (fmap row_of) Hd')|done|]. exists S, L, Bf, (R ++ H'). split; [|split].
    + pose proof (moves_in S L Bf R (Collect all k (log_bytes R)) (mkStep (Collect all (Datatypes.S k) (log_bytes R ++ shard_hits k (inner w))) g
        (with_inner (clear_shard k) w) None) (inner w) L Bf H' eq_refl HH) as HM. by apply HM.
    + by apply (base_index w).
    + apply (owes_config _ (inner w)); [done|]. split; [apply Forall_app; split; [done|by apply shard_dirty_own]|]. split; [|by apply Forall_app].
      rewrite log_bytes_app. f_equal. unfold shard_hits. by rewrite dirty_lines.
  - destruct (same_flush_log os (log_bytes R) w) as [C1 C2].
    apply (steps_out w S L Bf R _ _ (L ++ Bf ++ R) []); try done; [by apply (base_flush_log os Hw)|by rewrite app_nil_r|..]; by destruct all.
Qed.

Lemma steps_sync o g w S L Bf R : base w S L Bf -> owes (inner w) (Start o) R ->
  steps w S L Bf R (Start o) (mkStep (Finished AUnit) g (sync_store os w) None).
Proof.
  intros D (_ & _ & ->). pose proof (base_sync os Hw w S L Bf D) as D1.
  assert (Hs : same_config (inner (sync_store os w)) (inner w) /\ data (inner (sync_store os w)) = data (inner w)).
  { unfold sync_store. repeat case_match; done. }
  destruct Hs as [Hs1 Hs2].
  apply (steps_out w S L Bf [] _ _ (L ++ Bf) []); try done; by rewrite ?app_nil_r.
Qed.

(** ** [compact] *)
Lemma steps_open_snap g w S L Bf R : base w S L Bf -> owes (inner w) OpenSnap R -> steps w S L Bf R OpenSnap (open_snap g w).
Proof.
  intros D Ho. pose proof Ho as (_ & ->). pose proof (ba_disk _ _ _ _ D) as (a & _ & _ & _ & Hs & Ht & HS & _).
  destruct (log_snap_ne (inner w)) as (E1 & E2 & E3); [apply D|].
  unfold open_snap, open_write. rewrite bool_decide_eq_false_2 by done.
  set (s1 := set_files _ (sys w)). split; [done|done|done|]. exists S, L, Bf, []. split; [|split].
  - apply (moves_in S L Bf [] OpenSnap (mkStep (Snap 0 []) g (with_sys s1 w) None) (inner w) L Bf []); try done. by intros k rows [= <- <-].
  - apply (base_files w s1 S); try done.
    + pose proof (ba_recs _ _ _ _ D) as Hr. by apply Forall_app in Hr as [? _].
    + rewrite <- HS. unfold contents, s1. autorewrite with shrt. by rewrite lookup_insert_ne.
    + intros p Hp Hp'. unfold s1. autorewrite with shrt. by rewrite lookup_insert_ne.
  - by split.
Qed.

Lemma shard_rows_own k i : index_ok i -> cfg_ok i ->
  Forall (own_rec (instance i)) (shard_recs k i) /\ shard_rows k i = map line_of (shard_recs k i).
Proof.
  intros (Hwf & _ & Hall) Hc. destruct (instance_i64 _ Hc) as [I1 _]. unfold shard_recs, shard_rows. rewrite map_map. split; [|done].
  apply Forall_map, Forall_forall. intros [c e] Hce. apply list_elem_of_filter in Hce as [Hi Hce]. cbn [fst snd snap_rec] in *.
  apply umap_iter_elem in Hce. destruct (shards i !! k) as [sh|] eqn:Ek; simpl in Hce; [|by rewrite lookup_empty in Hce].
  destruct (Hall c e) as (Hp & Ha & He & Ho & _); [|split; [split_and!; simpl; by rewrite ?Hi|done]].
  rewrite data_find by done. unfold find, shard_at. rewrite (wf_data _ Hwf k sh c Ek) by done. by rewrite Ek.
Qed.

Lemma steps_snap k rows g w S L Bf R : base w S L Bf -> owes (inner w) (Snap k rows) R -> steps w S L Bf R (Snap k rows) (snap_shard k rows g w).
Proof.
  intros D (HR & ->). pose proof D as [Hc Hx (a & _ & _ & _ & Hs & Ht & HS & _) _ _]. destruct (shard_rows_own k _ Hx Hc) as [Hr1 Hr2].
  unfold snap_shard. destruct (k <? NUM_SHARDS)%nat eqn:Ek.
  - split; [done|done|done|]. exists S, L, Bf, (R ++ shard_recs k (inner w)). split; [|split; [done|]].
    + eapply moves_rows; try done. by apply Nat.ltb_lt.
    + apply (owes_config _ (inner w)); [done|]. split; [by apply Forall_app|]. cbn [st_pc]. by rewrite map_app, Hr2.
  - destruct (log_snap_ne (inner w)) as (E1 & E2 & E3); [apply D|].
    split; [done|done|done|]. exists R, L, Bf, []. split; [|split; [|by split]].
    + eapply moves_snap; try done. by apply Nat.ltb_ge.
    + unfold rename. autorewrite with shrt. rewrite lookup_insert_eq. rewrite bool_decide_eq_false_2 by done.
      apply (base_files w _ S); try done.
      * unfold contents. autorewrite with shrt. by rewrite lookup_insert_eq.
      * intros p Hp Hp'. autorewrite with shrt. simpl. by rewrite lookup_insert_ne, lookup_delete_ne, !lookup_insert_ne by done.
Qed.

Lemma steps_truncate g w S L Bf R : base w S L Bf -> owes (inner w) Truncate R ->
  steps w S L Bf R Truncate (mkStep (Finished AUnit) g (truncate_log os w) None).
Proof.
  intros D (_ & ->).
  assert (Hs : same_config (inner (truncate_log os w)) (inner w) /\ data (inner (truncate_log os w)) = data (inner w)).
  { unfold truncate_log. repeat case_match; done. }
  split; [by destruct Hs|exact (f_equal (fmap row_of) (proj2 Hs))|done|]. exists S, [], [], [].
  split; [by apply moves_cut|]. split; [by apply (base_truncate os w S L Bf)|by split].
Qed.

(** ** Any step *)
Lemma steps_count pc a n g w S L Bf R : base w S L Bf -> writes pc = [] -> R = [] ->
  steps w S L Bf R pc (mkStep (Finished a) g (links_delta n w) None).
Proof. intros D Hpc ->. apply steps_idle; try done; by rewrite ?Hpc. Qed.

Theorem step_steps pc g w s S L Bf R : base w S L Bf -> owes (inner w) pc R -> tstep os env pc g w = Some s -> steps w S L Bf R pc s.
Proof.
  intros D Ho. destruct pc as [o| | | | | | | | | | | | | | | | |]; cbn [tstep]; intros [= <-].
  - destruct o as [url al ttl|urls ttl|c|c url ttl has|c| | | |]; cbn [start].
    + by apply steps_shorten_start.
    + by apply steps_many_start.
    + by apply steps_look.
    + by apply steps_update.
    + by apply steps_remove.
    + by apply steps_flush_start.
    + by apply steps_sync.
    + destruct Ho as (_ & _ & ->). apply steps_idle; try done. apply poll_tails_quiet, D.
    + by apply steps_flush_start.
  - by apply steps_insert.
  - by apply steps_log_new.
  - apply steps_count; try done. apply Ho.
  - by apply steps_insert_many.
  - by apply steps_log_many.
  - apply steps_count; try done. apply Ho.
  - destruct Ho as (_ & ->). apply steps_idle; try done. apply tail_missed_quiet; apply D.
  - by apply steps_again.
  - by apply steps_bump.
  - by apply steps_log_update.
  - by apply steps_log_remove.
  - apply steps_count; try done. apply Ho.
  - by apply steps_collect.
  - by apply steps_open_snap.
  - by apply steps_snap.
  - by apply steps_truncate.
Qed.
End Steps.
