(* ===== verification/ConcurrentInv.v ===== *)
(** * What a schedule keeps

    The invariant of all threads together ([conf_ok]): the world between
    steps, what each thread owes, and that who holds the gate alone is alone.
    For one code, how far the files describe its row ([tracks]). *)

From S2P Require Import Prelude CLib Common Codec Aof Store StoreFacts StoreSpec Durability Recovery Siblings Concurrent ConcurrentFacts ConcurrentSteps.

Section Inv.
Context {std : StdImpl} (os : Os) (env : Env) (Hw : no_io_error (os_write os)).

(** ** Events *)
Definition call_ok (e : Event) : Prop := match e with Call _ o _ => op_ok o | Go _ => True end.

Definition called (c : Conf) (i : nat) (o : StoreOp) (g : Z) : Conf :=
  mkConf (c_world c) (<[i := mkThread o (Start o) g]> (c_threads c)).
Definition moved (c : Conf) (i : nat) (th : Thread) (s : Stepped) : Conf :=
  mkConf (st_world s) (<[i := mkThread (th_op th) (st_pc s) (st_rng s)]> (c_threads c)).
Definition act_hist (i : nat) (a : option Act) : Hist := match a with Some a => [(i, a)] | None => [] end.

Lemma event_cases e c c' h : event os env e c = Some (c', h) ->
  (exists i o g, e = Call i o g /\ c_threads c !! i = None /\ c' = called c i o g /\ h = []) \/
  (exists i th s, e = Go i /\ c_threads c !! i = Some th /\ gate_open (th_pc th) c = true /\
     tstep os env (th_pc th) (th_rng th) (c_world c) = Some s /\ c' = moved c i th s /\ h = act_hist i (st_act s)).
Proof.
  destruct e as [i o g|i]; simpl; destruct (c_threads c !! i) as [th|] eqn:Ei; try done.
  - intros [= <- <-]. left. by exists i, o, g.
  - destruct (gate_open (th_pc th) c) eqn:Eg; [|done]. cbn [negb].
    destruct (tstep os env (th_pc th) (th_rng th) (c_world c)) as [s|] eqn:Es; [|done]. intros [= <- <-].
    right. exists i, th, s. by split_and!.
Qed.

Lemma moved_lookup c i th s j tj : c_threads (moved c i th s) !! j = Some tj ->
  j = i /\ tj = mkThread (th_op th) (st_pc s) (st_rng s) \/ j ≠ i /\ c_threads c !! j = Some tj.
Proof. cbn [moved c_threads]. rewrite lookup_insert. case_decide; [intros [= <-]; left|right]; by split. Qed.

Lemma called_lookup c i o g j tj : c_threads (called c i o g) !! j = Some tj ->
  j = i /\ tj = mkThread o (Start o) g \/ j ≠ i /\ c_threads c !! j = Some tj.
Proof. cbn [called c_threads]. rewrite lookup_insert. case_decide; [intros [= <-]; left|right]; by split. Qed.

(** ** The gate *)
Definition gate_ok (ts : gmap nat Thread) : Prop :=
  forall i j ti tj, ts !! i = Some ti -> ts !! j = Some tj -> i ≠ j -> holds_all (th_pc ti) = true ->
    holds_gate (th_pc tj) = false /\ holds_all (th_pc tj) = false.

Lemma tstep_gate pc g w s : tstep os env pc g w = Some s ->
  (holds_gate (st_pc s) = true -> holds_gate pc = true \/ wants_gate pc = true) /\
  (holds_all (st_pc s) = true -> holds_all pc = true \/ wants_all pc = true /\ aof (inner w) ≠ None).
Proof.
  destruct pc as [[]| | | | | | | | | | | | |[]| | | |]; cbn [tstep start]; intros [= <-];
    unfold shorten_start, many_start, resolve_look, resolve_found, update_entry, remove_entry, flush_start, shorten_insert, many_insert,
      resolve_again, flush_collect, open_snap, snap_shard, resolve_found; cbn [now_ms];
    repeat case_match; simplify_eq; cbn; naive_solver.
Qed.

Lemma writes_gate pc x : x ∈ writes pc -> holds_gate pc = true.
Proof. by destruct pc; intros H; try (by apply not_elem_of_nil in H). Qed.

Lemma gate_open_spec pc c i th : gate_open pc c = true -> c_threads c !! i = Some th ->
  (wants_gate pc = true -> holds_all (th_pc th) = false) /\
  (wants_all pc = true -> aof (inner (c_world c)) ≠ None -> holds_gate (th_pc th) = false /\ holds_all (th_pc th) = false).
Proof.
  unfold gate_open. intros H Hi. apply andb_prop in H as [H1 H2]. split.
  - intros Hp. rewrite Hp in H1. simpl in H1. apply bool_decide_eq_true in H1. by apply (H1 i).
  - intros Hp Ha. rewrite Hp in H2. rewrite bool_decide_eq_false_2 in H2 by done. simpl in H2.
    apply bool_decide_eq_true in H2. specialize (H2 i th Hi). cbv beta in H2. by apply orb_false_elim in H2.
Qed.

Lemma gate_ok_go c i th s : gate_ok (c_threads c) -> c_threads c !! i = Some th -> gate_open (th_pc th) c = true ->
  tstep os env (th_pc th) (th_rng th) (c_world c) = Some s -> gate_ok (c_threads (moved c i th s)).
Proof.
  intros H Hi Ho Hs j k tj tk Hj Hk Hne Ha. destruct (tstep_gate _ _ _ _ Hs) as [T1 T2].
  apply moved_lookup in Hj as [[-> ->]|[Hji Hj]]; apply moved_lookup in Hk as [[-> ->]|[Hki Hk]]; [done| | |by apply (H j k tj tk)].
  - cbn [th_pc] in Ha. destruct (T2 Ha) as [Hall|[Hwant Haof]]; [by apply (H i k th tk)|].
    by apply (gate_open_spec _ _ _ _ Ho Hk).
  - cbn [th_pc]. destruct (H j i tj th Hj Hi Hne Ha) as [Hg Hall]. destruct (gate_open_spec _ _ _ _ Ho Hj) as [G1 G2]. split.
    + destruct (holds_gate (st_pc s)); [|done]. destruct (T1 eq_refl); [congruence|]. rewrite G1 in Ha; done.
    + destruct (holds_all (st_pc s)); [|done]. destruct (T2 eq_refl) as [|[? ?]]; [congruence|]. destruct G2; [done|done|congruence].
Qed.

(** ** All threads *)
Definition upd (R : nat -> list LogRec) (i : nat) (r : list LogRec) : nat -> list LogRec := fun j => if decide (j = i) then r else R j.
Lemma upd_eq R i r : upd R i r i = r.
Proof. unfold upd. by rewrite decide_True. Qed.
Lemma upd_ne R i r j : j ≠ i -> upd R i r j = R j.
Proof. unfold upd. intros H. by rewrite decide_False. Qed.

Record conf_ok (c : Conf) (S L Bf : list LogRec) (R : nat -> list LogRec) : Prop := {
  co_base : base (c_world c) S L Bf;
  co_owes : forall i th, c_threads c !! i = Some th -> owes (inner (c_world c)) (th_pc th) (R i);
  co_gate : gate_ok (c_threads c)
}.

Lemma conf_ok_start w S L Bf : base w S L Bf -> conf_ok (mkConf w ∅) S L Bf (fun _ => []).
Proof. intros D. split; [done|..]; cbn [c_threads]; intros i j; [by rewrite lookup_empty|]. intros ti tj. by rewrite lookup_empty. Qed.

Lemma call_conf c S L Bf R i o g : conf_ok c S L Bf R -> op_ok o -> c_threads c !! i = None -> conf_ok (called c i o g) S L Bf (upd R i []).
Proof.
  intros [D O G] Ho Hi. split; [done|..].
  - intros j tj Hj. cbn [called c_world]. apply called_lookup in Hj as [[-> ->]|[Hji Hj]].
    + by rewrite upd_eq.
    + rewrite upd_ne by done. by apply O.
  - intros j k tj tk Hj Hk Hne Ha. apply called_lookup in Hj as [[-> ->]|[Hji Hj]]; [done|].
    apply called_lookup in Hk as [[-> ->]|[Hki Hk]]; [done|]. by apply (G j k tj tk).
Qed.

Lemma go_conf c S L Bf R i th s : conf_ok c S L Bf R -> c_threads c !! i = Some th -> gate_open (th_pc th) c = true ->
  tstep os env (th_pc th) (th_rng th) (c_world c) = Some s ->
  same_config (inner (st_world s)) (inner (c_world c)) /\
  act_true (st_act s) (table (inner (c_world c))) /\
  table (inner (st_world s)) = act_table (st_act s) (table (inner (c_world c))) /\
  exists S' L' Bf' R', moves S L Bf (R i) (th_pc th) s (inner (c_world c)) S' L' Bf' R' /\ conf_ok (moved c i th s) S' L' Bf' (upd R i R').
Proof.
  intros [D O G] Hi Ho Hs. destruct (step_steps os env Hw _ _ _ _ S L Bf (R i) D (O i th Hi) Hs) as [C T A (S' & L' & Bf' & R' & M & D' & O')].
  split_and!; [done|done|done|]. exists S', L', Bf', R'. split; [done|]. split; [done| |by apply gate_ok_go].
  intros j tj Hj. cbn [moved c_world]. apply moved_lookup in Hj as [[-> ->]|[Hji Hj]].
  - by rewrite upd_eq.
  - rewrite upd_ne by done. eapply owes_config, O, Hj. by destruct C.
Qed.

(** ** One code *)

(** At most one thread has a change of [x] still to log. *)
Definition unraced (x : bytes) (c : Conf) : Prop :=
  map_Forall (fun i ti => map_Forall (fun j tj => x ∈ writes (th_pc ti) -> x ∈ writes (th_pc tj) -> i = j) (c_threads c)) (c_threads c).
#[export] Instance unraced_dec x c : Decision (unraced x c).
Proof. unfold unraced. apply _. Defined.

(** How far the files, and what the threads hold, describe the row. *)
Record tracks (x : bytes) (c : Conf) (S L Bf : list LogRec) (R : nat -> list LogRec) : Prop := {
  tk_one : forall i th, c_threads c !! i = Some th -> x ∈ writes (th_pc th) ->
    replay_table (S ++ L ++ Bf ++ R i) !! x = table (inner (c_world c)) !! x;
  tk_none : (forall i th, c_threads c !! i = Some th -> x ∉ writes (th_pc th)) ->
    replay_table (S ++ L ++ Bf) !! x = table (inner (c_world c)) !! x;
  tk_snap : forall i th k rows, c_threads c !! i = Some th -> th_pc th = Snap k rows ->
    replay_table (R i) !! x = if decide (shard_of x < k)%nat then table (inner (c_world c)) !! x else None;
  tk_cut : forall i th, c_threads c !! i = Some th -> th_pc th = Truncate -> replay_table S !! x = table (inner (c_world c)) !! x
}.

Lemma replay_silent_end x A Q : silent x Q -> replay_table (A ++ Q) !! x = replay_table A !! x.
Proof. intros H. rewrite replay_table_app. by apply fold_silent. Qed.

(** Records that say nothing do not matter between others. *)
Lemma replay_silent_mid x A Q E : silent x Q -> replay_table (A ++ Q ++ E) !! x = replay_table (A ++ E) !! x.
Proof. intros H. rewrite !replay_table_app, fold_left_app. apply fold_at. by apply fold_silent. Qed.

(** What comes last decides, whatever was before. *)
Lemma fold_decides x Q : silent x Q \/ forall t t' : Table, fold_left t_rec Q t !! x = fold_left t_rec Q t' !! x.
Proof.
  induction Q as [|r Q IH] using rev_ind; [by left; apply Forall_nil|].
  assert (Hr : is_hit r \/ rec_code r ≠ x \/ (rec_code r = x /\ ~ is_hit r)).
  { destruct (decide (rec_code r = x)); [|tauto]. destruct r; simpl in *; tauto. }
  destruct Hr as [Hr|[Hr|[Hr Hh]]].
  1,2: assert (Hs : silent x [r]) by (apply Forall_singleton; tauto); destruct IH as [IH|IH]; [left; by apply Forall_app|right; intros t t'];
    rewrite !fold_left_app, !(fold_silent x [r]) by done; apply IH.
  right. intros t t'. rewrite !fold_left_app. destruct r; simpl in *; subst; [by rewrite !lookup_insert_eq|tauto|by rewrite !lookup_delete_eq].
Qed.

Lemma silent_hits x H : Forall is_hit H -> silent x H.
Proof. intros HH. eapply Forall_impl; [exact HH|]. by left. Qed.

Lemma owes_silent i pc R x : owes i pc R -> x ∉ writes pc -> (forall k rows, pc ≠ Snap k rows) -> silent x R.
Proof.
  assert (Hcodes : forall cs, map rec_code R = cs -> x ∉ cs -> silent x R).
  { intros cs <- Hx. apply Forall_forall. intros r Hr. right. intros <-. apply Hx. by apply list_elem_of_fmap_2. }
  intros [_ Ho] Hx Hs. destruct pc; cbn [writes] in Hx; destruct_and?; subst; try apply Forall_nil; try done.
  all: try (by eapply Hcodes). all: try (apply Forall_singleton; right; by rewrite list_elem_of_singleton in Hx).
  - by apply silent_hits.
  - by edestruct Hs.
Qed.

Lemma act_other a x t : x ∉ map rec_code (act_recs a) -> act_table a t !! x = t !! x /\ silent x (act_recs a).
Proof.
  destruct a as [[y ?|y ?|y ? ?|y ?]|]; simpl; rewrite ?list_elem_of_singleton; intros H; (split; [|first [apply Forall_nil; done|apply Forall_singleton; by right; apply not_eq_sym]]).
  all: rewrite ?lookup_insert_ne, ?lookup_delete_ne by (by apply not_eq_sym); done.
Qed.

Lemma act_says a x i t t' : x ∈ map rec_code (act_recs a) -> Forall (own_rec i) (act_recs a) -> i32 i = i ->
  fold_left t_rec (act_recs a) t !! x = act_table a t' !! x.
Proof.
  destruct a as [[]|]; simpl; rewrite ?list_elem_of_singleton; intros H; try (by apply not_elem_of_nil in H); rewrite Forall_singleton;
    intros [_ Hi] Hi32; subst x; [| |by rewrite !lookup_delete_eq].
  - rewrite Hi, Hi32, !lookup_insert_eq, <- Hi. by destruct r.
  - rewrite Hi, Hi32, !lookup_insert_eq, <- Hi. by destruct new.
Qed.

Lemma replay_at x A B t : replay_table A !! x = (t : Table) !! x -> replay_table (A ++ B) !! x = fold_left t_rec B t !! x.
Proof. rewrite replay_table_app. apply fold_at. Qed.

(** *** A thread that writes excludes compaction *)
Lemma gate_one_way pc : holds_all pc = true -> holds_gate pc = false.
Proof. destruct pc as [| | | | | | | | | | | | |[] ? ?| | | |]; done. Qed.

Lemma writer_alone c S L Bf R i j ti tj x : conf_ok c S L Bf R -> c_threads c !! i = Some ti -> c_threads c !! j = Some tj ->
  holds_all (th_pc ti) = true -> x ∉ writes (th_pc tj).
Proof.
  intros [_ _ G] Hi Hj Ha Hx. apply writes_gate in Hx. destruct (decide (i = j)) as [->|Hne].
  - assert (ti = tj) as -> by congruence. by rewrite gate_one_way in Hx.
  - destruct (G i j ti tj Hi Hj Hne Ha) as [Hg _]. congruence.
Qed.

Lemma rows_at k inn x t : index_ok inn -> cfg_ok inn ->
  fold_left t_rec (shard_recs k inn) t !! x = if decide (shard_of x = k) then match table inn !! x with Some r => Some r | None => t !! x end else t !! x.
Proof.
  intros (Hwf & _ & Hall) Hc. destruct (instance_i64 _ Hc) as [_ I2].
  set (l := umap_iter (sh_data (default Shard0 (shards inn !! k)))).
  assert (Hin : forall c e, (c, e) ∈ l <-> shard_of c = k /\ data inn !! c = Some e).
  { intros c e. unfold l. rewrite umap_iter_elem, data_find by done. unfold find, shard_at. split.
    - destruct (shards inn !! k) as [sh|] eqn:Ek; simpl; [|by rewrite lookup_empty]. intros He.
      assert (shard_of c = k) as Hk by (eapply (wf_data _ Hwf); [exact Ek|by eexists]). rewrite Hk, Ek. by split.
    - by intros [-> ?]. }
  unfold shard_recs. fold l. assert (Hf : filter (fun ce => e_i (snd ce) = instance inn) l = l).
  { apply filter_own, Forall_forall. intros [c e] Hce. apply Hin in Hce as [_ He]. by apply Hall in He as (_ & _ & _ & _ & ?). }
  rewrite Hf, replay_rows; [|apply umap_iter_nodup|].
  2: { apply Forall_forall. intros [c e] Hce. apply Hin in Hce as [_ He]. apply Hall in He as (_ & _ & _ & _ & Hi). simpl. by rewrite Hi. }
  rewrite lookup_union, lookup_fmap. unfold table. rewrite lookup_fmap.
  destruct (list_to_map l !! x : option Entry) as [e|] eqn:El.
  - apply elem_of_list_to_map_2, Hin in El as [-> El]. rewrite decide_True, El by done. simpl. by destruct (t !! x).
  - simpl. rewrite left_id by apply _. case_decide as Hk; [|done]. destruct (data inn !! x) as [e|] eqn:Ed; [|done].
    exfalso. apply not_elem_of_list_to_map_2 in El. apply El, list_elem_of_fmap. exists (x, e). by rewrite Hin.
Qed.

(** *** One step *)
Section OneStep.
Context (x : bytes) (c : Conf) (S L Bf : list LogRec) (R : nat -> list LogRec) (i : nat) (th : Thread) (s : Stepped).
Context (HC : conf_ok c S L Bf R) (HT : tracks x c S L Bf R) (Hi : c_threads c !! i = Some th).
Context (Hgo : tstep os env (th_pc th) (th_rng th) (c_world c) = Some s).
Context (U : unraced x c) (U' : unraced x (moved c i th s)).
Context (Htab : table (inner (st_world s)) = act_table (st_act s) (table (inner (c_world c)))).

Notation i' := (mkThread (th_op th) (st_pc s) (st_rng s)).
Notation c' := (moved c i th s).

Lemma moved_self : c_threads c' !! i = Some i'.
Proof. cbn. apply lookup_insert_eq. Qed.
Lemma moved_other j tj : j ≠ i -> c_threads c !! j = Some tj -> c_threads c' !! j = Some tj.
Proof. intros. cbn. by rewrite lookup_insert_ne. Qed.

(** The row at [x] is as before, and so are the records that decide it. *)
Lemma track_same S' L' Bf' R' : st_act s = None \/ table (inner (st_world s)) !! x = table (inner (c_world c)) !! x -> S' = S ->
  (forall Q, replay_table (S ++ L' ++ Bf' ++ Q) !! x = replay_table (S ++ L ++ Bf ++ Q) !! x) -> (x ∈ writes (st_pc s) <-> x ∈ writes (th_pc th)) ->
  (x ∈ writes (st_pc s) -> replay_table (S ++ L' ++ Bf' ++ R') !! x = replay_table (S ++ L ++ Bf ++ R i) !! x) ->
  (forall k rows, st_pc s = Snap k rows -> replay_table R' !! x = if decide (shard_of x < k)%nat then table (inner (c_world c)) !! x else None) ->
  st_pc s ≠ Truncate -> tracks x c' S' L' Bf' (upd R i R').
Proof.
  intros Ht -> HQ Hwr HR Hs Hcut.
  assert (HT' : table (inner (c_world c')) !! x = table (inner (c_world c)) !! x).
  { destruct Ht as [Ht|Ht]; [|exact Ht]. cbn [c_world moved]. by rewrite Htab, Ht. }
  destruct HT as [T1 T2 T3 T4]. split; rewrite HT'.
  - intros j tj Hj Hx. apply moved_lookup in Hj as [[-> ->]|[Hne Hj]].
    + rewrite upd_eq, HR by done. apply (T1 i th Hi). by apply Hwr.
    + rewrite upd_ne, HQ by done. by apply (T1 j tj).
  - intros Hno. pose proof (HQ []) as H0. rewrite !app_nil_r in H0. rewrite H0. apply T2. intros j tj Hj.
    destruct (decide (j = i)) as [->|Hne]; [|by eapply Hno, moved_other].
    assert (tj = th) as -> by congruence. intros Hx. by apply (Hno i i' moved_self), Hwr.
  - intros j tj k rows Hj Hp. apply moved_lookup in Hj as [[-> ->]|[Hne Hj]]; [rewrite upd_eq; by eapply Hs|].
    rewrite upd_ne by done. by eapply T3.
  - intros j tj Hj Hp. apply moved_lookup in Hj as [[-> ->]|[Hne Hj]]; [done|]. by eapply T4.
Qed.

(** The step changed the row: the thread owes the record. *)
Lemma track_change L' Bf' H : conf_ok c' S L' Bf' (upd R i (R i ++ act_recs (st_act s) ++ H)) ->
  x ∈ map rec_code (act_recs (st_act s)) -> Forall is_hit H -> x ∈ writes (st_pc s) ->
  tracks x c' S L' Bf' (upd R i (R i ++ act_recs (st_act s) ++ H)).
Proof.
  intros HC' Hx HH Hwr. pose proof (co_owes _ _ _ _ _ HC' i i' moved_self) as [Ho _]. rewrite upd_eq in Ho.
  destruct (instance_i64 _ (ba_cfg _ _ _ _ (co_base _ _ _ _ _ HC'))) as [_ I2].
  assert (Hno : forall j tj, c_threads c' !! j = Some tj -> holds_all (th_pc tj) = true -> False).
  { intros j tj Hj Ha. by apply (writer_alone c' _ _ _ _ j i tj i' x HC' Hj moved_self Ha). }
  split.
  - intros j tj Hj Hxj. assert (j = i) as -> by (eapply U'; [exact Hj|exact moved_self|done|done]).
    rewrite upd_eq, !app_assoc, replay_silent_end by by apply silent_hits.
    rewrite replay_table_app. cbn [c_world moved]. rewrite Htab. eapply act_says; [done| |exact I2].
    rewrite !Forall_app in Ho. apply Ho.
  - intros Hn. by destruct (Hn i i' moved_self).
  - intros j tj k rows Hj Hp. destruct (Hno j tj Hj). by rewrite Hp.
  - intros j tj Hj Hp. destruct (Hno j tj Hj). by rewrite Hp.
Qed.

Lemma track_in L' Bf' H : conf_ok c' S L' Bf' (upd R i (R i ++ act_recs (st_act s) ++ H)) -> L' ++ Bf' = L ++ Bf -> Forall is_hit H ->
  writes (st_pc s) = writes (th_pc th) ++ map rec_code (act_recs (st_act s)) -> (forall k rows, st_pc s = Snap k rows -> k = 0%nat /\ R i = []) ->
  st_pc s ≠ Truncate -> tracks x c' S L' Bf' (upd R i (R i ++ act_recs (st_act s) ++ H)).
Proof.
  intros HC' HL HH Hwr Hsn Hcut. destruct (decide (x ∈ map rec_code (act_recs (st_act s)))) as [Hx|Hx].
  { apply track_change; try done. rewrite Hwr, elem_of_app. by right. }
  destruct (act_other (st_act s) x (table (inner (c_world c))) Hx) as [Ht Hsil].
  assert (Hall : silent x (act_recs (st_act s) ++ H)) by (apply Forall_app; split; [done|by apply silent_hits]).
  apply track_same; try done.
  - right. by rewrite Htab.
  - intros Q. by rewrite (app_assoc L'), HL, <- app_assoc.
  - rewrite Hwr, elem_of_app. tauto.
  - intros _. by rewrite (app_assoc L'), HL, <- app_assoc, !app_assoc, <- (app_assoc _ (act_recs _)), replay_silent_end.
  - intros k rows Hp. destruct (Hsn k rows Hp) as [-> ->]. rewrite app_nil_l, decide_False by lia.
    by rewrite <- (app_nil_l (_ ++ H)), replay_silent_end.
Qed.

Lemma track_out L' Bf' : st_act s = None -> L' ++ Bf' = L ++ Bf ++ R i -> (forall k rows, th_pc th ≠ Snap k rows) -> writes (st_pc s) = [] ->
  (forall k rows, st_pc s ≠ Snap k rows) -> st_pc s ≠ Truncate -> tracks x c' S L' Bf' (upd R i []).
Proof.
  intros Ha HL Hns Hwr Hns' Hcut. pose proof (co_owes _ _ _ _ _ HC i th Hi) as Ho. pose proof (owes_silent _ _ _ x Ho) as Hsil.
  assert (HQ : forall Q, S ++ L' ++ Bf' ++ Q = (S ++ L ++ Bf) ++ R i ++ Q) by (intros Q; by rewrite (app_assoc L'), HL, <- !app_assoc).
  destruct (decide (x ∈ writes (th_pc th))) as [Hx|Hx].
  - assert (HT' : table (inner (c_world c')) = table (inner (c_world c))) by (cbn [c_world moved]; by rewrite Htab, Ha).
    destruct HT as [T1 T2 T3 T4]. split; rewrite HT'.
    + intros j tj Hj Hxj. apply moved_lookup in Hj as [[-> ->]|[Hne Hj]]; [cbn [th_pc] in Hxj; rewrite Hwr in Hxj; by apply not_elem_of_nil in Hxj|].
      destruct Hne. by eapply U.
    + intros _. pose proof (HQ []) as H0. rewrite !app_nil_r in H0. rewrite H0, <- !app_assoc. by apply (T1 i th).
    + intros j tj k rows Hj Hp. apply moved_lookup in Hj as [[-> ->]|[Hne Hj]]; [by destruct (Hns' k rows)|]. rewrite upd_ne by done. by eapply T3.
    + intros j tj Hj Hp. apply moved_lookup in Hj as [[-> ->]|[Hne Hj]]; [done|]. by eapply T4.
  - specialize (Hsil Hx Hns). apply track_same; try done.
    + by left.
    + intros Q. rewrite HQ, replay_silent_mid by done. by rewrite <- !app_assoc.
    + rewrite Hwr. split; [by intros ?%not_elem_of_nil|done].
    + intros _. by rewrite HQ, app_nil_r, <- !app_assoc.
    + intros k rows Hp. by destruct (Hns' k rows).
Qed.

Lemma track_rows k rows : st_act s = None -> th_pc th = Snap k rows -> (k < NUM_SHARDS)%nat ->
  st_pc s = Snap (Datatypes.S k) (rows ++ shard_rows k (inner (c_world c))) -> tracks x c' S L Bf (upd R i (R i ++ shard_recs k (inner (c_world c)))).
Proof.
  intros Ha Hp Hk Hp'. pose proof (co_base _ _ _ _ _ HC) as [Hc Hx _ _ _]. apply track_same; try done.
  - by left.
  - by rewrite Hp, Hp'.
  - rewrite Hp'. by intros ?%not_elem_of_nil.
  - intros k' rows'. rewrite Hp'. intros [= <- <-]. rewrite replay_table_app, rows_at by done. pose proof (tk_snap _ _ _ _ _ _ HT i th k rows Hi Hp) as Hold.
    destruct (decide (shard_of x = k)) as [He|He].
    + rewrite Hold, (decide_False (P := (shard_of x < k)%nat)), (decide_True (P := (shard_of x < Datatypes.S k)%nat)) by lia. by destruct (table _ !! x).
    + rewrite Hold. repeat case_decide; done || lia.
  - by rewrite Hp'.
Qed.

(** Compaction is alone: nobody else has a record or a snapshot. *)
Lemma track_alone S' : holds_all (th_pc th) = true -> writes (st_pc s) = [] -> (forall k rows, st_pc s ≠ Snap k rows) -> st_act s = None ->
  replay_table S' !! x = table (inner (c_world c)) !! x -> forall L' Bf', L' ++ Bf' = [] \/ L' ++ Bf' = L ++ Bf -> tracks x c' S' L' Bf' (upd R i []).
Proof.
  intros Hall Hwr Hns Ha HS L' Bf' HL.
  assert (Hno : forall j tj, c_threads c !! j = Some tj -> x ∉ writes (th_pc tj)) by (intros j tj Hj; by eapply (writer_alone c S L Bf R i j th)).
  assert (HT' : table (inner (c_world c')) = table (inner (c_world c))) by (cbn [c_world moved]; by rewrite Htab, Ha).
  assert (Hother : forall j tj, j ≠ i -> c_threads c !! j = Some tj -> holds_all (th_pc tj) = false).
  { intros j tj Hne Hj. by apply (co_gate _ _ _ _ _ HC i j th tj Hi Hj (not_eq_sym Hne)). }
  split; rewrite HT'.
  - intros j tj Hj Hx. exfalso. apply moved_lookup in Hj as [[-> ->]|[Hne Hj]]; [cbn [th_pc] in Hx; rewrite Hwr in Hx; by apply not_elem_of_nil in Hx|].
    by apply (Hno j tj).
  - intros _. destruct HL as [->| ->]; [by rewrite app_nil_r|]. destruct (fold_decides x (L ++ Bf)) as [Hs|Hd].
    + by rewrite replay_silent_end.
    + rewrite <- (tk_none _ _ _ _ _ _ HT Hno), !replay_table_app. apply Hd.
  - intros j tj k rows Hj Hp. apply moved_lookup in Hj as [[-> ->]|[Hne Hj]]; [by destruct (Hns k rows)|].
    apply Hother in Hj; [|done]. by rewrite Hp in Hj.
  - intros j tj Hj Hp. done.
Qed.

Lemma go_tracks S' L' Bf' R' : moves S L Bf (R i) (th_pc th) s (inner (c_world c)) S' L' Bf' R' -> conf_ok c' S' L' Bf' (upd R i R') ->
  tracks x c' S' L' Bf' (upd R i R').
Proof.
  intros M HC'. destruct M as [L' Bf' H HL HH Hwr Hsn Hcut|L' Bf' Ha HL Hns Hwr Hns' Hcut|k rows Ha Hp Hk Hp'|k rows Ha Hp Hk Hp'|Ha Hp Hp'].
  - by apply track_in.
  - by apply track_out.
  - by eapply track_rows.
  - apply track_alone; rewrite ?Hp, ?Hp'; try done; [|by right]. rewrite (tk_snap _ _ _ _ _ _ HT i th k rows Hi Hp), decide_True; [done|].
    pose proof (shard_of_lt x). lia.
  - apply track_alone; rewrite ?Hp, ?Hp'; try done; [|by left]. by apply (tk_cut _ _ _ _ _ _ HT i th).
Qed.
End OneStep.

Lemma call_tracks x c S L Bf R i o g : tracks x c S L Bf R -> c_threads c !! i = None -> tracks x (called c i o g) S L Bf (upd R i []).
Proof.
  intros [T1 T2 T3 T4] Hi. split; cbn [called c_world].
  - intros j tj Hj Hx. apply called_lookup in Hj as [[-> ->]|[Hne Hj]]; [by apply not_elem_of_nil in Hx|]. rewrite upd_ne by done. by eapply T1.
  - intros Hn. apply T2. intros j tj Hj. apply (Hn j). cbn. by rewrite lookup_insert_ne by congruence.
  - intros j tj k rows Hj Hp. apply called_lookup in Hj as [[-> ->]|[Hne Hj]]; [done|]. rewrite upd_ne by done. by eapply T3.
  - intros j tj Hj Hp. apply called_lookup in Hj as [[-> ->]|[Hne Hj]]; [done|]. by eapply T4.
Qed.

Lemma tracks_start x w S L Bf : table (inner w) = replay_table (S ++ L ++ Bf) -> tracks x (mkConf w ∅) S L Bf (fun _ => []).
Proof. intros Ht. split; cbn [c_world c_threads]; [intros i th; by rewrite lookup_empty|by rewrite Ht|..]; intros i th; by rewrite lookup_empty. Qed.
End Inv.
