(* ===== verification/ConcurrentSpec.v ===== *)
(** * The specification of concurrent requests

    What an answer says of the index ([answered]), as a sequence of acts on a
    table ([happens]); that every schedule keeps to it ([schedule_keeps]);
    and what a step costs ([cost]). *)

From S2P Require Import Prelude CLib Common Codec Aof Store StoreFacts StoreSpec Durability Recovery Siblings Concurrent ConcurrentFacts.
From S2P Require Import ConcurrentSteps ConcurrentInv.

(** ** The specification: acts on a table *)

(** The acts happen one after the other, each true when it happens. *)
Fixpoint happens (h : Hist) (t t' : Table) : Prop :=
  match h with
  | [] => t' = t
  | (_, a) :: h => act_true (Some a) t /\ happens h (act_table (Some a) t) t'
  end.

Definition acts_of (i : nat) (h : Hist) : list Act := omap (fun ia => if decide (fst ia = i) then Some (snd ia) else None) h.

Definition made (now exp inst : Z) (cu : bytes * bytes) : Act := Made (fst cu) (mkRow (snd cu) now exp inst).

(** The acts of an operation explain its answer. *)
Definition answered (inst : Z) (o : StoreOp) (a : Answer) (h : list Act) : Prop :=
  match o, a with
  | DoShorten url alias ttl, ACode (Some c) =>
      exists now, h = [made now (expiry now ttl) inst (c, url)] /\ (alias = None \/ alias = Some c)
  | DoShorten _ (Some c) _, ACode None => exists r, h = [Saw c (Some r)]
  | DoShortenMany urls ttl, ACodes cs =>
      length cs = length urls /\ exists now, h = map (made now (expiry now ttl) inst) (zip cs urls)
  | DoResolve c, AUrl (Some u) => exists r pre, h = pre ++ [Saw c (Some r)] /\ r_u r = u /\ (pre = [] \/ pre = [Saw c None])
  | DoResolve c, AUrl None =>
      exists r pre, h = pre ++ [Saw c r] /\ (pre = [] \/ pre = [Saw c None]) /\ (forall r', r = Some r' -> r_e r' ≠ 0)
  | DoUpdate c url ttl has, AMut MOk =>
      exists old e, h = [Changed c old (mkRow url (r_a old) e (r_i old))] /\ r_i old = inst /\
        (if has then exists now, e = expiry now ttl else e = r_e old)
  | DoRemove c, AMut MOk => exists old, h = [Erased c old] /\ r_i old = inst
  | DoUpdate c _ _ _, AMut MMissing | DoRemove c, AMut MMissing => h = [Saw c None]
  | DoUpdate c _ _ _, AMut MRemote | DoRemove c, AMut MRemote => exists r, h = [Saw c (Some r)] /\ r_i r ≠ inst
  | (DoFlush | DoSync | DoPoll | DoCompact), AUnit => h = []
  | _, _ => False
  end.

(** What a thread has done when it is at [pc]. *)
Definition so_far (inst : Z) (o : StoreOp) (pc : Pc) (h : list Act) : Prop :=
  match pc with
  | Start o' => o' = o /\ h = []
  | Insert url alias now exp => (exists ttl, o = DoShorten url alias ttl /\ exp = expiry now ttl) /\ h = []
  | LogNew c _ _ _ | CountNew c => answered inst o (ACode (Some c)) h
  | InsertMany us now exp codes _ =>
      exists urls ttl, o = DoShortenMany (urls ++ us) ttl /\ exp = expiry now ttl /\ length codes = length urls /\
        h = map (made now exp inst) (zip codes urls)
  | LogMany codes _ | CountMany codes => answered inst o (ACodes codes) h
  | LookTail c | LookAgain c => o = DoResolve c /\ h = [Saw c None]
  | Bump _ url => answered inst o (AUrl (Some url)) h
  | LogUpdate _ _ _ _ | LogRemove _ | CountRemove => answered inst o (AMut MOk) h
  | Collect all _ _ => o = (if all then DoCompact else DoFlush) /\ h = []
  | OpenSnap | Snap _ _ | Truncate => o = DoCompact /\ h = []
  | Finished a => answered inst o a h
  end.

Section Spec.
Context {std : StdImpl} (os : Os) (env : Env).

Definition act_list (a : option Act) : list Act := match a with Some a => [a] | None => [] end.

Lemma so_far_found o c e g w h : o = DoResolve c -> h = [] \/ h = [Saw c None] ->
  let s := resolve_found os env c e g w in so_far (instance (inner w)) o (st_pc s) (h ++ act_list (st_act s)).
Proof.
  intros -> Hh. unfold resolve_found. pose proof (live_spec os (e_e e) (sys w)) as [Hl _]. destruct (live os (e_e e) (sys w)) as [ok s].
  destruct ok; cbn [negb]; [destruct (track_hits env)|]; cbn; exists (Some (row_of e)) || exists (row_of e); exists h; split_and!; try done.
  intros r [= <-] He. simpl in *. by rewrite He in Hl.
Qed.

Lemma so_far_update c url ttl has g w : let s := update_entry os c url ttl has g w in
  so_far (instance (inner w)) (DoUpdate c url ttl has) (st_pc s) (act_list (st_act s)).
Proof.
  unfold update_entry. destruct (find (inner w) c) as [e|]; [|done].
  destruct (e_i e =? instance (inner w)) eqn:Ei; bool_facts; cbn [negb]; [|cbn; eexists; by split].
  unfold expiry. destruct has; [destruct (0 <? ttl) eqn:Et|]; cbn; exists (row_of e); eexists; (split; [reflexivity|]); (split; [done|]); try done.
  - eexists. unfold expiry. by rewrite Et.
  - exists 0. unfold expiry. by rewrite Et.
Qed.

Lemma so_far_remove c g w : let s := remove_entry c g w in so_far (instance (inner w)) (DoRemove c) (st_pc s) (act_list (st_act s)).
Proof.
  unfold remove_entry. destruct (find (inner w) c) as [e|]; [|done].
  destruct (e_i e =? instance (inner w)) eqn:Ei; bool_facts; cbn; eexists; by split.
Qed.

Lemma so_far_start o g w : so_far (instance (inner w)) o (st_pc (start os env o g w)) (act_list (st_act (start os env o g w))).
Proof.
  destruct o as [url al ttl|urls ttl|c|c url ttl has|c| | | |]; cbn [start]; try done; try apply so_far_update; try apply so_far_remove.
  - split; [by eexists|done].
  - by exists [], ttl.
  - unfold resolve_look. destruct (find (inner w) c) as [e|]; [apply (so_far_found _ c e g w []); by auto|].
    destruct (aof (inner w)); [done|]. exists None, []. split_and!; try done. by left.
  - unfold flush_start. by destruct (aof (inner w)).
  - unfold flush_start. by destruct (aof (inner w)).
Qed.

Lemma so_far_insert o url al now exp g w : (exists ttl, o = DoShorten url al ttl /\ exp = expiry now ttl) ->
  let s := shorten_insert url al now exp g w in so_far (instance (inner w)) o (st_pc s) (act_list (st_act s)).
Proof.
  intros (ttl & -> & ->). unfold shorten_insert. destruct al as [c|]; [|destruct (gen_code (inner w) g) as [c g']].
  - destruct (find (inner w) c); [by eexists|]. exists now. split; [done|by right].
  - destruct (find (inner w) c); [split; [by exists ttl|done]|]. exists now. split; [done|by left].
Qed.

Lemma so_far_many o us now exp codes lines g w h : so_far (instance (inner w)) o (InsertMany us now exp codes lines) h ->
  let s := many_insert us now exp codes lines g w in so_far (instance (inner w)) o (st_pc s) (h ++ act_list (st_act s)).
Proof.
  intros Ho. pose proof Ho as (urls & ttl & -> & -> & Hlen & ->). unfold many_insert. destruct us as [|u us].
  - rewrite !app_nil_r. split; [done|]. by exists now.
  - destruct (gen_code (inner w) g) as [c g']. destruct (find (inner w) c); [rewrite app_nil_r; exact Ho|].
    exists (urls ++ [u]), ttl. split; [by rewrite <- app_assoc|]. split; [done|]. rewrite !length_app, Hlen. split; [done|].
    cbn [st_act act_list]. rewrite zip_with_app, map_app by done. done.
Qed.

Lemma so_far_step o pc g w h s : so_far (instance (inner w)) o pc h -> tstep os env pc g w = Some s ->
  so_far (instance (inner w)) o (st_pc s) (h ++ act_list (st_act s)).
Proof.
  destruct pc as [o'|url al now exp|c url now exp|c|us now exp codes lines|codes lines|codes|c|c|c url|c url a exp|c| |all k lines| |k rows| |];
    cbn [tstep]; intros Ho [= <-]; try (rewrite app_nil_r; exact Ho); try (destruct Ho as [Ho ->]); cbn [app].
  - subst o'. apply so_far_start.
  - by apply so_far_insert.
  - by apply so_far_many.
  - unfold resolve_again. destruct (find (inner w) c) as [e|]; [apply (so_far_found o c e g w [Saw c None]); by auto|]. subst o.
    exists None, [Saw c None]. split_and!; try done. by right.
  - unfold flush_collect. destruct (k <? NUM_SHARDS)%nat; [by split|]. destruct all; [by split|]. by subst.
  - unfold open_snap. destruct (open_write _ _ _ _) as [[]]; by split.
  - unfold snap_shard. destruct (k <? NUM_SHARDS)%nat; by split.
  - by subst.
Qed.

(** ** Whole schedules *)
Lemma acts_of_app i a b : acts_of i (a ++ b) = acts_of i a ++ acts_of i b.
Proof. apply omap_app. Qed.
Lemma acts_of_hist i a : acts_of i (act_hist i a) = act_list a.
Proof. destruct a; [|done]. cbn. by rewrite decide_True. Qed.
Lemma acts_of_other i j a : i ≠ j -> acts_of j (act_hist i a) = [].
Proof. intros H. destruct a; [|done]. cbn. by rewrite decide_False. Qed.

(** The acts so far explain where each thread is. *)
Record told (inst : Z) (c : Conf) (h : Hist) : Prop := {
  to_thread : forall i th, c_threads c !! i = Some th -> so_far inst (th_op th) (th_pc th) (acts_of i h);
  to_none : forall i, c_threads c !! i = None -> acts_of i h = []
}.

Lemma told_event e c c' h0 h : told (instance (inner (c_world c))) c h0 -> event os env e c = Some (c', h) ->
  told (instance (inner (c_world c))) c' (h0 ++ h).
Proof.
  intros [T1 T2] He. apply event_cases in He as [(i & o & g & -> & Hi & -> & ->)|(i & th & s & -> & Hi & Ho & Hs & -> & ->)].
  - rewrite app_nil_r. split.
    + intros j tj Hj. apply called_lookup in Hj as [[-> ->]|[Hne Hj]]; [|by apply T1]. split; [done|by apply T2].
    + intros j. cbn. rewrite lookup_insert_None. intros [? _]. by apply T2.
  - split.
    + intros j tj Hj. rewrite acts_of_app. apply moved_lookup in Hj as [[-> ->]|[Hne Hj]].
      * rewrite acts_of_hist. eapply so_far_step; [by apply (T1 i th)|exact Hs].
      * rewrite acts_of_other, app_nil_r by congruence. by apply T1.
    + intros j. cbn. rewrite lookup_insert_None. intros [? ?]. rewrite acts_of_app, acts_of_other, app_nil_r by done. by apply T2.
Qed.

Context (Hw : no_io_error (os_write os)).

Lemma happens_hist i a t : act_true a t -> happens (act_hist i a) t (act_table a t).
Proof. by destruct a. Qed.
Lemma happens_app h1 h2 : forall t1 t2 t3, happens h1 t1 t2 -> happens h2 t2 t3 -> happens (h1 ++ h2) t1 t3.
Proof. induction h1 as [|[i a] h1 IH]; intros t1 t2 t3; [by intros ->|]. intros [? ?] ?. split; [done|]. by eapply IH. Qed.

Lemma event_keeps e c S L Bf R c' h : conf_ok c S L Bf R -> call_ok e -> event os env e c = Some (c', h) ->
  same_config (inner (c_world c')) (inner (c_world c)) /\ happens h (table (inner (c_world c))) (table (inner (c_world c'))) /\
  exists S' L' Bf' R', conf_ok c' S' L' Bf' R' /\
    forall x, tracks x c S L Bf R -> unraced x c -> unraced x c' -> tracks x c' S' L' Bf' R'.
Proof.
  intros HC Hok He. apply event_cases in He as [(i & o & g & -> & Hi & -> & ->)|(i & th & s & -> & Hi & Ho & Hs & -> & ->)].
  - split; [done|]. split; [done|]. exists S, L, Bf, (upd R i []). split; [by apply call_conf|]. intros x HT _ _. by apply call_tracks.
  - destruct (go_conf os env Hw c S L Bf R i th s HC Hi Ho Hs) as (C & A & T & S' & L' & Bf' & R' & M & HC').
    split; [done|]. split; [cbn [c_world moved]; rewrite T; by apply happens_hist|].
    exists S', L', Bf', (upd R i R'). split; [done|]. intros x HT U U'. by eapply go_tracks.
Qed.

(** A property of every configuration a schedule goes through. *)
Fixpoint along (P : Conf -> Prop) (es : list Event) (c : Conf) : Prop :=
  P c /\ match es with [] => True | e :: es => match event os env e c with Some (c1, _) => along P es c1 | None => True end end.

#[export] Instance along_dec P `{forall c, Decision (P c)} es : forall c, Decision (along P es c).
Proof. induction es as [|e es IH]; intros c; simpl; [apply _|]. destruct (event os env e c) as [[c1 h]|]; apply _. Defined.

Lemma schedule_keeps es : forall c h0 S L Bf R c' h, conf_ok c S L Bf R -> told (instance (inner (c_world c))) c h0 -> Forall call_ok es ->
  schedule os env es c = Some (c', h) ->
  same_config (inner (c_world c')) (inner (c_world c)) /\ happens h (table (inner (c_world c))) (table (inner (c_world c'))) /\
  told (instance (inner (c_world c))) c' (h0 ++ h) /\
  exists S' L' Bf' R', conf_ok c' S' L' Bf' R' /\ forall x, tracks x c S L Bf R -> along (unraced x) es c -> tracks x c' S' L' Bf' R'.
Proof.
  induction es as [|e es IH]; intros c h0 S L Bf R c' h HC HT Hok Hs.
  { injection Hs as <- <-. rewrite app_nil_r. split_and!; try done. exists S, L, Bf, R. by split. }
  apply Forall_cons in Hok as [He Hok]. cbn [schedule] in Hs. destruct (event os env e c) as [[c1 h1]|] eqn:Ee; [|done].
  destruct (schedule os env es c1) as [[c2 h2]|] eqn:Es; [|done]. injection Hs as <- <-.
  destruct (event_keeps e c S L Bf R c1 h1 HC He Ee) as (C1 & P1 & S1 & L1 & B1 & R1 & HC1 & K1).
  pose proof (told_event e c c1 h0 h1 HT Ee) as HT1. pose proof C1 as (I1 & _). rewrite <- I1 in HT1.
  destruct (IH c1 (h0 ++ h1) S1 L1 B1 R1 c2 h2 HC1 HT1 Hok Es) as (C2 & P2 & T2 & S2 & L2 & B2 & R2 & HC2 & K2).
  rewrite <- app_assoc, I1 in T2. split_and!; [by etrans|by eapply happens_app|done|]. exists S2, L2, B2, R2. split; [done|].
  intros x Hx [U Hal]. rewrite Ee in Hal. apply K2; [|done]. apply K1; [done|done|]. by destruct es as [|? ?], Hal.
Qed.

Lemma schedule_from es w S L Bf c h : base w S L Bf -> Forall call_ok es -> schedule os env es (mkConf w ∅) = Some (c, h) ->
  same_config (inner (c_world c)) (inner w) /\ happens h (table (inner w)) (table (inner (c_world c))) /\ told (instance (inner w)) c h /\
  exists S' L' Bf' R', conf_ok c S' L' Bf' R' /\
    forall x, table (inner w) = replay_table (S ++ L ++ Bf) -> along (unraced x) es (mkConf w ∅) -> tracks x c S' L' Bf' R'.
Proof.
  intros D Hok Hs. destruct (schedule_keeps es (mkConf w ∅) [] S L Bf (fun _ => []) c h) as (C & P & T & S' & L' & B' & R' & HC & K); try done.
  split_and!; try done. exists S', L', B', R'. split; [done|]. intros x Ht Hal. apply K; [by apply tracks_start|done].
Qed.

(** ** Progress *)

(** The steps a thread still makes if no drawn code is taken. *)
Definition cost (pc : Pc) : nat :=
  match pc with
  | Start (DoShorten _ _ _) => 4 | Insert _ _ _ _ => 3 | LogNew _ _ _ _ => 2 | CountNew _ => 1
  | Start (DoShortenMany us _) => length us + 4 | InsertMany us _ _ _ _ => length us + 3 | LogMany _ _ => 2 | CountMany _ => 1
  | Start (DoResolve _) => 4 | LookTail _ => 3 | LookAgain _ => 2 | Bump _ _ => 1
  | Start (DoUpdate _ _ _ _) => 2 | LogUpdate _ _ _ _ => 1
  | Start (DoRemove _) => 3 | LogRemove _ => 2 | CountRemove => 1
  | Start DoFlush => NUM_SHARDS + 2 | Collect false k _ => NUM_SHARDS - k + 1
  | Start DoCompact => NUM_SHARDS + NUM_SHARDS + 5 | Collect true k _ => NUM_SHARDS - k + NUM_SHARDS + 4
  | OpenSnap => NUM_SHARDS + 3 | Snap k _ => NUM_SHARDS - k + 2 | Truncate => 1
  | Start (DoSync | DoPoll) => 1
  | Finished _ => 0
  end.

(** The thread drew a code that is in the index, and draws again. *)
Definition redraws (pc : Pc) (g : Z) (w : World) (s : Stepped) : Prop :=
  exists code, gen_code (inner w) g = (code, st_rng s) /\ is_Some (find (inner w) code) /\ st_pc s = pc /\ st_world s = w.

Lemma cost_found c e g w : (cost (st_pc (resolve_found os env c e g w)) <= 1)%nat.
Proof. unfold resolve_found. destruct (live os (e_e e) (sys w)) as [[] s]; [destruct (track_hits env)|]; simpl; lia. Qed.

Lemma cost_start o g w : (cost (st_pc (start os env o g w)) < cost (Start o))%nat.
Proof.
  destruct o as [url al ttl|urls ttl|c|c url ttl has|c| | | |]; cbn [start]; try (simpl; lia).
  - unfold resolve_look. destruct (find (inner w) c) as [e|]; [pose proof (cost_found c e g w); simpl; lia|]. destruct (aof (inner w)); simpl; lia.
  - unfold update_entry. repeat case_match; simpl; lia.
  - unfold remove_entry. repeat case_match; simpl; lia.
  - unfold flush_start. destruct (aof (inner w)); cbn [cost st_pc]; lia.
  - unfold flush_start. destruct (aof (inner w)); cbn [cost st_pc]; lia.
Qed.

Lemma tstep_cost pc g w s : tstep os env pc g w = Some s -> (cost (st_pc s) < cost pc)%nat \/ redraws pc g w s.
Proof.
  destruct pc as [o'|url al now exp|c url now exp|c|us now exp codes lines|codes lines|codes|c|c|c url|c url a exp|c| |all k lines| |k rows| |];
    cbn [tstep]; intros [= <-]; try (left; simpl; lia).
  - left. apply cost_start.
  - unfold shorten_insert. destruct al as [c|]; [left; destruct (find (inner w) c); simpl; lia|].
    destruct (gen_code (inner w) g) as [c g'] eqn:Eg. destruct (find (inner w) c) eqn:E; [right; by exists c|left; simpl; lia].
  - unfold many_insert. destruct us as [|u us]; [left; simpl; lia|].
    destruct (gen_code (inner w) g) as [c g'] eqn:Eg. destruct (find (inner w) c) eqn:E; [right; by exists c|left; simpl; lia].
  - left. unfold resolve_again. destruct (find (inner w) c) as [e|]; [pose proof (cost_found c e g w)|]; simpl; lia.
  - left. unfold flush_collect. destruct (k <? NUM_SHARDS)%nat eqn:Ek.
    + apply Nat.ltb_lt in Ek. destruct all; cbn [cost st_pc]; lia.
    + destruct all; cbn [cost st_pc]; lia.
  - left. unfold open_snap. destruct (open_write _ _ _ _) as [[]]; cbn [cost st_pc]; lia.
  - left. unfold snap_shard. destruct (k <? NUM_SHARDS)%nat eqn:Ek; cbn [cost st_pc]; [apply Nat.ltb_lt in Ek|]; lia.
Qed.

Lemma go_event c i th : c_threads c !! i = Some th -> (forall a, th_pc th ≠ Finished a) -> gate_open (th_pc th) c = true ->
  exists s, event os env (Go i) c = Some (moved c i th s, act_hist i (st_act s)) /\
    ((cost (st_pc s) < cost (th_pc th))%nat \/ redraws (th_pc th) (th_rng th) (c_world c) s).
Proof.
  intros Hi Hn Ho. cbn [event]. rewrite Hi, Ho. cbn [negb].
  destruct (tstep os env (th_pc th) (th_rng th) (c_world c)) as [s|] eqn:Es; [|destruct (th_pc th); try done; by destruct (Hn a)].
  exists s. split; [done|by apply tstep_cost].
Qed.

Lemma gate_open_free pc c : wants_gate pc = false -> wants_all pc = false -> gate_open pc c = true.
Proof. unfold gate_open. by intros -> ->. Qed.
Lemma holder_runs pc : holds_gate pc = true \/ holds_all pc = true -> wants_gate pc = false /\ wants_all pc = false /\ forall a, pc ≠ Finished a.
Proof. destruct pc as [| | | | | | | | | | | | |[] ? ?| | | |]; naive_solver. Qed.

(** Some thread can go: one that holds the gate, or else any. *)
Lemma some_thread_goes c : (exists i th, c_threads c !! i = Some th /\ forall a, th_pc th ≠ Finished a) ->
  exists i th, c_threads c !! i = Some th /\ (forall a, th_pc th ≠ Finished a) /\ gate_open (th_pc th) c = true.
Proof.
  intros (i & th & Hi & Hn).
  destruct (decide (map_Forall (fun _ t => holds_gate (th_pc t) || holds_all (th_pc t) = false) (c_threads c))) as [Hno|Hyes].
  - exists i, th. split_and!; try done. unfold gate_open.
    rewrite (bool_decide_eq_true_2 (map_Forall (fun _ t => holds_gate (th_pc t) || holds_all (th_pc t) = false) (c_threads c))) by done.
    rewrite bool_decide_eq_true_2; [by rewrite !orb_true_r|]. intros j tj Hj. specialize (Hno j tj Hj). by apply orb_false_elim in Hno as [].
  - apply map_not_Forall in Hyes as (j & tj & Hj & Hb); [|apply _]. apply not_false_is_true, orb_prop in Hb.
    destruct (holder_runs (th_pc tj)) as (G1 & G2 & G3); [tauto|]. exists j, tj. split_and!; try done. by apply gate_open_free.
Qed.
End Spec.
