(* ===== verification/ConcurrentClaims.v ===== *)
(** * Claims on concurrent requests

    What the answers say of the index, what reaches the files, and that the
    gate blocks nobody forever; and the three interleavings that are not what
    a client would expect. *)

From S2P Require Import Prelude CLib Common Codec Aof Store StoreFacts StoreSpec Durability Recovery Siblings Concurrent ConcurrentFacts.
From S2P Require Import ConcurrentSteps ConcurrentInv ConcurrentSpec.

(** ** A schedule to try them on

    A code is created, visited, and changed while a flush walks the shards;
    thread 2 looks before the code is there. *)
Definition race_events : list Event :=
  [Call 0 (DoShorten (B "http://a") (Some (B "x")) 0) 1; Call 1 (DoResolve (B "x")) 1; Call 2 (DoResolve (B "x")) 1; Go 2; Go 0; Go 0; Go 1;
   Call 3 (DoUpdate (B "x") (B "http://b") 0 false) 1; Go 2; Go 0; Go 0; Call 4 DoFlush 1; Go 4; Go 3; Go 4; Go 1; Go 3; Go 2].

Definition race_conf : option (Conf * Hist) := schedule (std := RefStd) RefOs Env0 race_events (mkConf demo_open ∅).

Lemma demo_open_durable : durable demo_open [] [] [].
Proof. eapply (open_store_full (std := RefStd) RefOs); [exact RefOs_read|exact empty_dir_ok|exact demo_open_eq]. Qed.

(** ** The claims *)

(** C5 However the steps of the requests interleave, the index goes through
    the recorded acts one after the other, each of them true at its moment,
    and the answer of a finished request is explained by its own acts and no
    others: a created code was free when it was taken, a refused alias was
    there, a url given out was the one of the code, a change or removal was
    made to the row it names, and flushing and compacting change nothing. *)
Theorem requests_are_explained {std : StdImpl} os env w S L Bf es c h :
  no_io_error (os_write os) -> durable w S L Bf -> Forall call_ok es -> schedule os env es (mkConf w ∅) = Some (c, h) ->
  happens h (table (inner w)) (table (inner (c_world c))) /\
  forall i o a g, c_threads c !! i = Some (mkThread o (Finished a) g) -> answered (instance (inner w)) o a (acts_of i h).
Proof.
  intros Hw D Hok Hs. destruct (schedule_from os env Hw es w S L Bf c h (durable_base _ _ _ _ D) Hok Hs) as (_ & P & T & _).
  split; [done|]. intros i o a g Hi. apply (to_thread _ _ _ T i _ Hi).
Qed.

Lemma race_events_ok : Forall call_ok race_events.
Proof.
  assert (Hc : plain_code (B "x")).
  { split_and!; [done|repeat constructor; done|by apply (bool_decide_unpack (_ ∉ _))]. }
  repeat (constructor; [by (simpl; auto)|]). constructor.
Qed.

Lemma requests_are_explained_witness :
  match race_conf with
  | Some (c, h) =>
      happens h (table (inner demo_open)) (table (inner (c_world c))) /\
      answered 0 (DoResolve (B "x")) (AUrl (Some (B "http://a"))) (acts_of 1 h)
  | None => False
  end.
Proof.
  destruct race_conf as [[c h]|] eqn:E; [|by vm_compute in E].
  destruct (requests_are_explained (std := RefStd) RefOs Env0 demo_open [] [] [] race_events c h RefOs_write demo_open_durable race_events_ok E) as [H1 H2].
  split; [exact H1|]. refine (H2 1%nat (DoResolve (B "x")) (AUrl (Some (B "http://a"))) 1 _).
  enough (Hb : (match race_conf with Some (c, _) => c_threads c !! 1%nat | None => None end)
    = Some (mkThread (DoResolve (B "x")) (Finished (AUrl (Some (B "http://a")))) 1)) by (rewrite E in Hb; exact Hb).
  vm_compute. reflexivity.
Defined.

(** C6 A link survives a restart whatever the other requests do: if no two
    of them ever have a change of its code still to log at the same time,
    then at every moment at which none has, flushing and opening the
    directory again gives back its row, or its absence; also in the middle of
    a compaction or a flush. *)
Theorem unraced_links_survive {std : StdImpl} os env w S L Bf es c h x seed links :
  no_io_error (os_write os) -> no_io_error (os_read os) -> durable w S L Bf -> Forall call_ok es ->
  schedule os env es (mkConf w ∅) = Some (c, h) -> along os env (unraced x) es (mkConf w ∅) ->
  map_Forall (fun _ th => x ∉ writes (th_pc th)) (c_threads c) ->
  exists w2, open_store os (dir (inner w)) (instance (inner w)) (sys (flush_store os (c_world c))) seed links = inl w2 /\
    table (inner w2) !! x = table (inner (c_world c)) !! x.
Proof.
  intros Hw Hr D Hok Hs Hal Hno.
  destruct (schedule_from os env Hw es w S L Bf c h (durable_base _ _ _ _ D) Hok Hs) as ((I1 & _ & I3 & _) & _ & _ & S' & L' & B' & R' & HC & K).
  specialize (K x (du_table _ _ _ _ D) Hal). pose proof (tk_none _ _ _ _ _ _ K Hno) as Ht.
  destruct (base_flush_store os Hw _ _ _ _ (co_base _ _ _ _ _ HC)) as [D2 _].
  pose proof (flush_store_frame os _ (proj1 (ba_index _ _ _ _ (co_base _ _ _ _ _ HC)))) as (_ & (J1 & _ & J3 & _) & _).
  set (wf := flush_store os (c_world c)) in *. rewrite <- I1, <- I3, <- J1, <- J3. pose proof (ba_recs _ _ _ _ D2) as HR.
  pose proof (ba_disk _ _ _ _ D2) as (_ & _ & _ & _ & _ & _ & _ & HL & _). rewrite !Forall_app in HR.
  assert (Hd : dir_ok (dir (inner wf)) (instance (inner wf)) (sys wf) S' (L' ++ B' ++ hit_recs (inner (c_world c))) []).
  { apply (base_dir wf _ _ _ _ D2); try done; [by rewrite app_nil_r|apply not_elem_of_nil|rewrite !Forall_app; tauto]. }
  destruct (open_store_ok os _ _ _ seed links _ _ _ Hr Hd) as (w2 & E & T2 & _). exists w2. split; [exact E|].
  rewrite T2, (app_assoc L'), (app_assoc S'), replay_table_hits by apply hit_recs_hits. exact Ht.
Qed.

Lemma unraced_links_survive_witness :
  match race_conf with
  | Some (c, _) =>
      exists w2, open_store (std := RefStd) RefOs (dir (inner demo_open)) (instance (inner demo_open)) (sys (flush_store (std := RefStd) RefOs (c_world c))) 7 0 = inl w2 /\
        table (inner w2) !! B "x" = table (inner (c_world c)) !! B "x"
  | None => False
  end.
Proof.
  destruct race_conf as [[c h]|] eqn:E; [|by vm_compute in E].
  apply (unraced_links_survive (std := RefStd) RefOs Env0 demo_open [] [] [] race_events c h (B "x") 7 0 RefOs_write RefOs_read demo_open_durable race_events_ok E).
  - apply (bool_decide_unpack _). vm_compute. exact I.
  - enough (Hb : (match race_conf with Some (c, _) => bool_decide (map_Forall (fun _ th => B "x" ∉ writes (th_pc th)) (c_threads c)) | None => false end) = true)
      by (rewrite E in Hb; by apply bool_decide_eq_true in Hb).
    vm_compute. reflexivity.
Defined.

(** C15 The gate blocks nobody forever: in every configuration with an
    unfinished request some unfinished request can make a step, and a step
    brings a request nearer to its end unless it drew a code that is taken. *)
Theorem never_stuck {std : StdImpl} os env c :
  (exists i th, c_threads c !! i = Some th /\ forall a, th_pc th ≠ Finished a) ->
  exists i th s, c_threads c !! i = Some th /\ event os env (Go i) c = Some (moved c i th s, act_hist i (st_act s)) /\
    ((cost (st_pc s) < cost (th_pc th))%nat \/ redraws (th_pc th) (th_rng th) (c_world c) s).
Proof.
  intros H. apply some_thread_goes in H as (i & th & Hi & Hn & Ho). destruct (go_event os env c i th Hi Hn Ho) as (s & Hs & Hc).
  exists i, th, s. by split_and!.
Qed.

(** A compaction that waits for a flush: the flush can go. *)
Definition waiting_conf : Conf :=
  mkConf demo_open {[0%nat := mkThread DoFlush (Collect false 3 []) 1; 1%nat := mkThread DoCompact (Start DoCompact) 1]}.
Lemma never_stuck_witness :
  event (std := RefStd) RefOs Env0 (Go 1) waiting_conf = None /\
  exists i th s, c_threads waiting_conf !! i = Some th /\
    event (std := RefStd) RefOs Env0 (Go i) waiting_conf = Some (moved waiting_conf i th s, act_hist i (st_act s)) /\
    ((cost (st_pc s) < cost (th_pc th))%nat \/ redraws (th_pc th) (th_rng th) (c_world waiting_conf) s).
Proof.
  split; [vm_compute; reflexivity|]. apply (never_stuck (std := RefStd) RefOs Env0 waiting_conf).
  exists 1%nat, (mkThread DoCompact (Start DoCompact) 1). by split.
Defined.

(** ** Interleavings that surprise

    The line of a change is pushed after the lock of the shard was given
    back, so the lines may come in another order than the changes. *)
Definition after (es : list Event) : option (World * World) :=
  match schedule (std := RefStd) RefOs Env0 es (mkConf demo_open ∅) with
  | Some (c, _) =>
      match open_store (std := RefStd) RefOs (B "data") 0 (sys (flush_store (std := RefStd) RefOs (c_world c))) 7 0 with
      | inl w2 => Some (c_world c, w2)
      | inr _ => None
      end
  | None => None
  end.

Definition create_x : list Event := [Call 0 (DoShorten (B "http://a") (Some (B "x")) 0) 1; Go 0; Go 0].
Definition url_at (w : World) (code : bytes) : option bytes := e_u <$> find (inner w) code.
Definition hits_at (w : World) (code : bytes) : option Z := e_h <$> find (inner w) code.

(** Two updates at once: after a restart the one that was overwritten is back. *)
Example updates_swap_in_the_log :
  (fun p => (url_at (fst p) (B "x"), url_at (snd p) (B "x"))) <$>
    after (create_x ++ [Go 0; Go 0; Call 1 (DoUpdate (B "x") (B "http://b") 0 false) 1; Call 2 (DoUpdate (B "x") (B "http://c") 0 false) 1;
      Go 1; Go 2; Go 2; Go 1]) = Some (Some (B "http://c"), Some (B "http://b")).
Proof. vm_compute. reflexivity. Qed.

(** A removal before the creation is logged: after a restart the removed
    link is back. *)
Example removed_link_returns :
  (fun p => (url_at (fst p) (B "x"), url_at (snd p) (B "x"))) <$>
    after (create_x ++ [Call 1 (DoRemove (B "x")) 1; Go 1; Go 1; Go 1; Go 0; Go 0]) = Some (None, Some (B "http://a")).
Proof. vm_compute. reflexivity. Qed.

(** A visit that is counted in the entry before a compaction and in the
    dirty counters after it: after a restart it counts twice. *)
Example visit_counts_twice :
  (fun p => (hits_at (fst p) (B "x"), hits_at (snd p) (B "x"))) <$>
    after (create_x ++ [Go 0; Go 0; Call 1 (DoResolve (B "x")) 1; Go 1; Call 2 DoCompact 1] ++ replicate 517 (Go 2) ++ [Go 1]) =
  Some (Some 1, Some 2).
Proof. vm_compute. reflexivity. Qed.
