(* ===== verification/ConcurrentAlone.v ===== *)
(** * A request that runs alone

    Without another thread the steps of a request add up to the operation of
    [Store]: the claims of the sequential development are about the same
    code. *)

From S2P Require Import Prelude CLib Common Codec Aof Store StoreFacts StoreSpec Durability Recovery Siblings Concurrent ConcurrentFacts ConcurrentClaims.

Section Alone.
Context {std : StdImpl} (os : Os) (env : Env).

(** The operations of [Store] with their answers. *)
Definition sequential (fuel : nat) (o : StoreOp) (w : World) : option (Answer * World) :=
  match o with
  | DoShorten url alias ttl => match shorten os fuel url alias ttl w with Done r w' => Some (ACode r, w') | OutOfFuel => None end
  | DoShortenMany urls ttl => match shorten_many os fuel urls ttl w with Done r w' => Some (ACodes r, w') | OutOfFuel => None end
  | DoResolve code => let '(r, w') := resolve os env code w in Some (AUrl r, w')
  | DoUpdate code url ttl has => let '(r, w') := update os code url ttl has w in Some (AMut r, w')
  | DoRemove code => let '(r, w') := remove code w in Some (AMut r, w')
  | DoFlush => Some (AUnit, flush_store os w)
  | DoSync => Some (AUnit, sync_store os w)
  | DoPoll => Some (AUnit, poll_tails os w)
  | DoCompact => Some (AUnit, compact os w)
  end.

(** ** One thread *)
Fixpoint solo (n : nat) (pc : Pc) (g : Z) (w : World) : option (Pc * Z * World) :=
  match n with
  | O => Some (pc, g, w)
  | S n => match tstep os env pc g w with Some s => solo n (st_pc s) (st_rng s) (st_world s) | None => None end
  end.

Lemma solo_app n m pc g w pc1 g1 w1 : solo n pc g w = Some (pc1, g1, w1) -> solo (n + m) pc g w = solo m pc1 g1 w1.
Proof. revert pc g w. induction n as [|n IH]; intros pc g w; simpl; [by intros [= -> -> ->]|]. destruct (tstep os env pc g w); [apply IH|done]. Qed.

Lemma gate_open_single i o pc g w : gate_open pc (mkConf w {[i := mkThread o pc g]}) = true.
Proof.
  unfold gate_open. cbn [c_threads c_world]. destruct pc; try done.
  assert (HF : forall f : Pc -> bool, f (Start o0) = false ->
    bool_decide (map_Forall (fun _ t => f (th_pc t) = false) ({[i := mkThread o (Start o0) g]} : gmap nat Thread)) = true).
  { intros f Hf. apply bool_decide_eq_true_2. intros j t Hj. by apply lookup_singleton_Some in Hj as [_ <-]. }
  by rewrite (HF holds_all), (HF (fun p => holds_gate p || holds_all p)), !orb_true_r.
Qed.

Lemma solo_schedule i o n : forall pc g w pc' g' w', solo n pc g w = Some (pc', g', w') ->
  exists h, schedule os env (replicate n (Go i)) (mkConf w {[i := mkThread o pc g]}) = Some (mkConf w' {[i := mkThread o pc' g']}, h).
Proof.
  induction n as [|n IH]; intros pc g w pc' g' w' H; simpl in H; [injection H as -> -> ->; by exists []|].
  destruct (tstep os env pc g w) as [s|] eqn:Es; [|done]. apply IH in H as [h H].
  cbn [replicate schedule event c_threads]. rewrite lookup_singleton_eq. cbn [th_pc th_rng th_op c_world].
  rewrite gate_open_single, Es. cbn [negb]. rewrite insert_singleton_eq, H. by eexists.
Qed.

(** The thread comes to its end; the world with the state of its generator is
    what the operation leaves. *)
Definition settle (g : Z) (w : World) : World := mkWorld (inner w) (sys w) g (links_total w).
Definition ends (pc : Pc) (g : Z) (w : World) (a : Answer) (w1 : World) : Prop :=
  exists n g' w', solo n pc g w = Some (Finished a, g', w') /\ settle g' w' = w1.

Lemma ends_now g w a w1 : settle g w = w1 -> ends (Finished a) g w a w1.
Proof. intros <-. by exists 0%nat, g, w. Qed.

Lemma settle_rng g w : g = rng w -> settle g w = w.
Proof. intros ->. by destruct w. Qed.

Lemma ends_step pc g w s a w1 : tstep os env pc g w = Some s -> ends (st_pc s) (st_rng s) (st_world s) a w1 -> ends pc g w a w1.
Proof. intros Hs (n & g' & w' & H & <-). exists (S n), g', w'. simpl. by rewrite Hs. Qed.

Lemma ends_solo n pc g w pc1 g1 w1 a w2 : solo n pc g w = Some (pc1, g1, w1) -> ends pc1 g1 w1 a w2 -> ends pc g w a w2.
Proof. intros H (m & g' & w' & H' & <-). exists (n + m)%nat, g', w'. by rewrite (solo_app _ _ _ _ _ _ _ _ H). Qed.

Ltac one := eapply ends_step; [cbn [tstep start shorten_start many_start now_ms]; reflexivity|cbn [st_pc st_rng st_world]].

(** ** [shorten] and [shorten_many] *)
Lemma settle_push_full g bs w : settle g (aof_flush_if_full os (aof_push_raw bs w)) = aof_flush_if_full os (aof_push_raw bs (settle g w)).
Proof. unfold aof_flush_if_full, aof_push_raw, settle. cbn. destruct (aof (inner w)) as [a|] eqn:E; cbn; rewrite ?E; [|done]. case_match; [|done]. by destruct (flush os _ _). Qed.

Lemma settle_push g l w : settle g (aof_push l w) = aof_push l (settle g w).
Proof. unfold aof_push, settle. cbn. by destruct (aof (inner w)). Qed.

Lemma aof_push_line l w : aof_push l w = aof_push_raw (l ++ [NL]) w.
Proof. done. Qed.

Lemma ends_log code url now exp g w : ends (LogNew code url now exp) g w (ACode (Some code)) (shorten_log os code url now exp (settle g w)).
Proof.
  one. one. apply ends_now. unfold shorten_log. rewrite !aof_push_line. cbn [inner settle]. rewrite <- settle_push_full. done.
Qed.

Lemma ends_draw url now exp : forall fuel g w code g', gen_free fuel (inner w) g = Some (code, g') ->
  ends (Insert url None now exp) g w (ACode (Some code)) (shorten_log os code url now exp (settle g' (insert_new code url now exp w))).
Proof.
  induction fuel as [|fuel IH]; intros g w code g'; [done|]. rewrite gen_free_S. intros H.
  eapply ends_step; [reflexivity|]. unfold shorten_insert. destruct (gen_code (inner w) g) as [c g1]. cbn [fst snd] in H.
  destruct (find (inner w) c); cbn [st_pc st_rng st_world]; [by apply IH|]. injection H as -> ->. apply ends_log.
Qed.

Lemma alone_shorten fuel url alias ttl w r w1 : shorten os fuel url alias ttl w = Done r w1 ->
  ends (Start (DoShorten url alias ttl)) (rng w) w (ACode r) w1.
Proof.
  unfold shorten. cbn [now_ms]. intros H. one. destruct alias as [code|].
  - eapply ends_step; [reflexivity|]. unfold shorten_insert. cbn [inner with_sys] in *.
    destruct (find (inner w) code); cbn [st_pc st_rng st_world]; injection H as <- <-; [apply ends_now; done|]. apply ends_log.
  - cbn [inner with_sys Store.rng] in H. destruct (gen_free fuel (inner w) (rng w)) as [[c g]|] eqn:E; [|done].
    injection H as <- <-. exact (ends_draw url _ _ fuel _ (with_sys _ w) c g E).
Qed.

Lemma solo_draw_many u us now exp codes lines : forall fuel g w code g', gen_free fuel (inner w) g = Some (code, g') ->
  exists n, solo n (InsertMany (u :: us) now exp codes lines) g w =
    Some (InsertMany us now exp (codes ++ [code])
      match aof (inner w) with Some _ => row_line_into lines code u now exp (instance (inner w)) 0 ++ [NL] | None => lines end, g',
      insert_new code u now exp w).
Proof.
  induction fuel as [|fuel IH]; intros g w code g'; [done|]. rewrite gen_free_S. intros H.
  destruct (gen_code (inner w) g) as [c g1] eqn:Eg. cbn [fst snd] in H. destruct (find (inner w) c) eqn:Ef.
  - apply IH in H as [n H]. exists (S n). cbn [solo tstep many_insert]. by rewrite Eg, Ef.
  - injection H as -> ->. exists 1%nat. cbn [solo tstep many_insert]. by rewrite Eg, Ef.
Qed.

Lemma ends_each fuel now exp : forall urls codes lines g w codes' lines' w', shorten_each fuel urls now exp codes lines (settle g w) = Some (codes', lines', w') ->
  ends (InsertMany urls now exp codes lines) g w (ACodes codes') (links_delta (Z.of_nat (length codes')) (aof_flush_if_full os (aof_push_raw lines' w'))).
Proof.
  induction urls as [|u us IH]; intros codes lines g w codes' lines' w'; cbn [shorten_each].
  - intros [= <- <- <-]. one. one. one. apply ends_now. rewrite <- settle_push_full. done.
  - cbn [inner settle Store.rng]. destruct (gen_free fuel (inner w) g) as [[cb g']|] eqn:E; [|done]. intros H.
    destruct (solo_draw_many u us now exp codes lines fuel g w cb g' E) as [n Hn]. eapply ends_solo; [exact Hn|]. apply IH. exact H.
Qed.

Lemma alone_shorten_many fuel urls ttl w r w1 : shorten_many os fuel urls ttl w = Done r w1 ->
  ends (Start (DoShortenMany urls ttl)) (rng w) w (ACodes r) w1.
Proof.
  unfold shorten_many. cbn [now_ms]. intros H. one.
  destruct (shorten_each fuel urls _ _ [] [] _) as [[[codes lines] w']|] eqn:E; [|done]. injection H as <- <-.
  eapply ends_each. by rewrite <- E.
Qed.

(** ** [resolve], [update], [remove] *)
Lemma ends_found pc c e g w : tstep os env pc g w = Some (resolve_found os env c e g w) -> g = rng w ->
  let '(ok, s) := live os (e_e e) (sys w) in
  ends pc g w (AUrl (if ok then Some (e_u e) else None)) (if ok then count_hit env c e (with_sys s w) else with_sys s w).
Proof.
  intros Hs ->. revert Hs. unfold resolve_found, count_hit. destruct (live os (e_e e) (sys w)) as [[] s]; cbn [negb].
  - destruct (track_hits env); intros Hs; (eapply ends_step; [exact Hs|]); cbn [st_pc st_rng st_world]; [one|]; by apply ends_now.
  - intros Hs. eapply ends_step; [exact Hs|]. by apply ends_now.
Qed.

Lemma rng_fold_poll l : forall w, rng (fold_left (poll_one os) l w) = rng w.
Proof.
  induction l as [|[n t] l IH]; intros w; [done|]. cbn [fold_left]. rewrite IH. unfold poll_one. by destruct (read_new os _ _) as [[? ?] ?].
Qed.

Lemma rng_poll_locked w : rng (poll_locked os w) = rng w.
Proof. exact (rng_fold_poll _ _). Qed.

Lemma rng_tail_missed c w : rng (tail_missed os c w) = rng w.
Proof.
  unfold tail_missed. destruct c as [|c0 c]; [done|]. destruct (aof (inner w)); [|done]. cbn [now_ms]. repeat case_match; try done.
  - cbn. unfold poll_one. by destruct (read_new os _ _) as [[? ?] ?].
  - by rewrite rng_poll_locked.
Qed.

Lemma alone_resolve c w r w1 : resolve os env c w = (r, w1) -> ends (Start (DoResolve c)) (rng w) w (AUrl r) w1.
Proof.
  unfold resolve. intros H. destruct (find (inner w) c) as [e|] eqn:E.
  - pose proof (ends_found (Start (DoResolve c)) c e (rng w) w) as HH. cbn [tstep start] in HH. unfold resolve_look in HH. rewrite E in HH.
    specialize (HH eq_refl eq_refl). destruct (live os (e_e e) (sys w)) as [[] s]; injection H as <- <-; exact HH.
  - eapply ends_step; [cbn [tstep start]; reflexivity|]. unfold resolve_look. rewrite E. cbn [st_pc st_rng st_world].
    destruct (aof (inner w)); [|injection H as <- <-; by apply ends_now, settle_rng]. one. pose proof (rng_tail_missed c w) as Hg. set (w2 := tail_missed os c w) in *.
    destruct (find (inner w2) c) as [e|] eqn:E2.
    + pose proof (ends_found (LookAgain c) c e (rng w) w2) as HH. cbn [tstep] in HH. unfold resolve_again in HH. rewrite E2 in HH.
      specialize (HH eq_refl (eq_sym Hg)). destruct (live os (e_e e) (sys w2)) as [[] s]; injection H as <- <-; exact HH.
    + injection H as <- <-. eapply ends_step; [reflexivity|]. unfold resolve_again. rewrite E2. by apply ends_now, settle_rng.
Qed.

Lemma alone_update c url ttl has w r w1 : update os c url ttl has w = (r, w1) -> ends (Start (DoUpdate c url ttl has)) (rng w) w (AMut r) w1.
Proof.
  intros H. eapply ends_step; [reflexivity|]. unfold update in H. cbn [start]. unfold update_entry. destruct (find (inner w) c) as [e|]; cycle 1.
  { injection H as <- <-. by apply ends_now, settle_rng. }
  destruct (negb (e_i e =? instance (inner w))); [injection H as <- <-; by apply ends_now, settle_rng|].
  destruct has; [destruct (0 <? ttl)|]; cbn [now_ms] in *; injection H as <- <-; one; apply ends_now; unfold update_push; cbn [st_world st_rng]; by rewrite settle_push.
Qed.

Lemma alone_remove c w r w1 : remove c w = (r, w1) -> ends (Start (DoRemove c)) (rng w) w (AMut r) w1.
Proof.
  intros H. eapply ends_step; [reflexivity|]. unfold remove in H. cbn [start]. unfold remove_entry. destruct (find (inner w) c) as [e|]; cycle 1.
  { injection H as <- <-. by apply ends_now, settle_rng. }
  destruct (negb (e_i e =? instance (inner w))); [injection H as <- <-; by apply ends_now, settle_rng|].
  injection H as <- <-. one. one. apply ends_now. unfold remove_push. cbn [st_world st_rng]. change (settle (rng w) (links_delta (-1) ?x)) with (links_delta (-1) (settle (rng w) x)). by rewrite settle_push.
Qed.

(** ** [flush] and [compact] *)
Definition no_dirty (sh : Shard) : Shard := mkShard (sh_data sh) ∅.
Definition hits_in (inst : Z) (l : list Shard) : list LogRec := concat (map (fun sh => dirty_recs inst (umap_iter (sh_dirty sh))) l).

(** The walk over the shards: those of [pre] are done. *)
Lemma solo_collect all g : forall rest pre lines w, shards (inner w) = pre ++ rest -> length (pre ++ rest) = NUM_SHARDS ->
  solo (length rest) (Collect all (length pre) lines) g w =
    Some (Collect all NUM_SHARDS (lines ++ log_bytes (hits_in (instance (inner w)) rest)), g, with_inner (set_shards (pre ++ map no_dirty rest)) w).
Proof.
  induction rest as [|sh rest IH]; intros pre lines w Hs Hlen.
  - rewrite app_nil_r in *. cbn [length solo]. rewrite Hlen. unfold hits_in. cbn [map concat log_bytes]. rewrite !app_nil_r, <- Hs.
    destruct w as [i ? ? ?]. by destruct i.
  - assert (Hlt : (length pre < NUM_SHARDS)%nat) by (rewrite <- Hlen, length_app; simpl; lia).
    assert (Hsh : shards (inner w) !! length pre = Some sh) by by rewrite Hs, list_lookup_middle.
    cbn [length solo tstep]. unfold flush_collect. rewrite (proj2 (Nat.ltb_lt _ _) Hlt). cbn [st_pc st_rng st_world].
    replace (S (length pre)) with (length (pre ++ [no_dirty sh])) by (rewrite length_app; simpl; lia). rewrite (IH (pre ++ [no_dirty sh])).
    + f_equal. f_equal; [f_equal|].
      * f_equal. rewrite <- app_assoc. f_equal. unfold shard_hits. rewrite Hsh, dirty_lines. unfold hits_in. cbn [map concat default app]. by rewrite log_bytes_app.
      * unfold with_inner, set_shards. cbn. by rewrite <- app_assoc.
    + cbn [with_inner inner clear_shard set_shards shards]. rewrite Hs. fold no_dirty. replace (length pre) with (length pre + 0)%nat by lia.
      rewrite alter_app_r. by rewrite <- app_assoc.
    + rewrite <- Hlen, !length_app. simpl. lia.
Qed.

Lemma solo_flush all g w a : aof (inner w) = Some a -> length (shards (inner w)) = NUM_SHARDS ->
  exists n, solo n (Collect all 0 []) g w = Some (if all then OpenSnap else Finished AUnit, g, flush_store os w).
Proof.
  intros Ha Hlen. exists (length (shards (inner w)) + 1)%nat. rewrite (solo_app _ _ _ _ _ _ _ _ (solo_collect all g (shards (inner w)) [] [] w eq_refl Hlen)).
  cbn [solo tstep]. unfold flush_collect. rewrite Nat.ltb_irrefl. cbn [st_pc st_rng st_world]. do 3 f_equal.
  unfold flush_log, flush_store. cbn [inner with_inner aof set_shards]. rewrite Ha, hit_lines_recs. cbn [app sys].
  change (hits_in (instance (inner w)) (shards (inner w))) with (hit_recs (inner w)). cbn [with_inner sys]. by destruct (flush os _ (sys w)).
Qed.

Definition rows_in (inst : Z) (l : list Shard) : list bytes :=
  concat (map (fun sh => map snap_line (filter (fun ce => e_i (snd ce) = inst) (umap_iter (sh_data sh)))) l).

Lemma snap_lines_rows inn : snap_lines inn = rows_in (instance inn) (shards inn).
Proof.
  unfold snap_lines, all_data, rows_in. induction (shards inn) as [|sh l IH]; [done|]. cbn [map concat]. by rewrite filter_app, map_app, IH.
Qed.

Lemma solo_snap g w : forall rest pre rows, shards (inner w) = pre ++ rest -> length (pre ++ rest) = NUM_SHARDS ->
  solo (length rest) (Snap (length pre) rows) g w = Some (Snap NUM_SHARDS (rows ++ rows_in (instance (inner w)) rest), g, w).
Proof.
  induction rest as [|sh rest IH]; intros pre rows Hs Hlen.
  - rewrite app_nil_r in *. cbn [length solo]. rewrite Hlen. done.
  - assert (Hlt : (length pre < NUM_SHARDS)%nat) by (rewrite <- Hlen, length_app; simpl; lia).
    assert (Hsh : shards (inner w) !! length pre = Some sh) by by rewrite Hs, list_lookup_middle.
    cbn [length solo tstep]. unfold snap_shard. rewrite (proj2 (Nat.ltb_lt _ _) Hlt). cbn [st_pc st_rng st_world].
    replace (S (length pre)) with (length (pre ++ [sh])) by (rewrite length_app; simpl; lia). rewrite (IH (pre ++ [sh])).
    + unfold shard_rows. rewrite Hsh. unfold rows_in. cbn [map concat default]. by rewrite <- app_assoc.
    + by rewrite <- app_assoc.
    + by rewrite <- Hlen, <- app_assoc.
Qed.

Lemma solo_write_snap g w : length (shards (inner w)) = NUM_SHARDS ->
  exists n, solo n OpenSnap g w = Some (Truncate, g, with_sys (write_snapshot (inner w) (sys w)) w).
Proof.
  intros Hlen. unfold write_snapshot. fold (snap_path (inner w)). fold (tmp_path (inner w)).
  destruct (open_write (tmp_path (inner w)) false true (sys w)) as [[fd|] s] eqn:E; cycle 1.
  { exists 1%nat. cbn [solo tstep]. unfold open_snap. by rewrite E. }
  exists (1 + (length (shards (inner w)) + 1))%nat.
  assert (H1 : solo 1 OpenSnap g w = Some (Snap 0 [], g, with_sys s w)) by (cbn [solo tstep]; unfold open_snap; by rewrite E).
  rewrite (solo_app _ _ _ _ _ _ _ _ H1). rewrite (solo_app _ _ _ _ _ _ _ _ (solo_snap g (with_sys s w) (shards (inner w)) [] [] eq_refl Hlen)).
  cbn [solo tstep]. unfold snap_shard. rewrite Nat.ltb_irrefl. cbn [st_pc st_rng st_world app inner sys with_sys]. by rewrite snap_lines_rows.
Qed.

Lemma flush_store_rng w : rng (flush_store os w) = rng w.
Proof. unfold flush_store. destruct (aof (inner w)); [|done]. by destruct (flush os _ _). Qed.

Lemma alone_flush w : wf w -> ends (Start DoFlush) (rng w) w AUnit (flush_store os w).
Proof.
  intros H. eapply ends_step; [reflexivity|]. cbn [start]. unfold flush_start. cbn [st_pc st_rng st_world].
  destruct (aof (inner w)) as [a|] eqn:Ha; [|apply ends_now; unfold flush_store; rewrite Ha; by apply settle_rng].
  destruct (solo_flush false (rng w) w a Ha (wf_len _ H)) as [n Hn]. eapply ends_solo; [exact Hn|]. apply ends_now, settle_rng. by rewrite flush_store_rng.
Qed.

Lemma alone_compact w : wf w -> ends (Start DoCompact) (rng w) w AUnit (compact os w).
Proof.
  intros H. eapply ends_step; [reflexivity|]. cbn [start]. unfold flush_start. cbn [st_pc st_rng st_world]. unfold compact.
  destruct (aof (inner w)) as [a|] eqn:Ha; [|by apply ends_now, settle_rng].
  destruct (solo_flush true (rng w) w a Ha (wf_len _ H)) as [n Hn]. eapply ends_solo; [exact Hn|].
  pose proof (flush_store_rng w) as Hg. destruct (flush_store_frame os w H) as (Hwf & _ & _). set (w2 := flush_store os w) in *.
  destruct (solo_write_snap (rng w) w2 (wf_len _ Hwf)) as [m Hm]. eapply ends_solo; [exact Hm|]. one. apply ends_now.
  unfold truncate_log. cbn [inner with_sys]. destruct (aof (inner w2)); [|by apply settle_rng]. destruct (truncate os _ _). by apply settle_rng.
Qed.

Lemma rng_sync w : rng (sync_store os w) = rng w.
Proof. unfold sync_store. destruct (aof (inner w)); [|done]. by destruct (sync os _ _). Qed.

Lemma alone_ends fuel o w a w1 : wf w -> sequential fuel o w = Some (a, w1) -> ends (Start o) (rng w) w a w1.
Proof.
  intros H. destruct o as [url al ttl|urls ttl|c|c url ttl has|c| | | |]; cbn [sequential].
  - destruct (shorten os fuel url al ttl w) eqn:E; intros [= <- <-]. by eapply alone_shorten.
  - destruct (shorten_many os fuel urls ttl w) eqn:E; intros [= <- <-]. by eapply alone_shorten_many.
  - destruct (resolve os env c w) eqn:E; intros [= <- <-]. by apply alone_resolve.
  - destruct (update os c url ttl has w) eqn:E; intros [= <- <-]. by apply alone_update.
  - destruct (remove c w) eqn:E; intros [= <- <-]. by apply alone_remove.
  - intros [= <- <-]. by apply alone_flush.
  - intros [= <- <-]. one. apply ends_now, settle_rng. by rewrite rng_sync.
  - intros [= <- <-]. one. apply ends_now, settle_rng. unfold poll_tails. destruct (aof (inner w)); [by rewrite rng_poll_locked|done].
  - intros [= <- <-]. by apply alone_compact.
Qed.
End Alone.

(** C16 A request that runs with no other beside it does what the sequential
    operation does: it comes to its end after some number of steps, with the
    same answer, index, files, counters and generator; for creating codes,
    whenever the operation finds free ones. *)
Theorem alone_is_sequential {std : StdImpl} os env fuel i o w a w1 : wf w -> sequential os env fuel o w = Some (a, w1) ->
  exists n g w' h, schedule os env (Call i o (rng w) :: replicate n (Go i)) (mkConf w ∅) =
      Some (mkConf w' {[i := mkThread o (Finished a) g]}, h) /\
    mkWorld (inner w') (sys w') g (links_total w') = w1.
Proof.
  intros H Hs. destruct (alone_ends os env fuel o w a w1 H Hs) as (n & g & w' & Hn & Hw).
  destruct (solo_schedule os env i o n _ _ _ _ _ _ Hn) as [h Hh]. exists n, g, w', h. split; [|exact Hw].
  cbn [schedule event c_threads]. rewrite lookup_empty. cbn [c_world]. change (<[i := mkThread o (Start o) (rng w)]> ∅) with ({[i := mkThread o (Start o) (rng w)]} : gmap nat Thread).
  by rewrite Hh.
Qed.

Lemma alone_is_sequential_witness :
  let r := sequential (std := RefStd) RefOs Env0 1 DoCompact demo_world in
  exists n g w' h, schedule (std := RefStd) RefOs Env0 (Call 0 DoCompact (rng demo_world) :: replicate n (Go 0)) (mkConf demo_world ∅) =
      Some (mkConf w' {[0%nat := mkThread DoCompact (Finished AUnit) g]}, h) /\
    Some (AUnit, mkWorld (inner w') (sys w') g (links_total w')) = r.
Proof.
  destruct (alone_is_sequential (std := RefStd) RefOs Env0 1 0 DoCompact demo_world AUnit (compact (std := RefStd) RefOs demo_world)) as (n & g & w' & h & H1 & H2).
  - destruct demo_durable as (S & L & Bf & D). exact (proj1 (du_index _ _ _ _ D)).
  - reflexivity.
  - exists n, g, w', h. split; [exact H1|]. by rewrite H2.
Defined.
