(* ===== verification/Bounds.v ===== *)
(** * What stays bounded in the log store

    Two bounds that the code's own checks and plain sums leave to its input:
    the hits kept for unknown codes, which a check in [apply] limits, and the
    sums of hit counts in [apply], which nothing checks. *)

From S2P Require Import Prelude CLib Common Codec Aof Store StoreFacts StoreSpec Recovery.

(** ** The sums of a line

    The values [apply] stores for a line, as sums in [Z]: what it adds to an
    entry or to a stray hit, and what a new row starts with. *)
Definition stray_room {std : StdImpl} (stray : StrayMap) : StrayMap :=
  if MAX_STRAY_HITS <=? Z.of_nat (size stray)
  then match umap_iter stray with [] => stray | (k, _) :: _ => delete k stray end
  else stray.

Definition apply_sums {std : StdImpl} (inn : Inner) (o : Op) (stray : StrayMap) : list Z :=
  if negb (o_x o =s []) then []
  else if negb (o_h o =s []) then
    match find inn (o_h o) with
    | Some e => [e_h e + o_d o; e_oh e + o_d o]
    | None => let st := default (0, 0) (stray_room stray !! o_h o) in [fst st + o_d o; snd st + o_d o]
    end
  else if o_c o =s [] then []
  else let st := default (0, 0) (stray !! o_c o) in [o_n o + fst st; o_n o + snd st].

(** No sum of these lines leaves [int64_t]. *)
Fixpoint no_overflow {std : StdImpl} (ls : list bytes) (st : Inner * StrayMap) : Prop :=
  match ls with
  | [] => True
  | l :: ls =>
      match parse_op l with Some o => Forall in_i64 (apply_sums (fst st) o (snd st)) | None => True end /\
      no_overflow ls (apply_line st l)
  end.

(** The hits a line brings. *)
Definition line_hits (l : bytes) : Z :=
  match parse_op l with
  | Some o => if negb (o_x o =s []) then 0 else if negb (o_h o =s []) then o_d o else if o_c o =s [] then 0 else o_n o
  | None => 0
  end.
Definition hits_total (ls : list bytes) : Z := foldr Z.add 0 (map line_hits ls).

(** Every count is at most [T]. *)
Record counts_le (T : Z) (st : Inner * StrayMap) : Prop := {
  cl_find : forall c e, find (fst st) c = Some e -> 0 <= e_h e <= T /\ 0 <= e_oh e <= T;
  cl_stray : forall c p, snd st !! c = Some p -> 0 <= fst p <= T /\ 0 <= snd p <= T
}.

Lemma i64_fits z T : 0 <= z <= T -> T < 2 ^ 63 -> i64 z = z.
Proof. intros. apply i64_id. unfold in_i64. lia. Qed.

Section Sums.
Context {std : StdImpl}.

Lemma counts_default T st c : counts_le T st -> 0 <= T ->
  0 <= fst (default (0, 0) (snd st !! c)) <= T /\ 0 <= snd (default (0, 0) (snd st !! c)) <= T.
Proof. intros [_ H] HT. destruct (snd st !! c) as [p|] eqn:E; [by apply (H c)|simpl; lia]. Qed.

Lemma counts_room T i st : counts_le T (i, st) -> counts_le T (i, stray_room st).
Proof.
  intros [H1 H2]. split; [done|]. unfold stray_room. repeat case_match; try done.
  intros c q Hq. cbn [snd] in Hq. apply lookup_delete_Some in Hq as [_ Hq]. by apply (H2 c).
Qed.

Lemma counts_up T T' st : T <= T' -> counts_le T st -> counts_le T' st.
Proof.
  intros HT [H1 H2]. split; [intros c e He; specialize (H1 c e He)|intros c e He; specialize (H2 c e He)]; lia.
Qed.

(** A line adds at most what it brings. *)
Lemma apply_counts T i o st d : inner_wf i -> counts_le T (i, st) -> 0 <= T ->
  d = (if negb (o_x o =s []) then 0 else if negb (o_h o =s []) then o_d o else if o_c o =s [] then 0 else o_n o) ->
  0 <= d -> T + d < 2 ^ 63 ->
  Forall in_i64 (apply_sums i o st) /\ counts_le (T + d) (apply i o st).
Proof.
  intros Hi HC HT -> Hd Hm. unfold apply_sums, apply. fold (stray_room st). destruct (negb (o_x o =s [])) eqn:Ex.
  { split; [done|]. apply (counts_up T); [lia|]. destruct HC as [H1 H2]. split; cbn [fst snd] in *.
    - intros c e. rewrite find_erase by done. case_decide; [done|apply H1].
    - intros c p Hp. apply lookup_delete_Some in Hp as [_ Hp]. by apply (H2 c). }
  destruct (negb (o_h o =s [])) eqn:Eh.
  - destruct (find i (o_h o)) as [e|] eqn:Ef.
    + destruct (cl_find _ _ HC _ _ Ef) as [B1 B2]. split.
      { repeat constructor; unfold in_i64; lia. }
      destruct (counts_up T (T + o_d o) _ ltac:(lia) HC) as [H1 H2]. split; cbn [fst snd] in *; [|done].
      intros c e'. rewrite find_insert by done. case_decide; [|apply H1]. intros [= <-].
      unfold add_hits. cbn [e_h e_oh]. rewrite (i64_fits (e_h e + o_d o) (T + o_d o)) by lia.
      split; [lia|]. case_match; [rewrite (i64_fits (e_oh e + o_d o) (T + o_d o))|]; lia.
    + pose proof (counts_room _ _ _ HC) as HR. destruct (counts_default _ _ (o_h o) HR HT) as [B1 B2]. cbn [snd] in B1, B2. split.
      { repeat constructor; unfold in_i64; lia. }
      destruct (counts_up T (T + o_d o) _ ltac:(lia) HR) as [H1 H2]. split; cbn [fst snd] in *; [done|].
      intros c p. rewrite lookup_insert. case_decide; [|apply H2]. intros [= <-]. cbn [fst snd].
      rewrite (i64_fits (_ + _) (T + o_d o)) by lia. split; [lia|]. case_match; [rewrite (i64_fits (_ + _) (T + o_d o))|]; lia.
  - destruct (o_c o =s []); [split; [done|apply (counts_up T); [lia|done]]|].
    destruct (counts_default _ _ (o_c o) HC HT) as [B1 B2]. cbn [snd] in B1, B2. split.
    { repeat constructor; unfold in_i64; lia. }
    destruct (counts_up T (T + o_n o) _ ltac:(lia) HC) as [H1 H2]. split; cbn [fst snd] in *.
    + intros c e. rewrite find_insert, find_erase by auto with shrt. case_decide; [|by apply H1]. intros [= <-].
      cbn [e_h e_oh]. rewrite !(i64_fits (_ + _) (T + o_n o)) by lia. lia.
    + intros c p Hp. apply lookup_delete_Some in Hp as [_ Hp]. by apply (H2 c).
Qed.

Lemma apply_line_counts T l st : inner_wf (fst st) -> counts_le T st -> 0 <= T -> 0 <= line_hits l -> T + line_hits l < 2 ^ 63 ->
  match parse_op l with Some o => Forall in_i64 (apply_sums (fst st) o (snd st)) | None => True end /\
  counts_le (T + line_hits l) (apply_line st l).
Proof.
  destruct st as [i st]. intros Hi HC HT Hd Hm. unfold apply_line, line_hits in *. cbn [fst snd] in *.
  destruct (parse_op l) as [o|]; [by apply apply_counts|]. split; [done|]. apply (counts_up T); [lia|done].
Qed.

Lemma lines_counts ls : forall T st, inner_wf (fst st) -> counts_le T st -> 0 <= T ->
  Forall (fun l => 0 <= line_hits l) ls -> T + hits_total ls < 2 ^ 63 ->
  no_overflow ls st /\ counts_le (T + hits_total ls) (apply_lines ls st).
Proof.
  induction ls as [|l ls IH]; intros T st Hi HC HT Hl Hm; cbn [no_overflow apply_lines fold_left].
  { split; [done|]. unfold hits_total. simpl. by rewrite Z.add_0_r. }
  apply Forall_cons in Hl as [Hd Hl]. change (hits_total (l :: ls)) with (line_hits l + hits_total ls) in *.
  assert (H0 : 0 <= hits_total ls). { clear -Hl. induction Hl; unfold hits_total in *; simpl; [done|lia]. }
  destruct (apply_line_counts T l st Hi HC HT Hd ltac:(lia)) as [S1 S2].
  destruct (IH (T + line_hits l) (apply_line st l)) as [I1 I2]; [|done|lia|done|lia|].
  - unfold apply_line. destruct (parse_op l); [|done]. by apply apply_frame.
  - split; [done|]. by replace (T + (line_hits l + hits_total ls)) with (T + line_hits l + hits_total ls) by lia.
Qed.
End Sums.

(** ** The hits kept for unknown codes *)
Definition stray_bounded (i : Inner) : Prop := Z.of_nat (size (tl_stray (tail i))) <= MAX_STRAY_HITS.

Section Stray.
Context {std : StdImpl} (os : Os) (env : Env).

(** Only the logs of the siblings bring such hits. *)
Definition same_stray (w w' : World) : Prop := tl_stray (tail (inner w')) = tl_stray (tail (inner w)).

Lemma same_stray_bounded w w' : same_stray w w' -> stray_bounded (inner w) -> stray_bounded (inner w').
Proof. unfold same_stray, stray_bounded. by intros ->. Qed.

Lemma room_size (st : StrayMap) : Z.of_nat (size st) <= MAX_STRAY_HITS -> Z.of_nat (size (stray_room st)) < MAX_STRAY_HITS.
Proof.
  intros H. unfold stray_room. destruct (MAX_STRAY_HITS <=? Z.of_nat (size st)) eqn:E; bool_facts; [|done].
  destruct (umap_iter st) as [|[k v] l] eqn:Eu.
  - assert (st = ∅) as ->; [|by vm_compute in E]. apply map_eq. intros c. rewrite lookup_empty.
    destruct (st !! c) as [v|] eqn:Ec; [|done]. apply umap_iter_elem in Ec. rewrite Eu in Ec. by apply not_elem_of_nil in Ec.
  - assert (Hk : st !! k = Some v) by (apply umap_iter_elem; rewrite Eu; left). rewrite map_size_delete_Some by by exists v.
    assert (size st ≠ 0%nat) by (apply map_size_ne_0_lookup_2 with (i := k); by exists v). lia.
Qed.

Lemma delete_size (c : bytes) (st : StrayMap) : Z.of_nat (size (delete c st)) <= Z.of_nat (size st).
Proof. apply Nat2Z.inj_le, map_subseteq_size, delete_subseteq. Qed.

Lemma apply_stray i o st : Z.of_nat (size st) <= MAX_STRAY_HITS -> Z.of_nat (size (snd (apply i o st))) <= MAX_STRAY_HITS.
Proof.
  intros H. unfold apply. fold (stray_room st). case_match; [cbn [snd]; etrans; [apply delete_size|done]|]. case_match.
  - destruct (find i (o_h o)) as [e|]; [done|]. cbn [snd]. pose proof (room_size st H). set (st' := stray_room st) in *. clearbody st'.
    destruct (st' !! o_h o) eqn:El; [rewrite map_size_insert_Some by by eexists|rewrite map_size_insert_None by done]; lia.
  - case_match; [done|]. cbn [snd]. etrans; [apply delete_size|done].
Qed.

Lemma feed_stray ls i : stray_bounded i -> stray_bounded (feed ls i).
Proof.
  intros H. unfold feed. assert (HL : forall ls st, Z.of_nat (size (snd st)) <= MAX_STRAY_HITS -> Z.of_nat (size (snd (apply_lines ls st))) <= MAX_STRAY_HITS).
  { clear. induction ls as [|l ls IH]; intros [i st] H; [done|]. cbn [apply_lines fold_left]. apply IH. unfold apply_line.
    destruct (parse_op l); [by apply apply_stray|done]. }
  specialize (HL ls (i, tl_stray (tail i)) H). by destruct (apply_lines ls _).
Qed.

Lemma new_reader_stray i f : stray_bounded i -> stray_bounded (new_reader i f).
Proof. unfold new_reader. by case_match. Qed.

(** ** Reading logs *)
Lemma poll_one_stray w nt : stray_bounded (inner w) -> stray_bounded (inner (poll_one os w nt)).
Proof. intros H. unfold poll_one. destruct (read_new os (snd nt) (sys w)) as [[ls t'] s']. by apply feed_stray. Qed.

Lemma poll_locked_stray w : stray_bounded (inner w) -> stray_bounded (inner (poll_locked os w)).
Proof.
  intros H. unfold poll_locked. cbn [now_ms]. change (stray_bounded (inner (fold_left (poll_one os)
    (umap_iter (tl_readers (tail (inner (with_inner (fun i => fold_left new_reader (shard_files (sys w) (dir (inner w)) (own_name (inner w))) i) w)))))
    (with_inner (fun i => fold_left new_reader (shard_files (sys w) (dir (inner w)) (own_name (inner w))) i) w)))).
  apply (fold_left_preserves (fun w => stray_bounded (inner w)) (poll_one os)); [intros; by apply poll_one_stray|].
  cbn [inner with_inner]. apply (fold_left_preserves stray_bounded new_reader); [intros; by apply new_reader_stray|done].
Qed.

Lemma tail_missed_stray code w : stray_bounded (inner w) -> stray_bounded (inner (tail_missed os code w)).
Proof.
  intros H. unfold tail_missed. destruct code as [|c0 code]; [done|]. destruct (aof (inner w)); [|done]. case_match; cbn [now_ms].
  - by apply poll_one_stray.
  - case_match; [|done]. by apply poll_locked_stray.
Qed.

(** ** The operations *)
Ltac same_tail := unfold same_stray; repeat case_match; simplify_eq/=; done.

Lemma aof_push_same l w : same_stray w (aof_push l w).
Proof. unfold aof_push. same_tail. Qed.
Lemma aof_push_raw_same l w : same_stray w (aof_push_raw l w).
Proof. unfold aof_push_raw. same_tail. Qed.
Lemma aof_flush_if_full_same w : same_stray w (aof_flush_if_full os w).
Proof. unfold aof_flush_if_full. same_tail. Qed.
Lemma flush_store_same w : same_stray w (flush_store os w).
Proof. unfold flush_store. same_tail. Qed.
Lemma sync_store_same w : same_stray w (sync_store os w).
Proof. unfold sync_store. same_tail. Qed.

Lemma shorten_log_same c u now exp w : same_stray w (shorten_log os c u now exp w).
Proof. unfold shorten_log. etrans; [apply (aof_flush_if_full_same (aof_push _ w))|apply aof_push_same]. Qed.

Lemma shorten_same fuel u alias ttl w r w' : shorten os fuel u alias ttl w = Done r w' -> same_stray w w'.
Proof.
  unfold shorten. cbn [now_ms]. set (now := i64 _). destruct alias as [c|].
  - destruct (find _ c); intros [= <- <-]; [done|]. etrans; [apply shorten_log_same|done].
  - destruct (gen_free fuel _ _) as [[c st]|]; [|done]. intros [= <- <-]. etrans; [apply shorten_log_same|done].
Qed.

Lemma shorten_each_same fuel now exp urls : forall codes lines w codes' lines' w',
  shorten_each fuel urls now exp codes lines w = Some (codes', lines', w') -> same_stray w w'.
Proof.
  induction urls as [|u us IH]; intros codes lines w codes' lines' w'; cbn [shorten_each]; [by intros [= _ _ <-]|].
  destruct (gen_free fuel (inner w) (rng w)) as [[c st]|]; [|done]. apply IH.
Qed.

Lemma shorten_many_same fuel urls ttl w r w' : shorten_many os fuel urls ttl w = Done r w' -> same_stray w w'.
Proof.
  unfold shorten_many. cbn [now_ms]. destruct (shorten_each _ _ _ _ _ _ _) as [[[codes lines] w1]|] eqn:E; [|done].
  intros [= _ <-]. apply shorten_each_same in E. etrans; [|exact E].
  etrans; [apply (aof_flush_if_full_same (aof_push_raw _ w1))|apply aof_push_raw_same].
Qed.

Lemma resolve_stray c w : stray_bounded (inner w) -> stray_bounded (inner (snd (resolve os env c w))).
Proof.
  intros H. unfold resolve.
  assert (Hh : forall w1 e ok s, stray_bounded (inner w1) ->
    stray_bounded (inner (snd (if ok : bool then (Some (e_u e), count_hit env c e (with_sys s w1)) else (None, with_sys s w1))))).
  { intros w1 e [] s H1; [|done]. cbn [snd]. unfold count_hit. by case_match. }
  destruct (find (inner w) c) as [e|]; [destruct (live os (e_e e) (sys w)); by apply Hh|]. destruct (aof (inner w)); [|done].
  pose proof (tail_missed_stray c w H) as H1. destruct (find (inner (tail_missed os c w)) c) as [e|]; [|done].
  destruct (live os (e_e e) _). by apply Hh.
Qed.

Lemma update_same c u ttl has w : same_stray w (snd (update os c u ttl has w)).
Proof.
  unfold update. destruct (find (inner w) c) as [e|]; [|done]. case_match; [done|]. set (es := if has then _ else _). clearbody es.
  destruct es as [exp s]. cbn [snd]. etrans; [apply aof_push_same|done].
Qed.

Lemma remove_same c w : same_stray w (snd (remove c w)).
Proof.
  unfold remove. destruct (find (inner w) c) as [e|]; [|done]. case_match; [done|]. cbn [snd].
  etrans; [apply (aof_push_same _ (with_inner (data_erase c) w))|done].
Qed.

Lemma compact_same w : same_stray w (compact os w).
Proof.
  unfold compact. case_match; [|done]. cbv zeta. set (w1 := with_sys _ _).
  assert (H1 : same_stray w w1) by apply flush_store_same. clearbody w1. destruct (aof (inner w1)); [|done].
  by destruct (truncate os _ _).
Qed.

(** ** Opening *)
Lemma boot_config w : wf w -> wf (boot os w) /\ same_config (inner (boot os w)) (inner w).
Proof.
  intros H. assert (HR : forall p w, wf w -> wf (replay_into os p w) /\ same_config (inner (replay_into os p w)) (inner w)).
  { clear. intros p w H. unfold replay_into. destruct (replay_file os p (sys w)) as [ls s']. by destruct (feed_frame ls (inner w) H) as (F1 & F2 & _). }
  unfold boot. destruct (HR (path_join (dir (inner w)) (snap_name (instance (inner w)))) w H) as [H1 C1]. set (w1 := replay_into os _ w) in *.
  destruct (HR (path_join (dir (inner w1)) (own_name (inner w1))) w1 H1) as [H2 C2]. set (w2 := replay_into os _ w1) in *.
  apply (fold_left_preserves (fun x => wf x /\ same_config (inner x) (inner w))); [|by split; [|etrans]].
  intros x f [Hx Cx]. unfold open_sibling. destruct (HR (path_join (dir (inner x)) (take (length f - 4) f ++ B ".snap")) x Hx) as [H3 C3]. split.
  - unfold wf. cbn. apply new_reader_wf, H3.
  - cbn. unfold new_reader. case_match; (etrans; [|exact Cx]); exact C3.
Qed.

Lemma boot_stray w : stray_bounded (inner w) -> stray_bounded (inner (boot os w)).
Proof.
  assert (HR : forall p w, stray_bounded (inner w) -> stray_bounded (inner (replay_into os p w))).
  { clear. intros p w H. unfold replay_into. destruct (replay_file os p (sys w)) as [ls s']. by apply feed_stray. }
  intros H. unfold boot. apply (fold_left_preserves (fun w => stray_bounded (inner w))); [|by apply HR, HR].
  intros x f Hx. unfold open_sibling. by apply new_reader_stray, HR.
Qed.
End Stray.

(** ** Sessions *)
Lemma step_stray {std : StdImpl} os env fuel o w w' : wf w -> stray_bounded (inner w) -> step os env fuel o w = Some w' ->
  wf w' /\ stray_bounded (inner w').
Proof.
  intros H T. destruct o as [u al ttl|us ttl|c|c u ttl has|c| | | |]; cbn [step].
  - pose proof (shorten_spec os fuel u al ttl w H) as Hs. pose proof (shorten_same os fuel u al ttl w) as Ht.
    destruct (shorten os fuel u al ttl w) as [[c|] w1|]; [..|done]; intros [= <-]; (split; [|by eapply same_stray_bounded, T; eapply Ht]).
    + apply Hs.
    + destruct Hs as (_ & E & _). unfold wf. by rewrite E.
  - pose proof (shorten_many_spec os fuel us ttl w H) as Hs. pose proof (shorten_many_same os fuel us ttl w) as Ht.
    destruct (shorten_many os fuel us ttl w) as [cs w1|]; [|done]. intros [= <-]. split; [apply Hs|by eapply same_stray_bounded, T; eapply Ht].
  - intros [= <-]. split; [by apply resolve_wf|by apply resolve_stray].
  - intros [= <-]. pose proof (update_spec os c u ttl has w H) as Hs. pose proof (update_same os c u ttl has w) as Ht.
    destruct (update os c u ttl has w). split; [apply Hs|by eapply same_stray_bounded, T].
  - intros [= <-]. pose proof (remove_spec c w H) as Hs. pose proof (remove_same c w) as Ht. destruct (remove c w).
    split; [apply Hs|by eapply same_stray_bounded, T].
  - intros [= <-]. split; [by apply flush_store_frame|eapply same_stray_bounded, T; apply flush_store_same].
  - intros [= <-]. split; [|eapply same_stray_bounded, T; apply sync_store_same]. unfold sync_store. case_match; [|done].
    destruct (sync os _ _). by apply wf_set_aof.
  - intros [= <-]. unfold poll_tails. case_match; [|done]. split; [by apply poll_locked_wf|by apply poll_locked_stray].
  - intros [= <-]. split; [by apply compact_frame|eapply same_stray_bounded, T; apply compact_same].
Qed.

Lemma open_stray {std : StdImpl} os d inst s seed links w : open_store os d inst s seed links = inl w -> wf w /\ stray_bounded (inner w).
Proof.
  assert (H0 : forall i, tail i = Tail0 -> stray_bounded i) by (intros i E; unfold stray_bounded; rewrite E; vm_compute; discriminate).
  unfold open_store. case_bool_decide as Hd; [intros [= <-]; split; [by apply fresh_wf|by apply H0]|].
  set (who := if 0 <=? inst then _ else _). destruct who as [[id lk] s1]. destruct ((id <? 0) || _); [done|].
  destruct (open_at Aof0 d (log_name id) s1) as [[ok a] s2]. destruct ok; [|done]. intros H. injection H as <-.
  set (i0 := mkInner _ _ _ _ _ _ _ _ _ _).
  split; [apply (boot_config os (mkWorld i0 s2 seed links)), (fresh_wf i0 eq_refl)|]. by apply boot_stray, (H0 i0).
Qed.

(** C24 What a hostile or long-lived directory can do to the counters is
    bounded. Whatever the files hold and whatever operations run, hits are
    kept for at most MAX_STRAY_HITS unknown codes, every link and every
    counter being in the shard its code hashes to. And lines of logs and
    snapshots, as many as there are, are folded into any index without an
    overflow of the plain int64_t sums of [apply] - undefined behaviour in
    C++ -, no count passing the hits there were and those the lines bring,
    if the lines bring none that are negative and, with those there were,
    fewer than 2^63. (Lines that bring more do overflow:
    [huge_hits_overflow].) *)
Theorem hits_stay_bounded {std : StdImpl} :
  (forall os env fuel d inst s seed links ops w0 w1,
     open_store os d inst s seed links = inl w0 -> run os env fuel ops w0 = Some w1 ->
     inner_wf (inner w1) /\ Z.of_nat (size (tl_stray (tail (inner w1)))) <= MAX_STRAY_HITS) /\
  (forall ls i stray T,
     inner_wf i -> counts_le T (i, stray) -> 0 <= T ->
     Forall (fun l => 0 <= line_hits l) ls -> T + hits_total ls < 2 ^ 63 ->
     no_overflow ls (i, stray) /\ counts_le (T + hits_total ls) (apply_lines ls (i, stray))).
Proof.
  split; [|intros ls i stray T; apply (lines_counts ls T (i, stray))].
  intros os env fuel d inst s seed links ops w0 w1 Ho. apply open_stray in Ho. revert w0 Ho.
  induction ops as [|o ops IH]; intros w0 [H1 H2]; cbn [run]; [by intros [= <-]|].
  destruct (step os env fuel o w0) as [w|] eqn:E; [|done]. apply IH. by eapply step_stray.
Qed.

(** A hit before its row, the row and another hit. *)
Definition demo_lines : list bytes :=
  map line_of [Hit (B "q") 3 0; Row (B "q") (B "https://q.example/") 5 0 0 4; Hit (B "q") 2 0].
Lemma demo_fresh : inner_wf (inner no_world) /\ counts_le 0 (inner no_world, ∅).
Proof.
  split; [by apply (fresh_wf (inner no_world))|]. split; [|done].
  intros c e. cbn [fst]. unfold find, shard_at. destruct (shards (inner no_world) !! shard_of c) as [sh|] eqn:E; cbn; [|by rewrite lookup_empty].
  change (shards (inner no_world)) with (replicate NUM_SHARDS Shard0) in E. apply lookup_replicate in E as [-> _]. cbn. by rewrite lookup_empty.
Qed.

Lemma hits_stay_bounded_witness :
  Z.of_nat (size (tl_stray (tail (inner demo_world)))) <= MAX_STRAY_HITS /\
  no_overflow (std := RefStd) demo_lines (inner no_world, ∅).
Proof.
  destruct (hits_stay_bounded (std := RefStd)) as [H1 H2]. split.
  - apply (H1 RefOs Env0 1%nat (B "data") 0 RefSys 1 0 demo_ops demo_open demo_world demo_open_eq demo_run_eq).
  - apply (H2 demo_lines (inner no_world) ∅ 0); [apply demo_fresh|apply demo_fresh|lia| |].
    + unfold demo_lines. cbn [map]. repeat (constructor; [vm_compute; discriminate|]). constructor.
    + vm_compute. reflexivity.
Defined.

(** Two lines for an unknown code overflow the sum kept for it. *)
Definition huge_lines : list bytes := map line_of [Hit (B "q") (2 ^ 63 - 1) 0; Hit (B "q") 1 0].
Theorem huge_hits_overflow : ~ no_overflow (std := RefStd) huge_lines (inner no_world, ∅).
Proof.
  assert (E : exists o1 o2, parse_op (nth 0 huge_lines []) = Some o1 /\ parse_op (nth 1 huge_lines []) = Some o2 /\
    existsb (Z.leb (2 ^ 63)) (apply_sums (std := RefStd) (fst (apply (std := RefStd) (inner no_world) o1 ∅)) o2
      (snd (apply (std := RefStd) (inner no_world) o1 ∅))) = true).
  { eexists _, _. split; [vm_compute; reflexivity|]. split; [vm_compute; reflexivity|]. vm_compute. reflexivity. }
  destruct E as (o1 & o2 & E1 & E2 & E3). unfold huge_lines in *. cbn [map nth] in E1, E2. cbn [map no_overflow].
  intros (_ & H & _). unfold apply_line in H. rewrite E1 in H. cbn [fst snd] in H. rewrite E2 in H.
  apply existsb_exists in E3 as (z & Hz & Hle). apply list_elem_of_In in Hz. rewrite Forall_forall in H. specialize (H z Hz).
  unfold in_i64 in H. apply Z.leb_le in Hle. lia.
Qed.
