(* ===== verification/Main.v ===== *)
(** * main.cpp and the choice of a store (store.cpp, [Store::open_env])

    What a process does is decided by its environment: it supervises workers
    or serves, it seeds, it opens one of the three stores. The supervisor
    gives every worker an environment of its own; the claims follow it into
    the worker, and the seeded links into the store that is opened next. *)

From S2P Require Import Prelude CLib Common Codec Aof Store StoreFacts StoreSpec Durability Recovery Bounds.

(** ** The environment *)

(** [getenv] on [environ]: the value behind the first [k=]. *)
Fixpoint getenv (environ : list bytes) (k : bytes) : option bytes :=
  match environ with
  | [] => None
  | e :: es => if starts_with (k ++ B "=") e then Some (drop (length k + 1) e) else getenv es k
  end.

Definition port (env : Env) : Z := env_i64 env (B "PORT") 3000.
Definition data_dir (env : Env) : bytes := env_str env (B "DATA_DIR") (B "data").

(** ** [Store::open_env]: which store, with what *)
Inductive Opening :=
  | OpenLog (dir : bytes) (instance : Z)
  | OpenRocks (path : bytes) (instance cache_entries cache_ttl_ms : Z)
  | OpenKv (addr : bytes) (instance cache_entries cache_ttl_ms : Z).

Definition open_env (env : Env) (dir : bytes) (instance : Z) : Opening :=
  let mode := env_str env (B "STORE") (B "aof") in
  let cache := u64 (env_i64 env (B "CACHE") 100000) in
  let ttl := env_i64 env (B "CACHE_TTL_MS") 5000 in
  if (mode =s B "rocksdb") || (mode =s B "rocks") then
    let path := env_str env (B "ROCKSDB_PATH") [] in
    OpenRocks (if path =s [] then dir ++ B "/rocks" else path) instance cache ttl
  else if (mode =s B "dragonfly") || (mode =s B "redis") || (mode =s B "kv") then
    let addr := env_str env (B "DRAGONFLY_ADDR") [] in
    OpenKv (if addr =s [] then env_str env (B "KV_ADDR") (B "127.0.0.1:6379") else addr) instance cache ttl
  else OpenLog dir instance.

(** ** Seeding the log store *)
Definition seed_url (i : nat) : bytes := B "https://example.com/" ++ to_string (Z.of_nat i).
Definition seed_urls (n : Z) : list bytes := map seed_url (seq 0 (Z.to_nat n)).

Section Main.
Context {std : StdImpl} (os : Os).

(** [seed] of main.cpp on the store that was opened; the state of the
    system afterwards, [None] when the fuel of the codes ran out. *)
Definition seed_store (fuel : nat) (n : Z) (w : World) : option Sys :=
  if empty w then
    match seed os fuel (seed_urls n) w with
    | Done _ w => Some (sys (close_store os w))
    | OutOfFuel => None
    end
  else Some (sys (close_store os w)).

(** [seed]: an exception of the opening is reported and swallowed. *)
Definition seed_dir (fuel : nat) (n : Z) (dir : bytes) (s : Sys) (rng links : Z) : option Sys :=
  match open_store os dir 0 s rng links with
  | inl w => seed_store fuel n w
  | inr (_, s) => Some s
  end.

(** ** The supervisor *)

Definition keep_var (v : bytes) : bool :=
  negb (starts_with (B "SHRT_CHILD=") v) && negb (starts_with (B "INSTANCE=") v) &&
  negb (starts_with (B "WORKERS=") v) && negb (starts_with (B "SEED=") v).

(** The environment of worker [i]. *)
Definition child_env (environ : list bytes) (i : Z) : list bytes :=
  filter (fun v => Is_true (keep_var v)) environ ++
  [B "SHRT_CHILD=1"; B "INSTANCE=" ++ to_string i; B "WORKERS=1"; B "SEED=0"].

(** [run_supervisor] up to its wait: the exit code, or the workers that
    [posix_spawn], given their environments, started. *)
Definition run_supervisor (exe_ok : bool) (posix_spawn : list bytes -> option Z) (environ : list bytes) (n : Z) : Z + list Z :=
  if exe_ok
  then inr (omap (fun i => posix_spawn (child_env environ (Z.of_nat i))) (seq 0 (Z.to_nat n)))
  else inl 1.

(** ** [main] *)
Inductive ServerKind := Mini | Kq.
Definition server_kind (env : Env) : ServerKind := if env_str env (B "SERVER") (B "mini") =s B "kq" then Kq else Mini.

(** [serve]: the store that is opened, the port and the server. *)
Record Serving := mkServing { sv_store : Opening; sv_port : Z; sv_kind : ServerKind }.
Definition serve (env : Env) : Serving :=
  mkServing (open_env env (data_dir env) (i32 (env_i64 env (B "INSTANCE") (-1)))) (i32 (port env)) (server_kind env).

Inductive Role := Supervise (n : Z) | Serve (s : Serving).

(** [main]: the links to seed first, and what follows. *)
Definition main (env : Env) : option Z * Role :=
  let workers := env_i64 env (B "WORKERS") 1 in
  let seed_n := env_i64 env (B "SEED") 0 in
  let sd := if 0 <? seed_n then Some seed_n else None in
  match env (B "SHRT_CHILD") with
  | None => if 1 <? workers then (sd, Supervise (i32 workers)) else (sd, Serve (serve env))
  | Some _ => (sd, Serve (serve env))
  end.
End Main.

(** ** Lemmas: the environment of a worker *)

Lemma getenv_app e1 e2 k : getenv (e1 ++ e2) k = match getenv e1 k with Some v => Some v | None => getenv e2 k end.
Proof. induction e1 as [|e e1 IH]; [done|]. cbn [getenv app]. by destruct (starts_with _ e). Qed.

(** Two assignments to different variables never look alike. *)
Lemma var_prefix (k k' v : bytes) : ("="%char ∉ k) -> ("="%char ∉ k') -> starts_with (k ++ B "=") (k' ++ B "=" ++ v) = true -> k = k'.
Proof.
  intros Hk Hk' H. apply starts_with_spec in H as [r H]. rewrite <- app_assoc in H. change (B "=") with ["="%char] in H.
  revert k' Hk' H. induction k as [|x k IH]; intros [|y k'] Hk' H; simpl in H.
  - done.
  - injection H as E _. contradict Hk'. rewrite E. left.
  - injection H as E _. contradict Hk. rewrite E. left.
  - injection H as E H. subst y. apply not_elem_of_cons in Hk as [_ Hk]. apply not_elem_of_cons in Hk' as [_ Hk'].
    f_equal. by apply IH.
Qed.

(** Filtering out the assignments to [k0] hides [k0] and nothing else. *)
Definition assigns (k0 v : bytes) : bool := starts_with (k0 ++ B "=") v.

Lemma getenv_filter_other (P : bytes -> Prop) `{forall v, Decision (P v)} environ k :
  (forall v, v ∈ environ -> assigns k v = true -> P v) -> getenv (filter P environ) k = getenv environ k.
Proof.
  induction environ as [|e es IH]; intros Hk; [done|]. rewrite filter_cons. cbn [getenv].
  fold (assigns k e). destruct (assigns k e) eqn:E.
  - rewrite decide_True by (apply Hk; [left|done]). cbn [getenv]. fold (assigns k e). by rewrite E.
  - assert (IH' : getenv (filter P es) k = getenv es k) by (apply IH; intros v Hv; apply Hk; by right).
    case_decide; [|done]. cbn [getenv]. fold (assigns k e). by rewrite E.
Qed.

Lemma getenv_filter_none (P : bytes -> Prop) `{forall v, Decision (P v)} environ k :
  (forall v, assigns k v = true -> ~ P v) -> getenv (filter P environ) k = None.
Proof.
  intros Hk. induction environ as [|e es IH]; [done|]. rewrite filter_cons. case_decide as Hd; [|done].
  cbn [getenv]. fold (assigns k e). destruct (assigns k e) eqn:E; [by destruct (Hk e E)|done].
Qed.

Definition own_vars : list bytes := [B "SHRT_CHILD"; B "INSTANCE"; B "WORKERS"; B "SEED"].

Lemma keep_var_own k v : k ∈ own_vars -> assigns k v = true -> keep_var v = false.
Proof.
  unfold own_vars, keep_var, assigns. intros Hk Hv. repeat (apply elem_of_cons in Hk as [->|Hk]; [cbn [app] in Hv|]); [..|by apply not_elem_of_nil in Hk].
  all: change (B "SHRT_CHILD" ++ B "=") with (B "SHRT_CHILD=") in Hv || change (B "INSTANCE" ++ B "=") with (B "INSTANCE=") in Hv ||
       change (B "WORKERS" ++ B "=") with (B "WORKERS=") in Hv || change (B "SEED" ++ B "=") with (B "SEED=") in Hv.
  all: rewrite Hv; cbn [negb andb]; rewrite ?andb_false_r; done.
Qed.

Lemma own_vars_plain k : k ∈ own_vars -> "="%char ∉ k.
Proof.
  intros Hk. assert (H : Forall (fun k => "="%char ∉ k) own_vars) by (repeat constructor; by apply (bool_decide_unpack (_ ∉ _))).
  rewrite Forall_forall in H. by apply H.
Qed.

Lemma assigns_other k k0 v r : ("="%char ∉ k) -> k0 ∈ own_vars -> k ∉ own_vars -> v = k ++ B "=" ++ r -> assigns k0 v = false.
Proof.
  intros Hk Hk0 Hn ->. destruct (assigns k0 (k ++ B "=" ++ r)) eqn:E; [|done].
  apply var_prefix in E; [by subst|by apply own_vars_plain|done].
Qed.

Lemma keep_var_other k v : ("="%char ∉ k) -> k ∉ own_vars -> assigns k v = true -> keep_var v = true.
Proof.
  intros Hk Hn Hv. apply starts_with_spec in Hv as [r Hv]. rewrite <- app_assoc in Hv.
  assert (H : forall k0, k0 ∈ own_vars -> assigns k0 v = false) by (intros k0 Hk0; by eapply assigns_other).
  assert (H1 := H (B "SHRT_CHILD") ltac:(unfold own_vars; set_solver)). assert (H2 := H (B "INSTANCE") ltac:(unfold own_vars; set_solver)).
  assert (H3 := H (B "WORKERS") ltac:(unfold own_vars; set_solver)). assert (H4 := H (B "SEED") ltac:(unfold own_vars; set_solver)).
  unfold assigns in *. unfold keep_var.
  change (B "SHRT_CHILD=") with (B "SHRT_CHILD" ++ B "="). change (B "INSTANCE=") with (B "INSTANCE" ++ B "=").
  change (B "WORKERS=") with (B "WORKERS" ++ B "="). change (B "SEED=") with (B "SEED" ++ B "="). by rewrite H1, H2, H3, H4.
Qed.

Definition own_value (i : Z) (k : bytes) : option bytes :=
  if k =s B "SHRT_CHILD" then Some (B "1") else if k =s B "INSTANCE" then Some (to_string i)
  else if k =s B "WORKERS" then Some (B "1") else if k =s B "SEED" then Some (B "0") else None.

Lemma own_value_none i k : k ∉ own_vars -> own_value i k = None.
Proof. unfold own_vars, own_value. intros H. repeat (case_bool_decide; [subst; set_solver|]). done. Qed.

(** What a worker sees of its environment. *)
Lemma getenv_child environ i k : ("="%char ∉ k) ->
  getenv (child_env environ i) k = match own_value i k with Some v => Some v | None => getenv environ k end.
Proof.
  intros Hk. unfold child_env. rewrite getenv_app. destruct (decide (k ∈ own_vars)) as [Hin|Hn].
  - rewrite getenv_filter_none; [|intros v Hv; rewrite (keep_var_own k v Hin Hv); by intros []].
    unfold own_vars in Hin. repeat (apply elem_of_cons in Hin as [->|Hin]; [vm_compute; done|]). by apply not_elem_of_nil in Hin.
  - rewrite getenv_filter_other; [|intros v _ Hv; by rewrite (keep_var_other k v Hk Hn Hv)].
    rewrite own_value_none by done. destruct (getenv environ k); [done|].
    set (l := [_; _; _; _]). cut (forall v, v ∈ l -> assigns k v = false).
    + clearbody l. induction l as [|e l IH]; intros H; [done|]. cbn [getenv]. fold (assigns k e). rewrite H by left.
      apply IH. intros v Hv. apply H. by right.
    + intros v Hv. destruct (assigns k v) eqn:E; [|done]. pose proof (keep_var_other k v Hk Hn E) as Hkeep.
      unfold l in Hv. repeat (apply elem_of_cons in Hv as [->|Hv]; [by vm_compute in Hkeep|]). by apply not_elem_of_nil in Hv.
Qed.

Lemma child_env_i64 environ i k d : ("="%char ∉ k) -> k ∉ own_vars -> env_i64 (getenv (child_env environ i)) k d = env_i64 (getenv environ) k d.
Proof. intros Hk Hn. unfold env_i64. by rewrite getenv_child, own_value_none. Qed.
Lemma child_env_str environ i k d : ("="%char ∉ k) -> k ∉ own_vars -> env_str (getenv (child_env environ i)) k d = env_str (getenv environ) k d.
Proof. intros Hk Hn. unfold env_str. by rewrite getenv_child, own_value_none. Qed.

Ltac other_var := first [apply (bool_decide_unpack (_ ∉ _)); vm_compute; exact I].

Lemma child_serves environ i : 0 <= i < 2 ^ 31 ->
  serve (getenv (child_env environ i)) =
  mkServing (open_env (getenv environ) (data_dir (getenv environ)) i) (i32 (port (getenv environ))) (server_kind (getenv environ)).
Proof.
  intros Hi. unfold serve, open_env, data_dir, port, server_kind.
  assert (Hinst : i32 (env_i64 (getenv (child_env environ i)) (B "INSTANCE") (-1)) = i).
  { unfold env_i64. rewrite getenv_child by other_var. change (own_value i (B "INSTANCE")) with (Some (to_string i)).
    destruct (to_string_cons i) as (x & l & E & _). rewrite E.
    rewrite <- E, <- (app_nil_r (to_string i)), strtoll_to_string by (unfold in_i64; done || lia).
    apply i32_id. unfold in_i32. lia. }
  rewrite Hinst, !child_env_i64, !child_env_str by other_var. done.
Qed.

(** ** Lemmas: seeding *)

Lemma row_table_of_empty (i : Inner) : inner_wf i -> (forallb (fun sh => bool_decide (sh_data sh = ∅)) (shards i) = true <-> table i = ∅).
Proof.
  intros H. rewrite forallb_forall. unfold table. split.
  - intros Hs. apply fmap_empty_iff. apply map_eq. intros c. rewrite data_find, lookup_empty by done.
    unfold find. destruct (sh_data (shard_at i c) !! c) eqn:E; [|done].
    apply shard_at_lookup with (c := c), list_elem_of_lookup_2, list_elem_of_In, Hs, bool_decide_eq_true in H. by rewrite H, lookup_empty in E.
  - intros Ht sh Hsh. apply bool_decide_eq_true, map_eq. intros c. rewrite lookup_empty.
    destruct (sh_data sh !! c) eqn:E; [|done]. apply list_elem_of_In, list_elem_of_lookup_1 in Hsh as [k Hk].
    pose proof (wf_data i H k sh c Hk ltac:(by rewrite E)) as <-. rewrite shard_at_lookup in Hk by done. injection Hk as <-.
    apply fmap_empty_iff in Ht. pose proof (data_find i c H) as Hd. rewrite Ht, lookup_empty in Hd. unfold find in Hd. congruence.
Qed.

Section Seeding.
Context {std : StdImpl} (os : Os).
Context (Hw : no_io_error (os_write os)) (Hr : no_io_error (os_read os)).

Lemma quiet_closed w : quiet w (with_inner set_closed w).
Proof. do 4 (split; [done|]). by apply alone_ext. Qed.

(** Closing leaves what opening needs. *)
Lemma close_reopen w S L rng links : durable w S L [] -> lock (inner w) = [] ->
  exists w2, open_store os (dir (inner w)) (instance (inner w)) (sys (close_store os w)) rng links = inl w2 /\
    table (inner w2) = table (inner w) /\ wf w2.
Proof.
  intros D Hl. unfold close_store. destruct (closed (inner w)); [by eapply reopen_at_rest|].
  pose proof (durable_quiet _ _ _ _ _ (quiet_closed w) D) as D1. destruct (durable_flush os Hw _ _ _ _ D1) as [D2 Hd].
  destruct (flush_store_frame os (with_inner set_closed w) (proj1 (du_index _ _ _ _ D1))) as (_ & Hc & _).
  set (w1 := flush_store os (with_inner set_closed w)) in *. pose proof (durable_sync os Hw _ _ _ _ D2) as D3.
  match goal with |- context [open_store os _ _ (sys ?x)] => assert (Hs : sys x = sys (sync_store os w1)) end.
  { destruct Hc as (_ & _ & _ & _ & Hlk). change (lock (inner (with_inner set_closed w))) with (lock (inner w)) in Hlk. rewrite Hl in Hlk.
    cbv zeta. fold w1. destruct (du_disk _ _ _ _ D2) as (a & Ha & _ & Hok & _). unfold sync_store, sync, close, aof_ok in *. rewrite Ha in *.
    destruct (a_fd a); [|done]. destruct (flush os a (sys w1)) as [a' s']. cbn. by rewrite Hlk. }
  rewrite Hs. destruct (reopen_at_rest os _ _ _ rng links Hr D3) as (w2 & H1 & H2 & H3).
  assert (Hcs : same_config (inner (sync_store os w1)) (inner w) /\ table (inner (sync_store os w1)) = table (inner w)).
  { destruct (du_disk _ _ _ _ D2) as (a & Ha & _). unfold sync_store, sync. rewrite Ha. destruct (flush os a (sys w1)) as [a' s'].
    split; [exact Hc|]. change (table (inner w1) = table (inner w)). unfold table. by rewrite Hd. }
  destruct Hcs as [(C1 & _ & C3 & _) Ct]. rewrite C1, C3 in H1. exists w2. by rewrite H2, Ct.
Qed.

(** The table after a batch of links. *)
Definition seeded (now inst : Z) (codes urls : list bytes) : Table :=
  fold_left (fun t cu => <[fst cu := mkRow (snd cu) now 0 inst]> t) (zip codes urls) ∅.

Lemma many_recs_seeded inn now codes urls : i32 (instance inn) = instance inn ->
  fold_left t_rec (many_recs inn now 0 (zip codes urls)) ∅ = seeded now (instance inn) codes urls.
Proof.
  intros Hi. unfold seeded, many_recs. generalize (∅ : Table). induction (zip codes urls) as [|cu l IH]; intros t; [done|]. cbn. by rewrite Hi, IH.
Qed.

Lemma open_store_lock d i s rng links w : 0 <= i -> open_store os d i s rng links = inl w -> lock (inner w) = [].
Proof.
  intros Hi. unfold open_store. case_bool_decide; [by intros [= <-]|]. rewrite (proj2 (Z.leb_le 0 i) Hi).
  case_match; [done|]. destruct (open_at Aof0 d (log_name i) s) as [[ok a] s1]. destruct ok; [|done]. intros [= <-].
  set (w0 := mkWorld _ s1 rng links). by destruct (boot_config os w0 (fresh_wf (inner w0) eq_refl)) as [_ (_ & _ & _ & _ & ->)].
Qed.
End Seeding.

(** ** The claims *)

(** C23 Every worker the supervisor starts serves its own instance: when the
    environment makes [main] a supervisor of [n] workers, worker [i] < [n]
    reads from the environment it is given that it is a child, that it
    seeds nothing and that its instance is [i], so that it serves, on the
    store, the port and with the server of its parent; and every other
    variable has in it the value it has for the parent. *)
Theorem workers_serve_their_instance environ sd n i :
  main (getenv environ) = (sd, Supervise n) -> 0 <= i < n ->
  main (getenv (child_env environ i)) =
    (None, Serve (mkServing (open_env (getenv environ) (data_dir (getenv environ)) i) (i32 (port (getenv environ))) (server_kind (getenv environ)))) /\
  forall k, ("="%char ∉ k) -> k ∉ own_vars -> getenv (child_env environ i) k = getenv environ k.
Proof.
  intros Hm Hi. split; [|intros k Hk Hn; by rewrite getenv_child, own_value_none].
  assert (Hn : n < 2 ^ 31).
  { unfold main in Hm. destruct (getenv environ (B "SHRT_CHILD")); [done|]. case_match; [|done]. injection Hm as _ <-.
    unfold i32. set (z := env_i64 _ _ _). pose proof (Z.mod_pos_bound (z + 2 ^ 31) (2 ^ 32) ltac:(lia)). lia. }
  unfold main at 1. rewrite (getenv_child environ i (B "SHRT_CHILD")) by other_var.
  rewrite child_serves by lia. unfold env_i64 at 1. rewrite (getenv_child environ i (B "SEED")) by other_var. done.
Qed.

Definition demo_environ : list bytes := [B "PATH=/bin"; B "INSTANCE=9"; B "SEED=100"; B "WORKERS=3"; B "SERVER=kq"; B "PORT=8080"].

Lemma workers_serve_their_instance_witness :
  main (getenv demo_environ) = (Some 100, Supervise 3) /\
  main (getenv (child_env demo_environ 2)) = (None, Serve (mkServing (OpenLog (B "data") 2) 8080 Kq)) /\
  getenv (child_env demo_environ 2) (B "PATH") = Some (B "/bin").
Proof.
  assert (H : main (getenv demo_environ) = (Some 100, Supervise 3)) by (vm_compute; reflexivity).
  destruct (workers_serve_their_instance demo_environ (Some 100) 3 2 H ltac:(lia)) as [H1 H2].
  split; [exact H|]. split; [etrans; [exact H1|]; vm_compute; reflexivity|].
  etrans; [apply H2; apply (bool_decide_unpack (_ ∉ _)); vm_compute; exact I|]. vm_compute. reflexivity.
Defined.

(** C22 What [main] seeds is there for whoever serves next: [SEED=n] in a
    directory without links leaves files from which the store opens with
    exactly [n] links, under distinct codes of instance 0, to
    https://example.com/0, /1 and so on, without an expiry; in a directory
    with links it leaves these and adds none. *)
Theorem seed_then_open {std : StdImpl} os fuel n d s rng links rng' links' S L s' :
  no_io_error (os_write os) -> no_io_error (os_read os) -> dir_ok d 0 s S L [] ->
  seed_dir os fuel n d s rng links = Some s' ->
  exists w, open_store os d 0 s' rng' links' = inl w /\
    (replay_table (S ++ L) = ∅ -> exists now codes, length codes = Z.to_nat n /\ NoDup codes /\
       Forall (code_shape (Base62.alpha 0)) codes /\ table (inner w) = seeded now 0 codes (seed_urls n)) /\
    (replay_table (S ++ L) ≠ ∅ -> table (inner w) = replay_table (S ++ L)).
Proof.
  intros Hw Hr Hd. unfold seed_dir. destruct (open_store_ok os d 0 s rng links S L [] Hr Hd) as (w0 & Ho & Ht & Hi & Hdir & HD).
  rewrite Ho. specialize (HD eq_refl). pose proof (open_store_lock os d 0 s rng links w0 (Z.le_refl 0) Ho) as Hlk.
  pose proof (proj1 (du_index _ _ _ _ HD)) as Hwf. pose proof (row_table_of_empty _ Hwf) as He. rewrite Ht in He.
  unfold seed_store. change (forallb _ _) with (empty w0) in He. destruct (empty w0) eqn:Ee; intros Hs.
  - destruct (seed os fuel (seed_urls n) w0) as [k w2|] eqn:E; [|done]. injection Hs as <-. unfold seed in E.
    pose proof (durable_shorten_many os Hw fuel (seed_urls n) 0 w0 S L [] HD) as D1.
    pose proof (shorten_many_spec os fuel (seed_urls n) 0 w0 Hwf) as Hm.
    destruct (shorten_many os fuel (seed_urls n) 0 w0) as [codes w1|]; [|done]. injection E as _ <-.
    destruct D1 as (L' & Bf' & D1 & EL). destruct Hm as (Hlen & Hnd & Hall & _ & Hwf1 & Hc1 & _).
    destruct (durable_flush os Hw _ _ _ _ D1) as [D2 Hd2]. destruct (flush_store_frame os w1 Hwf1) as (_ & Hc2 & _).
    set (w2 := flush_store os w1) in *. assert (Hc : same_config (inner w2) (inner w0)) by by etrans.
    destruct Hc as (C1 & _ & C3 & _ & C5). rewrite Hlk in C5.
    destruct (close_reopen os Hw Hr w2 _ _ rng' links' D2 C5) as (w & H1 & H2 & _). rewrite C1, C3, Hi, Hdir in H1.
    exists w. split; [exact H1|]. pose proof (proj1 He eq_refl) as HE. split; [|done]. intros _.
    exists (now_of os w0), codes. rewrite Hlen. unfold seed_urls at 1. rewrite length_map, length_seq. split_and!; [done|done|..].
    + destruct (du_cfg _ _ _ _ HD) as (_ & Hp & _). rewrite Hi in Hp. rewrite <- Hp.
      eapply Forall_impl; [exact Hall|]. by intros c [_ Hc].
    + rewrite H2. unfold table. rewrite Hd2. change (table (inner w1) = seeded (now_of os w0) 0 codes (seed_urls n)).
      rewrite (du_table _ _ _ _ D1), EL, app_nil_l, app_assoc, replay_table_app, HE.
      etrans; [apply (many_recs_seeded (inner w0)); by rewrite Hi|by rewrite Hi].
  - injection Hs as <-. destruct (close_reopen os Hw Hr w0 S L rng' links' HD Hlk) as (w & H1 & H2 & _). rewrite Hi, Hdir in H1.
    exists w. split; [exact H1|]. split; [intros HE; by apply He in HE|]. intros _. by rewrite H2, Ht.
Qed.

Definition demo_seed : option Sys := seed_dir (std := RefStd) RefOs 5 2 (B "data") RefSys 1 0.

Lemma demo_seed_eq : seed_dir (std := RefStd) RefOs 5 2 (B "data") RefSys 1 0 = Some (default RefSys demo_seed).
Proof. vm_compute. reflexivity. Qed.

Lemma seed_then_open_witness :
  exists w now codes, open_store (std := RefStd) RefOs (B "data") 0 (default RefSys demo_seed) 7 0 = inl w /\
    length codes = 2%nat /\ table (inner w) = seeded now 0 codes [B "https://example.com/0"; B "https://example.com/1"].
Proof.
  destruct (seed_then_open (std := RefStd) RefOs 5 2 (B "data") RefSys 1 0 7 0 [] [] (default RefSys demo_seed)
    RefOs_write RefOs_read empty_dir_ok demo_seed_eq) as (w & H1 & H2 & _).
  destruct (H2 eq_refl) as (now & codes & H3 & _ & _ & H4). exists w, now, codes. split; [exact H1|]. split; [exact H3|exact H4].
Defined.

(** There are 62 instances; a worker beyond them cannot open the log store. *)
Lemma worker_beyond_instances {std : StdImpl} os d i s rng links : d ≠ B ":memory:" -> Base62.MAX_INSTANCES <= i ->
  open_store os d i s rng links = inr (NoFreeInstance, s).
Proof.
  intros Hd Hi. unfold open_store, Base62.MAX_INSTANCES in *. rewrite bool_decide_eq_false_2 by done.
  rewrite (proj2 (Z.leb_le 0 i)), (proj2 (Z.ltb_ge i 0)), (proj2 (Z.leb_le 62 i)) by lia. done.
Qed.

Example workers_beyond_instances_stop :
  main (getenv [B "WORKERS=64"]) = (None, Supervise 64) /\
  main (getenv (child_env [B "WORKERS=64"] 62)) = (None, Serve (mkServing (OpenLog (B "data") 62) 3000 Mini)) /\
  open_store (std := RefStd) RefOs (B "data") 62 RefSys 1 0 = inr (NoFreeInstance, RefSys).
Proof. split_and!; [vm_compute; reflexivity|vm_compute; reflexivity|by apply worker_beyond_instances]. Qed.
