(* ===== verification/Float.v ===== *)
(** * The [double] arithmetic of the program

    IEEE binary64 through the Standard Library's [SpecFloat], with the
    conversions the code uses: [strtod] and [atof], the casts from and to
    [int64_t], [std::round], [std::min] and [std::max], and [printf]'s "%g".
    Every operation rounds as the hardware does, to nearest and even. *)

From Stdlib Require Export SpecFloat.
From S2P Require Import Prelude CLib.

(** ** Arithmetic *)
Abbreviation F64 := spec_float.

Definition f_add : F64 -> F64 -> F64 := SFadd 53 1024.
Definition f_sub : F64 -> F64 -> F64 := SFsub 53 1024.
Definition f_mul : F64 -> F64 -> F64 := SFmul 53 1024.
Definition f_div : F64 -> F64 -> F64 := SFdiv 53 1024.
Definition f_lt : F64 -> F64 -> bool := SFltb.
Definition f_le : F64 -> F64 -> bool := SFleb.
(** The conversion from an integer, [(double)n]. *)
Definition f_of_Z (z : Z) : F64 := binary_normalize 53 1024 z 0 false.

(** [std::min] and [std::max] return the first argument unless the
    comparison says otherwise, which matters for a NaN. *)
Definition f_min (a b : F64) : F64 := if f_lt b a then b else a.
Definition f_max (a b : F64) : F64 := if f_lt a b then b else a.

(** The integer part, toward zero; none for NaN and the infinities. *)
Definition f_trunc (x : F64) : option Z :=
  match x with
  | S754_zero _ => Some 0
  | S754_finite s m e =>
      let a := if 0 <=? e then Z.pos m * 2 ^ e else Z.pos m / 2 ^ (- e) in
      Some (if s then - a else a)
  | _ => None
  end.

(** [(int64_t)x]. Out of range the conversion is undefined in C++; what a
    platform answers there is its choice. *)
Class CastImpl := {
  cast_oob : F64 -> Z;
  cast_oob_range : forall x, in_i64 (cast_oob x)
}.

Definition f_to_i64 {cast : CastImpl} (x : F64) : Z :=
  match f_trunc x with
  | Some z => if (LLONG_MIN <=? z) && (z <=? LLONG_MAX) then z else cast_oob x
  | None => cast_oob x
  end.

(** [std::round]: to the nearest integer, halves away from zero. *)
Definition f_round (x : F64) : F64 :=
  match x with
  | S754_finite s m e =>
      if 0 <=? e then x
      else
        let k := - e in
        let q := (Z.pos m + 2 ^ (k - 1)) / 2 ^ k in
        if q =? 0 then S754_zero s else f_of_Z (if s then - q else q)
  | _ => x
  end.

(** ** [strtod] *)
Definition lower (c : ascii) : ascii := if isupper c then chr (cc c + 32) else c.

(** [p] (in lower case) at the head of [s] whatever the case: what follows. *)
Fixpoint strip_ci (p s : bytes) : option bytes :=
  match p, s with
  | [], _ => Some s
  | a :: p', b :: s' => if a =c lower b then strip_ci p' s' else None
  | _, [] => None
  end.

Definition signed (neg : bool) (x : F64) : F64 := if neg then SFopp x else x.

(** The sign and the digits of an exponent after its letter. *)
Definition parse_exp (s : bytes) : option (Z * bytes) :=
  let '(neg, s1) :=
    match s with
    | c :: r => if c =c "-" then (true, r) else if c =c "+" then (false, r) else (false, s)
    | [] => (false, [])
    end in
  match span isdigit s1 with
  | ([], _) => None
  | (ds, r) => Some (if neg : bool then - of_digits ds else of_digits ds, r)
  end.

(** An exponent introduced by [letter]; without digits it is not one. *)
Definition opt_exp (letter : ascii) (s : bytes) : Z * bytes :=
  match s with
  | c :: r => if lower c =c letter then default (0, s) (parse_exp r) else (0, s)
  | [] => (0, [])
  end.

(** Digits with an optional point: integer part, fraction, rest. *)
Definition point_digits (p : ascii -> bool) (s : bytes) : bytes * bytes * bytes :=
  let '(a, r) := span p s in
  match r with
  | c :: r' => if c =c "." then let '(b, r'') := span p r' in (a, b, r'') else (a, [], r)
  | [] => (a, [], [])
  end.

(** [n * 10^e], correctly rounded; far outside the range the power of ten is
    not computed. *)
Definition scale10 (n : Z) (digits : nat) (e : Z) : F64 :=
  match n with
  | Z.pos m =>
      if 400 <? e then S754_infinity false
      else if Z.of_nat digits + e <? -400 then S754_zero false
      else if 0 <=? e then f_of_Z (n * 10 ^ e)
      else f_div (S754_finite false m 0) (S754_finite false (Z.to_pos (10 ^ (- e))) 0)
  | _ => S754_zero false
  end.

(** [m * 2^e] for a hexadecimal number. *)
Definition scale2 (n : Z) (digits : nat) (e : Z) : F64 :=
  match n with
  | Z.pos m =>
      if 1100 <? e then S754_infinity false
      else if 4 * Z.of_nat digits + e <? -1200 then S754_zero false
      else binary_normalize 53 1024 n e false
  | _ => S754_zero false
  end.

(** The number without its sign; [None] when nothing can be read. *)
Definition strtod_abs (s : bytes) : option (F64 * bytes) :=
  match strip_ci (B "infinity") s, strip_ci (B "inf") s, strip_ci (B "nan") s with
  | Some r, _, _ | None, Some r, _ => Some (S754_infinity false, r)
  | None, None, Some r =>
      match r with
      | c :: r1 =>
          if c =c "(" then
            match span (fun c => isalnum c || (c =c "_")) r1 with
            | (_, d :: r2) => if d =c ")" then Some (S754_nan, r2) else Some (S754_nan, r)
            | (_, []) => Some (S754_nan, r)
            end
          else Some (S754_nan, r)
      | [] => Some (S754_nan, r)
      end
  | None, None, None =>
      let dec :=
        let '(a, b, r) := point_digits isdigit s in
        match a ++ b with
        | [] => None
        | ds =>
            let '(e, r') := opt_exp "e" r in
            Some (scale10 (of_digits ds) (length ds) (e - Z.of_nat (length b)), r')
        end in
      match strip_ci (B "0x") s with
      | None => dec
      | Some h =>
          let '(a, b, r) := point_digits isxdigit h in
          match a ++ b with
          | [] => dec
          | ds =>
              let '(e, r') := opt_exp "p" r in
              Some (scale2 (of_xdigits ds) (length ds) (e - 4 * Z.of_nat (length b)), r')
          end
      end
  end.

(** [strtod(s, &end)]: the value and what is left, [None] if [end == s]. *)
Definition strtod (s : bytes) : option (F64 * bytes) :=
  let s1 := drop_while isspace s in
  let '(neg, s2) :=
    match s1 with
    | c :: r => if c =c "-" then (true, r) else if c =c "+" then (false, r) else (false, s1)
    | [] => (false, [])
    end in
  match strtod_abs s2 with
  | Some (x, r) => Some (signed neg x, r)
  | None => None
  end.

Definition atof (s : bytes) : F64 := match strtod s with Some (x, _) => x | None => S754_zero false end.

(** ** [printf("%g")] *)

(** [n / d] to the nearest integer, halves to even. *)
Definition div_even (n d : Z) : Z :=
  let q := n / d in let r := n mod d in
  if 2 * r <? d then q else if d <? 2 * r then q + 1 else if Z.even q then q else q + 1.

(** The decimal exponent of [n / d] (both positive): the largest [x] with
    [10^x <= n/d], searched downward from [x]. *)
Fixpoint log10_down (fuel : nat) (x n d : Z) : Z :=
  match fuel with
  | O => x
  | S f =>
      let le := if 0 <=? x then 10 ^ x * d <=? n else d <=? n * 10 ^ (- x) in
      if le then x else log10_down f (x - 1) n d
  end.

(** Six significant digits of [n / d] and the decimal exponent. *)
Definition digits6 (n d : Z) : Z * Z :=
  let x := log10_down 640 309 n d in
  let k := x - 5 in
  let q := if 0 <=? k then div_even n (d * 10 ^ k) else div_even (n * 10 ^ (- k)) d in
  if 10 ^ 6 <=? q then (q / 10, x + 1) else (q, x).

(** The digits of [v], padded with zeros to [w]. *)
Definition pad_left (w : nat) (s : bytes) : bytes := replicate (w - length s) "0"%char ++ s.

Definition strip_zeros (frac : bytes) : bytes :=
  match drop_while_end (fun c => c =c "0") frac with
  | [] => []
  | f => "."%char :: f
  end.

Definition fmt_g_pos (n d : Z) : bytes :=
  let '(q, x) := digits6 n d in
  let ds := to_string q in
  if (-4 <=? x) && (x <? 6) then
    if 0 <=? x then
      take (S (Z.to_nat x)) ds ++ strip_zeros (drop (S (Z.to_nat x)) ds)
    else B "0" ++ strip_zeros (replicate (Z.to_nat (- x - 1)) "0"%char ++ ds)
  else
    take 1 ds ++ strip_zeros (drop 1 ds) ++ B "e" ++
    (if x <? 0 then B "-" else B "+") ++ pad_left 2 (to_string (Z.abs x)).

Definition fmt_g (x : F64) : bytes :=
  match x with
  | S754_zero s => if s then B "-0" else B "0"
  | S754_infinity s => if s then B "-inf" else B "inf"
  | S754_nan => B "nan"
  | S754_finite s m e =>
      (if s then B "-" else []) ++
      (if 0 <=? e then fmt_g_pos (Z.pos m * 2 ^ e) 1 else fmt_g_pos (Z.pos m) (2 ^ (- e)))
  end.

Example fmt_examples :
  map (fun s => fmt_g (atof (B s))) ["0"; "0.1"; "12.5"; "1e20"; "123456.7"; "0.00001"; "1000000"; "-2.50"]%string
  = map B ["0"; "0.1"; "12.5"; "1e+20"; "123457"; "1e-05"; "1e+06"; "-2.5"]%string.
Proof. vm_compute. reflexivity. Qed.

Example strtod_examples :
  map (fun s => snd <$> strtod (B s)) ["1.5e3x"; "0x1.8p1"; "0xg"; "infinit"; "1e+"; "nan(1)"; "."; "-.5"]%string
  = map (fmap B) [Some "x"; Some ""; Some "xg"; Some "init"; Some "e+"; Some ""; None; Some ""]%string.
Proof. vm_compute. reflexivity. Qed.

(** ** Lemmas *)
Lemma f_to_i64_range {cast : CastImpl} x : in_i64 (f_to_i64 x).
Proof.
  unfold f_to_i64, in_i64, LLONG_MIN, LLONG_MAX. pose proof (cast_oob_range x) as H. unfold in_i64 in H.
  destruct (f_trunc x) as [z|]; [|done]. case_if; [|done]. bool_facts. lia.
Qed.

(** The result of [std::min] is one of its arguments, and never above the
    second when they compare. *)
Lemma f_min_cases a b : f_min a b = a \/ f_min a b = b.
Proof. unfold f_min. case_if; auto. Qed.

Lemma f_lt_irrefl a : f_lt a a = false.
Proof.
  unfold f_lt, SFltb. destruct a as [s|s| |s m e]; simpl; try (by destruct s); try done.
  destruct s; rewrite Z.compare_refl; fold (Pos.compare m m); by rewrite Pos.compare_refl.
Qed.

Lemma f_min_not_above a b : f_lt b (f_min a b) = false.
Proof. unfold f_min. destruct (f_lt b a) eqn:E; [apply f_lt_irrefl|done]. Qed.
(** *** Small integers are exact *)

Lemma digits2_pos_iter m k : digits2_pos (Pos.iter xO m k) = (digits2_pos m + k)%positive.
Proof.
  induction k as [|k IH] using Pos.peano_ind; [simpl; lia|].
  rewrite Pos.iter_succ. simpl. rewrite IH. lia.
Qed.

Lemma iter_xO m k : Z.pos (Pos.iter xO m k) = Z.pos m * 2 ^ Z.pos k.
Proof.
  induction k as [|k IH] using Pos.peano_ind; [simpl; lia|].
  rewrite Pos.iter_succ, Pos2Z.inj_succ, Z.pow_succ_r by lia.
  change (Z.pos (xO (Pos.iter xO m k))) with (2 * Z.pos (Pos.iter xO m k)). rewrite IH. lia.
Qed.

(** [m] shifted left by [k >= 0]. *)
Definition pshift (m : positive) (k : Z) : positive :=
  match k with Z.pos p => Pos.iter xO m p | _ => m end.

Lemma pshift_val m k : 0 <= k -> Z.pos (pshift m k) = Z.pos m * 2 ^ k.
Proof. intros H. destruct k as [|k|k]; [simpl; lia|apply iter_xO|lia]. Qed.

Lemma pshift_digits m k : 0 <= k -> Z.pos (digits2_pos (pshift m k)) = Z.pos (digits2_pos m) + k.
Proof. intros H. destruct k as [|k|k]; simpl; [lia|by rewrite digits2_pos_iter|lia]. Qed.

Lemma pshift_inj m m' : Z.pos m = Z.pos m' -> m = m'.
Proof. by intros [= ->]. Qed.

Lemma pshift_add m a b : 0 <= a -> 0 <= b -> pshift (pshift m a) b = pshift m (a + b).
Proof.
  intros Ha Hb. apply pshift_inj. rewrite !pshift_val by lia. rewrite Z.pow_add_r by lia. lia.
Qed.

(** Shifting exact bits out again. *)
Lemma shr_pshift m k n :
  0 <= n <= k ->
  fst (shr (Build_shr_record (Z.pos (pshift m k)) false false) 0 n) =
    Build_shr_record (Z.pos (pshift m (k - n))) false false.
Proof.
  destruct n as [|n|n]; intros H; [by rewrite Z.sub_0_r| |lia]. unfold shr. simpl fst.
  assert (Hit : forall {A} (f : A -> A) p x, SpecFloat.iter_pos f p x = Pos.iter f x p).
  { intros A f. induction p as [p IH|p IH|]; intros x; simpl; [|by rewrite !IH|done].
    rewrite !IH. rewrite <- Pos.iter_swap. by rewrite <- Pos.iter_swap. }
  rewrite Hit. clear Hit. revert k H. induction n as [|n IH] using Pos.peano_ind; intros k H.
  - simpl. replace k with (k - 1 + 1) at 1 by lia. rewrite <- pshift_add by lia. done.
  - rewrite Pos.iter_succ, IH by lia.
    replace (k - Z.pos n) with (k - Z.pos (Pos.succ n) + 1) by lia. rewrite <- pshift_add by lia. done.
Qed.

Lemma fexp_small d : 1 <= d <= 53 -> fexp 53 1024 d = d - 53.
Proof. intros H. unfold fexp, emin. lia. Qed.

Lemma shr_snd mrs e n : 0 <= n -> snd (shr mrs e n) = e + n.
Proof. intros H. destruct n; simpl; lia. Qed.

Lemma shr_fst mrs e n : fst (shr mrs e n) = fst (shr mrs 0 n).
Proof. by destruct n. Qed.

Lemma shr_fexp_exact m k e d :
  0 <= k -> Z.pos (digits2_pos m) = d -> 1 <= d <= 53 -> d + k + e = d \/ d + k + e = d -> 53 - d <= k ->
  shr_fexp 53 1024 (Z.pos (pshift m k)) e loc_Exact =
    (Build_shr_record (Z.pos (pshift m (53 - d))) false false, d - 53).
Proof.
  intros Hk Hd Hr He Hkd. unfold shr_fexp. simpl shr_record_of_loc.
  assert (Zdigits2 (Z.pos (pshift m k)) + e = d) as ->
    by (unfold Zdigits2; rewrite pshift_digits by done; lia).
  rewrite fexp_small by done. rewrite (surjective_pairing (shr _ _ _)), shr_fst, shr_snd, shr_pshift by lia.
  f_equal; [|lia]. do 3 f_equal. lia.
Qed.

(** A number of at most 53 bits is represented exactly, however its bits are
    first placed. *)
Lemma binary_round_exact s m k d :
  0 <= k -> Z.pos (digits2_pos m) = d -> d <= 53 ->
  binary_round 53 1024 s (pshift m k) (- k) = S754_finite s (pshift m (53 - d)) (d - 53).
Proof.
  intros Hk Hd Hle. assert (1 <= d) by lia. unfold binary_round.
  assert (Z.pos (digits2_pos (pshift m k)) + - k = d) as -> by (rewrite pshift_digits by done; lia).
  rewrite fexp_small by lia. unfold shl_align.
  assert (Haux : forall j, 53 - d <= j -> binary_round_aux 53 1024 s (Z.pos (pshift m j)) (- j) loc_Exact
                   = S754_finite s (pshift m (53 - d)) (d - 53)).
  { intros j Hj. unfold binary_round_aux. rewrite (shr_fexp_exact m j (- j) d) by lia. simpl shr_m.
    simpl loc_of_shr_record. cbn [round_nearest_even].
    rewrite (shr_fexp_exact m (53 - d) (d - 53) d) by lia. simpl shr_m. cbv iota.
    rewrite (proj2 (Z.leb_le _ _)) by lia. done. }
  destruct (d - 53 - - k) as [|q|q] eqn:Eq.
  - apply Haux. lia.
  - apply Haux. lia.
  - change (Pos.iter xO (pshift m k) q) with (pshift (pshift m k) (Z.pos q)).
    rewrite pshift_add by lia. replace (k + Z.pos q) with (53 - d) by lia.
    replace (d - 53) with (- (53 - d)) at 1 by lia. apply Haux. lia.
Qed.

Definition dig (m : positive) : Z := Z.pos (digits2_pos m).

Lemma digits2_pos_bounds m : 2 ^ (dig m - 1) <= Z.pos m < 2 ^ dig m.
Proof.
  unfold dig. induction m as [m IH|m IH|]; simpl digits2_pos; [| |simpl; lia].
  - rewrite Pos2Z.inj_succ. rewrite Z.pow_succ_r by lia.
    replace (Z.succ (Z.pos (digits2_pos m)) - 1) with (Z.succ (Z.pos (digits2_pos m) - 1)) by lia.
    rewrite Z.pow_succ_r by lia. lia.
  - rewrite Pos2Z.inj_succ. rewrite Z.pow_succ_r by lia.
    replace (Z.succ (Z.pos (digits2_pos m)) - 1) with (Z.succ (Z.pos (digits2_pos m) - 1)) by lia.
    rewrite Z.pow_succ_r by lia. lia.
Qed.

Lemma dig_le m : Z.pos m < 2 ^ 53 -> dig m <= 53.
Proof.
  intros H. pose proof (digits2_pos_bounds m) as [Hl _].
  destruct (decide (dig m <= 53)); [done|]. assert (2 ^ 53 <= 2 ^ (dig m - 1)) by (apply Z.pow_le_mono_r; lia). lia.
Qed.

(** Integers below [2^53]. *)
Definition small (z : Z) : Prop := - 2 ^ 53 < z < 2 ^ 53.

Definition exact (z : Z) : F64 :=
  match z with
  | 0 => S754_zero false
  | Z.pos m => S754_finite false (pshift m (53 - dig m)) (dig m - 53)
  | Z.neg m => S754_finite true (pshift m (53 - dig m)) (dig m - 53)
  end.

Lemma normalize_exact z k : small z -> 0 <= k -> binary_normalize 53 1024 (z * 2 ^ k) (- k) false = exact z.
Proof.
  unfold small. intros Hz Hk. destruct z as [|m|m]; [done|..].
  - rewrite <- pshift_val by done. unfold binary_normalize. apply binary_round_exact; [done|done|]. apply dig_le. lia.
  - change (Z.neg m) with (- Z.pos m). rewrite Z.mul_opp_l, <- pshift_val by done. simpl Z.opp.
    unfold binary_normalize. apply binary_round_exact; [done|done|]. apply dig_le. lia.
Qed.

Lemma f_of_Z_exact z : small z -> f_of_Z z = exact z.
Proof. intros H. unfold f_of_Z. rewrite <- (normalize_exact z 0) by (done || lia). by rewrite Z.mul_1_r. Qed.

(** Subtraction and comparison of small integers are exact. *)
Lemma f_sub_exact a b : small a -> small b -> small (a - b) -> f_sub (exact a) (exact b) = exact (a - b).
Proof.
  intros Ha Hb Hab. unfold f_sub.
  assert (Hal : forall m e ez, ez <= e -> Z.pos (fst (shl_align m e ez)) = Z.pos m * 2 ^ (e - ez)).
  { intros m e ez He. unfold shl_align. destruct (ez - e) as [|q|q] eqn:Eq; simpl fst; [|lia|].
    - replace (e - ez) with 0 by lia. lia.
    - rewrite iter_xO. do 2 f_equal. lia. }
  assert (Hfin : forall sa sb ma mb, let A := cond_Zopp sa (Z.pos ma) in let B := cond_Zopp sb (Z.pos mb) in
    A = a -> B = b -> dig ma <= 53 -> dig mb <= 53 ->
    SFsub 53 1024 (S754_finite sa (pshift ma (53 - dig ma)) (dig ma - 53))
                  (S754_finite sb (pshift mb (53 - dig mb)) (dig mb - 53)) = exact (a - b)).
  { intros sa sb ma mb A B' HA HB Hda Hdb. unfold SFsub.
    set (ez := Z.min (dig ma - 53) (dig mb - 53)).
    rewrite <- (normalize_exact (a - b) (- ez)) by (done || lia). rewrite Z.opp_involutive. f_equal.
    assert (Hc : forall s m, dig m <= 53 -> ez <= dig m - 53 ->
      cond_Zopp s (Z.pos (fst (shl_align (pshift m (53 - dig m)) (dig m - 53) ez))) =
      cond_Zopp s (Z.pos m) * 2 ^ (- ez)).
    { intros s m Hm He. rewrite Hal, pshift_val by lia. rewrite <- Z.mul_assoc, <- Z.pow_add_r by lia.
      replace (53 - dig m + (dig m - 53 - ez)) with (- ez) by lia. destruct s; simpl cond_Zopp; lia. }
    rewrite !Hc by lia. fold A B'. rewrite HA, HB. lia. }
  unfold small in *.
  destruct a as [|ma|ma], b as [|mb|mb]; try done; unfold exact at 1 2;
    try (apply Hfin; [done|done|apply dig_le; lia..]).
Qed.

Lemma pos_compare_exact a b :
  match Z.compare (dig a - 53) (dig b - 53) with
  | Lt => Lt | Gt => Gt
  | Eq => Pos.compare_cont Eq (pshift a (53 - dig a)) (pshift b (53 - dig b))
  end = (Z.pos a ?= Z.pos b) \/ 53 < dig a \/ 53 < dig b.
Proof.
  destruct (decide (53 < dig a)); [auto|]. destruct (decide (53 < dig b)); [auto|]. left.
  pose proof (digits2_pos_bounds a). pose proof (digits2_pos_bounds b).
  assert (Hmono : forall x y, x < y -> 2 ^ x <= 2 ^ (y - 1)) by (intros; apply Z.pow_le_mono_r; lia).
  destruct (Z.compare_spec (dig a - 53) (dig b - 53)) as [E|E|E].
  - assert (dig a = dig b) as Hd by lia. change (Pos.compare_cont Eq ?x ?y) with (Z.pos x ?= Z.pos y).
    rewrite !pshift_val, Hd by lia. assert (0 < 2 ^ (53 - dig b)) by (apply Z.pow_pos_nonneg; lia).
    destruct (Z.compare_spec (Z.pos a) (Z.pos b)) as [E1|E1|E1].
    + rewrite E1. apply Z.compare_refl.
    + apply Z.compare_lt_iff. nia.
    + apply Z.compare_gt_iff. nia.
  - symmetry. apply Z.compare_lt_iff. pose proof (Hmono (dig a) (dig b)). lia.
  - symmetry. apply Z.compare_gt_iff. pose proof (Hmono (dig b) (dig a)). lia.
Qed.

Lemma f_compare_exact a b : small a -> small b -> SFcompare (exact a) (exact b) = Some (a ?= b).
Proof.
  unfold small. intros Ha Hb. destruct a as [|a|a], b as [|b|b]; try done; unfold exact, SFcompare.
  - pose proof (dig_le a). pose proof (dig_le b). destruct (pos_compare_exact a b) as [<-|[?|?]]; [done|lia..].
  - pose proof (dig_le a). pose proof (dig_le b). destruct (pos_compare_exact a b) as [E|[?|?]]; [|lia..].
    change (Z.neg a ?= Z.neg b) with (CompOpp (Z.pos a ?= Z.pos b)). rewrite <- E.
    by destruct (Z.compare _ _).
Qed.

Lemma f_le_exact a b : small a -> small b -> f_le (exact a) (exact b) = (a <=? b).
Proof.
  intros Ha Hb. unfold f_le, SFleb. rewrite f_compare_exact by done. unfold Z.leb. by destruct (a ?= b).
Qed.

Lemma f_lt_exact a b : small a -> small b -> f_lt (exact a) (exact b) = (a <? b).
Proof.
  intros Ha Hb. unfold f_lt, SFltb. rewrite f_compare_exact by done. unfold Z.ltb. by destruct (a ?= b).
Qed.

(** Casting a small integer back. *)
Lemma f_to_i64_exact {cast : CastImpl} z : small z -> f_to_i64 (exact z) = z.
Proof.
  intros H. assert (f_trunc (exact z) = Some z) as Ht.
  { unfold small in H. destruct z as [|m|m]; [done|..]; unfold exact, f_trunc; pose proof (dig_le m ltac:(lia)) as Hd;
      rewrite pshift_val by lia; (destruct (0 <=? dig m - 53) eqn:E; bool_facts;
        [replace (dig m) with 53 by lia; f_equal; lia|]);
      replace (- (dig m - 53)) with (53 - dig m) by lia; rewrite Z.div_mul by (apply Z.pow_nonzero; lia); done. }
  unfold f_to_i64. rewrite Ht. unfold small, LLONG_MIN, LLONG_MAX in *.
  rewrite !(proj2 (Z.leb_le _ _)) by lia. done.
Qed.

(** What is above the second argument of [std::min] is above the minimum. *)
Lemma f_le_min_above x b c : small b -> small c -> 0 <= b < c -> f_le (exact c) (f_min x (exact b)) = false.
Proof.
  intros Hb Hc Hbc. unfold f_min. destruct (f_lt (exact b) x) eqn:E.
  - rewrite f_le_exact by done. apply Z.leb_gt. lia.
  - destruct (f_le (exact c) x) eqn:E2; [exfalso|done].
    destruct c as [|c|c]; [lia| |lia]. destruct x as [[]|[]| |[] mx ex]; try done.
    + destruct b; [done|done|lia].
    + pose proof (f_compare_exact b (Z.pos c) Hb Hc) as Hcmp.
      rewrite (proj2 (Z.compare_lt_iff b (Z.pos c))) in Hcmp by lia.
      unfold f_le, SFleb, f_lt, SFltb in *. destruct b as [|b|b]; [done| |lia].
      cbn [exact SFcompare] in *. injection Hcmp as Hcmp.
      destruct (Z.compare_spec (dig b - 53) (dig c - 53)) as [E3|E3|E3],
               (Z.compare_spec (dig c - 53) ex) as [E4|E4|E4],
               (Z.compare_spec (dig b - 53) ex) as [E5|E5|E5]; try discriminate; try lia.
      change (Pos.compare_cont Eq ?x ?y) with (Pos.compare x y) in *.
      destruct (Pos.compare_spec (pshift c (53 - dig c)) mx); try discriminate;
      destruct (Pos.compare_spec (pshift b (53 - dig b)) mx); try discriminate;
      apply (proj1 (Pos.compare_lt_iff _ _)) in Hcmp; lia.
Qed.
