(* ===== verification/Json.v ===== *)
(** * app.cpp: the JSON parser of the request bodies

    [J] and [Jp] of app.cpp. The parser's pointer is the rest of the input;
    [ok = false] is [None]. Values nest, so that [val], [arr] and [obj] call
    each other on fuel; [jval_fuel] shows that twice the length of the input
    is always enough. *)

From S2P Require Import Prelude CLib Float.

(** ** Values *)
Inductive J :=
| NUL
| NUM (num : F64)
| STR (str : bytes)
| ARR (arr : list J)
| OBJ (obj : list (bytes * J))
| BOOL (b : bool).

(** [J::find]: the first member with the key, none if not an object. *)
Fixpoint assoc (k : bytes) (l : list (bytes * J)) : option J :=
  match l with
  | [] => None
  | (key, v) :: l' => if key =s k then Some v else assoc k l'
  end.
Definition jfind (j : J) (k : bytes) : option J :=
  match j with OBJ l => assoc k l | _ => None end.

(** ** [struct Jp] *)
Definition is_ws (c : ascii) : bool := (c =c SP) || (c =c TAB) || (c =c LF) || (c =c CR).
Definition ws (s : bytes) : bytes := drop_while is_ws s.

Definition lit (l s : bytes) : option bytes :=
  if starts_with l s then Some (drop (length l) s) else None.

(** The loop of [str] behind the opening quote. [\uXXXX] becomes a question
    mark; at the end of the input a lone backslash is an ordinary byte. *)
Fixpoint str_body (s : bytes) : option (bytes * bytes) :=
  match s with
  | [] => None
  | c :: r =>
      if c =c dq then Some ([], r)
      else if c =c bslash then
        match r with
        | [] => None
        | e :: r' =>
            let put (o : bytes) (t : option (bytes * bytes)) :=
              match t with Some (v, q) => Some (o ++ v, q) | None => None end in
            if e =c "n" then put [LF] (str_body r')
            else if e =c "r" then put [CR] (str_body r')
            else if e =c "t" then put [TAB] (str_body r')
            else if e =c "u" then
              match r' with
              | _ :: _ :: _ :: _ :: r'' => put (B "?") (str_body r'')
              | _ => str_body r'
              end
            else put [e] (str_body r')
        end
      else match str_body r with Some (v, q) => Some (c :: v, q) | None => None end
  end.

Definition jstr (s : bytes) : option (bytes * bytes) :=
  match s with
  | c :: r => if c =c dq then str_body r else None
  | [] => None
  end.

Definition jnum (s : bytes) : option (J * bytes) :=
  match strtod s with Some (d, r) => Some (NUM d, r) | None => None end.

Fixpoint jval (n : nat) (s : bytes) {struct n} : option (J * bytes) :=
  match n with
  | O => None
  | S n' =>
      match ws s with
      | [] => None
      | c :: r =>
          if c =c "{" then
            match ws r with
            | d :: r' => if d =c "}" then Some (OBJ [], r') else jobj n' (ws r) []
            | [] => jobj n' [] []
            end
          else if c =c "[" then
            match ws r with
            | d :: r' => if d =c "]" then Some (ARR [], r') else jarr n' (ws r) []
            | [] => jarr n' [] []
            end
          else if c =c dq then
            match jstr (c :: r) with Some (v, q) => Some (STR v, q) | None => None end
          else if c =c "t" then
            match lit (B "true") (c :: r) with Some q => Some (BOOL true, q) | None => None end
          else if c =c "f" then
            match lit (B "false") (c :: r) with Some q => Some (BOOL false, q) | None => None end
          else if c =c "n" then
            match lit (B "null") (c :: r) with Some q => Some (NUL, q) | None => None end
          else jnum (c :: r)
      end
  end
with jarr (n : nat) (s : bytes) (acc : list J) {struct n} : option (J * bytes) :=
  match n with
  | O => None
  | S n' =>
      match jval n' s with
      | None => None
      | Some (v, s1) =>
          match ws s1 with
          | c :: r =>
              if c =c "," then jarr n' r (acc ++ [v])
              else if c =c "]" then Some (ARR (acc ++ [v]), r) else None
          | [] => None
          end
      end
  end
with jobj (n : nat) (s : bytes) (acc : list (bytes * J)) {struct n} : option (J * bytes) :=
  match n with
  | O => None
  | S n' =>
      match jstr (ws s) with
      | None => None
      | Some (k, s1) =>
          match ws s1 with
          | c :: s2 =>
              if c =c ":" then
                match jval n' s2 with
                | None => None
                | Some (v, s3) =>
                    match ws s3 with
                    | c :: r =>
                        if c =c "," then jobj n' r (acc ++ [(k, v)])
                        else if c =c "}" then Some (OBJ (acc ++ [(k, v)]), r) else None
                    | [] => None
                    end
                end
              else None
          | [] => None
          end
      end
  end.

(** [jparse]. *)
Definition json_fuel (s : bytes) : nat := 2 * length s + 2.
Definition jparse (s : bytes) : option J :=
  match jval (json_fuel s) s with
  | Some (j, r) => match ws r with [] => Some j | _ => None end
  | None => None
  end.

Example jparse_example :
  jparse (Q "{'url':'http://e.com/a\u0041b', 'ttl_ms' : 1.5e3 , 'x':[true,null,{}]}")
  = Some (OBJ [(B "url", STR (B "http://e.com/a?b")); (B "ttl_ms", NUM (f_of_Z 1500));
               (B "x", ARR [BOOL true; NUL; OBJ []])]).
Proof. vm_compute. reflexivity. Qed.

(** ** The parser consumes *)
Lemma drop_while_length p s : (length (drop_while p s) <= length s)%nat.
Proof. apply span_length. Qed.

Lemma ws_length s : (length (ws s) <= length s)%nat.
Proof. apply drop_while_length. Qed.

Lemma strip_ci_length p : forall s r, strip_ci p s = Some r -> length s = (length p + length r)%nat.
Proof.
  induction p as [|a p IH]; intros s r; simpl; [by intros [= ->]|]. destruct s as [|b s]; [done|].
  destruct (a =c lower b); [|done]. intros H. simpl. by rewrite (IH _ _ H).
Qed.

Lemma span_eq_length p s a r : span p s = (a, r) -> length s = (length a + length r)%nat.
Proof. intros H. rewrite <- (span_app p s), H, length_app. done. Qed.

Lemma point_digits_length p s a b r :
  point_digits p s = (a, b, r) -> (length a + length b + length r <= length s)%nat.
Proof.
  unfold point_digits. destruct (span p s) as [a0 r0] eqn:E. apply span_eq_length in E.
  destruct r0 as [|c r0]; [intros [= <- <- <-]; simpl in *; lia|].
  destruct (c =c "."); [|intros [= <- <- <-]; simpl in *; lia].
  destruct (span p r0) as [b0 r1] eqn:E1. apply span_eq_length in E1. intros [= <- <- <-]. simpl in *. lia.
Qed.

Lemma opt_exp_length l s e r : opt_exp l s = (e, r) -> (length r <= length s)%nat.
Proof.
  unfold opt_exp. destruct s as [|c s]; [intros [= <- <-]; done|].
  destruct (lower c =c l); [|intros [= <- <-]; done].
  unfold parse_exp. set (t := match s with [] => _ | _ :: _ => _ end).
  assert (Ht : (length (snd t) <= length s)%nat)
    by (unfold t; destruct s as [|d s]; [done|]; repeat case_match; simpl; lia).
  destruct t as [neg s1]. destruct (span isdigit s1) as [ds r1] eqn:E.
  apply span_eq_length in E. simpl in *. destruct ds; simpl; intros [= <- <-]; simpl in *; lia.
Qed.

Lemma strtod_abs_length s x r : strtod_abs s = Some (x, r) -> (length r < length s)%nat.
Proof.
  unfold strtod_abs. intros H.
  destruct (strip_ci (B "infinity") s) as [r1|] eqn:E1.
  { apply strip_ci_length in E1. injection H as <- <-. simpl in *. lia. }
  destruct (strip_ci (B "inf") s) as [r2|] eqn:E2.
  { apply strip_ci_length in E2. injection H as <- <-. simpl in *. lia. }
  destruct (strip_ci (B "nan") s) as [r3|] eqn:E3.
  { apply strip_ci_length in E3. destruct r3 as [|c r3]; [injection H as <- <-; simpl in *; lia|].
    destruct (c =c "("); [|injection H as <- <-; simpl in *; lia].
    destruct (span _ r3) as [a [|d r4]] eqn:E; [injection H as <- <-; simpl in *; lia|].
    apply span_eq_length in E. destruct (d =c ")"); injection H as <- <-; simpl in *; lia. }
  assert (Hdec : forall a b r0 ls n k,
    point_digits n s = (a, b, r0) -> a ++ b ≠ [] -> opt_exp ls r0 = (k, r) -> (length r < length s)%nat).
  { intros a b r0 ls n k Hp Hne He. apply point_digits_length in Hp. apply opt_exp_length in He.
    destruct a, b; simpl in *; try done; lia. }
  assert (Hd : forall o, o = (let '(a, b, r) := point_digits isdigit s in
        match a ++ b with
        | [] => None
        | ds => let '(e, r') := opt_exp "e" r in
                Some (scale10 (of_digits ds) (length ds) (e - Z.of_nat (length b)), r')
        end) -> o = Some (x, r) -> (length r < length s)%nat).
  { intros o -> Ho. destruct (point_digits isdigit s) as [[a b] r0] eqn:Ep.
    destruct (a ++ b) eqn:Eab; [done|]. destruct (opt_exp "e" r0) as [k r'] eqn:Ee.
    injection Ho as _ <-. eapply Hdec; [exact Ep|by rewrite Eab|exact Ee]. }
  destruct (strip_ci (B "0x") s) as [h|] eqn:E4; [|by eapply Hd].
  destruct (point_digits isxdigit h) as [[a b] r0] eqn:Ep.
  destruct (a ++ b) eqn:Eab; [by eapply Hd|]. destruct (opt_exp "p" r0) as [k r'] eqn:Ee.
  injection H as _ <-. apply strip_ci_length in E4. apply point_digits_length in Ep.
  apply opt_exp_length in Ee. simpl in *. lia.
Qed.

Lemma strtod_length s x r : strtod s = Some (x, r) -> (length r < length s)%nat.
Proof.
  unfold strtod. pose proof (drop_while_length isspace s) as Hw. destruct (drop_while isspace s) as [|c t].
  - destruct (strtod_abs []) as [[y q]|] eqn:E; [|done]. apply strtod_abs_length in E. simpl in E. lia.
  - simpl in Hw. assert (Hc : forall neg t', (length t' <= length s)%nat ->
      match strtod_abs t' with Some (x, r) => Some (signed neg x, r) | None => None end = Some (x, r) ->
      (length r < length s)%nat).
    { intros neg t' Ht. destruct (strtod_abs t') as [[y q]|] eqn:E; [|done]. intros [= _ <-].
      apply strtod_abs_length in E. lia. }
    destruct (c =c "-"); [by apply Hc; lia|]. destruct (c =c "+"); [by apply Hc; lia|]. by apply Hc.
Qed.

(** *** [str] consumes at least a character *)
Lemma str_body_length s : forall v r, str_body s = Some (v, r) -> (length r < length s)%nat.
Proof.
  remember (length s) as n eqn:Hn. assert (Hle : (length s <= n)%nat) by lia. clear Hn.
  revert s Hle. induction n as [|n IH]; intros s Hle v r; [destruct s; [done|simpl in *; lia]|].
  assert (Hput : forall o t, (length t <= n)%nat ->
    match str_body t with Some (v, q) => Some (o ++ v, q) | None => None end = Some (v, r) ->
    (length r < S n)%nat).
  { intros o t Ht. destruct (str_body t) as [[v' q]|] eqn:E; [|done]. intros [= _ <-].
    specialize (IH t Ht _ _ E). lia. }
  assert (Hskip : forall t, (length t <= n)%nat -> str_body t = Some (v, r) -> (length r < S n)%nat)
    by (intros t Ht Hr; specialize (IH t Ht _ _ Hr); lia).
  destruct s as [|c s]; [done|]. cbn [str_body]. simpl in Hle. destruct (c =c dq); [intros [= _ <-]; lia|].
  destruct (c =c bslash); [|by apply (Hput [c]); lia].
  destruct s as [|e s]; [done|]. simpl in Hle.
  destruct (e =c "n"); [by apply (Hput [LF]); lia|]. destruct (e =c "r"); [by apply (Hput [CR]); lia|].
  destruct (e =c "t"); [by apply (Hput [TAB]); lia|].
  destruct (e =c "u"); [|by apply (Hput [e]); lia].
  destruct s as [|x1 [|x2 [|x3 [|x4 s]]]]; try (apply Hskip; simpl in *; lia).
  apply (Hput (B "?")). simpl in *. lia.
Qed.

Lemma jstr_length s v r : jstr s = Some (v, r) -> (length r < length s)%nat.
Proof.
  destruct s as [|c s]; [done|]. simpl. destruct (c =c dq); [|done].
  intros H. apply str_body_length in H. lia.
Qed.

Lemma lit_length l s r : lit l s = Some r -> length s = (length l + length r)%nat.
Proof.
  unfold lit. destruct (starts_with l s) eqn:E; [|done]. intros [= <-].
  apply starts_with_spec in E as [q ->]. rewrite length_app, drop_app_length. done.
Qed.

(** ** Enough fuel *)

(** The rest is shorter than the input. *)
Lemma json_length n : forall s,
  (forall v r, jval n s = Some (v, r) -> (length r < length s)%nat) /\
  (forall acc v r, jarr n s acc = Some (v, r) -> (length r < length s)%nat) /\
  (forall acc v r, jobj n s acc = Some (v, r) -> (length r < length s)%nat).
Proof.
  induction n as [|n IH]; intros s; [done|]. split_and!; cbn [jval jarr jobj].
  - intros v r. pose proof (ws_length s) as Hw. destruct (ws s) as [|c t]; [done|]. simpl in Hw.
    pose proof (ws_length t) as Hw'.
    destruct (c =c "{").
    { destruct (ws t) as [|d t'] eqn:E.
      - intros H. apply (IH []) in H. simpl in *. lia.
      - destruct (d =c "}"); [intros [= _ <-]; simpl in *; lia|].
        intros H. apply (IH (d :: t')) in H. simpl in *. lia. }
    destruct (c =c "[").
    { destruct (ws t) as [|d t'] eqn:E.
      - intros H. apply (IH []) in H. simpl in *. lia.
      - destruct (d =c "]"); [intros [= _ <-]; simpl in *; lia|].
        intros H. apply (IH (d :: t')) in H. simpl in *. lia. }
    destruct (c =c dq).
    { destruct (jstr (c :: t)) as [[v' q]|] eqn:E; [|done]. intros [= _ <-]. apply jstr_length in E. simpl in E. lia. }
    destruct (c =c "t").
    { destruct (lit _ (c :: t)) as [q|] eqn:E; [|done]. intros [= _ <-]. apply lit_length in E. simpl in E. lia. }
    destruct (c =c "f").
    { destruct (lit _ (c :: t)) as [q|] eqn:E; [|done]. intros [= _ <-]. apply lit_length in E. simpl in E. lia. }
    destruct (c =c "n").
    { destruct (lit _ (c :: t)) as [q|] eqn:E; [|done]. intros [= _ <-]. apply lit_length in E. simpl in E. lia. }
    unfold jnum. destruct (strtod (c :: t)) as [[d q]|] eqn:E; [|done]. intros [= _ <-].
    apply strtod_length in E. simpl in E. lia.
  - intros acc v r. destruct (jval n s) as [[v' s1]|] eqn:E; [|done]. apply IH in E.
    pose proof (ws_length s1) as Hw. destruct (ws s1) as [|c t]; [done|]. simpl in Hw.
    destruct (c =c ","); [intros H; apply IH in H; lia|].
    destruct (c =c "]"); [intros [= _ <-]; lia|done].
  - intros acc v r. destruct (jstr (ws s)) as [[k s1]|] eqn:E; [|done]. apply jstr_length in E.
    pose proof (ws_length s) as Hw. pose proof (ws_length s1) as Hw1.
    destruct (ws s1) as [|c t]; [done|]. simpl in Hw1. destruct (c =c ":"); [|done].
    destruct (jval n t) as [[v' s3]|] eqn:E1; [|done]. apply IH in E1.
    pose proof (ws_length s3) as Hw3. destruct (ws s3) as [|c3 t3]; [done|]. simpl in Hw3.
    destruct (c3 =c ","); [intros H; apply IH in H; lia|].
    destruct (c3 =c "}"); [intros [= _ <-]; lia|done].
Qed.

(** Any two amounts above the measure give the same answer. *)
Lemma json_fuel_enough n1 : forall n2 s,
  ((2 * length s + 1 <= n1)%nat -> (2 * length s + 1 <= n2)%nat -> jval n1 s = jval n2 s) /\
  (forall acc, (2 * length s + 2 <= n1)%nat -> (2 * length s + 2 <= n2)%nat -> jarr n1 s acc = jarr n2 s acc) /\
  (forall acc, (2 * length s + 2 <= n1)%nat -> (2 * length s + 2 <= n2)%nat -> jobj n1 s acc = jobj n2 s acc).
Proof.
  induction n1 as [|n1 IH]; intros [|n2] s; try (split_and!; intros; lia).
  assert (Hv : forall s, (2 * length s + 1 <= n1)%nat -> (2 * length s + 1 <= n2)%nat -> jval n1 s = jval n2 s)
    by (intros; by apply IH).
  assert (Ha : forall s acc, (2 * length s + 2 <= n1)%nat -> (2 * length s + 2 <= n2)%nat -> jarr n1 s acc = jarr n2 s acc)
    by (intros; by apply IH).
  assert (Ho : forall s acc, (2 * length s + 2 <= n1)%nat -> (2 * length s + 2 <= n2)%nat -> jobj n1 s acc = jobj n2 s acc)
    by (intros; by apply IH).
  split_and!; cbn [jval jarr jobj].
  - intros H1 H2. pose proof (ws_length s) as Hw. destruct (ws s) as [|c t]; [done|]. simpl in Hw.
    pose proof (ws_length t) as Hw'. repeat case_match; try done; (apply Ha || apply Ho); simpl in *; lia.
  - intros acc H1 H2. rewrite Hv by lia. destruct (jval n2 s) as [[v s1]|] eqn:E; [|done].
    apply (json_length n2 s) in E. pose proof (ws_length s1) as Hw.
    destruct (ws s1) as [|c t]; [done|]. simpl in Hw. destruct (c =c ","); [|done]. apply Ha; lia.
  - intros acc H1 H2. destruct (jstr (ws s)) as [[k s1]|] eqn:E; [|done]. apply jstr_length in E.
    pose proof (ws_length s) as Hw. pose proof (ws_length s1) as Hw1.
    destruct (ws s1) as [|c t]; [done|]. simpl in Hw1. destruct (c =c ":"); [|done].
    rewrite Hv by lia. destruct (jval n2 t) as [[v s3]|] eqn:E1; [|done]. apply (json_length n2 t) in E1.
    pose proof (ws_length s3) as Hw3. destruct (ws s3) as [|c3 t3]; [done|]. simpl in Hw3.
    destruct (c3 =c ","); [|done]. apply Ho; lia.
Qed.

(** ** A reference printer

    Documents as a client writes them: [render] prints one, [embed] is the
    value the program should see. *)
Inductive V :=
| VNull
| VBool (b : bool)
| VInt (z : Z)
| VStr (s : bytes)
| VArr (l : list V)
| VObj (l : list (bytes * V)).

Definition jesc1 (c : ascii) : bytes := if (c =c dq) || (c =c bslash) then [bslash; c] else [c].
Definition quote (s : bytes) : bytes := dq :: concat (map jesc1 s) ++ [dq].

Fixpoint commas (l : list bytes) : bytes :=
  match l with
  | [] => []
  | [x] => x
  | x :: l' => x ++ ","%char :: commas l'
  end.

Fixpoint render (v : V) : bytes :=
  match v with
  | VNull => B "null"
  | VBool b => if b then B "true" else B "false"
  | VInt z => to_string z
  | VStr s => quote s
  | VArr l => "["%char :: commas (map render l) ++ B "]"
  | VObj l => "{"%char :: commas (map (fun kv => quote (fst kv) ++ ":"%char :: render (snd kv)) l) ++ B "}"
  end.

Fixpoint embed (v : V) : J :=
  match v with
  | VNull => NUL
  | VBool b => BOOL b
  | VInt z => NUM (f_of_Z z)
  | VStr s => STR s
  | VArr l => ARR (map embed l)
  | VObj l => OBJ (map (fun kv => (fst kv, embed (snd kv))) l)
  end.

Section V_ind.
Variable P : V -> Prop.
Hypothesis Pnull : P VNull.
Hypothesis Pbool : forall b, P (VBool b).
Hypothesis Pint : forall z, P (VInt z).
Hypothesis Pstr : forall s, P (VStr s).
Hypothesis Parr : forall l, Forall P l -> P (VArr l).
Hypothesis Pobj : forall l, Forall (fun kv => P (snd kv)) l -> P (VObj l).

(** Induction that reaches the elements and the members. *)
Fixpoint V_nested_ind (v : V) : P v :=
  match v with
  | VNull => Pnull
  | VBool b => Pbool b
  | VInt z => Pint z
  | VStr s => Pstr s
  | VArr l => Parr l ((fix go l : Forall P l :=
      match l with [] => List.Forall_nil _ | v :: l' => List.Forall_cons _ _ _ (V_nested_ind v) (go l') end) l)
  | VObj l => Pobj l ((fix go l : Forall (fun kv => P (snd kv)) l :=
      match l with
      | [] => List.Forall_nil _
      | kv :: l' => List.Forall_cons _ _ _ (V_nested_ind (snd kv)) (go l')
      end) l)
  end.
End V_ind.

(** *** Strings *)
Lemma str_body_esc c r : str_body (jesc1 c ++ r) =
  match str_body r with Some (v, q) => Some (c :: v, q) | None => None end.
Proof.
  unfold jesc1. destruct (c =c dq) eqn:E1; [by bool_facts; subst|].
  destruct (c =c bslash) eqn:E2; [by bool_facts; subst|]. simpl. by rewrite E1, E2.
Qed.

Lemma str_body_quote s r : str_body (concat (map jesc1 s) ++ dq :: r) = Some (s, r).
Proof.
  induction s as [|c s IH]; [done|]. cbn [map concat]. rewrite <- app_assoc, str_body_esc. by rewrite IH.
Qed.

Lemma jstr_quote s r : jstr (quote s ++ r) = Some (s, r).
Proof. unfold quote. simpl. rewrite <- app_assoc. simpl. apply str_body_quote. Qed.

(** *** Numbers *)

(** What may follow a number: no byte that continues it. *)
Definition num_end (c : ascii) : bool := negb (isdigit c || (c =c ".") || ("e"%char =c lower c) || ("x"%char =c lower c)).
Definition num_stop (r : bytes) : Prop := match r with [] => True | c :: _ => num_end c = true end.

Lemma num_stop_cases r :
  num_stop r -> stops_digits r /\ opt_exp "e" r = (0, r) /\
  match r with [] => True | c :: _ => ("x"%char =c lower c) = false /\ (c =c ".") = false end.
Proof.
  destruct r as [|c r]; [done|]. simpl. unfold num_end. rewrite negb_true_iff, !orb_false_iff. intros [[[H1 H2] H3] H4].
  split; [exact H1|]. split; [|done]. unfold opt_exp. rewrite Ascii.eqb_sym in H3. by rewrite H3.
Qed.

Lemma digit_facts c : isdigit c = true ->
  ("i"%char =c lower c) = false /\ ("n"%char =c lower c) = false /\ ("x"%char =c lower c) = false /\
  is_ws c = false /\ (c =c "{") = false /\ (c =c "[") = false /\ (c =c dq) = false /\
  (c =c "t") = false /\ (c =c "f") = false /\ (c =c "n") = false.
Proof.
  intros H.
  assert (HH : (negb (isdigit c) ||
    forallb negb ["i"%char =c lower c; "n"%char =c lower c; "x"%char =c lower c; is_ws c; c =c "{"; c =c "[";
                  c =c dq; c =c "t"; c =c "f"; c =c "n"]) = true).
  { revert c H. intros c _. revert c.
    apply (forall_ascii (fun c => negb (isdigit c) ||
    forallb negb ["i"%char =c lower c; "n"%char =c lower c; "x"%char =c lower c; is_ws c; c =c "{"; c =c "[";
                  c =c dq; c =c "t"; c =c "f"; c =c "n"])). vm_compute. reflexivity. }
  rewrite H in HH. simpl in HH. rewrite !andb_true_iff, !negb_true_iff in HH. tauto.
Qed.

Lemma point_digits_stop ds r :
  all_digits ds -> num_stop r -> point_digits isdigit (ds ++ r) = (ds, [], r).
Proof.
  intros Hd Hr. destruct (num_stop_cases r Hr) as (Hs & _ & Hp). unfold point_digits.
  rewrite span_digits by done. destruct r as [|c r]; [done|]. by rewrite (proj2 Hp).
Qed.

Lemma scale10_int n k : 0 <= n -> scale10 n k 0 = f_of_Z n.
Proof.
  intros Hn. unfold scale10. destruct n as [|m|m]; [done| |lia].
  change (400 <? 0) with false. rewrite (proj2 (Z.ltb_ge (Z.of_nat k + 0) (-400))) by lia.
  change (0 <=? 0) with true. cbv iota. change (10 ^ 0) with 1. by rewrite Z.mul_1_r.
Qed.

Lemma strip_ci_ne a p c s : (a =c lower c) = false -> strip_ci (a :: p) (c :: s) = None.
Proof. intros H. cbn [strip_ci]. by rewrite H. Qed.

Lemma strtod_abs_digits ds r :
  all_digits ds -> ds ≠ [] -> num_stop r -> strtod_abs (ds ++ r) = Some (f_of_Z (of_digits ds), r).
Proof.
  intros Hd Hne Hr. destruct (num_stop_cases r Hr) as (Hs & He & Hx).
  destruct ds as [|c ds]; [done|]. pose proof Hd as Hd'. apply Forall_cons in Hd' as [Hc Hds].
  destruct (digit_facts c Hc) as (F1 & F2 & _). unfold strtod_abs.
  rewrite <- app_comm_cons, (strip_ci_ne "i" (B "nfinity")), (strip_ci_ne "i" (B "nf")), (strip_ci_ne "n" (B "an")) by done.
  rewrite app_comm_cons.
  assert (strip_ci (B "0x") ((c :: ds) ++ r) = None) as ->.
  { change (strip_ci (B "0x") ((c :: ds) ++ r)) with
      (if "0"%char =c lower c then strip_ci (B "x") (ds ++ r) else None).
    destruct ("0"%char =c lower c); [|done]. destruct ds as [|d ds].
    - destruct r as [|d r]; [done|]. apply strip_ci_ne, Hx.
    - apply Forall_cons in Hds as [Hd1 _]. apply strip_ci_ne. by destruct (digit_facts d Hd1) as (_ & _ & ? & _). }
  rewrite point_digits_stop by done. rewrite app_nil_r, He. rewrite scale10_int; [done|].
  assert (Hnn : forall l a, 0 <= a -> all_digits l -> 0 <= fold_left (fun a c => 10 * a + (cc c - 48)) l a).
  { induction l as [|x l IH]; intros a Ha Hl; simpl; [done|]. apply Forall_cons in Hl as [Hx1 Hl].
    apply IH; [|done]. unfold isdigit in Hx1. bool_facts. lia. }
  unfold of_digits. apply Hnn; [lia|done].
Qed.

(** Negating the rounded magnitude is rounding the negation. *)
Lemma f_of_Z_opp m : SFopp (f_of_Z (Z.pos m)) = f_of_Z (Z.neg m).
Proof.
  unfold f_of_Z, binary_normalize, binary_round. destruct (shl_align m 0 _) as [mz ez].
  unfold binary_round_aux. destruct (shr_fexp 53 1024 (Z.pos mz) ez loc_Exact) as [mrs e'].
  destruct (shr_fexp 53 1024 _ e' loc_Exact) as [mrs' e'']. destruct (shr_m mrs'); try done.
  by destruct (e'' <=? 1024 - 53).
Qed.

Lemma jnum_to_string z r : num_stop r -> jnum (to_string z ++ r) = Some (NUM (f_of_Z z), r).
Proof.
  intros Hr. unfold jnum, strtod, to_string. destruct (z <? 0) eqn:E; bool_facts.
  - destruct (dec_digits_parts (- z)) as (ds & -> & Hd & Hne & Hv); [lia|].
    rewrite <- app_comm_cons, drop_while_stop by done. cbn -[strtod_abs].
    rewrite strtod_abs_digits, Hv by done. destruct z as [|m|m]; try lia.
    change (- Z.neg m) with (Z.pos m). unfold signed. by rewrite f_of_Z_opp.
  - destruct (dec_digits_parts z) as (ds & -> & Hd & Hne & Hv); [lia|].
    destruct ds as [|c ds]; [done|]. pose proof Hd as Hd'. apply Forall_cons in Hd' as [Hc _].
    rewrite <- app_comm_cons, drop_while_stop by by apply isdigit_not_space.
    destruct (isdigit_not_sign c Hc) as [-> ->]. rewrite app_comm_cons.
    rewrite strtod_abs_digits, Hv by done. done.
Qed.

(** *** Values *)
Lemma ws_stop c r : is_ws c = false -> ws (c :: r) = c :: r.
Proof. apply drop_while_stop. Qed.

(** The first character of a rendered value. *)
Lemma render_head v : exists c s, render v = c :: s /\ is_ws c = false /\ (c =c "]") = false.
Proof.
  destruct v as [|[]|z|s|l|l]; try (by eexists _, _).
  cbn [render]. destruct (to_string_cons z) as (c & s & -> & Hc). exists c, s. split; [done|].
  destruct (isdigit c) eqn:E.
  - destruct (digit_facts c E) as (_ & _ & _ & ? & _). split; [done|].
    apply Ascii.eqb_neq. intros ->. discriminate.
  - simpl in Hc. bool_facts. by subst.
Qed.

Lemma ws_render v r : ws (render v ++ r) = render v ++ r.
Proof. destruct (render_head v) as (c & s & -> & H & _). by apply ws_stop. Qed.

(** What may follow a value: anything, and behind a number what does not
    continue it. *)
Definition follows (v : V) (r : bytes) : Prop := match v with VInt _ => num_stop r | _ => True end.

Lemma follows_end v c r : num_end c = true -> follows v (c :: r).
Proof. by destruct v. Qed.

Definition parses (v : V) : Prop := forall n r,
  follows v r -> (2 * length (render v ++ r) + 1 <= n)%nat -> jval n (render v ++ r) = Some (embed v, r).

Lemma jarr_render l : l ≠ [] -> Forall parses l -> forall n acc r,
  (2 * length (commas (map render l) ++ B "]" ++ r) + 2 <= n)%nat ->
  jarr n (commas (map render l) ++ B "]" ++ r) acc = Some (ARR (acc ++ map embed l), r).
Proof.
  induction l as [|v l IH]; intros Hne Hl n acc r Hn; [done|]. apply Forall_cons in Hl as [Hv Hl].
  destruct n as [|n]; [lia|]. cbn [jarr]. destruct l as [|v' l].
  - cbn [map commas] in *. rewrite Hv; [|by apply follows_end|lia]. done.
  - change (commas (map render (v :: v' :: l))) with (render v ++ ","%char :: commas (map render (v' :: l))) in *.
    rewrite <- app_assoc in *. rewrite Hv; [|by apply follows_end|lia].
    change ((","%char :: ?x) ++ ?y) with (","%char :: x ++ y). rewrite ws_stop by done.
    change (","%char =c ",") with true. cbv iota. rewrite IH; [|done|done|].
    + by rewrite <- app_assoc.
    + destruct (render_head v) as (c & s & Hs & _). rewrite Hs in Hn. do 2 (rewrite ?length_app in *; simpl length in *). lia.
Qed.

Definition render_member (kv : bytes * V) : bytes := quote (fst kv) ++ ":"%char :: render (snd kv).

Lemma jobj_render l : l ≠ [] -> Forall (fun kv => parses (snd kv)) l -> forall n acc r,
  (2 * length (commas (map render_member l) ++ B "}" ++ r) + 2 <= n)%nat ->
  jobj n (commas (map render_member l) ++ B "}" ++ r) acc =
    Some (OBJ (acc ++ map (fun kv => (fst kv, embed (snd kv))) l), r).
Proof.
  induction l as [|[k v] l IH]; intros Hne Hl n acc r Hn; [done|]. apply Forall_cons in Hl as [Hv Hl].
  destruct n as [|n]; [lia|]. simpl in Hv.
  assert (Hstep : forall d t', num_end d = true -> is_ws d = false -> let t := d :: t' in (2 * length (render_member (k, v) ++ t) + 2 <= S n)%nat ->
    jobj (S n) (render_member (k, v) ++ t) acc =
      match t with
      | c :: r => if c =c "," then jobj n r (acc ++ [(k, embed v)])
                  else if c =c "}" then Some (OBJ (acc ++ [(k, embed v)]), r) else None
      | [] => None
      end).
  { intros d t' Hd Hw t Hnt. cbn [jobj]. unfold render_member in *. simpl fst in *. simpl snd in *.
    rewrite <- app_assoc in *. assert (ws (quote k ++ (":"%char :: render v) ++ t) = quote k ++ (":"%char :: render v) ++ t)
      as -> by (by apply ws_stop). rewrite jstr_quote. rewrite <- app_comm_cons in *. rewrite ws_stop by done.
    change (":"%char =c ":") with true. cbv iota. rewrite Hv; [|by apply follows_end|rewrite length_app in Hnt; simpl in Hnt; lia].
    unfold t. by rewrite ws_stop. }
  cbv zeta in Hstep.
  destruct l as [|kv' l].
  - cbn [map commas] in *. change (B "}" ++ r) with ("}"%char :: r) in *. by rewrite (Hstep "}"%char r).
  - change (commas (map render_member ((k, v) :: kv' :: l)))
      with (render_member (k, v) ++ ","%char :: commas (map render_member (kv' :: l))) in *.
    rewrite <- app_assoc in *. change ((","%char :: ?x) ++ ?y) with (","%char :: x ++ y) in *.
    rewrite (Hstep ","%char) by done.
    change (","%char =c ",") with true. cbv iota. rewrite IH; [|done|done|].
    + by rewrite <- app_assoc.
    + unfold render_member in Hn at 1. unfold quote in Hn at 1.
      do 3 (rewrite ?length_app in *; simpl length in *). lia.
Qed.

Lemma render_parses v : parses v.
Proof.
  induction v as [|b|z|s|l IH|l IH] using V_nested_ind; intros [|n] r Hr Hn; try lia.
  - done.
  - by destruct b.
  - cbn [jval]. rewrite ws_render. pose proof (jnum_to_string z r Hr) as Hnum.
    destruct (to_string_cons z) as (c & s & Hs & Hc). simpl render. rewrite Hs in *. rewrite <- app_comm_cons in *.
    assert (HF : (c =c "{") = false /\ (c =c "[") = false /\ (c =c dq) = false /\
                 (c =c "t") = false /\ (c =c "f") = false /\ (c =c "n") = false).
    { destruct (isdigit c) eqn:E; [destruct (digit_facts c E); tauto|]. simpl in Hc. bool_facts. by subst. }
    destruct HF as (-> & -> & -> & -> & -> & ->). done.
  - cbn [jval]. rewrite ws_render. change (render (VStr s)) with (quote s).
    pose proof (jstr_quote s r) as H. unfold quote in *. rewrite <- app_comm_cons in *. by rewrite H.
  - cbn [jval]. rewrite ws_render. cbn [render] in *. rewrite <- app_comm_cons, <- app_assoc in *.
    destruct l as [|v l]; [done|]. cbn -[ws jarr commas map app B embed].
    assert (Hh : exists c s, commas (map render (v :: l)) ++ B "]" ++ r = c :: s /\ is_ws c = false /\ (c =c "]") = false).
    { destruct (render_head v) as (c & s & Hs & ? & ?). destruct l; cbn [map commas]; rewrite Hs; by eexists _, _. }
    destruct Hh as (c & s & Hs & Hw & Hb). rewrite Hs, ws_stop, Hb by done. rewrite <- Hs.
    rewrite jarr_render; [done|done|done|]. cbn [length] in Hn. lia.
  - cbn [jval]. rewrite ws_render. cbn [render] in *. rewrite <- app_comm_cons, <- app_assoc in *.
    destruct l as [|kv l]; [done|].
    change (map (fun kv => quote (fst kv) ++ ":"%char :: render (snd kv)) (kv :: l)) with (map render_member (kv :: l)) in *.
    assert (Hh : exists s, commas (map render_member (kv :: l)) ++ B "}" ++ r = dq :: s)
      by (destruct l; by eexists).
    destruct Hh as (s & Hs). cbn -[ws jobj commas map app B embed]. rewrite Hs, ws_stop by done.
    change (dq =c "}") with false. cbv iota. rewrite <- Hs. rewrite jobj_render; [done|done|done|]. cbn [length] in Hn. lia.
Qed.

(** Parsing a printed document gives its value. *)
Lemma render_jparse v : jparse (render v) = Some (embed v).
Proof.
  unfold jparse. assert (H : jval (json_fuel (render v ++ [])) (render v ++ []) = Some (embed v, []))
    by (apply render_parses; [by destruct v|unfold json_fuel; lia]).
  rewrite app_nil_r in H. by rewrite H.
Qed.

(** Blanks around it. *)
Lemma ws_cons c s : ws (c :: s) = if is_ws c then ws s else c :: s.
Proof. unfold ws, drop_while. cbn [span]. destruct (is_ws c); [|done]. by destruct (span is_ws s). Qed.

Lemma ws_blank w s : forallb is_ws w = true -> ws (w ++ s) = ws s.
Proof.
  induction w as [|c w IH]; [done|]. cbn [forallb app]. rewrite andb_true_iff. intros [Hc Hw].
  rewrite ws_cons, Hc. by apply IH.
Qed.

Lemma ws_none r : match ws r with [] => true | _ => false end = forallb is_ws r.
Proof. induction r as [|c r IH]; [done|]. rewrite ws_cons. cbn [forallb]. by destruct (is_ws c). Qed.

Lemma jval_blank n w s : forallb is_ws w = true -> jval n (w ++ s) = jval n s.
Proof. intros H. destruct n as [|n]; [done|]. cbn [jval]. by rewrite ws_blank. Qed.

(** ** The claims *)

(** C36 Every document a client prints is understood as it was meant: nulls,
    booleans, integers of any size, strings with any bytes, arrays and
    objects nested to any depth, with blanks in front and behind. And
    nothing but blanks may follow a document: with any other byte behind it
    it is refused. (Behind a number the bytes considered are those that do
    not continue it: not a digit, a point, an [e] or an [x].) *)
Theorem json_roundtrip v w r :
  forallb is_ws w = true -> follows v r ->
  jparse (w ++ render v ++ r) = if forallb is_ws r then Some (embed v) else None.
Proof.
  intros Hw Hr. unfold jparse. rewrite jval_blank by done. rewrite render_parses; [|done|].
  - rewrite <- ws_none. by destruct (ws r).
  - unfold json_fuel. rewrite (length_app w). lia.
Qed.

Lemma json_roundtrip_witness :
  jparse (Q " {'a':[-12,'x'],'b':null} ") = Some (OBJ [(B "a", ARR [NUM (f_of_Z (-12)); STR (B "x")]); (B "b", NUL)]) /\
  jparse (Q "{'a':[-12,'x'],'b':null}z") = None.
Proof.
  split.
  - apply (json_roundtrip (VObj [(B "a", VArr [VInt (-12); VStr (B "x")]); (B "b", VNull)]) (B " ") (B " ") eq_refl I).
  - apply (json_roundtrip (VObj [(B "a", VArr [VInt (-12); VStr (B "x")]); (B "b", VNull)]) [] (B "z") eq_refl I).
Defined.

(** The parser always ends: on every input, well formed or not, twice the
    length of the input and two bounds the calls of [val], [arr] and [obj],
    and more fuel changes nothing. *)
Theorem json_terminates s n : (json_fuel s <= n)%nat -> jval n s = jval (json_fuel s) s.
Proof. intros H. unfold json_fuel in *. apply json_fuel_enough; lia. Qed.

Lemma json_terminates_witness : jval 1000 (B "[[[[") = jval (json_fuel (B "[[[[")) (B "[[[[").
Proof. apply json_terminates. unfold json_fuel. simpl. lia. Defined.
