(* ===== verification/Metrics.v ===== *)
(** * metrics.cpp: request counters, the per-second ring and the exposition

    The atomics of metrics.cpp as two records: what the handlers count
    ([Metrics]) and what the engines count ([Counters], which live in the
    state of an engine). The compare-exchange of [tick] succeeds, as it does
    when no other thread ticks at the same moment. *)

From S2P Require Import Prelude CLib Float Common Aof.

Definition N : nat := 60.

Record Metrics := mkMetrics {
  BUCKETS : list Z; CUR : Z; TOTAL : Z; STARTED : Z;
  OP_COUNTS : list Z; STATUS : list Z }.

Record Counters := mkCounters {
  CACHE_HIT : Z; CACHE_MISS : Z; STORE_READS : Z; STORE_READ_US : Z; STORE_WRITES : Z; LINKS_TOTAL : Z }.

Definition Metrics0 : Metrics :=
  mkMetrics (replicate N 0) 0 0 0 (replicate 11 0) (replicate 4 0).
Definition Counters0 : Counters := mkCounters 0 0 0 0 0 0.

Definition OPS : list bytes :=
  map B ["redirect"; "shorten"; "shorten_bulk"; "update"; "delete"; "list"; "stats"; "health";
         "metrics"; "ui"; "other"]%string.
Definition OP_REDIRECT : nat := 0.
Definition OP_SHORTEN : nat := 1.
Definition OP_BULK : nat := 2.
Definition OP_UPDATE : nat := 3.
Definition OP_DELETE : nat := 4.
Definition OP_LIST : nat := 5.
Definition OP_STATS : nat := 6.
Definition OP_HEALTH : nat := 7.
Definition OP_METRICS : nat := 8.
Definition OP_UI : nat := 9.
Definition OP_OTHER : nat := 10.

(** [fetch_add(d)] on one counter of an array. *)
Definition bump (i : nat) (d : Z) (l : list Z) : list Z := alter (fun v => i64 (v + d)) i l.

Definition op (i : nat) (m : Metrics) : Metrics :=
  mkMetrics (BUCKETS m) (CUR m) (TOTAL m) (STARTED m) (bump i 1 (OP_COUNTS m)) (STATUS m).

Definition status_class (code : Z) : nat :=
  if (200 <=? code) && (code <? 300) then 0%nat
  else if (300 <=? code) && (code <? 400) then 1%nat
  else if (400 <=? code) && (code <? 500) then 2%nat else 3%nat.

Definition status (code : Z) (m : Metrics) : Metrics :=
  mkMetrics (BUCKETS m) (CUR m) (TOTAL m) (STARTED m) (OP_COUNTS m) (bump (status_class code) 1 (STATUS m)).

Definition cache_hit (m : Counters) : Counters :=
  mkCounters (i64 (CACHE_HIT m + 1)) (CACHE_MISS m) (STORE_READS m) (STORE_READ_US m) (STORE_WRITES m) (LINKS_TOTAL m).
Definition cache_miss (m : Counters) : Counters :=
  mkCounters (CACHE_HIT m) (i64 (CACHE_MISS m + 1)) (STORE_READS m) (STORE_READ_US m) (STORE_WRITES m) (LINKS_TOTAL m).
Definition store_read (us : Z) (m : Counters) : Counters :=
  mkCounters (CACHE_HIT m) (CACHE_MISS m) (i64 (STORE_READS m + 1)) (i64 (STORE_READ_US m + us)) (STORE_WRITES m)
    (LINKS_TOTAL m).
Definition store_write (m : Counters) : Counters :=
  mkCounters (CACHE_HIT m) (CACHE_MISS m) (STORE_READS m) (STORE_READ_US m) (i64 (STORE_WRITES m + 1)) (LINKS_TOTAL m).

Section Metrics.
Context (os : Os).

Definition init (m : Metrics) (s : Sys) : Metrics * Sys :=
  let '(ms, s) := now_ms os s in
  (mkMetrics (BUCKETS m) (Z.quot ms 1000) (TOTAL m) ms (OP_COUNTS m) (STATUS m), s).

(** [t % N] as an index: C's remainder. *)
Definition slot (t : Z) : nat := Z.to_nat (Z.rem t (Z.of_nat N)).

(** [for (t = c + 1; t <= s; t++) BUCKETS[t % N].store(0)]. *)
Definition clear_slots (c s : Z) (b : list Z) : list Z :=
  fold_left (fun b t => <[slot t := 0]> b) (seqZ (c + 1) (s - c)) b.

(** [tick] at second [s]. *)
Definition tick_at (s : Z) (m : Metrics) : Metrics :=
  let b := if s =? CUR m then BUCKETS m else clear_slots (CUR m) s (BUCKETS m) in
  mkMetrics (bump (slot s) 1 b) s (i64 (TOTAL m + 1)) (STARTED m) (OP_COUNTS m) (STATUS m).

Definition tick (m : Metrics) (s : Sys) : Metrics * Sys :=
  let '(ms, s) := now_ms os s in (tick_at (Z.quot ms 1000) m, s).

(** The 31 counts of [snapshot] taken at second [s]. *)
Definition window_at (s : Z) (m : Metrics) : list Z :=
  map (fun i : nat =>
         let t := s - 30 + Z.of_nat i in
         if (t <=? CUR m) && (CUR m - t <? Z.of_nat N) then nth (slot t) (BUCKETS m) 0 else 0)
    (seq 0 31).

Definition last5 (w : list Z) : Z := fold_left (fun a v => i64 (a + v)) (take 5 (drop 25 w)) 0.

(** [std::round(last5 / 5.0 * 10.0) / 10.0]. *)
Definition req_s (w : list Z) : F64 :=
  f_div (f_round (f_mul (f_div (f_of_Z (last5 w)) (f_of_Z 5)) (f_of_Z 10))) (f_of_Z 10).

(** A comma between the elements. *)
Definition join_with {A} (f : bytes -> A -> bytes) (b : bytes) (l : list A) : bytes :=
  match l with
  | [] => b
  | x :: l' => fold_left (fun b y => f (b ++ B ",") y) l' (f b x)
  end.

Definition snapshot (m : Metrics) (s : Sys) : bytes * Sys :=
  let '(ms, s) := now_ms os s in
  let w := window_at (Z.quot ms 1000) m in
  let b := Q "{'req_s':" ++ fmt_g (req_s w) in
  let b := itoa (b ++ Q ",'total':") (TOTAL m) in
  let '(ms2, s) := now_ms os s in
  let b := itoa (b ++ Q ",'uptime_s':") (Z.quot (i64 (ms2 - STARTED m)) 1000) in
  let b := join_with itoa (b ++ Q ",'per_second':[") w in
  (b ++ B "]}", s).

Definition pline (b m labels : bytes) (v : Z) : bytes :=
  let b := b ++ m in
  let b := if labels =s [] then b else b ++ B "{" ++ labels ++ B "}" in
  itoa (b ++ B " ") v ++ [LF].

(** The two comment lines before a family. *)
Definition help (name text kind : string) (b : bytes) : bytes :=
  b ++ B "# HELP " ++ B name ++ B " " ++ B text ++ [LF] ++ B "# TYPE " ++ B name ++ B " " ++ B kind ++ [LF].

Definition counts (name : string) (label : bytes) (names : list bytes) (vs : list Z) (b : bytes) : bytes :=
  fold_left (fun b nv => pline b (B name) (label ++ [dq] ++ fst nv ++ [dq]) (snd nv)) (zip names vs) b.

(** [prometheus], with the counters of the engine. *)
Definition prometheus (rate_limited : Z) (c : Counters) (m : Metrics) (s : Sys) : bytes * Sys :=
  let b := help "shrt_requests_total" "Requests by operation" "counter" [] in
  let b := counts "shrt_requests_total" (B "op=") OPS (OP_COUNTS m) b in
  let b := help "shrt_responses_total" "Responses by status class" "counter" b in
  let b := counts "shrt_responses_total" (B "class=") (map B ["2xx"; "3xx"; "4xx"; "5xx"]%string) (STATUS m) b in
  let b := help "shrt_cache_lookups_total" "Local hot-cache lookups" "counter" b in
  let b := pline b (B "shrt_cache_lookups_total") (Q "result='hit'") (CACHE_HIT c) in
  let b := pline b (B "shrt_cache_lookups_total") (Q "result='miss'") (CACHE_MISS c) in
  let b := help "shrt_store_reads_total" "Backing-store point reads (cache misses)" "counter" b in
  let b := pline b (B "shrt_store_reads_total") [] (STORE_READS c) in
  let b := help "shrt_store_read_us_total" "Cumulative backing-store read latency (us)" "counter" b in
  let b := pline b (B "shrt_store_read_us_total") [] (STORE_READ_US c) in
  let b := help "shrt_store_writes_total" "Backing-store writes" "counter" b in
  let b := pline b (B "shrt_store_writes_total") [] (STORE_WRITES c) in
  let b := help "shrt_rate_limited_total" "Requests rejected by the rate limiter" "counter" b in
  let b := pline b (B "shrt_rate_limited_total") [] (i64 rate_limited) in
  let b := help "shrt_links_total" "Live links created minus deleted" "gauge" b in
  let b := pline b (B "shrt_links_total") [] (LINKS_TOTAL c) in
  let b := help "shrt_uptime_seconds" "Process uptime" "gauge" b in
  let '(ms, s) := now_ms os s in
  (pline b (B "shrt_uptime_seconds") [] (Z.quot (i64 (ms - STARTED m)) 1000), s).

End Metrics.

Example snapshot_example :
  let os := mkOs (fun _ => 100250) (os_write RefOs) (os_read RefOs) (os_alive RefOs) 1 in
  fst (snapshot os (tick_at 100 (tick_at 99 (tick_at 99 (tick_at 98 Metrics0)))) RefSys)
  = Q "{'req_s':0.6,'total':4,'uptime_s':100,'per_second':[0,0,0,0,0,0,0,0,0,0,0,0,0,0,0,0,0,0,0,0,0,0,0,0,0,0,0,0,1,2,1]}".
Proof. vm_compute. reflexivity. Qed.

(** ** Lemmas: the ring *)
Lemma length_bump i d l : length (bump i d l) = length l.
Proof. apply length_alter. Qed.

Lemma slot_mod t : 0 <= t -> slot t = Z.to_nat (t mod 60).
Proof. intros H. unfold slot. by rewrite Z.rem_mod_nonneg. Qed.

Lemma slot_lt t : 0 <= t -> (slot t < N)%nat.
Proof. intros H. rewrite slot_mod by done. pose proof (Z.mod_pos_bound t 60). unfold N. lia. Qed.

(** Seconds less than a minute apart have slots of their own. *)
Lemma slot_inj a b : 0 <= a -> 0 <= b -> Z.abs (a - b) < 60 -> slot a = slot b -> a = b.
Proof.
  intros Ha Hb Hab. rewrite !slot_mod by done. intros H.
  pose proof (Z.mod_pos_bound a 60). pose proof (Z.mod_pos_bound b 60).
  assert (Hm : a mod 60 = b mod 60) by lia.
  pose proof (Z.div_mod a 60). pose proof (Z.div_mod b 60). nia.
Qed.

Lemma length_clear c s b : length (clear_slots c s b) = length b.
Proof.
  unfold clear_slots. generalize (seqZ (c + 1) (s - c)). intros l. revert b.
  induction l as [|t l IH]; intros b; simpl; [done|]. by rewrite IH, length_insert.
Qed.

(** Clearing zeroes the slots of the seconds passed and no other. *)
Lemma clear_slots_nth c s b k :
  (k < length b)%nat ->
  nth k (clear_slots c s b) 0 = if decide (Exists (fun t => slot t = k) (seqZ (c + 1) (s - c))) then 0 else nth k b 0.
Proof.
  unfold clear_slots. generalize (seqZ (c + 1) (s - c)). intros l. revert b.
  induction l as [|t l IH]; intros b Hk; cbn [fold_left].
  { rewrite decide_False; [done|]. intros HH; inversion HH. }
  rewrite IH by (by rewrite length_insert).
  destruct (decide (Exists (fun t => slot t = k) l)) as [He|He].
  - rewrite decide_True; [done|]. by apply Exists_cons_tl.
  - destruct (decide (slot t = k)) as [<-|Hne].
    + rewrite decide_True by (by constructor 1).
      rewrite nth_lookup, list_lookup_insert_eq by done. done.
    + rewrite decide_False by (rewrite Exists_cons; naive_solver).
      rewrite !nth_lookup, list_lookup_insert_ne by done. done.
Qed.

(** How often a second occurs. *)
Definition count (t : Z) (ts : list Z) : Z := Z.of_nat (length (filter (fun u => u = t) ts)).

Lemma count_cons t u ts : count t (u :: ts) = (if decide (u = t) then 1 else 0) + count t ts.
Proof. unfold count. rewrite filter_cons. case_decide; simpl; lia. Qed.

Lemma count_snoc t u ts : count t (ts ++ [u]) = count t ts + (if decide (u = t) then 1 else 0).
Proof. unfold count. rewrite filter_app, length_app, filter_cons, filter_nil. case_decide; simpl; lia. Qed.

Lemma count_le t ts : 0 <= count t ts <= Z.of_nat (length ts).
Proof. unfold count. pose proof (length_filter (fun u => u = t) ts). lia. Qed.

Lemma count_none t ts : Forall (fun u => u ≠ t) ts -> count t ts = 0.
Proof. induction 1 as [|u ts Hu _ IH]; [done|]. rewrite count_cons, decide_False by done. lia. Qed.

(** The ring holds the counts of the last minute. *)
Record ring_ok (ts : list Z) (m : Metrics) : Prop := {
  ring_len : length (BUCKETS m) = N;
  ring_cur : 0 <= CUR m;
  ring_past : Forall (fun t => t <= CUR m) ts;
  ring_count : forall t, 0 <= t -> CUR m - 60 < t <= CUR m -> nth (slot t) (BUCKETS m) 0 = count t ts
}.

Lemma bump_nth i k l :
  (i < length l)%nat -> nth k (bump i 1 l) 0 = if decide (k = i) then i64 (nth i l 0 + 1) else nth k l 0.
Proof.
  intros Hi. unfold bump. rewrite !nth_lookup. case_decide as Hk.
  - subst. rewrite list_lookup_alter_eq. by destruct (lookup_lt_is_Some_2 l i Hi) as [v ->].
  - by rewrite list_lookup_alter_ne by congruence.
Qed.

Lemma tick_ring ts m s :
  ring_ok ts m -> CUR m <= s -> Z.of_nat (length ts) < 2 ^ 63 - 1 -> ring_ok (ts ++ [s]) (tick_at s m).
Proof.
  intros [Hl Hc Hp Hn] Hs Hlen. unfold tick_at.
  set (b := if s =? CUR m then BUCKETS m else clear_slots (CUR m) s (BUCKETS m)).
  assert (Hb : length b = N) by (unfold b; case_if; [done|by rewrite length_clear]).
  assert (Hcount : forall t, 0 <= t -> s - 60 < t <= s -> nth (slot t) b 0 = count t ts).
  { intros t Ht Hr. pose proof (slot_lt t Ht). unfold b. destruct (s =? CUR m) eqn:E; bool_facts.
    - apply Hn; lia.
    - rewrite clear_slots_nth by (rewrite Hl; done). case_decide as He.
      + apply Exists_exists in He as (u & Hu & Hsl). apply elem_of_seqZ in Hu.
        destruct (decide (t <= CUR m)); [apply slot_inj in Hsl; lia|]. symmetry. apply count_none.
        eapply Forall_impl; [exact Hp|]. cbv beta. lia.
      + apply Hn; [done|]. destruct (decide (CUR m < t)); [|lia]. exfalso. apply He.
        apply Exists_exists. exists t. split; [apply elem_of_seqZ; lia|done]. }
  constructor; simpl.
  - by rewrite length_bump.
  - lia.
  - apply Forall_app. split; [|by constructor]. eapply Forall_impl; [exact Hp|]. cbv beta. lia.
  - intros t Ht Hr. rewrite bump_nth by (rewrite Hb; apply slot_lt; lia). rewrite count_snoc.
    pose proof (count_le t ts). pose proof (Hcount t Ht Hr) as Hct. case_decide as Hst.
    + apply slot_inj in Hst; [|lia..]. subst t. rewrite Hct, decide_True by done.
      rewrite i64_id; [lia|]. unfold in_i64. lia.
    + rewrite decide_False by (intros ->; done). rewrite Hct. lia.
Qed.

Definition ticks (ts : list Z) (m : Metrics) : Metrics := fold_left (fun m t => tick_at t m) ts m.

Lemma ticks_ring ts : forall pre m,
  ring_ok pre m -> StronglySorted Z.le (CUR m :: ts) -> Z.of_nat (length (pre ++ ts)) < 2 ^ 63 ->
  ring_ok (pre ++ ts) (ticks ts m).
Proof.
  induction ts as [|t ts IH]; intros pre m Hr Hs Hlen; [by rewrite app_nil_r|]. simpl.
  apply StronglySorted_inv in Hs as [Hs Hle]. apply Forall_cons in Hle as [Hle _].
  rewrite cons_middle, app_assoc. apply IH; [|done|].
  - apply tick_ring; [done|done|]. rewrite length_app in Hlen. simpl in Hlen. lia.
  - by rewrite <- app_assoc.
Qed.

(** C38 The per-second window is exact: after [init] at second [c], however
    many requests tick while the clock does not run backward, the i-th number
    of [snapshot] at a later second [s] is the number of requests in the
    second [s - 30 + i]. *)
Theorem window_exact m c ts s :
  BUCKETS m = replicate N 0 -> CUR m = c -> 0 <= c ->
  StronglySorted Z.le (c :: ts) -> Forall (fun t => t <= s) (c :: ts) -> 30 <= s ->
  Z.of_nat (length ts) < 2 ^ 63 ->
  window_at s (ticks ts m) = map (fun i : nat => count (s - 30 + Z.of_nat i) ts) (seq 0 31).
Proof.
  intros Hb Hc Hc0 Hsort Hle Hs Hlen. subst c.
  assert (Hr : ring_ok [] m).
  { constructor; [by rewrite Hb|done|constructor|]. intros t _ _. rewrite Hb.
    change (count t []) with 0. rewrite nth_lookup. destruct (replicate N 0 !! slot t) eqn:E; [|done].
    by apply lookup_replicate in E as [-> _]. }
  pose proof (ticks_ring ts [] m Hr Hsort Hlen) as [_ _ Hp Hn]. cbn [app] in *.
  assert (Hcur : CUR (ticks ts m) <= s).
  { clear -Hle. unfold ticks. revert m Hle. induction ts as [|t ts IH]; intros m Hle; simpl.
    - by apply Forall_cons in Hle as [? _].
    - apply IH. by apply Forall_cons in Hle as [_ ?]. }
  unfold window_at. apply map_ext_in. intros i Hi. apply in_seq in Hi. cbv zeta.
  destruct ((_ <=? _) && _) eqn:E.
  - bool_facts. unfold N in *. apply Hn; lia.
  - symmetry. apply count_none. apply andb_false_iff in E as [E|E]; bool_facts.
    + eapply Forall_impl; [exact Hp|]. cbv beta. lia.
    + unfold N in *. lia.
Qed.

Lemma window_exact_witness :
  nth 30 (window_at 100 (ticks [99; 100; 100] (mkMetrics (replicate N 0) 98 0 0 [] []))) 0 = 2.
Proof.
  rewrite (window_exact _ 98 [99; 100; 100] 100); [reflexivity|reflexivity|reflexivity|lia| |
    repeat constructor; lia|lia|simpl; lia].
  repeat constructor; lia.
Defined.

(** Each response is counted in exactly one of the four classes, the one
    of its first digit for the codes the program sends. *)
Theorem status_counts code m :
  length (STATUS m) = 4%nat -> 200 <= code < 600 ->
  forall k, (k < 4)%nat ->
  nth k (STATUS (status code m)) 0 =
    if Z.of_nat k =? code / 100 - 2 then i64 (nth k (STATUS m) 0 + 1) else nth k (STATUS m) 0.
Proof.
  intros Hl Hc k Hk. unfold status. simpl.
  assert (Hcl : Z.of_nat (status_class code) = code / 100 - 2).
  { unfold status_class.
    assert (Hd : forall q, 100 * q <= code < 100 * q + 100 -> code / 100 = q)
      by (intros q Hq; symmetry; apply Z.div_unique with (code - 100 * q); lia).
    repeat case_if; bool_facts; [rewrite (Hd 2); lia|rewrite (Hd 3)|rewrite (Hd 4)|rewrite (Hd 5)]; try lia.
    all: repeat match goal with H : _ && _ = false |- _ => apply andb_false_iff in H as [H|H]; bool_facts end; lia. }
  rewrite bump_nth by (rewrite Hl; unfold status_class; repeat case_if; lia).
  destruct (Z.of_nat k =? code / 100 - 2) eqn:E; bool_facts.
  - rewrite decide_True by lia. f_equal. f_equal. f_equal. lia.
  - rewrite decide_False by lia. done.
Qed.

Lemma status_counts_witness : nth 2 (STATUS (status 404 Metrics0)) 0 = 1.
Proof. etrans; [by apply (status_counts 404 Metrics0); [reflexivity|lia|lia]|reflexivity]. Defined.
