(* ===== verification/RateLimit.v ===== *)
(** * ratelimit.cpp: the token bucket of each client

    [RateLimiter]: 64 shards of buckets keyed by a 64-bit hash of the
    address, refilled in [double] arithmetic. *)

From S2P Require Import Prelude CLib Float Common Aof.

Definition SHARDS : nat := 64.
Definition MAX_KEYS : Z := 4096.
Definition IDLE_MS : Z := 60000.

Record Bucket := mkBucket { tokens : F64; last_ms : F64 }.
Record RateLimiter := mkRl { rl_shards : list (gmap Z Bucket); rate_ : F64; burst_ : F64 }.

(** [ip_key]: 64-bit FNV-1a. *)
Definition ip_key (ip : bytes) : Z :=
  fold_left (fun h c => u64 (Z.lxor h (cc c) * 1099511628211)) ip 14695981039346656037.

(** [reload_for_test], which is also the constructor. *)
Definition reload (env : Env) : RateLimiter :=
  let rate := match env (B "RATE_LIMIT") with Some v => f_max (f_of_Z 0) (atof v) | None => f_of_Z 0 end in
  let burst := match env (B "RATE_LIMIT_BURST") with Some v => f_max (f_of_Z 0) (atof v) | None => rate end in
  mkRl (replicate SHARDS ∅) rate (if f_lt burst (f_of_Z 1) then f_of_Z 1 else burst).

Section RateLimit.
Context {cast : CastImpl} (os : Os).

Definition rl_shard (k : Z) : nat := Z.to_nat (Z.land k 63).

(** The idle buckets a full shard drops. *)
Definition idle (now : Z) (b : Bucket) : bool := IDLE_MS <? i64 (now - f_to_i64 (last_ms b)).
Definition evict (now : Z) (m : gmap Z Bucket) : gmap Z Bucket :=
  if MAX_KEYS <=? Z.of_nat (size m) then filter (fun kb => idle now (snd kb) = false) m else m.

Definition refill (now : Z) (rate burst : F64) (b : Bucket) : Bucket :=
  mkBucket
    (f_min (f_add (tokens b) (f_mul (f_div (f_sub (f_of_Z now) (last_ms b)) (f_of_Z 1000)) rate)) burst)
    (f_of_Z now).

(** [allow] at time [now]. *)
Definition allow_at (now : Z) (ip : bytes) (cost : F64) (r : RateLimiter) : bool * RateLimiter :=
  let k := ip_key ip in
  let m := evict now (nth (rl_shard k) (rl_shards r) ∅) in
  let b := refill now (rate_ r) (burst_ r) (default (mkBucket (burst_ r) (f_of_Z now)) (m !! k)) in
  let ok := f_le cost (tokens b) in
  let b := if ok then mkBucket (f_sub (tokens b) cost) (last_ms b) else b in
  (ok, mkRl (<[rl_shard k := <[k := b]> m]> (rl_shards r)) (rate_ r) (burst_ r)).

Definition allow (ip : bytes) (cost : F64) (r : RateLimiter) (s : Sys) : bool * RateLimiter * Sys :=
  if f_le (rate_ r) (f_of_Z 0) then (true, r, s)
  else
    let '(now, s) := now_ms os s in
    let '(ok, r) := allow_at now ip cost r in (ok, r, s).

(** ** Lemmas *)
Lemma rl_shard_lt k : (rl_shard k < SHARDS)%nat.
Proof.
  unfold rl_shard, SHARDS. change 63 with (Z.ones 6). rewrite Z.land_ones by lia.
  pose proof (Z.mod_pos_bound k (2 ^ 6)). lia.
Qed.

Definition rl_wf (r : RateLimiter) : Prop := length (rl_shards r) = SHARDS.

(** The shard, and the bucket, of a key. *)
Definition shard_map (r : RateLimiter) (k : Z) : gmap Z Bucket := nth (rl_shard k) (rl_shards r) ∅.
Definition bucket_of (r : RateLimiter) (k : Z) : option Bucket := shard_map r k !! k.

Lemma shard_map_allow now ip cost r k :
  rl_wf r ->
  shard_map (snd (allow_at now ip cost r)) k =
    if decide (rl_shard (ip_key ip) = rl_shard k) then
      let b := refill now (rate_ r) (burst_ r)
               (default (mkBucket (burst_ r) (f_of_Z now)) (evict now (shard_map r (ip_key ip)) !! ip_key ip)) in
      <[ip_key ip := if f_le cost (tokens b) then mkBucket (f_sub (tokens b) cost) (last_ms b) else b]>
        (evict now (shard_map r (ip_key ip)))
    else shard_map r k.
Proof.
  intros H. unfold shard_map, allow_at. simpl. rewrite !nth_lookup. case_decide as E.
  - rewrite <- E, list_lookup_insert_eq by (rewrite H; apply rl_shard_lt). done.
  - by rewrite list_lookup_insert_ne.
Qed.

Lemma rl_wf_allow now ip cost r : rl_wf r -> rl_wf (snd (allow_at now ip cost r)).
Proof. unfold rl_wf, allow_at. simpl. by rewrite length_insert. Qed.

Lemma evict_small now m : Z.of_nat (size m) < MAX_KEYS -> evict now m = m.
Proof. intros H. unfold evict. by rewrite (proj2 (Z.leb_gt _ _)). Qed.

Lemma evict_keeps now m k b : m !! k = Some b -> idle now b = false -> evict now m !! k = Some b.
Proof.
  intros Hk Hb. unfold evict. case_if; [|done]. by apply map_lookup_filter_Some.
Qed.

Lemma evict_sub now m k b : evict now m !! k = Some b -> m !! k = Some b.
Proof. unfold evict. case_if; [|done]. intros H. by apply map_lookup_filter_Some in H as [? _]. Qed.

(** *** One instant *)

(** At the instant of the last refill, a refill changes nothing. *)
Lemma refill_now now n rate burst :
  small now -> small n -> small burst -> 0 <= n <= burst -> small rate -> 0 < rate ->
  refill now (exact rate) (exact burst) (mkBucket (exact n) (f_of_Z now)) = mkBucket (exact n) (f_of_Z now).
Proof.
  intros Hnow Hn Hb Hnb Hr Hr0. unfold refill. cbn [tokens last_ms]. rewrite (f_of_Z_exact now) by done.
  assert (Hs0 : small 0) by (unfold small; lia).
  rewrite f_sub_exact by (rewrite ?Z.sub_diag; done). rewrite Z.sub_diag.
  assert (f_mul (f_div (exact 0) (f_of_Z 1000)) (exact rate) = exact 0) as ->
    by (destruct rate as [|p|p]; [lia|reflexivity|lia]).
  assert (f_add (exact n) (exact 0) = exact n) as -> by (destruct n as [|p|p]; [reflexivity|reflexivity|lia]).
  f_equal. unfold f_min. rewrite f_lt_exact by done. rewrite (proj2 (Z.ltb_ge _ _)) by lia. done.
Qed.

(** [n] requests of one client, one after the other. *)
Fixpoint burst_run (n : nat) (now : Z) (ip : bytes) (cost : F64) (r : RateLimiter) : list bool * RateLimiter :=
  match n with
  | O => ([], r)
  | S n' =>
      let '(ok, r1) := allow_at now ip cost r in
      let '(oks, r2) := burst_run n' now ip cost r1 in (ok :: oks, r2)
  end.

End RateLimit.

Lemma reload_wf env : rl_wf (reload env).
Proof. unfold rl_wf, reload. cbn [rl_shards]. apply length_replicate. Qed.

Section Claims.
Context {cast : CastImpl}.

(** A bucket just used is never idle. *)
Lemma just_used now t : small now -> idle now (mkBucket t (f_of_Z now)) = false.
Proof.
  intros H. unfold idle. cbn [last_ms]. rewrite f_of_Z_exact, f_to_i64_exact by done. rewrite Z.sub_diag. done.
Qed.

(** One request of a client whose bucket holds [t] tokens at this instant. *)
Lemma allow_step r ip now t c rate burst :
  rl_wf r -> rate_ r = exact rate -> burst_ r = exact burst -> 0 < rate -> small rate -> small burst ->
  small now -> 0 <= t <= burst -> 0 < c -> small c ->
  bucket_of r (ip_key ip) = Some (mkBucket (exact t) (f_of_Z now)) \/
    (bucket_of r (ip_key ip) = None /\ t = burst) ->
  let '(ok, r') := allow_at now ip (exact c) r in
  ok = (c <=? t) /\ rl_wf r' /\ rate_ r' = rate_ r /\ burst_ r' = burst_ r /\
  bucket_of r' (ip_key ip) = Some (mkBucket (exact (if c <=? t then t - c else t)) (f_of_Z now)).
Proof.
  intros Hwf Hr Hb Hr0 Hrs Hbs Hn Ht Hc Hcs Hbk.
  assert (Hts : small t) by (unfold small in *; lia).
  assert (Hrf : refill now (rate_ r) (burst_ r)
      (default (mkBucket (burst_ r) (f_of_Z now)) (evict now (shard_map r (ip_key ip)) !! ip_key ip))
      = mkBucket (exact t) (f_of_Z now)).
  { rewrite Hr, Hb. destruct Hbk as [Hbk|[Hbk ->]]; unfold bucket_of in Hbk.
    - rewrite (evict_keeps _ _ _ _ Hbk) by by apply just_used. simpl. by apply refill_now.
    - destruct (evict now (shard_map r (ip_key ip)) !! ip_key ip) as [b|] eqn:E.
      + apply evict_sub in E. congruence.
      + simpl. by apply refill_now. }
  pose proof (shard_map_allow now ip (exact c) r (ip_key ip) Hwf) as Hm.
  pose proof (rl_wf_allow now ip (exact c) r Hwf) as Hwf'.
  unfold allow_at in *. fold (shard_map r (ip_key ip)) in *. rewrite Hrf in *. cbn [tokens last_ms] in *.
  cbv zeta in Hm. rewrite f_le_exact in * by done. split; [done|]. split; [done|]. do 2 (split; [done|]).
  unfold bucket_of. cbn [snd] in Hm. rewrite Hm, decide_True by done. rewrite lookup_insert_eq.
  destruct (c <=? t) eqn:E; [|done]. bool_facts. rewrite f_sub_exact by (unfold small in *; lia). done.
Qed.

(** C37 The burst is exact: of [n] requests of cost [c] a client makes at one
    instant with a full bucket of [burst] tokens, exactly those pass whose
    cost, with all before them, fits; in particular the first
    [burst] requests of cost 1 pass and every later one is refused. *)
Theorem burst_exact r ip now n c rate burst :
  rl_wf r -> rate_ r = exact rate -> burst_ r = exact burst -> 0 < rate -> small rate ->
  0 <= burst -> small burst -> small now -> 0 < c -> small c -> bucket_of r (ip_key ip) = None ->
  fst (burst_run n now ip (exact c) r) = map (fun k : nat => (Z.of_nat k + 1) * c <=? burst) (seq 0 n).
Proof.
  intros Hwf Hr Hb Hr0 Hrs Hb0 Hbs Hn Hc Hcs Hnone.
  assert (Hgen : forall n j t r, rl_wf r -> rate_ r = exact rate -> burst_ r = exact burst -> 0 <= t <= burst ->
    (t = burst - Z.of_nat j * c \/ (t < c /\ burst < (Z.of_nat j + 1) * c)) ->
    (bucket_of r (ip_key ip) = Some (mkBucket (exact t) (f_of_Z now)) \/
       (bucket_of r (ip_key ip) = None /\ t = burst)) ->
    fst (burst_run n now ip (exact c) r) = map (fun k : nat => (Z.of_nat k + 1) * c <=? burst) (seq j n)).
  { clear r Hwf Hr Hb Hnone. intros m. induction m as [|m IH]; intros j t r Hwf Hr Hb Ht Hj Hbk; [done|].
    cbn [burst_run seq map].
    pose proof (allow_step r ip now t c rate burst Hwf Hr Hb Hr0 Hrs Hbs Hn Ht Hc Hcs Hbk) as Hs.
    destruct (allow_at now ip (exact c) r) as [ok r1]. destruct Hs as (-> & Hwf1 & Hr1 & Hb1 & Hbk1).
    assert (Hok : (c <=? t) = ((Z.of_nat j + 1) * c <=? burst)).
    { destruct Hj as [->|[? ?]]; [|by rewrite !(proj2 (Z.leb_gt _ _))].
      destruct (c <=? _) eqn:E; symmetry; bool_facts; [apply Z.leb_le|apply Z.leb_gt]; lia. }
    assert (HIH : fst (burst_run m now ip (exact c) r1) =
                  map (fun k : nat => (Z.of_nat k + 1) * c <=? burst) (seq (S j) m)).
    { eapply IH; [done|congruence|congruence| | |by left].
      - case_if; bool_facts; lia.
      - destruct (c <=? t) eqn:E; bool_facts; [left; lia|right]. nia. }
    destruct (burst_run m now ip (exact c) r1) as [oks r2]. simpl in *. by rewrite Hok, HIH. }
  apply (Hgen n 0%nat burst r); [done|done|done|lia|left; lia|right; done].
Qed.

(** Clients do not share tokens: a request changes no bucket but its
    client's, except that a full shard drops buckets idle for a minute. *)
Theorem clients_isolated r ip now cost k :
  rl_wf r -> k ≠ ip_key ip ->
  bucket_of (snd (allow_at now ip cost r)) k = bucket_of r k \/
  (bucket_of (snd (allow_at now ip cost r)) k = None /\
   exists b, bucket_of r k = Some b /\ idle now b = true).
Proof.
  intros H Hk. unfold bucket_of. rewrite shard_map_allow by done. case_decide as E; [|by left].
  cbv zeta. rewrite lookup_insert_ne by done. unfold shard_map. rewrite E.
  unfold evict. case_if; [|by left].
  destruct (nth (rl_shard k) (rl_shards r) ∅ !! k) as [b|] eqn:Eb.
  - destruct (idle now b) eqn:Ei.
    + right. split; [|by eexists]. apply map_lookup_filter_None. right. intros b'. rewrite Eb. intros [= <-].
      simpl. congruence.
    + left. by apply map_lookup_filter_Some.
  - left. apply map_lookup_filter_None. by left.
Qed.

(** A batch larger than the burst never passes, whatever the state of the
    bucket and however long the client waits. *)
Theorem oversized_batch_refused r ip now c burst :
  burst_ r = exact burst -> 0 <= burst < c -> small c ->
  fst (allow_at now ip (exact c) r) = false.
Proof.
  intros Hb Hc Hs. unfold allow_at. cbn [fst]. unfold refill. cbn [tokens]. rewrite Hb.
  generalize (f_add (tokens (default (mkBucket (exact burst) (f_of_Z now))
     (evict now (nth (rl_shard (ip_key ip)) (rl_shards r) ∅) !! ip_key ip)))
     (f_mul (f_div (f_sub (f_of_Z now) (last_ms (default (mkBucket (exact burst) (f_of_Z now))
     (evict now (nth (rl_shard (ip_key ip)) (rl_shards r) ∅) !! ip_key ip)))) (f_of_Z 1000)) (rate_ r))).
  intros x. apply f_le_min_above; [unfold small in *; lia|done|lia].
Qed.

End Claims.

(** Without [RATE_LIMIT], or with a value that is not a positive number,
    the limiter is off: every request passes and nothing is stored. *)
Theorem limiter_off {cast : CastImpl} os env ip cost s :
  (env (B "RATE_LIMIT") = None \/ exists v, env (B "RATE_LIMIT") = Some v /\ f_lt (f_of_Z 0) (atof v) = false) ->
  allow os ip cost (reload env) s = (true, reload env, s).
Proof.
  intros H. unfold allow. assert (rate_ (reload env) = f_of_Z 0) as ->; [|done].
  unfold reload. cbn [rate_]. destruct H as [-> |(v & -> & Hv)]; [done|]. unfold f_max. by rewrite Hv.
Qed.

(** A limiter of three requests a second. *)
Definition demo_limiter : RateLimiter :=
  reload (fun k => if k =s B "RATE_LIMIT" then Some (B "3") else None).
#[local] Instance demo_cast : CastImpl := { cast_oob := fun _ => - 2 ^ 63; cast_oob_range := fun _ => conj (Z.le_refl _) eq_refl }.

Lemma demo_limiter_facts :
  rl_wf demo_limiter /\ rate_ demo_limiter = exact 3 /\ burst_ demo_limiter = exact 3 /\
  forall k, bucket_of demo_limiter k = None.
Proof.
  split; [apply reload_wf|]. split; [vm_compute; reflexivity|]. split; [vm_compute; reflexivity|].
  intros k. unfold bucket_of, shard_map, demo_limiter, reload. cbn [rl_shards]. rewrite nth_lookup.
  destruct (replicate SHARDS (∅ : gmap Z Bucket) !! rl_shard k) eqn:E; simpl; [|by rewrite lookup_empty].
  apply lookup_replicate in E as [-> _]. by rewrite lookup_empty.
Qed.

Lemma burst_exact_witness :
  fst (burst_run 5 1000 (B "1.2.3.4") (exact 1) demo_limiter) = [true; true; true; false; false].
Proof.
  destruct demo_limiter_facts as (H1 & H2 & H3 & H4).
  etrans; [apply (burst_exact demo_limiter (B "1.2.3.4") 1000 5 1 3 3); try (unfold small; lia); auto|reflexivity].
Defined.

Lemma clients_isolated_witness :
  bucket_of (snd (allow_at 1000 (B "a") (exact 1) demo_limiter)) (ip_key (B "b")) = None.
Proof.
  destruct demo_limiter_facts as (H1 & H2 & H3 & H4).
  destruct (clients_isolated demo_limiter (B "a") 1000 (exact 1) (ip_key (B "b")) H1) as [H|[H _]];
    [by vm_compute|by rewrite H, H4|done].
Defined.

Lemma oversized_batch_refused_witness : fst (allow_at 1000 (B "a") (exact 4) demo_limiter) = false.
Proof. apply (oversized_batch_refused demo_limiter (B "a") 1000 4 3); [apply demo_limiter_facts|lia|unfold small; lia]. Defined.

Lemma limiter_off_witness :
  allow RefOs (B "a") (exact 1) (reload (fun _ => None)) RefSys = (true, reload (fun _ => None), RefSys).
Proof. apply limiter_off. by left. Defined.
