(* ===== verification/App.v ===== *)
(** * app.cpp: the request handlers

    Validation, the replies, the query string and [route]/[handle]. The
    store is behind the interface [StoreApi], which the three engines of
    store.hpp implement; the log store is the instance at the end. The state
    of the application is the store, the counters of metrics.cpp, the
    limiter and [rate_limited]. *)

From S2P Require Import Prelude CLib Common Float Json Aof Metrics RateLimit Store.

(** ** app.hpp *)
Definition MAX_BODY : Z := 4096.
Definition MAX_BULK_BODY : Z := 2 ^ 20.
Definition MAX_BULK_URLS : Z := 10000.
Definition MAX_LIST_LIMIT : Z := 1000.

Definition link_ttl_ms (env : Env) : Z := env_i64 env (B "LINK_TTL_MS") 86400000.
Definition cors_origin (env : Env) : bytes := env_str env (B "CORS_ORIGIN") (B "*").

(** [ctype = None] is [application/json]. *)
Record Reply := mkReply {
  rp_status : Z; rp_location : option bytes; rp_body : bytes; rp_ctype : option bytes }.

(** ** The store as the handlers see it

    An operation returns, lets an exception through, or, for the two that
    search for a free code, has not ended within the draws the instance
    allows. *)
Inductive Out (A W : Type) := Ret (x : A) (w : W) | Raise (w : W) | Hang.
Arguments Ret {A W}.
Arguments Raise {A W}.
Arguments Hang {A W}.

Class StoreApi (W : Type) := {
  st_sys : W -> Sys;
  st_with_sys : Sys -> W -> W;
  st_counters : W -> Counters;
  st_healthy : W -> Out bool W;
  st_resolve : bytes -> W -> Out (option bytes) W;
  st_shorten : bytes -> option bytes -> Z -> W -> Out (option bytes) W;
  st_shorten_many : list bytes -> Z -> W -> Out (list bytes) W;
  st_update : bytes -> bytes -> Z -> bool -> W -> Out MutResult W;
  st_remove : bytes -> W -> Out MutResult W;
  st_list : nat -> nat -> bytes -> bytes -> W -> Out (list Link * nat) W;
  st_stats : bytes -> W -> Out (option Link) W
}.

(** ** Validation *)

(** [s.size()]. *)
Definition len (s : bytes) : Z := Z.of_nat (length s).

Definition code_char (c : ascii) : bool := isalnum c || (c =c "_") || (c =c "-").
Definition code_ok (s : bytes) : bool :=
  negb ((s =s []) || (64 <? len s)) && forallb code_char s.

(** What [is_valid_url] refuses in a host. *)
Definition host_char (c : ascii) : bool :=
  negb ((c =c " ") || (c =c dq) || (c =c bslash) || (cc c <? 33)).
Definition host_stop (c : ascii) : bool := (c =c "/") || (c =c "?") || (c =c "#").
Definition url_host (u : bytes) : option bytes :=
  let host pos := fst (span (fun c => negb (host_stop c)) (drop pos u)) in
  if starts_with (B "http://") u then Some (host 7%nat)
  else if starts_with (B "https://") u then Some (host 8%nat)
  else None.
Definition is_valid_url (u : bytes) : bool :=
  negb ((u =s []) || (2048 <? len u)) &&
  match url_host u with
  | None => false
  | Some host => negb (host =s []) && forallb host_char host
  end.

(** ** Replies *)
Definition mk (st : Z) (body : bytes) : Reply := mkReply st None body None.
Definition bad (err : bytes) : Reply := mk 400 (Q "{'error':'" ++ err ++ Q "'}").
Definition not_found : Reply := mk 404 (Q "{'error':'not found'}").
Definition redirect (target : bytes) : Reply := mkReply 302 (Some target) [] None.
Definition no_content : Reply := mkReply 204 None [] None.
Definition conflict : Reply := mk 409 (Q "{'error':'owned by another instance'}").

(** The escaping loop of [link_json]. *)
Definition url_escape (u : bytes) : bytes :=
  concat (map (fun ch => if (ch =c dq) || (ch =c bslash) then [bslash; ch] else [ch]) u).

Definition link_json (b : bytes) (l : Link) : bytes :=
  let b := b ++ Q "{'code':'" ++ l_code l ++ Q "','url':'" ++ url_escape (l_url l) in
  let b := itoa (b ++ Q "','hits':") (l_hits l) in
  let b := itoa (b ++ Q ",'created_at':") (l_created l) in
  let b := b ++ Q ",'expires_at':" in
  let b := if l_expires l =? 0 then b ++ B "null" else itoa b (l_expires l) in
  b ++ B "}".

Definition admin_ok (env : Env) (token : bytes) : bool :=
  match env (B "ADMIN_TOKEN") with
  | None | Some [] => false
  | Some want => token =s want
  end.

(** ** The query string *)

(** [url_decode]: a percent sign needs two characters behind it. *)
Fixpoint url_decode (s : bytes) : bytes :=
  match s with
  | [] => []
  | c :: r =>
      let plain := (if c =c "+" then SP else c) :: url_decode r in
      if c =c "%" then
        match r with
        | h :: l :: r' =>
            match hexval h, hexval l with
            | Some hi, Some lo => chr (hi * 16 + lo) :: url_decode r'
            | _, _ => plain
            end
        | _ => plain
        end
      else plain
  end.

(** One [k=v]; without an equals sign it is skipped. *)
Definition add_pair (kv : bytes) (m : gmap bytes bytes) : gmap bytes bytes :=
  match span (fun c => c ≠c "=") kv with
  | (k, _ :: v) => <[url_decode k := url_decode v]> m
  | (_, []) => m
  end.

(** The loop of [parse_query]; a turn consumes the pair and the ampersand. *)
Fixpoint parse_query_loop (n : nat) (q : bytes) (m : gmap bytes bytes) : gmap bytes bytes :=
  match n with
  | O => m
  | S n' =>
      match q with
      | [] => m
      | _ =>
          let '(kv, rest) := span (fun c => c ≠c "&") q in
          parse_query_loop n' (drop 1 rest) (add_pair kv m)
      end
  end.
Definition parse_query (q : bytes) : gmap bytes bytes := parse_query_loop (length q) q ∅.

(** [pathname] and [query]. *)
Definition pathname (path : bytes) : bytes := fst (span (fun c => c ≠c "?") path).
Definition query (path : bytes) : bytes := drop 1 (snd (span (fun c => c ≠c "?") path)).

(** [std::clamp(limit, 1, MAX_LIST_LIMIT)] and the offset of a listing. *)
Definition list_limit (p : gmap bytes bytes) : Z :=
  let limit :=
    match p !! B "limit" with
    | Some v => let n := strtoll v in if n =? 0 then 50 else n
    | None => 50
    end in
  Z.min (Z.max limit 1) MAX_LIST_LIMIT.
Definition list_offset (p : gmap bytes bytes) : Z :=
  match p !! B "offset" with
  | Some v => let n := strtoll v in if 0 <? n then n else 0
  | None => 0
  end.
Definition list_sort (p : gmap bytes bytes) : bytes :=
  match p !! B "sort" with
  | Some v => if v =s B "hits" then B "hits" else B "created"
  | None => B "created"
  end.

(** What a handler ends with: a reply, an exception nothing catches, or a
    search for a free code cut short. *)
Inductive Res (A : Type) := Replied (r : Reply) (a : A) | Thrown (a : A) | Diverged.
Arguments Replied {A}.
Arguments Thrown {A}.
Arguments Diverged {A}.

Section App.
Context {W : Type} {api : StoreApi W} {cast : CastImpl}.
Context (os : Os) (env : Env) (ui_html : bytes).

(** ** The state *)
Record App := mkApp { a_store : W; a_metrics : Metrics; a_limiter : RateLimiter; a_limited : Z }.

Definition set_store (w : W) (a : App) : App := mkApp w (a_metrics a) (a_limiter a) (a_limited a).
Definition count_op (i : nat) (a : App) : App :=
  mkApp (a_store a) (op i (a_metrics a)) (a_limiter a) (a_limited a).
Definition count_status (code : Z) (a : App) : App :=
  mkApp (a_store a) (status code (a_metrics a)) (a_limiter a) (a_limited a).
(** [rate_limited.fetch_add(1)], unsigned. *)
Definition count_limited (a : App) : App :=
  mkApp (a_store a) (a_metrics a) (a_limiter a) (u64 (a_limited a + 1)).

(** A reply made from the result of a store operation. *)
Definition with_store {A} (o : Out A W) (a : App) (k : A -> Reply) : Res App :=
  match o with
  | Ret x w => Replied (k x) (set_store w a)
  | Raise w => Thrown (set_store w a)
  | Hang => Diverged
  end.

(** [metrics::tick], [metrics::snapshot] and [metrics::prometheus] read the
    clock of the same system. *)
Definition app_tick (a : App) : App :=
  let '(m, s) := tick os (a_metrics a) (st_sys (a_store a)) in
  mkApp (st_with_sys s (a_store a)) m (a_limiter a) (a_limited a).
Definition app_sys (s : Sys) (a : App) : App := set_store (st_with_sys s (a_store a)) a.

Definition app_allow (client : bytes) (cost : F64) (a : App) : bool * App :=
  let '(ok, r, s) := allow os client cost (a_limiter a) (st_sys (a_store a)) in
  (ok, mkApp (st_with_sys s (a_store a)) (a_metrics a) r (a_limited a)).

(** ** [shorten_one] *)

(** The lifetime asked for: absent, refused, or capped. *)
Definition post_ttl (p : J) : option Z :=
  match jfind p (B "ttl_ms") with
  | None => Some (link_ttl_ms env)
  | Some (NUM n) =>
      if f_le n (f_of_Z 0) then None else Some (Z.min (f_to_i64 n) (link_ttl_ms env))
  | Some _ => None
  end.

(** The alias asked for; anything but a string counts as absent. *)
Definition post_alias (p : J) : option (option bytes) :=
  match jfind p (B "alias") with
  | Some (STR a) => if code_ok a then Some (Some a) else None
  | _ => Some None
  end.

Definition created_reply (code : bytes) : Reply :=
  mk 201 (Q "{'code':'" ++ code ++ Q "','short_url':'/" ++ code ++ Q "'}").

Definition shorten_one (p : J) (a : App) : Res App :=
  match jfind p (B "url") with
  | Some (STR u) =>
      if negb (is_valid_url u) then Replied (bad (B "invalid url")) a
      else match post_alias p with
      | None => Replied (bad (B "invalid alias")) a
      | Some alias =>
          match post_ttl p with
          | None => Replied (bad (B "invalid ttl_ms")) a
          | Some ttl =>
              with_store (st_shorten u alias ttl (a_store a)) a (fun r =>
                match r with Some code => created_reply code | None => mk 409 (Q "{'error':'alias taken'}") end)
          end
      end
  | _ => Replied (bad (B "invalid url")) a
  end.

(** ** [shorten_bulk] *)
Definition bulk_char (c : ascii) : bool := negb ((c =c dq) || (c =c bslash) || (c =c LF) || (c =c CR)).
Definition ok_bulk_url (u : bytes) : bool :=
  negb ((len u <=? 7) || (2048 <? len u)) &&
  (starts_with (B "http://") u || starts_with (B "https://") u) && forallb bulk_char u.

(** The urls of a batch, none if one is not acceptable. *)
Fixpoint bulk_urls (l : list J) : option (list bytes) :=
  match l with
  | [] => Some []
  | STR u :: l' => if ok_bulk_url u then cons u <$> bulk_urls l' else None
  | _ :: _ => None
  end.

Definition bulk_reply (codes : list bytes) : Reply :=
  let b := itoa (Q "{'count':") (Z.of_nat (length codes)) ++ Q ",'codes':[" in
  mk 201 (join_with (fun b c => b ++ [dq] ++ c ++ [dq]) b codes ++ B "]}").

Definition bulk_msg : bytes := B "urls must be 1-" ++ to_string MAX_BULK_URLS ++ B " valid http(s) urls".

Definition shorten_bulk (p : J) (a : App) : Res App :=
  match jfind p (B "urls") with
  | Some (ARR l) =>
      if bool_decide (l = []) || (MAX_BULK_URLS <? Z.of_nat (length l)) then Replied (bad bulk_msg) a
      else match bulk_urls l with
      | None => Replied (bad bulk_msg) a
      | Some us => with_store (st_shorten_many us (link_ttl_ms env) (a_store a)) a bulk_reply
      end
  | _ => Replied (bad bulk_msg) a
  end.

(** ** [route] *)
Definition list_body (links : list Link) (total : nat) : bytes :=
  let b := join_with link_json (Q "{'links':[") links in
  itoa (b ++ Q "],'total':") (Z.of_nat total) ++ B "}".

Definition get_list (qs : bytes) (a : App) : Res App :=
  let p := parse_query qs in
  let q := default [] (p !! B "q") in
  with_store (st_list (Z.to_nat (list_limit p)) (Z.to_nat (list_offset p)) (list_sort p) q (a_store a)) a
    (fun lt => mk 200 (list_body (fst lt) (snd lt))).

Definition get_stats (code : bytes) (a : App) : Res App :=
  with_store (st_stats code (a_store a)) a
    (fun l => match l with Some l => mk 200 (link_json [] l) | None => not_found end).

(** The last branch of GET: [pathname.substr(1)] throws on an empty path. *)
Definition get_code (pn : bytes) (a : App) : Res App :=
  match pn with
  | [] => Thrown a
  | _ :: code =>
      if code_ok code then
        let a := count_op OP_REDIRECT a in
        with_store (st_resolve code (a_store a)) a
          (fun t => match t with Some target => redirect target | None => not_found end)
      else Replied not_found a
  end.

Definition route_get (path : bytes) (a : App) : Res App :=
  let pn := pathname path in
  if pn =s B "/api/health" then
    let a := count_op OP_HEALTH a in
    with_store (st_healthy (a_store a)) a
      (fun ok => if ok : bool then mk 200 (Q "{'ok':true}") else mk 503 (Q "{'ok':false}"))
  else if pn =s B "/api/metrics" then
    let a := count_op OP_METRICS a in
    let '(b, s) := snapshot os (a_metrics a) (st_sys (a_store a)) in
    Replied (mk 200 b) (app_sys s a)
  else if pn =s B "/metrics" then
    let a := count_op OP_METRICS a in
    let '(b, s) := prometheus os (a_limited a) (st_counters (a_store a)) (a_metrics a) (st_sys (a_store a)) in
    Replied (mkReply 200 None b (Some (B "text/plain; version=0.0.4"))) (app_sys s a)
  else if pn =s B "/" then
    let a := count_op OP_UI a in
    Replied (if ui_html =s [] then not_found else mkReply 200 None ui_html (Some (B "text/html; charset=utf-8"))) a
  else if pn =s B "/api/links" then get_list (query path) (count_op OP_LIST a)
  else if starts_with (B "/api/stats/") pn then get_stats (drop 11 pn) (count_op OP_STATS a)
  else get_code pn a.

(** The cost of a request for the limiter. *)
Definition post_cost (pn : bytes) (p : J) : F64 :=
  if pn =s B "/api/shorten/bulk" then
    match jfind p (B "urls") with
    | Some (ARR l) => f_max (f_of_Z 1) (f_of_Z (Z.of_nat (length l)))
    | _ => f_of_Z 1
    end
  else f_of_Z 1.

Definition route_post (path body client : bytes) (a : App) : Res App :=
  let pn := pathname path in
  if negb (pn =s B "/api/shorten") && negb (pn =s B "/api/shorten/bulk")
  then Replied not_found (count_op OP_OTHER a)
  else match jparse body with
  | None => Replied (bad (B "invalid json")) a
  | Some p =>
      let '(ok, a) := app_allow client (post_cost pn p) a in
      if negb ok then Replied (mk 429 (Q "{'error':'rate limited'}")) (count_op OP_OTHER (count_limited a))
      else if pn =s B "/api/shorten" then shorten_one p (count_op OP_SHORTEN a)
      else shorten_bulk p (count_op OP_BULK a)
  end.

(** The lifetime of a PATCH: present only if a number, and only capped. *)
Definition patch_ttl (p : J) : Z * bool :=
  match jfind p (B "ttl_ms") with
  | Some (NUM n) => (Z.min (f_to_i64 n) (link_ttl_ms env), true)
  | _ => (0, false)
  end.

Definition do_delete (code : bytes) (a : App) : Res App :=
  let a := count_op OP_DELETE a in
  with_store (st_remove code (a_store a)) a
    (fun r => match r with MOk => no_content | MMissing => not_found | MRemote => conflict end).

Definition do_patch (code body : bytes) (a : App) : Res App :=
  match jparse body with
  | None => Replied (bad (B "invalid json")) a
  | Some p =>
      match jfind p (B "url") with
      | None => Replied (bad (B "nothing to update")) a
      | Some (STR u) =>
          if negb (is_valid_url u) then Replied (bad (B "invalid url")) a
          else
            let '(ttl, has_ttl) := patch_ttl p in
            let a := count_op OP_UPDATE a in
            with_store (st_update code u ttl has_ttl (a_store a)) a
              (fun r => match r with MOk => mk 200 (Q "{'ok':true}") | MMissing => not_found | MRemote => conflict end)
      | Some _ => Replied (bad (B "invalid url")) a
      end
  end.

Definition route_mut (method path body admin_token : bytes) (a : App) : Res App :=
  let pn := pathname path in
  if negb (starts_with (B "/api/links/") pn) || negb (admin_ok env admin_token) then Replied not_found a
  else
    let code := drop 11 pn in
    if negb (code_ok code) then Replied (bad (B "invalid code")) a
    else if method =s B "DELETE" then do_delete code a
    else do_patch code body a.

Definition route (method path body admin_token client : bytes) (a : App) : Res App :=
  let a := app_tick a in
  if method =s B "OPTIONS" then Replied no_content a
  else if method =s B "GET" then route_get path a
  else if method =s B "POST" then route_post path body client a
  else if (method =s B "PATCH") || (method =s B "DELETE") then route_mut method path body admin_token a
  else Replied not_found a.

Definition handle (method path body admin_token client : bytes) (a : App) : Res App :=
  match route method path body admin_token client a with
  | Replied r a => Replied r (count_status (rp_status r) a)
  | Thrown a => Thrown a
  | Diverged => Diverged
  end.

End App.
Arguments App : clear implicits.

(** ** The log store behind the interface *)
Definition ret {A W} (xw : A * W) : Out A W := Ret (fst xw) (snd xw).
Definition of_outcome {A} (o : Outcome A) : Out A World :=
  match o with Done x w => Ret x w | OutOfFuel => Hang end.

#[export] Instance log_store {std : StdImpl} (os : Os) (env : Env) (fuel : nat) : StoreApi World := {
  st_sys := sys;
  st_with_sys := with_sys;
  st_counters w := mkCounters 0 0 0 0 0 (links_total w);
  st_healthy w := Ret true w;
  st_resolve code w := ret (resolve os env code w);
  st_shorten u alias ttl w := of_outcome (shorten os fuel u alias ttl w);
  st_shorten_many us ttl w := of_outcome (shorten_many os fuel us ttl w);
  st_update code u ttl has w := ret (update os code u ttl has w);
  st_remove code w := ret (remove code w);
  st_list limit offset sort q w := Ret (list_links limit offset sort q w) w;
  st_stats code w := Ret (stats code w) w
}.
