(* ===== verification/AppFacts.v ===== *)
(** * Facts about the handlers

    What the handlers rely on of a store ([StoreLaws], proved for the log
    store), the characters of codes, the JSON of the replies and the query
    string. *)

From S2P Require Import Prelude CLib Common Codec Float Json Aof Metrics RateLimit Store StoreFacts StoreSpec App.

(** ** What a store promises

    Every engine has a table of urls and expiries; an operation changes one
    code, a well-formed one as the handlers see to, and a lookup of a code
    that is present changes nothing but counters and caches. The clock is one of the readings the operation makes. *)
Definition read_during (os : Os) (s s' : Sys) (now : Z) : Prop :=
  exists k, (k_clock s <= k < k_clock s')%nat /\ now = i64 (os_clock os k).

Class StoreLaws (W : Type) {api : StoreApi W} (os : Os) := {
  st_ok : W -> Prop;
  st_table : W -> gmap bytes (bytes * Z);
  law_sys s w : st_sys (st_with_sys s w) = s;
  law_clock s w : st_ok w -> (k_clock (st_sys w) <= k_clock s)%nat ->
    st_ok (st_with_sys s w) /\ st_table (st_with_sys s w) = st_table w;
  law_shorten u alias ttl w r w' : st_ok w -> (forall c, alias = Some c -> code_ok c = true) -> st_shorten u alias ttl w = Ret r w' ->
    st_ok w' /\
    match r with
    | Some c => st_table w !! c = None /\ (alias = Some c \/ (alias = None /\ code_ok c = true /\ length c = 8%nat)) /\
        exists now, read_during os (st_sys w) (st_sys w') now /\
        st_table w' = <[c := (u, expiry now ttl)]> (st_table w)
    | None => (exists c, alias = Some c /\ is_Some (st_table w !! c)) /\ st_table w' = st_table w
    end;
  law_resolve c u e w r w' : st_ok w -> code_ok c = true -> st_table w !! c = Some (u, e) -> st_resolve c w = Ret r w' ->
    st_ok w' /\ st_table w' = st_table w /\
    (e = 0 -> r = Some u) /\
    (e ≠ 0 -> exists now, read_during os (st_sys w) (st_sys w') now /\ r = (if now <? e then Some u else None));
  law_update c u ttl has w r w' : st_ok w -> code_ok c = true -> st_update c u ttl has w = Ret r w' ->
    st_ok w' /\
    match r with
    | MOk => exists u0 e0 e, st_table w !! c = Some (u0, e0) /\ st_table w' = <[c := (u, e)]> (st_table w) /\
        if has then exists now, (0 < ttl -> read_during os (st_sys w) (st_sys w') now) /\ e = expiry now ttl else e = e0
    | MMissing => st_table w !! c = None /\ st_table w' = st_table w
    | MRemote => st_table w' = st_table w
    end;
  law_remove c w r w' : st_ok w -> code_ok c = true -> st_remove c w = Ret r w' ->
    st_ok w' /\
    match r with
    | MOk => is_Some (st_table w !! c) /\ st_table w' = delete c (st_table w)
    | MMissing => st_table w !! c = None /\ st_table w' = st_table w
    | MRemote => st_table w' = st_table w
    end
}.

(** An engine that lets no exception through. *)
Class StoreNoRaise (W : Type) {api : StoreApi W} := {
  nr_healthy w w' : st_healthy w ≠ Raise w';
  nr_resolve c w w' : st_resolve c w ≠ Raise w';
  nr_shorten u alias ttl w w' : st_shorten u alias ttl w ≠ Raise w';
  nr_shorten_many us ttl w w' : st_shorten_many us ttl w ≠ Raise w';
  nr_update c u ttl has w w' : st_update c u ttl has w ≠ Raise w';
  nr_remove c w w' : st_remove c w ≠ Raise w';
  nr_list l o s q w w' : st_list l o s q w ≠ Raise w';
  nr_stats c w w' : st_stats c w ≠ Raise w'
}.

Create HintDb store_raise.
#[export] Hint Resolve nr_healthy nr_resolve nr_shorten nr_shorten_many nr_update nr_remove nr_list nr_stats : store_raise.

(** ** Codes *)
Lemma code_ok_spec s :
  code_ok s = true <-> s ≠ [] /\ (length s <= 64)%nat /\ Forall (fun c => code_char c = true) s.
Proof.
  unfold code_ok, len. rewrite andb_true_iff, negb_true_iff, orb_false_iff, bool_decide_eq_false, Z.ltb_ge, forallb_forall.
  rewrite Forall_forall. setoid_rewrite list_elem_of_In. intuition lia.
Qed.

Lemma code_char_facts c : code_char c = true ->
  (c =c bslash) = false /\ (c =c dq) = false /\ (c =c LF) = false /\ (c =c CR) = false /\ (c =c "?") = false /\
  (c =c "/") = false /\ (c =c " ") = false.
Proof.
  intros H. assert (A : forallb (fun c => implb (code_char c)
    (negb (c =c bslash) && negb (c =c dq) && negb (c =c LF) && negb (c =c CR) && negb (c =c "?") &&
     negb (c =c "/") && negb (c =c " "))) all_ascii = true) by (vm_compute; done).
  pose proof (forall_ascii _ A c) as Hc. cbv beta in Hc. rewrite H in Hc. cbn [implb] in Hc.
  rewrite !andb_true_iff, !negb_true_iff in Hc. tauto.
Qed.

(** Every code the handlers let through can be written to the log as it is. *)
Lemma code_ok_plain s : code_ok s = true -> plain_code s.
Proof.
  rewrite code_ok_spec. intros (Hne & _ & Hs). split; [done|]. split.
  - eapply Forall_impl; [exact Hs|]. intros c Hc. by destruct (code_char_facts c Hc) as (? & ? & _).
  - intros Hl. rewrite Forall_forall in Hs. specialize (Hs _ Hl). done.
Qed.

Lemma code_shape_ok p c : p ∈ Base62.ALPHABET -> code_shape p c -> code_ok c = true.
Proof.
  intros Hp (Hl & Hh & Ha). apply code_ok_spec. unfold Base62.CODE_LEN in Hl. destruct c as [|c0 c]; [done|].
  split; [done|]. split; [simpl in *; lia|]. simpl in Hh. injection Hh as <-.
  assert (Hin : forall x, x ∈ Base62.ALPHABET -> code_char x = true).
  { intros x Hx. unfold code_char. by rewrite (Base62.alphabet_alnum _ Hx). }
  constructor; [by apply Hin|]. eapply Forall_impl; [exact Ha|]. apply Hin.
Qed.

(** ** The log store keeps the promises *)
Section LogStore.
Context {std : StdImpl} (os : Os) (env : Env) (fuel : nat).

Definition link_row (e : Entry) : bytes * Z := (e_u e, e_e e).
Definition log_ok (w : World) : Prop := wf w /\ prefix (inner w) ∈ Base62.ALPHABET.

Definition log_table (w : World) : gmap bytes (bytes * Z) := link_row <$> data (inner w).

Lemma log_ok_cfg w w' : same_config (inner w') (inner w) -> wf w' -> log_ok w -> log_ok w'.
Proof. intros (_ & Hp & _) Hw [_ H]. split; [done|]. by rewrite Hp. Qed.

Lemma log_table_lookup c w : log_table w !! c = link_row <$> data (inner w) !! c.
Proof. apply lookup_fmap. Qed.

Lemma log_table_eq w w' : data (inner w') = data (inner w) -> log_table w' = log_table w.
Proof. unfold log_table. by intros ->. Qed.

(** The write path reads the clock no more. *)
Lemma flush_clock a s : k_clock (snd (flush os a s)) = k_clock s.
Proof. unfold flush. destruct (a_fd a); [|done]. case_if; [done|]. by destruct (xfer _ _ _). Qed.

Lemma shorten_log_clock code url now exp w : k_clock (sys (shorten_log os code url now exp w)) = k_clock (sys w).
Proof.
  unfold shorten_log, aof_flush_if_full, aof_push. cbn [sys links_delta].
  destruct (aof (inner w)) as [a|] eqn:E; [|by rewrite E]. cbn [aof inner with_inner set_aof].
  case_if; [|done]. pose proof (flush_clock (push a (row_line code url now exp (instance (inner w)) 0)) (sys w)) as H.
  cbn [sys with_inner]. destruct (flush os _ (sys w)). exact H.
Qed.

Lemma shorten_clock u alias ttl w r w' : shorten os fuel u alias ttl w = Done r w' -> k_clock (sys w') = S (k_clock (sys w)).
Proof.
  unfold shorten. cbn [now_ms]. destruct alias as [c|]; [destruct (find _ c)|destruct (gen_free _ _ _) as [[c st]|]; [|done]];
    intros [= <- <-]; [done|..]; by rewrite shorten_log_clock.
Qed.

Lemma now_read s s' : (k_clock s < k_clock s')%nat -> read_during os s s' (fst (now_ms os s)).
Proof. intros H. exists (k_clock s). split; [lia|done]. Qed.

Lemma log_shorten_law u alias ttl w r w' : log_ok w ->
  st_shorten (StoreApi := log_store os env fuel) u alias ttl w = Ret r w' ->
  log_ok w' /\
  match r with
  | Some c => log_table w !! c = None /\ (alias = Some c \/ (alias = None /\ code_ok c = true /\ length c = 8%nat)) /\
      exists now, read_during os (sys w) (sys w') now /\ log_table w' = <[c := (u, expiry now ttl)]> (log_table w)
  | None => (exists c, alias = Some c /\ is_Some (log_table w !! c)) /\ log_table w' = log_table w
  end.
Proof.
  intros [Hwf Hp] H. simpl in H. pose proof (shorten_spec os fuel u alias ttl w Hwf) as HH.
  pose proof (shorten_clock u alias ttl w) as Hk.
  destruct (shorten os fuel u alias ttl w) as [r1 w1|]; [|done]. injection H as -> ->. destruct r as [c|].
  - destruct HH as (Hn & Ha & Hd & Hw & Hc & _). split; [by eapply log_ok_cfg|].
    rewrite log_table_lookup, Hn. split; [done|]. split.
    + destruct Ha as [|[? Hs]]; [by left|]. right. split; [done|]. split; [by eapply code_shape_ok|]. by destruct Hs.
    + exists (now_of os w). split; [apply now_read; rewrite (Hk _ _ eq_refl); lia|].
      unfold log_table. rewrite Hd, fmap_insert. done.
  - destruct HH as ((c & Ha & [e He]) & Hi & _). unfold log_ok, wf. rewrite Hi. split; [done|]. split.
    + exists c. split; [done|]. rewrite log_table_lookup, He. by eexists.
    + by apply log_table_eq; rewrite Hi.
Qed.

Lemma resolve_clock c w x : find (inner w) c = Some x -> e_e x ≠ 0 ->
  k_clock (sys (snd (resolve os env c w))) = S (k_clock (sys w)).
Proof.
  intros Hf He. unfold resolve, live. rewrite Hf. rewrite (proj2 (Z.eqb_neq _ _) He). cbn [now_ms].
  unfold count_hit. case_if; [|done]. by case_if.
Qed.

Lemma log_resolve_law c u e w r w' : log_ok w -> log_table w !! c = Some (u, e) ->
  st_resolve (StoreApi := log_store os env fuel) c w = Ret r w' ->
  log_ok w' /\ log_table w' = log_table w /\ (e = 0 -> r = Some u) /\
  (e ≠ 0 -> exists now, read_during os (sys w) (sys w') now /\ r = (if now <? e then Some u else None)).
Proof.
  intros [Hwf Hp] H. rewrite log_table_lookup in H. apply fmap_Some in H as (x & Hx & E).
  injection E as -> ->. pose proof Hx as Hf. rewrite data_find in Hf by done. simpl. unfold ret. intros [= <- <-].
  pose proof (resolve_present os env c w x Hwf Hf) as HH. pose proof (resolve_clock c w x Hf) as Hk.
  destruct (resolve os env c w) as [r w']. cbn [fst snd] in *. destruct HH as [Hw' HH].
  assert (Hr : r = (if (e_e x =? 0) || (now_of os w <? e_e x) then Some (e_u x) else None))
    by (destruct ((e_e x =? 0) || _); by destruct HH).
  assert (Hlt : log_ok w' /\ log_table w' = log_table w).
  { destruct ((e_e x =? 0) || _); destruct HH as [_ Hi]; unfold log_ok; rewrite Hi.
    - destruct (count_hit_spec env c x w Hwf Hf) as (_ & (_ & Hpx & _) & _ & _ & Hd & _).
      split; [split; [done|by rewrite Hpx]|].
      unfold log_table. rewrite Hi, Hd. destruct (track_hits env); [|done]. rewrite fmap_insert.
      apply insert_id. by rewrite lookup_fmap, Hx.
    - split; [done|]. apply log_table_eq. by rewrite Hi. }
  split; [apply Hlt|]. split; [apply Hlt|]. split.
  - intros He. by rewrite Hr, He.
  - intros He. exists (now_of os w). split; [apply now_read; rewrite Hk by done; lia|].
    by rewrite Hr, (proj2 (Z.eqb_neq _ _) He).
Qed.

Lemma update_clock c u ttl has w w' : update os c u ttl has w = (MOk, w') -> has = true -> 0 < ttl ->
  k_clock (sys w') = S (k_clock (sys w)).
Proof.
  unfold update. intros H -> Ht. destruct (find _ c); [|done]. destruct (negb _); [done|].
  rewrite (proj2 (Z.ltb_lt _ _) Ht) in H. cbn [now_ms] in H. injection H as <-. unfold aof_push. by case_match.
Qed.

Lemma log_update_law c u ttl has w r w' : log_ok w ->
  st_update (StoreApi := log_store os env fuel) c u ttl has w = Ret r w' ->
  log_ok w' /\
  match r with
  | MOk => exists u0 e0 e, log_table w !! c = Some (u0, e0) /\ log_table w' = <[c := (u, e)]> (log_table w) /\
      if has then exists now, (0 < ttl -> read_during os (sys w) (sys w') now) /\ e = expiry now ttl else e = e0
  | MMissing => log_table w !! c = None /\ log_table w' = log_table w
  | MRemote => log_table w' = log_table w
  end.
Proof.
  intros H E. simpl in E. unfold ret in E. pose proof (update_spec os c u ttl has w (proj1 H)) as HH.
  pose proof (update_clock c u ttl has w) as Hk.
  destruct (update os c u ttl has w) as [r1 w1]. cbn [fst snd] in E. injection E as -> ->.
  destruct HH as (Hw & Hc & _ & HH).
  split; [by eapply log_ok_cfg|]. rewrite log_table_lookup.
  destruct (data (inner w) !! c) as [x|]; [|by destruct HH as [-> ->]].
  destruct (e_i x =? instance (inner w)); destruct HH as [-> HH]; [|by subst].
  exists (e_u x), (e_e x), (update_expiry os ttl has (e_e x) w). split; [done|].
  split; [unfold log_table; by rewrite HH, fmap_insert|]. unfold update_expiry. destruct has; [|done].
  exists (now_of os w). split; [|done]. intros Ht. apply now_read. rewrite (Hk _ eq_refl) by done. lia.
Qed.

Lemma log_remove_law c w r w' : log_ok w ->
  st_remove (StoreApi := log_store os env fuel) c w = Ret r w' ->
  log_ok w' /\
  match r with
  | MOk => is_Some (log_table w !! c) /\ log_table w' = delete c (log_table w)
  | MMissing => log_table w !! c = None /\ log_table w' = log_table w
  | MRemote => log_table w' = log_table w
  end.
Proof.
  intros H E. simpl in E. unfold ret in E. pose proof (remove_spec c w (proj1 H)) as HH.
  destruct (remove c w) as [r1 w1]. cbn [fst snd] in E. injection E as -> ->. destruct HH as (Hw & Hc & HH).
  split; [by eapply log_ok_cfg|]. rewrite log_table_lookup.
  destruct (data (inner w) !! c) as [x|]; [|by destruct HH as [-> ->]].
  destruct (e_i x =? instance (inner w)); [|by destruct HH as [-> ->]].
  destruct HH as (-> & Hd & _). split; [by eexists|]. unfold log_table. by rewrite Hd, fmap_delete.
Qed.

End LogStore.

#[export] Instance log_laws {std : StdImpl} os env fuel : StoreLaws World (api := log_store os env fuel) os := {
  st_ok := log_ok;
  st_table := log_table;
  law_sys s w := eq_refl;
  law_clock s w H _ := conj H eq_refl;
  law_shorten u alias ttl w r w' H _ := log_shorten_law os env fuel u alias ttl w r w' H;
  law_resolve c u e w r w' H _ := log_resolve_law os env fuel c u e w r w' H;
  law_update c u ttl has w r w' H _ := log_update_law os env fuel c u ttl has w r w' H;
  law_remove c w r w' H _ := log_remove_law os env fuel c w r w' H
}.

#[export] Instance log_no_raise {std : StdImpl} os env fuel : StoreNoRaise World (api := log_store os env fuel).
Proof.
  constructor; intros; simpl; unfold ret; try done; [by destruct (shorten os fuel u alias ttl w)|].
  by destruct (shorten_many os fuel us ttl w).
Qed.

(** ** Paths *)
Lemma span_code s r : Forall (fun c => code_char c = true) s ->
  match r with [] => True | c :: _ => c = "?"%char end ->
  span (fun c => c ≠c "?") (s ++ r) = (s, r).
Proof.
  intros Hs Hr. assert (Hf : Forall (fun c => c ≠c "?" = true) s).
  { eapply Forall_impl; [exact Hs|]. intros c Hc. cbv beta.
    destruct (code_char_facts c Hc) as (_ & _ & _ & _ & -> & _). done. }
  destruct r as [|c r]; [rewrite span_all by done; simpl; by rewrite !app_nil_r|]. subst. by apply span_stop.
Qed.

(** The path of a code, with or without a query behind it. *)
Definition code_path (code qs : bytes) : bytes := "/"%char :: code ++ qs.
Definition is_query (qs : bytes) : Prop := match qs with [] => True | c :: _ => c = "?"%char end.

Lemma pathname_code code qs : Forall (fun c => code_char c = true) code -> is_query qs ->
  pathname (code_path code qs) = "/"%char :: code.
Proof.
  intros Hc Hq. unfold pathname, code_path. cbn [span]. change ("/"%char ≠c "?") with true. cbv iota.
  by rewrite span_code.
Qed.

(** A path of a code meets no other route than [/metrics]. *)
Lemma code_no_slash s : Forall (fun c => code_char c = true) s -> "/"%char ∉ s.
Proof. intros Hs Hin. rewrite Forall_forall in Hs. by specialize (Hs _ Hin). Qed.

Section Routing.
Context {W : Type} {api : StoreApi W} {cast : CastImpl} (os : Os) (env : Env) (ui_html : bytes).

Lemma route_get_code code qs (a : App W) :
  code_ok code = true -> code ≠ B "metrics" -> is_query qs ->
  route_get os ui_html (code_path code qs) a = get_code ("/"%char :: code) a.
Proof.
  intros Hc Hm Hq. apply code_ok_spec in Hc as (Hne & _ & Hs). unfold route_get.
  rewrite pathname_code by done. pose proof (code_no_slash _ Hs) as Hns.
  assert (Hapi : forall s t, s = "/"%char :: t -> "/"%char ∈ t -> ("/"%char :: code =s s) = false).
  { intros s t -> Ht. apply bool_decide_eq_false. intros E. injection E as ->. done. }
  rewrite (Hapi (B "/api/health") (B "api/health")), (Hapi (B "/api/metrics") (B "api/metrics")),
    (Hapi (B "/api/links") (B "api/links")) by (done || (apply list_elem_of_In; vm_compute; tauto)).
  assert (("/"%char :: code =s B "/metrics") = false) as ->
    by (apply bool_decide_eq_false; intros E; apply Hm; by injection E).
  assert (("/"%char :: code =s B "/") = false) as ->
    by (apply bool_decide_eq_false; intros E; apply Hne; by injection E).
  destruct (starts_with (B "/api/stats/") ("/"%char :: code)) eqn:E; [|done].
  apply starts_with_spec in E as [r E]. injection E as ->. exfalso. apply Hns.
  apply list_elem_of_In. vm_compute. tauto.
Qed.

(** The first step of every request: only the clock is read. *)
Lemma app_tick_store (a : App W) :
  a_store (app_tick os a) = st_with_sys (snd (now_ms os (st_sys (a_store a)))) (a_store a) /\
  a_limiter (app_tick os a) = a_limiter a /\ a_limited (app_tick os a) = a_limited a.
Proof. done. Qed.

(** The dispatch on the method. *)
Lemma route_GET path body token client (a : App W) :
  route os env ui_html (B "GET") path body token client a = route_get os ui_html path (app_tick os a).
Proof. reflexivity. Qed.
Lemma route_POST path body token client (a : App W) :
  route os env ui_html (B "POST") path body token client a = route_post os env path body client (app_tick os a).
Proof. reflexivity. Qed.
Lemma route_MUT m path body token client (a : App W) : m = B "PATCH" \/ m = B "DELETE" ->
  route os env ui_html m path body token client a = route_mut env m path body token (app_tick os a).
Proof. by intros [-> | ->]. Qed.

Lemma handle_replied m path body token client (a a1 : App W) r :
  handle os env ui_html m path body token client a = Replied r a1 ->
  exists a', route os env ui_html m path body token client a = Replied r a' /\ a_store a1 = a_store a'.
Proof. unfold handle. destruct (route _ _ _ _ _ _ _ _ a) as [r' a'| |]; intros [= -> <-]. by exists a'. Qed.

(** Asking the limiter reads the clock, if it is on. *)
Lemma app_allow_store client cost (a : App W) :
  exists s, a_store (snd (app_allow os client cost a)) = st_with_sys s (a_store a) /\ fs s = fs (st_sys (a_store a)) /\
    (k_clock (st_sys (a_store a)) <= k_clock s)%nat.
Proof.
  unfold app_allow, allow. generalize (st_sys (a_store a)). intros s0.
  destruct (f_le (rate_ (a_limiter a)) (f_of_Z 0)); [by exists s0|].
  cbn [now_ms]. destruct (allow_at _ _ _ _) as [ok r]. eexists. split_and!; [done..|]. simpl. lia.
Qed.

(** The limiter is off unless [RATE_LIMIT] is positive. *)
Definition limiter_off (a : App W) : Prop := f_le (rate_ (a_limiter a)) (f_of_Z 0) = true.

Lemma app_allow_off client cost (a : App W) : limiter_off a ->
  exists a2, app_allow os client cost a = (true, a2) /\ a_store a2 = st_with_sys (st_sys (a_store a)) (a_store a) /\
    a_limiter a2 = a_limiter a.
Proof. unfold limiter_off, app_allow, allow. intros ->. by eexists. Qed.

(** A link is made by a request that asks for one. *)
Lemma handle_shorten body token client (a : App W) p u alias ttl code w' : limiter_off a ->
  jparse body = Some p -> jfind p (B "url") = Some (STR u) -> is_valid_url u = true ->
  post_alias p = Some alias -> post_ttl env p = Some ttl ->
  (let w := a_store (app_tick os a) in st_shorten u alias ttl (st_with_sys (st_sys w) w) = Ret (Some code) w') ->
  exists a1, handle os env ui_html (B "POST") (B "/api/shorten") body token client a = Replied (created_reply code) a1 /\
    a_store a1 = w' /\ a_limiter a1 = a_limiter a.
Proof.
  intros Hl Hp Hu Hv Ha Ht Hs. unfold handle. rewrite route_POST. unfold route_post.
  change (pathname (B "/api/shorten")) with (B "/api/shorten"). change (B "/api/shorten" =s B "/api/shorten") with true. cbn [negb andb].
  destruct (app_allow_off client (post_cost (B "/api/shorten") p) (app_tick os a) Hl) as (a2 & Ea & Es & El).
  rewrite Hp, Ea. cbn [negb]. unfold shorten_one. rewrite Hu, Hv, Ha, Ht. cbn [negb a_store count_op].
  rewrite Es, Hs. eexists. split; [reflexivity|]. done.
Qed.

(** A visit asks the store. *)
Lemma handle_visit code body token client (a : App W) t w' : code_ok code = true -> code ≠ B "metrics" ->
  st_resolve code (a_store (app_tick os a)) = Ret t w' ->
  exists a1, handle os env ui_html (B "GET") (code_path code []) body token client a =
      Replied (match t with Some target => redirect target | None => not_found end) a1 /\
    a_store a1 = w' /\ a_limiter a1 = a_limiter a.
Proof.
  intros Hc Hm Hs. unfold handle. rewrite route_GET, route_get_code by done. unfold get_code. rewrite Hc.
  change (a_store (count_op OP_REDIRECT (app_tick os a))) with (a_store (app_tick os a)). rewrite Hs. by eexists.
Qed.

Lemma read_during_wider s s1 s' now : (k_clock s <= k_clock s1)%nat -> read_during os s1 s' now -> read_during os s s' now.
Proof. intros Hk (k & H & ->). exists k. split; [lia|done]. Qed.

End Routing.
