(* ===== verification/AppClaims.v ===== *)
(** * What the HTTP interface promises

    Claims about [handle], over any store that keeps [StoreLaws]; the
    witnesses run on the log store. *)

From S2P Require Import Prelude CLib Common Codec Float Json Aof Metrics RateLimit Store StoreFacts StoreSpec StoreClaims App AppFacts.

(** A running application on an empty store in memory. *)
Definition demo_env : Env := fun k => if k =s B "ADMIN_TOKEN" then Some (B "secret") else None.
#[export] Existing Instance demo_cast.
#[export] Existing Instance RefStd.
Definition demo_api : StoreApi World := log_store RefOs demo_env 3.
#[export] Existing Instance demo_api.
Definition demo_app : App World := mkApp mem_world Metrics0 (reload demo_env) 0.
Definition demo_handle (method path body token : bytes) (a : App World) : Res (App World) :=
  handle RefOs demo_env [] method path body token (B "10.0.0.1") a.
Definition reply_of {A} (r : Res A) : option Reply := match r with Replied r _ => Some r | _ => None end.
Definition state_of (r : Res (App World)) : App World :=
  match r with Replied _ a | Thrown a => a | Diverged => demo_app end.

Lemma demo_ok : st_ok (StoreLaws := log_laws RefOs demo_env 3) (a_store demo_app).
Proof. split; [apply mem_world_wf|]. by apply list_elem_of_In; vm_compute; tauto. Qed.

Section Claims.
Context {W : Type} {api : StoreApi W} {cast : CastImpl} (os : Os) (env : Env) (ui_html : bytes).
Context {laws : StoreLaws W os}.

Abbreviation http := (handle os env ui_html).

Lemma post_alias_ok p c : post_alias p = Some (Some c) -> code_ok c = true.
Proof. unfold post_alias. destruct (jfind p (B "alias")) as [[]|]; try done. case_match; [|done]. by intros [= <-]. Qed.

(** C13 A 201 from [POST /api/shorten] means a link was made: the body was
    JSON with a valid url and a usable alias or none; the reply names a code
    that was free before, the alias if one was asked for; the table gets
    exactly that code with exactly that url. The lifetime is the one asked
    for, cut to whole milliseconds and to at most [LINK_TTL_MS], or
    [LINK_TTL_MS] if none was. If it is positive the link expires that long
    after a moment within the request (in range of an int64_t); if it is
    not - less than a millisecond was asked for, or [LINK_TTL_MS] is not
    positive - the link never expires
    ([HttpFindings.short_lifetime_never_expires]). *)
Theorem post_creates_link body token client a r a1 :
  st_ok (a_store a) ->
  http (B "POST") (B "/api/shorten") body token client a = Replied r a1 -> rp_status r = 201 ->
  exists p u alias code ttl now e,
    jparse body = Some p /\ jfind p (B "url") = Some (STR u) /\ is_valid_url u = true /\
    post_alias p = Some alias /\ (alias = Some code \/ alias = None) /\ code_ok code = true /\
    post_ttl env p = Some ttl /\ ttl <= link_ttl_ms env /\
    (0 < ttl -> e = i64 (now + ttl) /\ (now + link_ttl_ms env < 2 ^ 63 -> e = now + ttl)) /\ (ttl <= 0 -> e = 0) /\
    read_during os (st_sys (a_store a)) (st_sys (a_store a1)) now /\
    r = created_reply code /\ st_table (a_store a) !! code = None /\
    st_table (a_store a1) = <[code := (u, e)]> (st_table (a_store a)) /\ st_ok (a_store a1).
Proof.
  intros Hok H Hst. apply handle_replied in H as (a' & H & Hs). rewrite route_POST in H.
  unfold route_post in H. change (pathname (B "/api/shorten")) with (B "/api/shorten") in H.
  change (B "/api/shorten" =s B "/api/shorten") with true in H. cbn [negb andb] in H.
  destruct (jparse body) as [p|]; [|injection H as <- _; discriminate].
  destruct (app_tick_store os a) as (Ht & _). set (at1 := app_tick os a) in *.
  destruct (app_allow_store os client (post_cost (B "/api/shorten") p) at1) as (s2 & Hs2 & _ & Hk2).
  destruct (app_allow os client _ at1) as [ok a2]. cbn [snd] in Hs2. destruct ok; [|injection H as <- _; discriminate].
  cbn [negb] in H. unfold shorten_one in H.
  destruct (jfind p (B "url")) as [[| |u| | |]|] eqn:Eu; try (injection H as <- _; discriminate).
  destruct (is_valid_url u) eqn:Ev; [|injection H as <- _; discriminate]. cbn [negb] in H.
  destruct (post_alias p) as [alias|] eqn:Ea; [|injection H as <- _; discriminate].
  destruct (post_ttl env p) as [ttl|] eqn:Et; [|injection H as <- _; discriminate].
  cbn [a_store count_op] in H. rewrite Hs2, Ht in H.
  set (w := st_with_sys s2 _) in *.
  assert (Hw : st_ok w /\ st_table w = st_table (a_store a)).
  { unfold w. destruct (law_clock (snd (now_ms os (st_sys (a_store a)))) (a_store a) Hok) as [H1 E1]; [simpl; lia|].
    destruct (law_clock s2 _ H1) as [H2 E2]; [by rewrite Ht in Hk2|]. by rewrite E2, E1. }
  destruct Hw as [Hw Htab].
  unfold with_store in H. destruct (st_shorten u alias ttl w) as [[code|] w'|w'|] eqn:Es;
    [|injection H as <- _; discriminate|done|done].
  apply law_shorten in Es as (Hok' & Hn & Hal & now & Hnow & Htab'); [|done|intros c ->; by eapply post_alias_ok]. injection H as <- <-.
  assert (Hk : (k_clock (st_sys (a_store a)) <= k_clock (st_sys w))%nat).
  { unfold w. rewrite law_sys. rewrite Ht, law_sys in Hk2. simpl in Hk2. lia. }
  assert (Hcap : ttl <= link_ttl_ms env).
  { unfold post_ttl in Et. destruct (jfind p (B "ttl_ms")) as [[]|]; try done; [|by injection Et as <-].
    destruct (f_le num _); [done|]. injection Et as <-. lia. }
  exists p, u, alias, code, ttl, now, (expiry now ttl). rewrite Hs. cbn [a_store set_store].
  rewrite <- Htab. split_and!; try done.
  - destruct Hal as [->|(-> & _)]; auto.
  - destruct Hal as [->|(_ & ? & _)]; [by eapply post_alias_ok|done].
  - unfold expiry. intros Ht0. rewrite (proj2 (Z.ltb_lt _ _) Ht0). split; [done|]. intros Hb. apply i64_id.
    destruct Hnow as (j & _ & ->). pose proof (i64_range (os_clock os j)) as Hj. unfold in_i64 in *. lia.
  - intros Ht0. unfold expiry. by rewrite (proj2 (Z.ltb_ge _ _) Ht0).
  - by apply (read_during_wider os _ (st_sys w)).
Qed.

(** C14 A visit of a code that is in the table is answered with a redirect to
    its url or with a 404: the redirect if the link does not expire or a
    clock reading made for the visit is before its expiry, the 404 if that
    reading is not; whatever query follows the code and whoever the client
    is. The table does not change. The one code this does not hold for is
    [metrics], which the route of the same name hides. *)
Theorem visit_redirects code u e qs body token client a r a1 :
  st_ok (a_store a) -> code_ok code = true -> code ≠ B "metrics" -> is_query qs ->
  st_table (a_store a) !! code = Some (u, e) ->
  http (B "GET") (code_path code qs) body token client a = Replied r a1 ->
  st_ok (a_store a1) /\ st_table (a_store a1) = st_table (a_store a) /\ (e = 0 -> r = redirect u) /\
  (e ≠ 0 -> exists now, read_during os (st_sys (a_store a)) (st_sys (a_store a1)) now /\
     r = if now <? e then redirect u else not_found).
Proof.
  intros Hok Hc Hm Hq Hu H. apply handle_replied in H as (a' & H & Hs). rewrite Hs. clear a1 Hs.
  rewrite route_GET, route_get_code in H by done. unfold get_code in H. rewrite Hc in H.
  destruct (app_tick_store os a) as (Ht & _). cbn [count_op a_store] in H. rewrite Ht in H.
  set (w := st_with_sys _ _) in *. destruct (law_clock (snd (now_ms os (st_sys (a_store a)))) _ Hok) as [H1 E1]; [simpl; lia|].
  unfold with_store in H. destruct (st_resolve code w) as [t w'|w'|] eqn:E; [|done|done].
  destruct (law_resolve code u e w t w' H1 Hc ltac:(unfold w; by rewrite E1) E) as (Hok' & Htab & Hr0 & Hr).
  injection H as <- <-. cbn [a_store set_store]. rewrite Htab. split; [done|]. split; [exact E1|]. split.
  - intros He. by rewrite (Hr0 He).
  - intros He. destruct (Hr He) as (now & Hnow & ->). exists now. split; [|by destruct (now <? e)].
    unfold w in Hnow. rewrite law_sys in Hnow. destruct Hnow as (k & Hk & ->). exists k. split; [simpl in *; lia|done].
Qed.

(** C20 Without the administrator's token nothing can be changed: a PATCH or
    DELETE is answered like a missing page, and the store, the limiter and
    the counters of operations are as before; with no token configured that
    is so for every token. *)
Theorem mutation_needs_token m path body token client a :
  m = B "PATCH" \/ m = B "DELETE" ->
  env (B "ADMIN_TOKEN") ≠ Some token \/ token = [] ->
  exists a1, http m path body token client a = Replied not_found a1 /\
    a_store a1 = st_with_sys (snd (now_ms os (st_sys (a_store a)))) (a_store a) /\
    a_limiter a1 = a_limiter a /\ OP_COUNTS (a_metrics a1) = OP_COUNTS (a_metrics a).
Proof.
  intros Hm Ht. unfold handle. rewrite route_MUT by done. unfold route_mut.
  assert (admin_ok env token = false) as ->.
  { unfold admin_ok. destruct (env (B "ADMIN_TOKEN")) as [[|c want]|]; [done| |done].
    apply bool_decide_eq_false. intros ->. destruct Ht as [Ht|Ht]; done. }
  rewrite orb_true_r. eexists. split; [reflexivity|]. done.
Qed.

(** The store's operations let no exception through a reply. *)
Lemma with_store_thrown {A} (o : Out A W) (a : App W) k a1 :
  with_store o a k = Thrown a1 -> (forall w, o ≠ Raise w) -> False.
Proof. unfold with_store. destruct o; intros H Hn; try done. by apply (Hn w). Qed.

(** C35 Over a store that lets no exception through, as the log store, a
    request fails in one way only: [handle] throws exactly when it is a GET
    whose path is empty before the question mark ([pathname.substr(1)] of
    app.cpp:400). Every other request gets a reply, unless the search for a
    free code does not end. *)
Theorem only_empty_path_throws {nr : StoreNoRaise W} m path body token client a :
  (exists a1, http m path body token client a = Thrown a1) <-> (m = B "GET" /\ pathname path = []).
Proof.
  unfold handle. split.
  - intros [a1 H]. destruct (route os env ui_html m path body token client a) as [|a'|] eqn:E; [done| |done].
    clear H a1. unfold route in E. destruct (m =s B "OPTIONS"); [done|].
    destruct (m =s B "GET") eqn:Em; bool_facts.
    + split; [done|]. unfold route_get, get_list, get_stats, get_code in E.
      repeat case_match; simplify_eq; try done; exfalso; eapply with_store_thrown; eauto with store_raise.
    + exfalso. unfold route_post, route_mut, shorten_one, shorten_bulk, do_delete, do_patch in E.
      repeat case_match; simplify_eq; eapply with_store_thrown; eauto with store_raise.
  - intros [-> Hp]. rewrite route_GET. unfold route_get. rewrite Hp. by eexists.
Qed.
End Claims.

(** ** The witnesses *)
Definition demo_laws : StoreLaws World (api := demo_api) RefOs := log_laws RefOs demo_env 3.
#[export] Existing Instance demo_laws.

Definition demo_body : bytes := Q "{'url':'https://e.com/a','alias':'abc','ttl_ms':5000}".
Definition demo_post : Res (App World) := demo_handle (B "POST") (B "/api/shorten") demo_body [] demo_app.
Definition demo_app1 : App World := state_of demo_post.
Lemma demo_post_eq : demo_post = Replied (created_reply (B "abc")) demo_app1.
Proof. vm_compute. reflexivity. Qed.
Lemma post_creates_link_witness :
  exists p u ttl code e, jparse demo_body = Some p /\ jfind p (B "url") = Some (STR u) /\ post_ttl demo_env p = Some ttl /\
    (0 < ttl -> exists now, e = i64 (now + ttl)) /\
    st_table (a_store demo_app1) = <[code := (u, e)]> (st_table (a_store demo_app)) /\ st_ok (a_store demo_app1).
Proof.
  destruct (post_creates_link RefOs demo_env [] demo_body [] (B "10.0.0.1") demo_app _ demo_app1 demo_ok
    demo_post_eq eq_refl) as (p & u & _ & code & ttl & now & e & H1 & H2 & _ & _ & _ & _ & H3 & _ & H4 & _ & _ & _ & _ & H5 & H6).
  exists p, u, ttl, code, e. split_and!; try done. intros Ht. exists now. by apply H4.
Defined.

(** The same application over a store with one link. *)
Definition demo_app2 : App World := mkApp one_link Metrics0 (reload demo_env) 0.
Lemma demo_ok2 : st_ok (a_store demo_app2).
Proof. split; [apply one_link_wf|]. by apply list_elem_of_In; vm_compute; tauto. Qed.
Lemma demo_table2 : st_table (a_store demo_app2) !! B "x" = Some (B "https://a.b/c", 5000).
Proof.
  change (log_table one_link !! B "x" = Some (B "https://a.b/c", 5000)).
  rewrite log_table_lookup, (data_find (inner one_link)) by apply one_link_wf. by rewrite one_link_find.
Qed.

Definition demo_visit : Res (App World) := demo_handle (B "GET") (B "/x?y=1") [] [] demo_app2.
Lemma demo_visit_eq : demo_visit = Replied (redirect (B "https://a.b/c")) (state_of demo_visit).
Proof. vm_compute. reflexivity. Qed.
Lemma visit_redirects_witness :
  demo_visit = Replied (redirect (B "https://a.b/c")) (state_of demo_visit) /\ st_ok (a_store (state_of demo_visit)).
Proof.
  split; [exact demo_visit_eq|].
  exact (proj1 (visit_redirects RefOs demo_env [] (B "x") (B "https://a.b/c") 5000 (B "?y=1") [] [] (B "10.0.0.1")
    demo_app2 _ _ demo_ok2 eq_refl ltac:(done) eq_refl demo_table2 demo_visit_eq)).
Defined.

Lemma only_empty_path_throws_witness : exists a1, demo_handle (B "GET") (B "?x") [] [] demo_app = Thrown a1.
Proof.
  apply (only_empty_path_throws (nr := log_no_raise RefOs demo_env 3) RefOs demo_env [] (B "GET") (B "?x") [] [] (B "10.0.0.1") demo_app).
  by split.
Defined.

Lemma demo_guess : demo_env (B "ADMIN_TOKEN") ≠ Some (B "guess").
Proof. vm_compute. discriminate. Qed.

Lemma mutation_needs_token_witness :
  exists a1, demo_handle (B "DELETE") (B "/api/links/abc") [] (B "guess") demo_app2 = Replied not_found a1.
Proof.
  destruct (mutation_needs_token RefOs demo_env [] (B "DELETE") (B "/api/links/abc") [] (B "guess") (B "10.0.0.1")
    demo_app2 (or_intror eq_refl) (or_introl demo_guess)) as (a1 & H & _).
  exists a1. exact H.
Defined.

(** ** Query strings *)

(** Percent encoding as a client does it: letters and digits as they are, a
    blank as a plus sign, everything else by its code. *)
Definition hexdigit (d : Z) : ascii := nth (Z.to_nat d) (B "0123456789ABCDEF") "0"%char.
Definition pct (c : ascii) : bytes :=
  if isalnum c then [c] else if c =c SP then B "+"
  else ["%"%char; hexdigit (cc c / 16); hexdigit (cc c mod 16)].
Definition url_encode (s : bytes) : bytes := concat (map pct s).
Definition pair_encode (kv : bytes * bytes) : bytes := url_encode (fst kv) ++ "="%char :: url_encode (snd kv).
Fixpoint query_encode (l : list (bytes * bytes)) : bytes :=
  match l with
  | [] => []
  | [kv] => pair_encode kv
  | kv :: l' => pair_encode kv ++ "&"%char :: query_encode l'
  end.

Lemma pct_cases c :
  (exists d, pct c = [d] /\ (d =c "%") = false /\ (d =c "=") = false /\ (d =c "&") = false /\
     c = (if d =c "+" then SP else d)) \/
  (exists h l hi lo, pct c = ["%"%char; h; l] /\ hexval h = Some hi /\ hexval l = Some lo /\ c = chr (hi * 16 + lo) /\
     (h =c "=") = false /\ (h =c "&") = false /\ (l =c "=") = false /\ (l =c "&") = false).
Proof.
  assert (A : forallb (fun c =>
    match pct c with
    | [d] => negb (d =c "%") && negb (d =c "=") && negb (d =c "&") && (c =c (if d =c "+" then SP else d))
    | [p; h; l] => (p =c "%") && match hexval h, hexval l with Some hi, Some lo => c =c chr (hi * 16 + lo) | _, _ => false end
         && negb (h =c "=") && negb (h =c "&") && negb (l =c "=") && negb (l =c "&")
    | _ => false
    end) all_ascii = true) by (vm_compute; done).
  pose proof (forall_ascii _ A c) as H. clear A. cbv beta in H.
  destruct (pct c) as [|d [|h [|l [|? ?]]]]; try done.
  - left. exists d. rewrite !andb_true_iff, !negb_true_iff, Ascii.eqb_eq in H. tauto.
  - right. destruct (hexval h) as [hi|] eqn:Eh; [|by rewrite andb_false_r in H].
    destruct (hexval l) as [lo|] eqn:El; [|by rewrite andb_false_r in H].
    rewrite !andb_true_iff, !negb_true_iff, !Ascii.eqb_eq in H. destruct_and!. subst d. by exists h, l, hi, lo.
Qed.

Lemma url_decode_encode s : url_decode (url_encode s) = s.
Proof.
  induction s as [|c s IH]; [done|]. unfold url_encode in *. cbn [map concat].
  destruct (pct_cases c) as [(d & -> & Hp & _ & _ & Hc)|(h & l & hi & lo & -> & Hh & Hl & Hc & _)].
  - cbn [app url_decode]. rewrite Hp, IH. by rewrite <- Hc.
  - cbn [app url_decode]. change ("%"%char =c "%") with true. cbv iota. rewrite Hh, Hl, IH. by rewrite <- Hc.
Qed.

Lemma url_encode_free c s : c = "="%char \/ c = "&"%char -> Forall (fun x => x ≠c c = true) (url_encode s).
Proof.
  intros Hc. apply Forall_concat, Forall_map, Forall_true. intros x.
  destruct (pct_cases x) as [(d & -> & H)|(h & l & hi & lo & -> & _ & _ & _ & H)];
    destruct Hc as [-> | ->]; repeat constructor; simpl; try done; destruct_and!;
    match goal with E : ?b = false |- negb ?b = true => by rewrite E end.
Qed.

Lemma pair_encode_free kv : Forall (fun x => x ≠c "&" = true) (pair_encode kv).
Proof.
  unfold pair_encode. apply Forall_app; split; [apply url_encode_free; auto|].
  constructor; [done|apply url_encode_free; auto].
Qed.

Lemma add_pair_encode kv m : add_pair (pair_encode kv) m = <[fst kv := snd kv]> m.
Proof.
  unfold add_pair, pair_encode. rewrite span_stop; [|apply url_encode_free; auto|done].
  by rewrite !url_decode_encode.
Qed.

Lemma pair_encode_length kv : (0 < length (pair_encode kv))%nat.
Proof. unfold pair_encode. rewrite length_app. simpl. lia. Qed.

(** A query string is read as it was meant: for any list of keys and
    values, of any bytes, percent-encoded and joined by ampersands,
    [parse_query] gives the map that inserts them in order, the last value
    of a key winning. *)
Theorem query_roundtrip l :
  parse_query (query_encode l) = fold_left (fun m kv => <[fst kv := snd kv]> m) l ∅.
Proof.
  unfold parse_query. generalize (∅ : gmap bytes bytes).
  assert (H : forall l n m, (length (query_encode l) <= n)%nat ->
    parse_query_loop n (query_encode l) m = fold_left (fun m kv => <[fst kv := snd kv]> m) l m);
    [|intros m; by apply H].
  clear l. induction l as [|kv l IH]; intros n m Hn; [by destruct n|].
  pose proof (pair_encode_length kv) as Hp. destruct n as [|n].
  { destruct l; cbn [query_encode] in Hn; rewrite ?length_app in Hn; [lia|].
    lia. }
  destruct l as [|kv' l].
  - cbn [query_encode] in *. destruct (pair_encode kv) as [|c s] eqn:E; [simpl in Hp; lia|].
    cbn [parse_query_loop]. rewrite <- E in *. rewrite <- (app_nil_r (pair_encode kv)) at 1.
    rewrite span_all by apply pair_encode_free. cbn [span fst snd]. rewrite app_nil_r, add_pair_encode.
    by destruct n.
  - change (query_encode (kv :: kv' :: l)) with (pair_encode kv ++ "&"%char :: query_encode (kv' :: l)) in *.
    rewrite length_app in Hn. cbn [length] in Hn. specialize (IH n (<[fst kv := snd kv]> m) ltac:(lia)).
    destruct (pair_encode kv) as [|c s] eqn:E; [simpl in Hp; lia|]. rewrite <- app_comm_cons.
    cbn [parse_query_loop]. rewrite app_comm_cons. rewrite <- E.
    rewrite span_stop; [|apply pair_encode_free|done]. rewrite add_pair_encode. exact IH.
Qed.

(** ** The bodies of the replies *)
Definition link_doc (l : Link) : V :=
  VObj [(B "code", VStr (l_code l)); (B "url", VStr (l_url l)); (B "hits", VInt (l_hits l));
        (B "created_at", VInt (l_created l));
        (B "expires_at", if l_expires l =? 0 then VNull else VInt (l_expires l))].

(** A link the store can hold: a code the handlers accept, 64-bit numbers,
    any url. *)
Definition link_ok (l : Link) : Prop :=
  code_ok (l_code l) = true /\ in_i64 (l_hits l) /\ in_i64 (l_created l) /\ in_i64 (l_expires l).

Lemma quote_code c : code_ok c = true -> quote c = dq :: c ++ [dq].
Proof.
  intros H. apply code_ok_plain in H as (_ & Hp & _). unfold quote.
  assert (concat (map jesc1 c) = c) as ->; [|done].
  induction Hp as [|x s [Hb Hd] Hs IH]; [done|]. cbn [map concat]. rewrite IH. unfold jesc1. by rewrite Hb, Hd.
Qed.

Lemma link_json_render b l : link_ok l -> link_json b l = b ++ render (link_doc l).
Proof.
  intros (Hc & Hh & Ha & He). unfold link_json, link_doc. rewrite (itoa_to_string _ (l_hits l)), (itoa_to_string _ (l_created l)) by done.
  cbn [render map fst snd commas]. rewrite (quote_code _ Hc).
  assert (Hu : quote (l_url l) = dq :: url_escape (l_url l) ++ [dq]) by done. rewrite Hu.
  destruct (l_expires l =? 0); [|rewrite itoa_to_string by done]; repeat (rewrite <- !app_assoc; simpl); done.
Qed.

Lemma join_commas {A} (f : bytes -> A -> bytes) (g : A -> bytes) (P : A -> Prop) l b :
  (forall b x, P x -> f b x = b ++ g x) -> Forall P l -> join_with f b l = b ++ commas (map g l).
Proof.
  intros Hf Hl. destruct Hl as [|x l Hx Hl]; [by rewrite app_nil_r|]. cbn [join_with]. rewrite Hf by done.
  assert (H : forall b x, fold_left (fun b y => f (b ++ B ",") y) l (b ++ g x) = b ++ commas (map g (x :: l))); [|done].
  clear b x Hx. induction Hl as [|y l Hy Hl IH]; intros b x; [done|]. cbn [fold_left]. rewrite Hf by done.
  rewrite IH.
  change (commas (map g (x :: y :: l))) with (g x ++ ","%char :: commas (map g (y :: l))). simpl.
  by rewrite <- !app_assoc.
Qed.

Definition doc_of_list (links : list Link) (total : nat) : V :=
  VObj [(B "links", VArr (map link_doc links)); (B "total", VInt (Z.of_nat total))].

(** What the server answers is JSON that says what it means, by the
    program's own parser: the reply to a shortening names the code, the one
    to a batch the codes in order, [stats] and [list] give every field of
    every link, for urls of any bytes and numbers of 64 bits. *)
Theorem replies_are_json :
  (forall code, code_ok code = true ->
     jparse (rp_body (created_reply code)) =
       Some (OBJ [(B "code", STR code); (B "short_url", STR ("/"%char :: code))])) /\
  (forall codes, Forall (fun c => code_ok c = true) codes -> in_i64 (Z.of_nat (length codes)) ->
     jparse (rp_body (bulk_reply codes)) =
       Some (OBJ [(B "count", NUM (f_of_Z (Z.of_nat (length codes)))); (B "codes", ARR (map STR codes))])) /\
  (forall l, link_ok l -> jparse (link_json [] l) = Some (embed (link_doc l))) /\
  (forall links total, Forall link_ok links -> in_i64 (Z.of_nat total) ->
     jparse (list_body links total) = Some (embed (doc_of_list links total))).
Proof.
  assert (Hr : forall v, jparse (render v) = Some (embed v)) by apply render_jparse.
  split_and!.
  - intros c Hc. trans (jparse (render (VObj [(B "code", VStr c); (B "short_url", VStr ("/"%char :: c))]))); [|apply Hr].
    f_equal. cbn [render map fst snd commas]. rewrite (quote_code c) by done.
    assert (quote ("/"%char :: c) = dq :: "/"%char :: c ++ [dq]) as ->.
    { pose proof (quote_code c Hc) as Hq. unfold quote in *. injection Hq as Hq. cbn [map concat]. simpl. by rewrite Hq. }
    unfold created_reply, mk. cbn [rp_body]. repeat (rewrite <- !app_assoc; simpl). done.
  - intros cs Hc Hn.
    assert (Hv : map STR cs = map embed (map VStr cs)) by (rewrite map_map; done).
    rewrite Hv. trans (jparse (render (VObj [(B "count", VInt (Z.of_nat (length cs))); (B "codes", VArr (map VStr cs))])));
      [|apply Hr].
    f_equal. unfold bulk_reply, mk. cbn [rp_body]. rewrite itoa_to_string by done.
    rewrite (join_commas _ quote (fun c => code_ok c = true)); [|intros b c H; by rewrite (quote_code c H)|done].
    cbn [render map fst snd]. rewrite map_map. change (map (fun x => render (VStr x)) cs) with (map quote cs).
    cbn [commas]. repeat (rewrite <- !app_assoc; simpl). done.
  - intros l Hl. rewrite link_json_render by done. apply Hr.
  - intros links total Hl Ht. rewrite <- Hr. f_equal. unfold list_body, doc_of_list.
    rewrite itoa_to_string by done.
    rewrite (join_commas _ (fun l => render (link_doc l)) link_ok); [|apply link_json_render|done].
    cbn [render map fst snd]. rewrite map_map. cbn [commas]. repeat (rewrite <- !app_assoc; simpl). done.
Qed.

Lemma replies_are_json_witness :
  jparse (link_json [] (mkLink (B "x") (Q "http://e/'") 3 1 0)) = Some (embed (link_doc (mkLink (B "x") (Q "http://e/'") 3 1 0))).
Proof. apply replies_are_json. repeat split; done. Defined.
