(* ===== verification/AppDurable.v ===== *)
(** * The handlers over the log store

    Every request is at most one operation of the store with a code the log
    can hold, so that what Recovery.v shows of sessions of operations holds
    of sessions of requests. *)

From S2P Require Import Prelude CLib Common Codec Float Json Aof Metrics RateLimit Store StoreFacts StoreSpec Durability Recovery App AppFacts.

Section AppDurable.
Context {std : StdImpl} {cast : CastImpl} (os : Os) (env : Env) (fuel : nat) (ui_html : bytes).
Abbreviation http := (handle (api := log_store os env fuel) os env ui_html).

(** What a request may do to the store: read the clock, then perform at most
    one operation. *)
Inductive moves (w w' : World) : Prop :=
| moves_clock s : fs s = fs (sys w) -> w' = with_sys s w -> moves w w'
| moves_step o s : fs s = fs (sys w) -> op_ok o -> step os env fuel o (with_sys s w) = Some w' -> moves w w'.

Lemma moves_refl w : moves w w.
Proof. apply (moves_clock _ _ (sys w)); [done|by destruct w]. Qed.

Lemma moves_after s w w' : fs s = fs (sys w) -> moves (with_sys s w) w' -> moves w w'.
Proof.
  intros Hs [s' Hs' ->|o s' Hs' Ho H].
  - apply (moves_clock _ _ s'); [by rewrite Hs'|done].
  - apply (moves_step _ _ o s'); [by rewrite Hs'|done|exact H].
Qed.

Lemma moves_op o w w' : op_ok o -> step os env fuel o w = Some w' -> moves w w'.
Proof. intros Ho H. apply (moves_step _ _ o (sys w)); [done..|]. by destruct w. Qed.

(** The reached store of a result. *)
Definition ends_in (P : World -> Prop) (r : Res (App World)) : Prop :=
  match r with Replied _ a | Thrown a => P (a_store a) | Diverged => True end.

Lemma shorten_one_moves p (a : App World) :
  ends_in (moves (a_store a)) (shorten_one (api := log_store os env fuel) env p a).
Proof.
  unfold shorten_one. destruct (jfind p (B "url")) as [[]|]; try apply moves_refl.
  destruct (is_valid_url str); [|apply moves_refl]. cbn [negb].
  destruct (post_alias p) as [alias|] eqn:Ea; [|apply moves_refl].
  destruct (post_ttl env p) as [ttl|]; [|apply moves_refl].
  assert (Ho : op_ok (DoShorten str alias ttl)).
  { destruct alias as [c|]; [|done]. apply code_ok_plain. unfold post_alias in Ea.
    destruct (jfind p (B "alias")) as [[]|]; try done. destruct (code_ok str0) eqn:E; [|done]. by injection Ea as <-. }
  pose proof (moves_op (DoShorten str alias ttl) (a_store a)) as Hm. cbn [st_shorten log_store]. cbn [step] in Hm.
  destruct (shorten os fuel str alias ttl (a_store a)) as [[c|] w|]; [by apply Hm..|done].
Qed.

Lemma shorten_bulk_moves p (a : App World) :
  ends_in (moves (a_store a)) (shorten_bulk (api := log_store os env fuel) env p a).
Proof.
  unfold shorten_bulk. destruct (jfind p (B "urls")) as [[]|]; try apply moves_refl.
  case_if; [apply moves_refl|]. destruct (bulk_urls arr) as [us|]; [|apply moves_refl].
  pose proof (moves_op (DoShortenMany us (link_ttl_ms env)) (a_store a)) as Hm. cbn [st_shorten_many log_store].
  cbn [step] in Hm. destruct (shorten_many os fuel us (link_ttl_ms env) (a_store a)) as [cs w|]; [by apply Hm|done].
Qed.

Lemma route_get_moves path (a : App World) :
  ends_in (moves (a_store a)) (route_get (api := log_store os env fuel) os ui_html path a).
Proof.
  unfold route_get. repeat case_if; try apply moves_refl.
  - by apply (moves_clock _ _ (snd (snapshot os (a_metrics (count_op OP_METRICS a)) (sys (a_store a))))).
  - by apply (moves_clock _ _ (snd (prometheus os (a_limited a) (st_counters (StoreApi := log_store os env fuel) (a_store a))
      (a_metrics (count_op OP_METRICS a)) (sys (a_store a))))).
  - unfold get_code. destruct (pathname path) as [|? code]; [apply moves_refl|].
    destruct (code_ok code); [|apply moves_refl]. cbn [st_resolve log_store a_store count_op].
    pose proof (moves_op (DoResolve code) (a_store a) _ I eq_refl) as Hm.
    destruct (resolve os env code (a_store a)) as [[t|] w]; exact Hm.
Qed.

Lemma route_mut_moves m path body token (a : App World) :
  ends_in (moves (a_store a)) (route_mut (api := log_store os env fuel) env m path body token a).
Proof.
  unfold route_mut. case_if; [apply moves_refl|]. case_if; [apply moves_refl|]. case_if.
  - unfold do_delete. cbn [st_remove log_store a_store count_op].
    pose proof (moves_op (DoRemove (drop 11 (pathname path))) (a_store a) _ I eq_refl) as Hm.
    destruct (remove _ (a_store a)) as [r w]. exact Hm.
  - unfold do_patch. destruct (jparse body) as [p|]; [|apply moves_refl].
    destruct (jfind p (B "url")) as [[]|]; try apply moves_refl.
    case_if; [apply moves_refl|]. destruct (patch_ttl env p) as [ttl has].
    cbn [st_update log_store a_store count_op].
    pose proof (moves_op (DoUpdate (drop 11 (pathname path)) str ttl has) (a_store a) _ I eq_refl) as Hm.
    destruct (update os _ _ _ _ (a_store a)) as [r w]. exact Hm.
Qed.

Lemma route_post_moves path body client (a : App World) :
  ends_in (moves (a_store a)) (route_post (api := log_store os env fuel) os env path body client a).
Proof.
  unfold route_post. case_if; [apply moves_refl|]. destruct (jparse body) as [p|]; [|apply moves_refl].
  destruct (app_allow_store (api := log_store os env fuel) os client (post_cost (pathname path) p) a) as (s & Hq & Hs & _).
  cbn [st_sys st_with_sys log_store] in Hq, Hs. destruct (app_allow os client _ a) as [ok a2]. cbn [snd] in Hq.
  destruct ok; cbn [negb].
  - assert (Hm : forall r, ends_in (moves (a_store a2)) r -> ends_in (moves (a_store a)) r).
    { intros r. rewrite Hq. destruct r; simpl; auto; by apply moves_after. }
    case_if; apply Hm; [apply (shorten_one_moves p (count_op OP_SHORTEN a2))|apply (shorten_bulk_moves p (count_op OP_BULK a2))].
  - simpl. by apply (moves_clock _ _ s).
Qed.

Lemma handle_moves m path body token client (a : App World) :
  ends_in (moves (a_store a)) (http m path body token client a).
Proof.
  assert (H : ends_in (moves (a_store a)) (route (api := log_store os env fuel) os env ui_html m path body token client a)).
  { unfold route. set (at1 := app_tick os a).
    assert (Hm : forall r, ends_in (moves (a_store at1)) r -> ends_in (moves (a_store a)) r).
    { intros r. destruct r; simpl; auto; by apply moves_after. }
    repeat case_if; apply Hm; [apply moves_refl|apply route_get_moves|apply route_post_moves|apply route_mut_moves|apply moves_refl]. }
  unfold handle. by destruct (route _ _ _ _ _ _ _ _ a).
Qed.

(** The invariant of the log store holds across a request. *)
Lemma moves_durable w w' S L Bf : no_io_error (os_write os) -> durable w S L Bf -> moves w w' ->
  same_config (inner w') (inner w) /\ exists S' L' Bf', durable w' S' L' Bf'.
Proof.
  intros Hw D. assert (Hd : forall s, fs s = fs (sys w) -> durable (with_sys s w) S L Bf)
    by (intros s Hs; exact (durable_ext w (with_sys s w) S L Bf eq_refl Hs D)).
  intros [s Hs ->|o s Hs Ho H].
  - split; [done|]. eauto.
  - split; [|exact (step_durable os env fuel o _ w' S L Bf Hw Ho (Hd s Hs) H)]. by apply (step_config os env fuel o (with_sys s w) w' S L Bf (Hd s Hs)).
Qed.

(** Requests served one after the other; [None] when one of them ends the
    process or finds no free code. *)
Record Request := mkReq { rq_method : bytes; rq_path : bytes; rq_body : bytes; rq_admin : bytes; rq_client : bytes }.
Fixpoint serve (rs : list Request) (a : App World) : option (list Reply * App World) :=
  match rs with
  | [] => Some ([], a)
  | q :: rs =>
      match http (rq_method q) (rq_path q) (rq_body q) (rq_admin q) (rq_client q) a with
      | Replied r a1 => match serve rs a1 with Some (l, a2) => Some (r :: l, a2) | None => None end
      | _ => None
      end
  end.

Lemma serve_durable rs : forall a out a1 S L Bf,
  no_io_error (os_write os) -> durable (a_store a) S L Bf -> serve rs a = Some (out, a1) ->
  same_config (inner (a_store a1)) (inner (a_store a)) /\ exists S' L' Bf', durable (a_store a1) S' L' Bf'.
Proof.
  induction rs as [|q rs IH]; intros a out a1 S L Bf Hw D; simpl; [intros [= <- <-]; split; eauto; done|].
  pose proof (handle_moves (rq_method q) (rq_path q) (rq_body q) (rq_admin q) (rq_client q) a) as Hm.
  destruct (http _ _ _ _ _ a) as [r a2| |]; [|done..]. cbn [ends_in] in Hm.
  destruct (moves_durable _ _ _ _ _ Hw D Hm) as (Hc & S1 & L1 & B1 & D1).
  destruct (serve rs a2) as [[l a3]|] eqn:E; [|done]. intros [= <- <-].
  destruct (IH _ _ _ _ _ _ Hw D1 E) as (Hc2 & HD). split; [by etrans|done].
Qed.

End AppDurable.

(** C10 What the server accepted survives a restart: open a directory, serve
    any requests (valid or not, of any method and path), flush, and open the
    directory again: every link of the running server is there again with
    the same url, creation, expiry and owner, and no other. *)
Theorem requests_survive_restart {std : StdImpl} {cast : CastImpl} os env fuel ui d inst s seed links seed' links'
    S L w0 m rl n rs out a1 :
  no_io_error (os_write os) -> no_io_error (os_read os) -> dir_ok d inst s S L [] ->
  open_store os d inst s seed links = inl w0 ->
  serve os env fuel ui rs (mkApp w0 m rl n) = Some (out, a1) ->
  exists w2, open_store os d inst (sys (flush_store os (a_store a1))) seed' links' = inl w2 /\
    forall c, row_of <$> find (inner w2) c = row_of <$> find (inner (a_store a1)) c.
Proof.
  intros Hw Hr Hd Ho Hs. pose proof (open_store_full os d inst s seed links S L w0 Hr Hd Ho) as D0.
  destruct (serve_durable os env fuel ui rs (mkApp w0 m rl n) _ _ S L [] Hw D0 Hs) as ((I1 & _ & I3 & _) & S' & L' & B' & D1).
  destruct (open_store_ok os d inst s seed links S L [] Hr Hd) as (w & Hw0 & _ & J1 & J2 & _).
  rewrite Ho in Hw0. injection Hw0 as <-.
  destruct (reopen_table os _ S' L' B' seed' links' Hw Hr D1) as (w2 & H1 & H2 & H3).
  cbn [a_store] in *. rewrite I1, I3, J1, J2 in H1. exists w2. split; [done|]. intros c.
  rewrite <- !data_find, <- !lookup_fmap by (apply D1 || done). exact (f_equal (fun t => t !! c) H2).
Qed.

#[local] Existing Instance demo_cast.
#[local] Existing Instance RefStd.
Definition demo_requests : list Request :=
  [mkReq (B "POST") (B "/api/shorten") (Q "{'url':'https://a.b/c','alias':'x'}") [] (B "10.0.0.1");
   mkReq (B "GET") (B "/x") [] [] (B "10.0.0.2")].
Definition demo_served : option (list Reply * App World) :=
  serve RefOs Env0 1 [] demo_requests (mkApp demo_open Metrics0 (reload Env0) 0).
Definition demo_end : App World :=
  match demo_served with Some (_, a) => a | None => mkApp demo_open Metrics0 (reload Env0) 0 end.
Lemma demo_served_eq : demo_served = Some ([created_reply (B "x"); redirect (B "https://a.b/c")], demo_end).
Proof. vm_compute. reflexivity. Qed.

Lemma requests_survive_restart_witness :
  exists w2, open_store RefOs (B "data") 0 (sys (flush_store RefOs (a_store demo_end))) 2 0 = inl w2 /\
    r_u <$> (row_of <$> find (inner w2) (B "x")) = Some (B "https://a.b/c").
Proof.
  destruct (requests_survive_restart RefOs Env0 1 [] (B "data") 0 RefSys 1 0 2 0 [] [] demo_open Metrics0 (reload Env0) 0
    demo_requests _ demo_end RefOs_write RefOs_read empty_dir_ok demo_open_eq demo_served_eq) as (w2 & H1 & H2).
  exists w2. split; [exact H1|]. rewrite H2. vm_compute. reflexivity.
Defined.
