(* ===== verification/Server.v ===== *)
(** * server.cpp: HTTP over a connection

    The request parser, the reply writer, the connection thread of
    [serve_mini] and the events of one connection of [serve_kq]. What the
    kernel answers is data: the results of [recv] are the events a
    connection is run on, the results of [send] a schedule, the address of
    the peer an argument. A call that is interrupted ([EINTR]) is repeated by
    the code and is left out of both. *)

From S2P Require Import Prelude CLib Common Float Json Aof Metrics RateLimit Store App.

Definition SIZE_MAX : Z := 2 ^ 64 - 1.

(** ** Replies *)
Definition status_line (st : Z) : bytes :=
  B (if st =? 200 then "HTTP/1.1 200 OK"
     else if st =? 201 then "HTTP/1.1 201 Created"
     else if st =? 204 then "HTTP/1.1 204 No Content"
     else if st =? 302 then "HTTP/1.1 302 Found"
     else if st =? 400 then "HTTP/1.1 400 Bad Request"
     else if st =? 404 then "HTTP/1.1 404 Not Found"
     else if st =? 409 then "HTTP/1.1 409 Conflict"
     else if st =? 413 then "HTTP/1.1 413 Payload Too Large"
     else if st =? 429 then "HTTP/1.1 429 Too Many Requests"
     else if st =? 503 then "HTTP/1.1 503 Service Unavailable"
     else "HTTP/1.1 500 Internal Server Error") ++ CRLF.

Definition cors_block (env : Env) : bytes :=
  B "access-control-allow-origin: " ++ cors_origin env ++ CRLF ++
  B "access-control-allow-methods: GET,POST,PATCH,DELETE,OPTIONS" ++ CRLF ++
  B "access-control-allow-headers: content-type,x-admin-token" ++ CRLF ++
  B "access-control-max-age: 86400" ++ CRLF.

Definition write_reply (env : Env) (out : bytes) (r : Reply) : bytes :=
  let out := out ++ status_line (rp_status r) ++ cors_block env in
  match rp_location r with
  | Some l => out ++ B "location: " ++ l ++ CRLF ++ B "content-length: 0" ++ CRLF ++ CRLF
  | None =>
      let out := out ++ B "content-type: " ++ default (B "application/json") (rp_ctype r) ++ CRLF in
      itoa (out ++ B "content-length: ") (Z.of_nat (length (rp_body r))) ++ CRLF ++ CRLF ++ rp_body r
  end.

Definition too_large : Reply := mkReply 413 None (Q "{'error':'body too large'}") None.

(** ** Requests *)

(** [struct ReqInfo]; [ri_total] is 0 for an incomplete and [SIZE_MAX] for a
    malformed request. *)
Record ReqInfo := mkRi {
  ri_total : Z; ri_method : bytes; ri_path : bytes; ri_admin : bytes; ri_xff : bytes;
  ri_body_off : Z; ri_body_len : Z; ri_alive : bool }.

Definition ReqInfo0 (total : Z) : ReqInfo := mkRi total [] [] [] [] 0 0 true.

Definition trust_proxy (env : Env) : bool := match env (B "TRUST_PROXY") with Some _ => true | None => false end.

(** [client_ip]: the first hop of X-Forwarded-For, without its blanks. *)
Definition client_ip (env : Env) (xff peer : bytes) : bytes :=
  if trust_proxy env && negb (xff =s []) then
    let first := fst (span (fun c => c ≠c ",") xff) in
    let first := drop_while_end (fun c => c =c SP) (drop_while (fun c => c =c SP) first) in
    if first =s [] then peer else first
  else peer.

(** The header fields [parse_req] looks at. *)
Record Heads := mkHeads { hd_cl : Z; hd_alive : bool; hd_admin : bytes; hd_xff : bytes }.

Definition is_blank (c : ascii) : bool := (c =c SP) || (c =c TAB).

(** One header line: [k: v], the blanks around the value dropped. A negative
    content-length wraps to a huge [size_t]. *)
Definition header (line : bytes) (h : Heads) : Heads :=
  match span (fun c => c ≠c ":") line with
  | (_, []) => h
  | (k, _ :: v) =>
      let v := drop_while_end is_blank (drop_while is_blank v) in
      if (k =s B "content-length") || (k =s B "Content-Length")
      then mkHeads (u64 (strtoll v)) (hd_alive h) (hd_admin h) (hd_xff h)
      else if (k =s B "connection") || (k =s B "Connection")
      then mkHeads (hd_cl h) (negb ((v =s B "close") || (v =s B "Close"))) (hd_admin h) (hd_xff h)
      else if (k =s B "x-admin-token") || (k =s B "X-Admin-Token")
      then mkHeads (hd_cl h) (hd_alive h) v (hd_xff h)
      else if (k =s B "x-forwarded-for") || (k =s B "X-Forwarded-For")
      then mkHeads (hd_cl h) (hd_alive h) (hd_admin h) v
      else h
  end.

(** The header scan over what follows the request line; a turn takes a line
    and its CRLF. *)
Fixpoint headers (n : nat) (s : bytes) (h : Heads) : Heads :=
  match n with
  | O => h
  | S n' =>
      match s with
      | [] => h
      | _ =>
          match find_sub CRLF s with
          | None => header s h
          | Some eol => headers n' (drop (eol + 2) s) (header (take eol s) h)
          end
      end
  end.

(** [needs_body]. *)
Definition needs_body (method : bytes) : bool := (method =s B "POST") || (method =s B "PATCH").

(** The request line and the headers of [head]; [None] is malformed. *)
Definition parse_head (head : bytes) : option (bytes * bytes * Heads) :=
  match find_char SP head with
  | None => None
  | Some sp1 =>
      let after := drop (sp1 + 1) head in
      match find_char SP after with
      | None => None
      | Some sp2 =>
          let rest := drop (sp2 + 1) after in
          let '(alive, hs) :=
            match find_sub CRLF rest with
            | None => (false, [])
            | Some crlf => (take crlf rest =s B "HTTP/1.1", drop (crlf + 2) rest)
            end in
          Some (take sp1 head, take sp2 after, headers (length hs) hs (mkHeads 0 alive [] []))
      end
  end.

Definition CRLF2 : bytes := CRLF ++ CRLF.

Definition parse_req (buf : bytes) (pos : nat) : ReqInfo :=
  let rest := drop pos buf in
  match find_sub CRLF2 rest with
  | None => ReqInfo0 0
  | Some he =>
      match parse_head (take he rest) with
      | None => ReqInfo0 SIZE_MAX
      | Some (method, path, h) =>
          let body_len := if needs_body method then hd_cl h else 0 in
          let total := u64 (Z.of_nat he + 4 + body_len) in
          mkRi (if Z.of_nat (length buf) - Z.of_nat pos <? total then 0 else total)
            method path (hd_admin h) (hd_xff h) (Z.of_nat pos + Z.of_nat he + 4) body_len (hd_alive h)
      end
  end.

Definition body_limit (path : bytes) : Z :=
  if pathname path =s B "/api/shorten/bulk" then MAX_BULK_BODY else MAX_BODY.

Section Server.
Context {W : Type} {api : StoreApi W} {cast : CastImpl}.
Context (os : Os) (env : Env) (ui_html : bytes) (peer : bytes).

(** ** The request loop

    The inner [for (;;)] both servers share: parse, check the size, handle,
    write the reply, until something stops it. *)
Inductive Stop :=
| Incomplete  (* more bytes are needed *)
| Malformed
| TooLarge    (* the 413 is written *)
| Closing     (* the client asked to close *)
| Crashed     (* an exception leaves [handle] *)
| Stuck       (* no free code was found *)
| NoFuel.

Record Run := mkRun { r_stop : Stop; r_parsed : nat; r_out : bytes; r_app : App W }.

Definition request_body (ri : ReqInfo) (buf : bytes) : bytes :=
  if needs_body (ri_method ri)
  then take (Z.to_nat (ri_body_len ri)) (drop (Z.to_nat (ri_body_off ri)) buf) else [].

Fixpoint process (n : nat) (buf : bytes) (parsed : nat) (out : bytes) (a : App W) : Run :=
  match n with
  | O => mkRun NoFuel parsed out a
  | S n' =>
      let ri := parse_req buf parsed in
      if ri_total ri =? 0 then mkRun Incomplete parsed out a
      else if ri_total ri =? SIZE_MAX then mkRun Malformed parsed out a
      else if needs_body (ri_method ri) && (body_limit (ri_path ri) <? ri_body_len ri)
      then mkRun TooLarge parsed (write_reply env out too_large) a
      else
        match handle os env ui_html (ri_method ri) (ri_path ri) (request_body ri buf) (ri_admin ri)
                (client_ip env (ri_xff ri) peer) a with
        | Thrown a => mkRun Crashed parsed out a
        | Diverged => mkRun Stuck parsed out a
        | Replied r a =>
            let out := write_reply env out r in
            let parsed := (parsed + Z.to_nat (ri_total ri))%nat in
            if ri_alive ri then process n' buf parsed out a else mkRun Closing parsed out a
        end
  end.

(** A turn consumes at least the four bytes that end the head. *)
Definition process_buf (buf out : bytes) (a : App W) : Run := process (S (length buf)) buf 0 out a.

(** ** [conn_loop] *)

(** What [recv] returned: bytes, none for the end of the stream, or an
    error. *)
Inductive Recv := Data (bs : bytes) | RecvError.

(** [ct_dead]: the process was terminated. *)
Inductive ConnState := Open | Closed | Dead.
Record Conn := mkConn { c_buf : bytes; c_sent : bytes; c_state : ConnState; c_send : nat }.
Definition Conn0 : Conn := mkConn [] [] Open 0.

Context (send : nat -> Z).

(** The loop that sends [out]: all of it, or an error closes. *)
Definition send_all (buf out : bytes) (c : Conn) : Conn :=
  let '(n, k) := xfer send (c_send c) (length out) in
  mkConn buf (c_sent c ++ take n out) (if bool_decide (n = length out) then Open else Closed) k.

(** One call of [send], whatever it moves. *)
Definition send_once (out : bytes) (c : Conn) : Conn :=
  mkConn (c_buf c) (c_sent c ++ take (Z.to_nat (send (c_send c))) out) Closed (S (c_send c)).

Definition conn_close (c : Conn) : Conn := mkConn (c_buf c) (c_sent c) Closed (c_send c).

(** One turn of the outer loop. *)
Definition conn_step (ev : Recv) (ca : Conn * App W) : Conn * App W :=
  let '(c, a) := ca in
  match c_state c, ev with
  | Closed, _ | Dead, _ => ca
  | Open, RecvError => (conn_close c, a)
  | Open, Data bs =>
      let buf := c_buf c ++ bs in
      if (bs =s []) && (buf =s []) then (conn_close c, a)
      else
        let r := process_buf buf [] a in
        match r_stop r with
        | Malformed => (conn_close c, r_app r)
        | TooLarge => (send_once (r_out r) c, r_app r)
        | Crashed | Stuck | NoFuel => (mkConn buf (c_sent c) Dead (c_send c), r_app r)
        | Incomplete | Closing =>
            let c := send_all (drop (r_parsed r) buf) (r_out r) c in
            let closing := match r_stop r with Closing => true | _ => false end in
            ((if closing || (bs =s []) then conn_close c else c), r_app r)
        end
  end.

Definition conn_loop (evs : list Recv) (ca : Conn * App W) : Conn * App W := fold_left (fun ca ev => conn_step ev ca) evs ca.

(** ** One connection of [serve_kq] *)
Record KqConn := mkKq {
  rbuf : bytes; wbuf : bytes; close_after : bool; want_write : bool;
  kq_sent : bytes; kq_state : ConnState; kq_send : nat }.
Definition KqConn0 : KqConn := mkKq [] [] false false [] Open 0.

(** An event of the queue: the filter, the EOF or error flag, and, for a
    read, the bytes drained and whether the stream ended. *)
Inductive KqEvent := KqRead (flag : bool) (bs : bytes) (eof : bool) | KqWrite (flag : bool).
Definition kq_flag (ev : KqEvent) : bool := match ev with KqRead f _ _ => f | KqWrite f => f end.
Definition kq_is_write (ev : KqEvent) : bool := match ev with KqWrite _ => true | _ => false end.

Definition kq_close (c : KqConn) : KqConn :=
  mkKq (rbuf c) (wbuf c) (close_after c) (want_write c) (kq_sent c) Closed (kq_send c).

Definition kq_read (bs : bytes) (eof : bool) (c : KqConn) (a : App W) : KqConn * App W :=
  let buf := rbuf c ++ bs in
  let ca := close_after c || eof in
  let r := process_buf buf (wbuf c) a in
  let w := match r_stop r with Malformed => [] | _ => r_out r end in
  let ca := match r_stop r with Malformed | TooLarge | Closing => true | _ => ca end in
  let st := match r_stop r with Crashed | Stuck | NoFuel => Dead | _ => kq_state c end in
  (mkKq (drop (r_parsed r) buf) w ca (want_write c || negb (w =s [])) (kq_sent c) st (kq_send c), r_app r).

(** [send] moves bytes, would block or was interrupted (0), or fails (below
    0, which closes at once). *)
Definition kq_write (c : KqConn) : KqConn :=
  let n := send (kq_send c) in
  if n <? 0 then mkKq (rbuf c) (wbuf c) (close_after c) (want_write c) (kq_sent c) Closed (S (kq_send c))
  else
    let k := Nat.min (Z.to_nat n) (length (wbuf c)) in
    let w := drop k (wbuf c) in
    mkKq (rbuf c) w (close_after c) (if w =s [] then false else want_write c)
      (kq_sent c ++ take k (wbuf c)) (kq_state c) (S (kq_send c)).

(** The last test of an event. *)
Definition kq_finish (c : KqConn) : KqConn :=
  match kq_state c with
  | Open => if close_after c && (wbuf c =s []) then kq_close c else c
  | _ => c
  end.

Definition kq_step (ev : KqEvent) (ca : KqConn * App W) : KqConn * App W :=
  let '(c, a) := ca in
  match kq_state c with
  | Closed | Dead => ca
  | Open =>
      if kq_flag ev && (kq_is_write ev || (wbuf c =s [])) then (kq_close c, a)
      else
        match ev with
        | KqRead _ bs eof => let '(c, a) := kq_read bs eof c a in (kq_finish c, a)
        | KqWrite _ => (kq_finish (if wbuf c =s [] then c else kq_write c), a)
        end
  end.

Definition serve_kq (evs : list KqEvent) (ca : KqConn * App W) : KqConn * App W :=
  fold_left (fun ca ev => kq_step ev ca) evs ca.

End Server.
