(* ===== verification/ServerFacts.v ===== *)
(** * Facts about requests on a stream of bytes

    A complete request is recognised whatever follows it, and the request
    loop of a longer stream continues the loop of its beginning. *)

From S2P Require Import Prelude CLib Common Float Json Aof Metrics RateLimit Store App Server.

(** A character that does not occur in a literal. *)
Ltac not_in := by apply (bool_decide_unpack (_ ∉ _)).

(** ** Requests *)

(** The same request seen from another position. *)
Definition ri_shift (n : Z) (ri : ReqInfo) : ReqInfo :=
  mkRi (ri_total ri) (ri_method ri) (ri_path ri) (ri_admin ri) (ri_xff ri) (n + ri_body_off ri)
    (ri_body_len ri) (ri_alive ri).

Lemma parse_req_shift buf pos : (pos <= length buf)%nat ->
  ri_total (parse_req buf pos) ≠ 0 -> ri_total (parse_req buf pos) ≠ SIZE_MAX ->
  parse_req buf pos = ri_shift (Z.of_nat pos) (parse_req (drop pos buf) 0).
Proof.
  intros Hp. unfold parse_req. rewrite drop_0. destruct (find_sub CRLF2 (drop pos buf)) as [he|]; [|done].
  destruct (parse_head _) as [[[m p] h]|]; [|done]. intros _ _. rewrite length_drop. unfold ri_shift.
  cbn [ri_total ri_method ri_path ri_admin ri_xff ri_body_off ri_body_len ri_alive].
  replace (Z.of_nat (length buf - pos) - Z.of_nat 0) with (Z.of_nat (length buf) - Z.of_nat pos) by lia.
  f_equal. lia.
Qed.

Lemma parse_req_total buf pos : (pos <= length buf)%nat -> ri_total (parse_req buf pos) = ri_total (parse_req (drop pos buf) 0).
Proof.
  intros Hp. unfold parse_req. rewrite drop_0. destruct (find_sub CRLF2 (drop pos buf)) as [he|]; [|done].
  destruct (parse_head _) as [[[m p] h]|]; [|done]. rewrite length_drop. cbn [ri_total].
  replace (Z.of_nat (length buf - pos) - Z.of_nat 0) with (Z.of_nat (length buf) - Z.of_nat pos) by lia. done.
Qed.

(** A complete request lies within the buffer and takes at least a byte. *)
Lemma parse_req_within s :
  ri_total (parse_req s 0) ≠ 0 -> ri_total (parse_req s 0) ≠ SIZE_MAX ->
  (0 < Z.to_nat (ri_total (parse_req s 0)) <= length s)%nat.
Proof.
  unfold parse_req. rewrite drop_0. destruct (find_sub CRLF2 s) as [he|]; [|done].
  destruct (parse_head _) as [[[m p] h]|]; [|done]. cbn [ri_total]. intros H0 _. revert H0.
  set (t := u64 _). pose proof (u64_range (Z.of_nat he + 4 + (if needs_body m then hd_cl h else 0))) as Ht.
  fold t in Ht. unfold in_u64 in Ht. destruct (_ <? t) eqn:E; [done|]. bool_facts. lia.
Qed.

(** What follows a complete or malformed request does not change it. *)
Lemma parse_req_app s x : ri_total (parse_req s 0) ≠ 0 -> parse_req (s ++ x) 0 = parse_req s 0.
Proof.
  unfold parse_req. rewrite !drop_0. destruct (find_sub CRLF2 s) as [he|] eqn:E; [|done].
  rewrite (find_sub_app _ _ _ _ E). pose proof (find_sub_bound _ _ _ E) as Hb.
  rewrite take_app_le by lia. destruct (parse_head _) as [[[m p] h]|]; [|done]. cbn [ri_total].
  destruct (_ <? u64 _) eqn:E2; [done|]. intros _. bool_facts. rewrite length_app.
  rewrite (proj2 (Z.ltb_ge _ _)) by lia. done.
Qed.

Lemma parse_req_off s pos : 0 <= ri_body_off (parse_req s pos).
Proof. unfold parse_req. repeat case_match; simpl; lia. Qed.

(** A content-length is a [size_t]. *)
Lemma header_cl line h : 0 <= hd_cl h -> 0 <= hd_cl (header line h).
Proof.
  intros H. unfold header. destruct (span _ line) as [k [|c v]]; [done|].
  pose proof (u64_range (strtoll (drop_while_end is_blank (drop_while is_blank v)))) as Hu. unfold in_u64 in Hu.
  repeat case_if; simpl; lia.
Qed.

Lemma headers_cl n : forall s h, 0 <= hd_cl h -> 0 <= hd_cl (headers n s h).
Proof.
  induction n as [|n IH]; intros s h H; cbn [headers]; [done|]. destruct s as [|c s]; [done|].
  destruct (find_sub CRLF (c :: s)); [|by apply header_cl]. by apply IH, header_cl.
Qed.

Lemma parse_head_cl head m p h : parse_head head = Some (m, p, h) -> 0 <= hd_cl h.
Proof.
  unfold parse_head. destruct (find_char SP head); [|done]. destruct (find_char SP _); [|done].
  set (q := match find_sub CRLF _ with None => _ | Some _ => _ end). destruct q as [alive hs].
  intros [= _ _ <-]. by apply headers_cl.
Qed.

(** The body of a request that is not too large lies within the buffer. *)
Definition len_ok (s : bytes) : Prop := Z.of_nat (length s) < 2 ^ 63.

Lemma body_limit_range path : 0 <= body_limit path <= 2 ^ 20.
Proof. unfold body_limit, MAX_BULK_BODY, MAX_BODY. case_if; lia. Qed.

Lemma parse_req_body s : len_ok s ->
  let ri := parse_req s 0 in
  ri_total ri ≠ 0 -> ri_total ri ≠ SIZE_MAX -> needs_body (ri_method ri) = true ->
  ri_body_len ri <= body_limit (ri_path ri) ->
  0 <= ri_body_len ri /\ ri_body_off ri + ri_body_len ri = ri_total ri /\ ri_total ri <= Z.of_nat (length s).
Proof.
  unfold len_ok, parse_req. rewrite drop_0. destruct (find_sub CRLF2 s) as [he|] eqn:E; [|done].
  pose proof (find_sub_bound _ _ _ E) as Hb. change (length CRLF2) with 4%nat in Hb.
  destruct (parse_head _) as [[[m p] h]|] eqn:Eh; [|done].
  cbn [ri_total ri_method ri_path ri_body_off ri_body_len]. cbv zeta. intros Hl H0 _ Hn. rewrite Hn in *.
  pose proof (body_limit_range p). intros Hcl.
  assert (0 <= hd_cl h) by (eapply parse_head_cl; exact Eh).
  destruct (_ <? u64 _) eqn:E2; [done|]. bool_facts.
  rewrite u64_id in * by (unfold in_u64; lia). lia.
Qed.

Lemma request_body_app s x : len_ok s ->
  let ri := parse_req s 0 in
  ri_total ri ≠ 0 -> ri_total ri ≠ SIZE_MAX ->
  needs_body (ri_method ri) && (body_limit (ri_path ri) <? ri_body_len ri) = false ->
  request_body ri (s ++ x) = request_body ri s.
Proof.
  intros Hl ri H0 H1 Hn. unfold request_body. destruct (needs_body (ri_method ri)) eqn:E; [|done].
  cbn [andb] in Hn. bool_facts. destruct (parse_req_body s Hl H0 H1 E Hn) as (Hb & Ho & Ht). fold ri in Hb, Ho, Ht.
  pose proof (parse_req_off s 0) as Hoff. fold ri in Hoff.
  rewrite drop_app_le by lia. rewrite take_app_le; [done|]. rewrite length_drop. lia.
Qed.

Lemma parse_req_nil : ri_total (parse_req [] 0) = 0.
Proof. reflexivity. Qed.

(** ** The request loop *)
Section Loop.
Context {W : Type} {api : StoreApi W} {cast : CastImpl}.
Context (os : Os) (env : Env) (ui_html : bytes) (peer : bytes).
Abbreviation process := (process os env ui_html peer).
Abbreviation process_buf := (process_buf os env ui_html peer).

Lemma write_reply_app out r : write_reply env out r = out ++ write_reply env [] r.
Proof.
  unfold write_reply, itoa. destruct (rp_location r); cbn [app]; by rewrite <- !app_assoc.
Qed.

Definition run_shift (n : nat) (r : Run) : Run (W := W) :=
  mkRun (r_stop r) (n + r_parsed r) (r_out r) (r_app r).

Lemma run_shift_0 r : run_shift 0 r = r.
Proof. by destruct r. Qed.
Lemma run_shift_add m n r : run_shift m (run_shift n r) = run_shift (m + n) r.
Proof. unfold run_shift. simpl. f_equal. lia. Qed.

Lemma request_body_shift buf pos ri : 0 <= ri_body_off ri ->
  request_body (ri_shift (Z.of_nat pos) ri) buf = request_body ri (drop pos buf).
Proof.
  intros H. unfold request_body, ri_shift. cbn [ri_method ri_body_len ri_body_off].
  rewrite drop_drop. by replace (Z.to_nat (Z.of_nat pos + ri_body_off ri)) with (pos + Z.to_nat (ri_body_off ri))%nat by lia.
Qed.

(** The loop at a position is the loop on the rest of the buffer. *)
Lemma process_shift n : forall buf pos out a, (pos <= length buf)%nat ->
  process n buf pos out a = run_shift pos (process n (drop pos buf) 0 out a).
Proof.
  induction n as [|n IH]; intros buf pos out a Hp; [unfold run_shift; cbn; f_equal; lia|].
  cbn [Server.process]. pose proof (parse_req_total buf pos Hp) as Ht. rewrite <- Ht.
  destruct (ri_total (parse_req buf pos) =? 0) eqn:E0; [unfold run_shift; simpl; f_equal; lia|].
  destruct (ri_total (parse_req buf pos) =? SIZE_MAX) eqn:E1; [unfold run_shift; simpl; f_equal; lia|].
  bool_facts. rewrite (parse_req_shift buf pos Hp E0 E1).
  pose proof (parse_req_within (drop pos buf)) as Hw. rewrite <- Ht in Hw. specialize (Hw E0 E1).
  set (ri := parse_req (drop pos buf) 0) in *. rewrite request_body_shift by apply parse_req_off.
  cbn [ri_shift ri_method ri_path ri_body_len ri_admin ri_xff ri_total ri_alive].
  destruct (needs_body (ri_method ri) && _); [unfold run_shift; simpl; f_equal; lia|].
  destruct (handle _ _ _ _ _ _ _ _ a) as [r a'|a'|]; try (unfold run_shift; simpl; f_equal; lia).
  rewrite Ht in Hw. destruct (ri_alive ri); [|unfold run_shift; simpl; f_equal; lia].
  rewrite length_drop in Hw. rewrite (IH buf) by lia. rewrite (IH (drop pos buf)) by (rewrite length_drop; lia).
  by rewrite run_shift_add, drop_drop.
Qed.

(** Fuel above the length of the buffer is never used up. *)
Lemma process_fuel n1 : forall n2 s out a, (length s < n1)%nat -> (length s < n2)%nat ->
  process n1 s 0 out a = process n2 s 0 out a /\ r_stop (process n1 s 0 out a) ≠ NoFuel.
Proof.
  induction n1 as [|n1 IH]; intros [|n2] s out a H1 H2; try lia. cbn [Server.process].
  destruct (ri_total (parse_req s 0) =? 0) eqn:E0; [done|].
  destruct (ri_total (parse_req s 0) =? SIZE_MAX) eqn:E1; [done|]. bool_facts.
  pose proof (parse_req_within s E0 E1) as Hw. destruct (needs_body _ && _); [done|].
  destruct (handle _ _ _ _ _ _ _ _ a) as [r a'|a'|]; try done. destruct (ri_alive _); [|done].
  rewrite !(process_shift _ s) by lia.
  destruct (IH n2 (drop (0 + Z.to_nat (ri_total (parse_req s 0))) s) (write_reply env out r) a') as [-> Hn];
    [rewrite length_drop; lia..|]. done.
Qed.

(** The loop unfolded once, on the rest of the stream. *)
Lemma process_buf_step s out a :
  process_buf s out a =
    let ri := parse_req s 0 in
    if ri_total ri =? 0 then mkRun Incomplete 0 out a
    else if ri_total ri =? SIZE_MAX then mkRun Malformed 0 out a
    else if needs_body (ri_method ri) && (body_limit (ri_path ri) <? ri_body_len ri)
    then mkRun TooLarge 0 (write_reply env out too_large) a
    else
      match handle os env ui_html (ri_method ri) (ri_path ri) (request_body ri s) (ri_admin ri)
              (client_ip env (ri_xff ri) peer) a with
      | Thrown a => mkRun Crashed 0 out a
      | Diverged => mkRun Stuck 0 out a
      | Replied r a =>
          let t := Z.to_nat (ri_total ri) in
          if ri_alive ri then run_shift t (process_buf (drop t s) (write_reply env out r) a)
          else mkRun Closing t (write_reply env out r) a
      end.
Proof.
  unfold process_buf at 1. cbn [Server.process]. cbv zeta.
  destruct (ri_total (parse_req s 0) =? 0) eqn:E0; [done|].
  destruct (ri_total (parse_req s 0) =? SIZE_MAX) eqn:E1; [done|]. bool_facts.
  pose proof (parse_req_within s E0 E1) as Hw. destruct (needs_body _ && _); [done|].
  destruct (handle _ _ _ _ _ _ _ _ a) as [r a'|a'|]; try done. destruct (ri_alive _); [|done].
  rewrite process_shift by lia. unfold process_buf. cbn [Nat.add]. f_equal.
  apply process_fuel; rewrite length_drop; lia.
Qed.

(** The output so far is only extended. *)
Lemma process_out n : forall buf pos out a,
  process n buf pos out a =
    let r := process n buf pos [] a in mkRun (r_stop r) (r_parsed r) (out ++ r_out r) (r_app r).
Proof.
  induction n as [|n IH]; intros buf pos out a; cbn [Server.process]; cbv zeta; [simpl; by rewrite app_nil_r|].
  destruct (_ =? 0); [simpl; by rewrite app_nil_r|]. destruct (_ =? SIZE_MAX); [simpl; by rewrite app_nil_r|].
  destruct (needs_body _ && _); [simpl; by rewrite write_reply_app|].
  destruct (handle _ _ _ _ _ _ _ _ a) as [r a'|a'|]; try (simpl; by rewrite app_nil_r).
  destruct (ri_alive _); [|simpl; by rewrite write_reply_app].
  rewrite (IH buf _ (write_reply env out r)), (IH buf _ (write_reply env [] r)). simpl.
  by rewrite write_reply_app, <- app_assoc.
Qed.

Lemma process_buf_out s out a :
  process_buf s out a =
    let r := process_buf s [] a in mkRun (r_stop r) (r_parsed r) (out ++ r_out r) (r_app r).
Proof. apply process_out. Qed.

(** Only a stop for more bytes depends on what follows: the loop of a longer
    stream takes up where the loop of its beginning stopped. *)
Lemma process_buf_app s x : forall out a, len_ok s ->
  process_buf (s ++ x) out a =
    let r := process_buf s out a in
    match r_stop r with
    | Incomplete => run_shift (r_parsed r) (process_buf (drop (r_parsed r) s ++ x) (r_out r) (r_app r))
    | _ => r
    end.
Proof.
  remember (length s) as n eqn:Hn. assert (Hle : (length s <= n)%nat) by lia. clear Hn.
  revert s Hle. induction n as [|n IH]; intros s Hle out a Hlen; rewrite (process_buf_step s); cbv zeta;
    (destruct (ri_total (parse_req s 0) =? 0) eqn:E0; [simpl; by rewrite run_shift_0, drop_0|]); bool_facts.
  { destruct s; [|simpl in *; lia]. by rewrite parse_req_nil in E0. }
  rewrite (process_buf_step (s ++ x)). cbv zeta. rewrite (parse_req_app s x E0).
  rewrite (proj2 (Z.eqb_neq _ _) E0).
  destruct (ri_total (parse_req s 0) =? SIZE_MAX) eqn:E1; [done|]. bool_facts.
  pose proof (parse_req_within s E0 E1) as Hw. destruct (needs_body _ && _) eqn:El; [done|].
  assert (Hb : request_body (parse_req s 0) (s ++ x) = request_body (parse_req s 0) s).
  { by apply request_body_app. }
  rewrite Hb. destruct (handle _ _ _ _ _ _ _ _ a) as [r a'|a'|]; try done.
  destruct (ri_alive _); [|done].
  rewrite drop_app_le by lia. rewrite IH by (unfold len_ok in *; rewrite length_drop; lia). cbv zeta.
  set (r2 := process_buf (drop _ s) _ _). unfold run_shift at 3 4. cbn [r_stop].
  destruct (r_stop r2); try done. cbn [r_parsed r_out r_app]. by rewrite run_shift_add, drop_drop.
Qed.

(** The loop does not run past the buffer. *)
Lemma process_within n : forall buf pos out a, (pos <= length buf)%nat -> (r_parsed (process n buf pos out a) <= length buf)%nat.
Proof.
  induction n as [|n IH]; intros buf pos out a Hp; cbn [Server.process]; [done|].
  pose proof (parse_req_total buf pos Hp) as Ht. pose proof (parse_req_within (drop pos buf)) as Hw. rewrite <- Ht, length_drop in Hw.
  destruct (_ =? 0) eqn:E0; [done|]. destruct (_ =? SIZE_MAX) eqn:E1; [done|]. bool_facts. specialize (Hw E0 E1).
  destruct (needs_body _ && _); [done|]. destruct (handle _ _ _ _ _ _ _ _ a) as [r a'|a'|]; try done.
  destruct (ri_alive _); [apply IH|cbn [r_parsed]]; lia.
Qed.

End Loop.

(** ** Messages as lines *)

(** A line of a head: not empty, no carriage return. *)
Definition clean_line (l : bytes) : Prop := l ≠ [] /\ CR ∉ l.

Fixpoint join_crlf (ls : list bytes) : bytes :=
  match ls with
  | [] => []
  | [l] => l
  | l :: ls' => l ++ CRLF ++ join_crlf ls'
  end.

Lemma join_crlf_cons l l' ls : join_crlf (l :: l' :: ls) = l ++ CRLF ++ join_crlf (l' :: ls).
Proof. done. Qed.

Lemma join_head l ls : clean_line l -> exists c s, join_crlf (l :: ls) = c :: s /\ c ≠ CR.
Proof.
  intros [Hne Hcr]. destruct l as [|c l]; [done|]. assert (c ≠ CR) by (intros ->; apply Hcr; left).
  destruct ls; eexists _, _; (split; [reflexivity|done]).
Qed.

Lemma starts_crlf_ne c s : c ≠ CR -> starts_with CRLF (c :: s) = false /\ starts_with CRLF2 (c :: s) = false.
Proof.
  intros Hc. split; [change CRLF with (CR :: [LF])|change CRLF2 with (CR :: LF :: CRLF)];
    cbn [starts_with]; by rewrite (eqc_ne CR c).
Qed.

Lemma find_crlf2_line l r : CR ∉ l -> match r with c :: _ => c ≠ CR | [] => False end ->
  find_sub CRLF2 (l ++ CRLF ++ r) = (fun i => length l + 2 + i)%nat <$> find_sub CRLF2 r.
Proof.
  intros Hl Hr. destruct r as [|d r]; [done|]. induction l as [|c l IH].
  - change ([] ++ CRLF ++ d :: r) with (CR :: LF :: d :: r). rewrite find_sub_cons.
    + rewrite find_sub_cons by done. by destruct (find_sub CRLF2 (d :: r)).
    + change (starts_with CRLF2 (CR :: LF :: d :: r)) with (starts_with CRLF (d :: r)). by apply starts_crlf_ne.
  - assert (Hc : c ≠ CR) by (intros ->; apply Hl; left). rewrite <- app_comm_cons.
    rewrite find_sub_cons by apply (starts_crlf_ne c _ Hc). rewrite IH by (intros Hin; apply Hl; by right).
    by destruct (find_sub CRLF2 (d :: r)).
Qed.

(** The head of a message ends where its lines end. *)
Lemma find_head ls body : ls ≠ [] -> Forall clean_line ls ->
  find_sub CRLF2 (join_crlf ls ++ CRLF2 ++ body) = Some (length (join_crlf ls)).
Proof.
  intros Hne Hls. induction Hls as [|l ls Hl Hls IH]; [done|]. destruct ls as [|l' ls].
  - simpl join_crlf. apply (find_sub_first CR [LF; CR; LF]). apply Hl.
  - rewrite join_crlf_cons, <- !app_assoc. rewrite find_crlf2_line; [|apply Hl|].
    + rewrite IH by done. simpl. rewrite !length_app. simpl. f_equal. lia.
    + apply Forall_cons in Hls as [Hl' _]. destruct (join_head l' ls Hl') as (c & s & -> & Hc). done.
Qed.

Lemma find_crlf_line l r : CR ∉ l -> find_sub CRLF (l ++ CRLF ++ r) = Some (length l).
Proof. apply (find_sub_first CR [LF]). Qed.

Lemma find_crlf_none l : CR ∉ l -> find_sub CRLF l = None.
Proof.
  intros H. induction l as [|c l IH]; [done|]. cbn [find_sub].
  rewrite (proj1 (starts_crlf_ne c l ltac:(intros ->; apply H; left))). rewrite IH; [done|].
  intros Hin. apply H. by right.
Qed.

(** The header scan reads the lines in order. *)
Lemma headers_lines ls : forall n h, (length ls <= n)%nat -> Forall clean_line ls ->
  headers n (join_crlf ls) h = fold_left (fun h l => header l h) ls h.
Proof.
  induction ls as [|l ls IH]; intros n h Hn Hls; [by destruct n|]. destruct n as [|n]; [simpl in Hn; lia|].
  apply Forall_cons in Hls as [Hl Hls]. cbn [headers fold_left]. destruct ls as [|l' ls].
  - simpl join_crlf. rewrite find_crlf_none by apply Hl. by destruct Hl, l.
  - destruct (join_head l (l' :: ls) Hl) as (c & s & E & _). rewrite E, <- E. rewrite join_crlf_cons.
    rewrite find_crlf_line by apply Hl. rewrite take_app_length.
    rewrite drop_app_ge by lia. replace (length l + 2 - length l)%nat with 2%nat by lia.
    change (drop 2 (CRLF ++ ?x)) with x. apply IH; [simpl in *; lia|done].
Qed.

Lemma join_length ls : Forall clean_line ls -> (length ls <= length (join_crlf ls))%nat.
Proof.
  intros Hls. induction Hls as [|l ls Hl Hls IH]; [done|]. destruct ls as [|l' ls].
  - simpl. destruct Hl, l; [done|simpl; lia].
  - rewrite join_crlf_cons, !length_app. simpl in *. lia.
Qed.

(** A header as a client writes it. *)
Definition hline (k v : bytes) : bytes := k ++ B ": " ++ v.
Definition trimmed (v : bytes) : Prop := CR ∉ v /\ drop_while_end is_blank (drop_while is_blank v) = v.

Lemma header_hline k v h : ":"%char ∉ k -> trimmed v ->
  header (hline k v) h =
    if (k =s B "content-length") || (k =s B "Content-Length")
    then mkHeads (u64 (strtoll v)) (hd_alive h) (hd_admin h) (hd_xff h)
    else if (k =s B "connection") || (k =s B "Connection")
    then mkHeads (hd_cl h) (negb ((v =s B "close") || (v =s B "Close"))) (hd_admin h) (hd_xff h)
    else if (k =s B "x-admin-token") || (k =s B "X-Admin-Token")
    then mkHeads (hd_cl h) (hd_alive h) v (hd_xff h)
    else if (k =s B "x-forwarded-for") || (k =s B "X-Forwarded-For")
    then mkHeads (hd_cl h) (hd_alive h) (hd_admin h) v
    else h.
Proof.
  intros Hk [_ Hv]. unfold header, hline. change (B ": " ++ v) with (":"%char :: SP :: v).
  rewrite span_stop; [| |done].
  - assert (drop_while is_blank (SP :: v) = drop_while is_blank v) as -> .
    { unfold drop_while. cbn [span]. change (is_blank SP) with true. cbv iota. by destruct (span is_blank v). }
    by rewrite Hv.
  - apply Forall_forall. intros c Hc. apply negb_true_iff, eqc_ne. by intros ->.
Qed.

Lemma hline_clean k v : k ≠ [] -> CR ∉ k -> CR ∉ v -> clean_line (hline k v).
Proof.
  intros Hne Hk Hv. split; [by destruct k|]. unfold hline. rewrite !not_elem_of_app. split_and!; try done.
  apply not_elem_of_cons; split; [done|]. apply not_elem_of_cons; split; [done|]. apply not_elem_of_nil.
Qed.

Lemma header_cl_line v h : trimmed v ->
  header (hline (B "content-length") v) h = mkHeads (u64 (strtoll v)) (hd_alive h) (hd_admin h) (hd_xff h).
Proof. intros Hv. rewrite header_hline by (done || not_in). reflexivity. Qed.
Lemma header_admin_line v h : trimmed v ->
  header (hline (B "x-admin-token") v) h = mkHeads (hd_cl h) (hd_alive h) v (hd_xff h).
Proof. intros Hv. rewrite header_hline by (done || not_in). reflexivity. Qed.
Lemma header_xff_line v h : trimmed v ->
  header (hline (B "x-forwarded-for") v) h = mkHeads (hd_cl h) (hd_alive h) (hd_admin h) v.
Proof. intros Hv. rewrite header_hline by (done || not_in). reflexivity. Qed.

(** ** A request as its lines *)
Definition http11 (m p : bytes) : bytes := m ++ SP :: p ++ B " HTTP/1.1".

Lemma http11_clean m p : CR ∉ m -> CR ∉ p -> clean_line (http11 m p).
Proof.
  intros Hm Hp. split; [by destruct m|]. unfold http11. rewrite !not_elem_of_app, not_elem_of_cons, not_elem_of_app.
  split_and!; try done; not_in.
Qed.

(** The lines of a head are read as they were written. *)
Lemma parse_head_lines m p hs : SP ∉ m -> SP ∉ p -> hs ≠ [] -> Forall clean_line hs ->
  parse_head (join_crlf (http11 m p :: hs)) = Some (m, p, fold_left (fun h l => header l h) hs (mkHeads 0 true [] [])).
Proof.
  intros Hm Hp Hne Hc. destruct hs as [|l ls]; [done|]. rewrite join_crlf_cons. set (J := join_crlf (l :: ls)).
  assert (E : http11 m p ++ CRLF ++ J = m ++ [SP] ++ p ++ [SP] ++ B "HTTP/1.1" ++ CRLF ++ J).
  { unfold http11. rewrite <- !app_assoc, <- app_comm_cons, <- !app_assoc. done. }
  rewrite E. unfold parse_head, find_char. rewrite (find_sub_first SP []) by done.
  rewrite take_app_length. rewrite (drop_app_ge m) by lia. replace (length m + 1 - length m)%nat with 1%nat by lia.
  change (drop 1 ([SP] ++ ?x)) with x. rewrite (find_sub_first SP []) by done. rewrite take_app_length.
  rewrite (drop_app_ge p) by lia. replace (length p + 1 - length p)%nat with 1%nat by lia.
  change (drop 1 ([SP] ++ ?x)) with x. rewrite find_crlf_line by not_in.
  rewrite take_app_length. rewrite (drop_app_ge (B "HTTP/1.1")) by (simpl; lia).
  change (drop _ (CRLF ++ ?x)) with x. change (B "HTTP/1.1" =s B "HTTP/1.1") with true. cbv iota beta zeta.
  unfold J. by rewrite headers_lines by (done || by apply join_length).
Qed.

(** A whole request at the front of a buffer. *)
Lemma parse_req_lines m p hs body rest :
  let h := fold_left (fun h l => header l h) hs (mkHeads 0 true [] []) in
  let s := join_crlf (http11 m p :: hs) ++ CRLF2 ++ body in
  let ri := parse_req (s ++ rest) 0 in
  SP ∉ m -> SP ∉ p -> hs ≠ [] -> Forall clean_line (http11 m p :: hs) ->
  (if needs_body m then hd_cl h = Z.of_nat (length body) else body = []) -> len_ok s ->
  ri_total ri = Z.of_nat (length s) /\ ri_method ri = m /\ ri_path ri = p /\ ri_admin ri = hd_admin h /\ ri_xff ri = hd_xff h /\
  ri_alive ri = hd_alive h /\ ri_body_len ri = Z.of_nat (length body) /\ request_body ri (s ++ rest) = body.
Proof.
  intros h s ri Hm Hp Hne Hc Hb Hl. unfold ri, s, parse_req, len_ok in *. rewrite drop_0, <- !app_assoc. rewrite find_head by done.
  rewrite take_app_length. rewrite parse_head_lines by (done || by apply Forall_cons in Hc as [_ ?]). fold h.
  set (J := join_crlf (http11 m p :: hs)) in *. cbv zeta.
  assert (Hbl : (if needs_body m then hd_cl h else 0) = Z.of_nat (length body)) by (destruct (needs_body m); [done|by subst body]).
  unfold s in Hl. rewrite !length_app in *. change (length CRLF2) with 4%nat in *. rewrite Hbl, u64_id by (unfold in_u64; lia).
  rewrite (proj2 (Z.ltb_ge _ _)) by lia.
  cbn [ri_total ri_method ri_path ri_admin ri_xff ri_alive ri_body_len]. split_and!; try done; [lia|].
  unfold request_body. cbn [ri_method ri_body_len ri_body_off]. destruct (needs_body m); [|done].
  rewrite Nat2Z.id. replace (Z.to_nat _) with (length J + 4)%nat by lia.
  rewrite app_assoc, drop_app_ge by (rewrite length_app; simpl; lia). rewrite length_app. change (length CRLF2) with 4%nat.
  by rewrite Nat.sub_diag, drop_0, take_app_length.
Qed.
