(* ===== verification/ServerClaims.v ===== *)
(** * What the servers promise

    Requests are understood as they were sent, replies can be read back, and
    how the network cuts the stream does not matter, in the thread of a
    connection and in the event loop. *)

From S2P Require Import Prelude CLib Common Codec Float Json Aof Metrics RateLimit Store StoreFacts StoreSpec StoreClaims App AppFacts AppClaims Server ServerFacts.

(** ** Requests *)

(** A request as a client sends it. *)
Record Sent := mkSent {
  sn_method : bytes; sn_path : bytes; sn_extra : list bytes; sn_token : bytes; sn_xff : bytes; sn_body : bytes }.

Definition sent_lines (q : Sent) : list bytes :=
  (sn_method q ++ SP :: sn_path q ++ B " HTTP/1.1") :: sn_extra q ++
  [hline (B "content-length") (to_string (Z.of_nat (length (sn_body q))));
   hline (B "x-admin-token") (sn_token q); hline (B "x-forwarded-for") (sn_xff q)].
Definition sent_bytes (q : Sent) : bytes := join_crlf (sent_lines q) ++ CRLF2 ++ sn_body q.

(** No blank or line end in the method and the path; no header but those the
    server knows changes what it reads; a body only where one is read. *)
Record sent_ok (q : Sent) : Prop := {
  so_method : SP ∉ sn_method q /\ CR ∉ sn_method q;
  so_path : SP ∉ sn_path q /\ CR ∉ sn_path q;
  so_extra : Forall (fun l => clean_line l /\ forall h, header l h = h) (sn_extra q);
  so_token : trimmed (sn_token q);
  so_xff : trimmed (sn_xff q);
  so_body : needs_body (sn_method q) = true \/ sn_body q = [];
  so_length : Z.of_nat (length (sent_bytes q)) < 2 ^ 63
}.

Lemma to_string_trimmed z : trimmed (to_string z).
Proof.
  pose proof (to_string_chars z) as H. split.
  - intros Hin. rewrite Forall_forall in H. by specialize (H _ Hin).
  - assert (Hb : Forall (fun c => is_blank c = false) (to_string z)).
    { eapply Forall_impl; [exact H|]. intros c Hc. unfold is_blank.
      destruct (c =c SP) eqn:E1; [by bool_facts; subst|]. destruct (c =c TAB) eqn:E2; [by bool_facts; subst|done]. }
    rewrite drop_while_none by done. by apply drop_while_end_none.
Qed.

Lemma sent_clean q : sent_ok q -> Forall clean_line (sent_lines q).
Proof.
  intros [Hm Hp He Ht Hx _ _]. unfold sent_lines. constructor; [|apply Forall_app; split].
  - split; [by destruct (sn_method q)|]. rewrite !not_elem_of_app, not_elem_of_cons, not_elem_of_app. split_and!; try tauto; try done; not_in.
  - eapply Forall_impl; [exact He|]. by intros l [? _].
  - rewrite !Forall_cons. split_and!; [..|by constructor]; apply hline_clean; try done; try not_in; [apply to_string_trimmed|apply Ht|apply Hx].
Qed.

Lemma sent_headers q h0 : sent_ok q -> hd_cl h0 = 0 ->
  fold_left (fun h l => header l h) (drop 1 (sent_lines q)) h0 =
    mkHeads (Z.of_nat (length (sn_body q))) (hd_alive h0) (sn_token q) (sn_xff q).
Proof.
  intros [_ _ He Ht Hx _ Hl] H0. unfold sent_lines. cbn [skipn]. rewrite drop_0, fold_left_app.
  assert (fold_left (fun h l => header l h) (sn_extra q) h0 = h0) as ->.
  { induction He as [|l ls [_ Hh] _ IH]; [done|]. cbn [fold_left]. by rewrite Hh. }
  cbn [fold_left]. rewrite header_cl_line by apply to_string_trimmed. rewrite header_admin_line, header_xff_line by done.
  cbn [hd_cl hd_alive hd_admin hd_xff].
  assert (Hz : in_i64 (Z.of_nat (length (sn_body q)))).
  { unfold sent_bytes in Hl. rewrite !length_app in Hl. unfold in_i64. lia. }
  rewrite <- (app_nil_r (to_string _)), strtoll_to_string by done.
  rewrite u64_id by (unfold in_u64, in_i64 in *; lia). done.
Qed.

(** C21 A request is understood as it was sent: method, path, token, client
    chain and body are those of the client, the connection stays open, and
    exactly the bytes of the request are consumed, whatever other headers it
    has and whatever follows it in the buffer. *)
Theorem request_understood q rest :
  sent_ok q ->
  let ri := parse_req (sent_bytes q ++ rest) 0 in
  ri_total ri = Z.of_nat (length (sent_bytes q)) /\ ri_method ri = sn_method q /\ ri_path ri = sn_path q /\
  ri_admin ri = sn_token q /\ ri_xff ri = sn_xff q /\ ri_alive ri = true /\
  request_body ri (sent_bytes q ++ rest) = sn_body q.
Proof.
  intros Hq. pose proof (sent_clean q Hq) as Hc. pose proof Hq as [[Hm _] [Hp _] _ _ _ Hb Hl]. cbv zeta.
  assert (E : sent_lines q = http11 (sn_method q) (sn_path q) :: drop 1 (sent_lines q)) by done.
  pose proof (sent_headers q (mkHeads 0 true [] []) Hq eq_refl) as Hh. unfold sent_bytes in *. rewrite E in Hc, Hl |- *.
  edestruct (parse_req_lines (sn_method q) (sn_path q) (drop 1 (sent_lines q)) (sn_body q) rest)
    as (H1 & H2 & H3 & H4 & H5 & H6 & _ & H8); try done.
  - unfold sent_lines. cbn [skipn]. rewrite drop_0. by destruct (sn_extra q).
  - rewrite Hh. by destruct (needs_body (sn_method q)), Hb.
  - rewrite Hh in H4, H5, H6. by split_and!.
Qed.

(** Other headers of a browser. *)
Definition demo_sent : Sent :=
  mkSent (B "POST") (B "/api/shorten?x=1") [B "Host: e.com"; B "Accept: */*"] (B "secret") (B "1.2.3.4, 10.0.0.1")
    (Q "{'url':'https://e.com'}").
Lemma demo_sent_ok : sent_ok demo_sent.
Proof.
  constructor; try (split; not_in).
  - repeat (constructor; [split; [split; [done|not_in]|reflexivity]|]). constructor.
  - split; [not_in|reflexivity].
  - split; [not_in|reflexivity].
  - by left.
Qed.

Lemma request_understood_witness :
  ri_path (parse_req (sent_bytes demo_sent ++ B "GET /") 0) = B "/api/shorten?x=1".
Proof. apply (request_understood demo_sent (B "GET /") demo_sent_ok). Defined.

(** ** Replies *)

(** How a client reads a reply: the head up to the empty line, the status
    from the first line, the fields from the others, then as many bytes of
    body as announced. *)
Fixpoint lines_of_head (n : nat) (s : bytes) : list bytes :=
  match n with
  | O => []
  | S n' =>
      match find_sub CRLF s with
      | None => [s]
      | Some k => take k s :: lines_of_head n' (drop (k + 2) s)
      end
  end.
Fixpoint field (k : bytes) (ls : list bytes) : option bytes :=
  match ls with
  | [] => None
  | l :: ls' => if starts_with (k ++ B ": ") l then Some (drop (length k + 2) l) else field k ls'
  end.
Definition read_reply (s : bytes) : option (Z * option bytes * bytes * bytes) :=
  match find_sub CRLF2 s with
  | None => None
  | Some he =>
      let ls := lines_of_head he (take he s) in
      let rest := drop (he + 4) s in
      match field (B "content-length") ls with
      | None => None
      | Some n =>
          Some (of_digits (take 3 (drop 9 (default [] (head ls)))), field (B "location") ls,
                take (Z.to_nat (strtoll n)) rest, drop (Z.to_nat (strtoll n)) rest)
      end
  end.

Lemma lines_of_join ls : forall n, ls ≠ [] -> (length ls <= n)%nat -> Forall clean_line ls ->
  lines_of_head n (join_crlf ls) = ls.
Proof.
  induction ls as [|l ls IH]; intros n Hne Hn Hls; [done|]. destruct n as [|n]; [simpl in Hn; lia|].
  apply Forall_cons in Hls as [Hl Hls]. cbn [lines_of_head]. destruct ls as [|l' ls].
  - simpl join_crlf. by rewrite find_crlf_none by apply Hl.
  - rewrite join_crlf_cons, find_crlf_line by apply Hl. rewrite take_app_length. f_equal.
    rewrite drop_app_ge by lia. replace (length l + 2 - length l)%nat with 2%nat by lia.
    change (drop 2 (CRLF ++ ?x)) with x. apply IH; [done|simpl in *; lia|done].
Qed.

(** The statuses [route] answers with. *)
Definition known_status (st : Z) : Prop := st ∈ [200; 201; 204; 302; 400; 404; 409; 413; 429; 503].

(** A reply that can be sent: a known status, no line end in what goes into
    the head, no body behind a location. *)
Record reply_ok (env : Env) (r : Reply) : Prop := {
  ro_status : known_status (rp_status r);
  ro_location : forall l, rp_location r = Some l -> CR ∉ l /\ rp_body r = [];
  ro_ctype : forall c, rp_ctype r = Some c -> CR ∉ c;
  ro_cors : CR ∉ cors_origin env;
  ro_body : Z.of_nat (length (rp_body r)) < 2 ^ 63
}.

Definition status_text (st : Z) : bytes := take (length (status_line st) - 2) (status_line st).

Definition reply_lines (env : Env) (r : Reply) : list bytes :=
  [status_text (rp_status r);
   hline (B "access-control-allow-origin") (cors_origin env);
   hline (B "access-control-allow-methods") (B "GET,POST,PATCH,DELETE,OPTIONS");
   hline (B "access-control-allow-headers") (B "content-type,x-admin-token");
   hline (B "access-control-max-age") (B "86400")] ++
  match rp_location r with
  | Some l => [hline (B "location") l; hline (B "content-length") (B "0")]
  | None => [hline (B "content-type") (default (B "application/json") (rp_ctype r));
             hline (B "content-length") (to_string (Z.of_nat (length (rp_body r))))]
  end.

Lemma status_text_eq st : known_status st ->
  status_line st = status_text st ++ CRLF /\ clean_line (status_text st) /\
  of_digits (take 3 (drop 9 (status_text st))) = st /\
  starts_with (B "content-length: ") (status_text st) = false /\ starts_with (B "location: ") (status_text st) = false.
Proof.
  unfold known_status. rewrite !elem_of_cons, elem_of_nil. intros H.
  destruct_or!; try done; subst; (split; [reflexivity|]; split; [split; [done|not_in]|]; done).
Qed.

Lemma write_reply_lines env r : known_status (rp_status r) -> in_i64 (Z.of_nat (length (rp_body r))) ->
  write_reply env [] r =
    join_crlf (reply_lines env r) ++ CRLF2 ++ match rp_location r with Some _ => [] | None => rp_body r end.
Proof.
  intros Hs Hb. destruct (status_text_eq _ Hs) as [Hst _]. unfold write_reply, reply_lines, cors_block.
  rewrite Hst. cbn [app]. rewrite !join_crlf_cons. unfold hline, CRLF2.
  destruct (rp_location r) as [l|].
  - rewrite !join_crlf_cons. simpl join_crlf. repeat (rewrite <- !app_assoc; simpl). done.
  - rewrite itoa_to_string by done. rewrite !join_crlf_cons. simpl join_crlf. repeat (rewrite <- !app_assoc; simpl). done.
Qed.

Lemma reply_lines_clean env r : reply_ok env r -> Forall clean_line (reply_lines env r).
Proof.
  intros [Hs Hl Hc Ho Hb]. destruct (status_text_eq _ Hs) as (_ & Hst & _). unfold reply_lines.
  pose proof (to_string_trimmed (Z.of_nat (length (rp_body r)))) as [Ht _].
  destruct (rp_location r) as [l|]; cbn [app]; rewrite !Forall_cons;
    (split_and!; [..|by constructor]; try done; apply hline_clean; try done; try not_in).
  - by apply Hl.
  - destruct (rp_ctype r) as [c|]; [by apply Hc|not_in].
Qed.

(** C31 A reply can be read back, if nothing that goes into its head breaks
    a line: with a known status, and no carriage return in the redirect
    target, the content type and the configured origin, a client that reads
    a stream of replies finds the status, the redirect target if there is
    one, exactly the body, whatever its bytes, and the next reply behind it.
    (A stored url with a line break does break the reply:
    [HttpFindings.redirect_injects_headers].) *)
Theorem reply_roundtrip env r rest :
  reply_ok env r ->
  read_reply (write_reply env [] r ++ rest) = Some (rp_status r, rp_location r, rp_body r, rest).
Proof.
  intros Hr. pose proof (reply_lines_clean env r Hr) as Hc. destruct Hr as [Hs Hl _ _ Hb].
  destruct (status_text_eq _ Hs) as (_ & _ & Hst & Hf1 & Hf2).
  rewrite write_reply_lines by (done || (unfold in_i64; lia)). rewrite <- !app_assoc. unfold read_reply.
  rewrite find_head by done. rewrite take_app_length.
  rewrite lines_of_join by (done || by apply join_length).
  assert (Hcl : field (B "content-length") (reply_lines env r) =
    Some (match rp_location r with Some _ => B "0" | None => to_string (Z.of_nat (length (rp_body r))) end)).
  { unfold reply_lines. destruct (rp_location r); cbn [field app]; change (B "content-length" ++ B ": ") with (B "content-length: ");
      rewrite Hf1; reflexivity. }
  assert (Hloc : field (B "location") (reply_lines env r) = rp_location r).
  { unfold reply_lines. destruct (rp_location r); cbn [field app]; change (B "location" ++ B ": ") with (B "location: ");
      rewrite Hf2; reflexivity. }
  rewrite Hcl, Hloc. rewrite drop_app_ge by lia.
  replace (_ + 4 - _)%nat with 4%nat by lia. change (drop 4 (CRLF2 ++ ?x)) with x.
  change (default [] (head (reply_lines env r))) with (status_text (rp_status r)). rewrite Hst.
  destruct (rp_location r) as [l|] eqn:El.
  - destruct (Hl l eq_refl) as [_ Hbody]. by rewrite Hbody.
  - rewrite <- (app_nil_r (to_string _)), strtoll_to_string, Nat2Z.id by (done || (unfold in_i64; lia)).
    by rewrite take_app_length, drop_app_length.
Qed.

Lemma reply_roundtrip_witness :
  read_reply (write_reply (fun _ => None) [] (redirect (B "https://a.b/c")) ++ B "HTTP/1.1") =
    Some (302, Some (B "https://a.b/c"), [], B "HTTP/1.1").
Proof.
  apply (reply_roundtrip (fun _ => None) (redirect (B "https://a.b/c"))).
  constructor; [|intros l [= <-]; split; [not_in|done]|intros c [=]|not_in|reflexivity].
  unfold known_status. cbn. rewrite !elem_of_cons. tauto.
Defined.

(** ** Streams *)
Section Streams.
Context {W : Type} {api : StoreApi W} {cast : CastImpl}.
Context (os : Os) (env : Env) (ui_html peer : bytes) (send : nat -> Z).
Abbreviation process_buf := (process_buf os env ui_html peer).
Abbreviation conn_loop := (conn_loop os env ui_html peer send).
Abbreviation conn_step := (conn_step os env ui_html peer send).
Abbreviation serve_kq := (serve_kq os env ui_html peer send).

(** What is left over waits: the loop makes nothing of it. *)
Lemma process_rest s out a : len_ok s ->
  let r := process_buf s out a in
  r_stop r = Incomplete -> process_buf (drop (r_parsed r) s) (r_out r) (r_app r) = mkRun Incomplete 0 (r_out r) (r_app r).
Proof.
  intros Hlen r Hr. pose proof (process_buf_app os env ui_html peer s [] out a Hlen) as H. rewrite app_nil_r in H.
  cbv zeta in H. fold r in H. rewrite Hr, app_nil_r in H. destruct r as [st p o a'] eqn:E. simpl in *. subst st.
  unfold run_shift in H. destruct (process_buf (drop p s) o a') as [st2 p2 o2 a2]. simpl in H.
  injection H as -> H -> ->. f_equal. lia.
Qed.

Lemma conn_closed evs : forall c (a : App W), c_state c ≠ Open -> conn_loop evs (c, a) = (c, a).
Proof.
  unfold conn_loop. induction evs as [|ev evs IH]; intros c a Hc; [done|]. cbn [fold_left].
  assert (conn_step ev (c, a) = (c, a)) as -> by (unfold Server.conn_step; by destruct (c_state c)). by apply IH.
Qed.

Lemma send_all_ok buf out c : no_io_error send ->
  exists k, send_all send buf out c = mkConn buf (c_sent c ++ out) Open k.
Proof.
  intros Hs. unfold send_all. pose proof (xfer_all send (c_send c) (length out) Hs) as Hx.
  destruct (xfer send (c_send c) (length out)) as [n k]. simpl in Hx. subst n. exists k.
  rewrite firstn_all. by rewrite bool_decide_true.
Qed.

(** The stream so far is [done ++ c_buf c]; feeding the rest in pieces is
    feeding it at once. *)
Lemma conn_loop_chunks chunks : forall c (a : App W) r, no_io_error send -> c_state c = Open ->
  Forall (fun bs => bs ≠ []) chunks -> len_ok (c_buf c ++ concat chunks) ->
  process_buf (c_buf c) [] a = mkRun Incomplete 0 [] a ->
  r = process_buf (c_buf c ++ concat chunks) [] a -> r_stop r = Incomplete \/ r_stop r = Closing ->
  exists c', conn_loop (map Data chunks) (c, a) = (c', r_app r) /\ c_sent c' = c_sent c ++ r_out r /\
    c_state c' = match r_stop r with Closing => Closed | _ => Open end /\
    (r_stop r = Incomplete -> c_buf c' = drop (r_parsed r) (c_buf c ++ concat chunks)).
Proof.
  induction chunks as [|bs chunks IH]; intros c a r Hs Ho Hne Hlen Hw Hr Hst.
  - cbn [concat map] in *. rewrite app_nil_r in Hr |- *. rewrite Hw in Hr. subst r. exists c. cbn [r_out r_stop r_parsed].
    by rewrite app_nil_r, drop_0.
  - apply Forall_cons in Hne as [Hbs Hne]. cbn [concat] in *. rewrite app_assoc in *.
    set (buf := c_buf c ++ bs) in *. assert (Hlb : len_ok buf) by (unfold len_ok in *; rewrite length_app in Hlen; lia).
    rewrite (process_buf_app os env ui_html peer buf (concat chunks) [] a Hlb) in Hr. cbv zeta in Hr.
    change (conn_loop (map Data (bs :: chunks)) (c, a)) with (conn_loop (map Data chunks) (conn_step (Data bs) (c, a))).
    unfold Server.conn_step. rewrite Ho. rewrite (bool_decide_false (bs = [])) by done. cbn [andb]. fold buf.
    pose proof (process_rest buf [] a Hlb) as Hrest. cbv zeta in Hrest. set (r1 := process_buf buf [] a) in *.
    destruct (send_all_ok (drop (r_parsed r1) buf) (r_out r1) c Hs) as [k Hsend].
    destruct (r_stop r1) eqn:E1; subst r; rewrite ?E1 in *; try (by destruct Hst).
    + rewrite Hsend. rewrite process_buf_out in Hst |- *. cbv zeta in *. cbn [run_shift r_stop r_out r_app orb] in *.
      specialize (Hrest eq_refl). rewrite process_buf_out in Hrest. cbv zeta in Hrest. injection Hrest as H1 H2 H3 H4.
      set (r2 := process_buf (drop (r_parsed r1) buf ++ concat chunks) [] (r_app r1)) in *.
      destruct (IH (mkConn (drop (r_parsed r1) buf) (c_sent c ++ r_out r1) Open k) (r_app r1) r2) as (c' & Hc1 & Hc2 & Hc3 & Hc4);
        try done.
      * unfold len_ok in *. cbn [c_buf]. rewrite length_app in *. rewrite length_drop. lia.
      * cbn [c_buf]. destruct (process_buf (drop (r_parsed r1) buf) [] (r_app r1)) as [st p o a2].
        cbn [r_stop r_parsed r_out r_app] in H1, H2, H3, H4. rewrite H1, H2, H4. f_equal.
        apply (app_inv_head (r_out r1)). by rewrite app_nil_r.
      * exists c'. rewrite Hc1, Hc2. cbn [c_sent]. split; [done|]. split; [by rewrite <- app_assoc|]. split; [done|].
        intros Hi. rewrite (Hc4 Hi). cbn [run_shift c_buf r_parsed]. pose proof (process_within os env ui_html peer (S (length buf)) buf 0 [] a ltac:(lia)) as Hp.
        fold (process_buf buf [] a) in Hp. fold r1 in Hp. by rewrite <- drop_drop, (drop_app_le buf) by done.
    + rewrite Hsend. cbn [orb]. rewrite conn_closed by done. eexists. split; [reflexivity|]. done.
Qed.

(** C11 How the network cuts the stream does not matter: on a stream whose
    requests are well formed and within the limits - the loop stops for want
    of bytes, or at a request that asks to close -, whatever non-empty
    pieces [recv] returns, and however short the sends, the thread of a
    connection sends exactly the replies to the requests of the whole
    stream, in order, leaves the application in the state those requests
    lead to, and closes if and only if a request asked for it. *)
Theorem chunks_do_not_matter chunks (a : App W) :
  let stream := concat chunks in
  let r := process_buf stream [] a in
  no_io_error send -> Forall (fun bs => bs ≠ []) chunks -> len_ok stream ->
  r_stop r = Incomplete \/ r_stop r = Closing ->
  exists c, conn_loop (map Data chunks) (Conn0, a) = (c, r_app r) /\ c_sent c = r_out r /\
    c_state c = match r_stop r with Closing => Closed | _ => Open end.
Proof.
  intros stream r Hs Hne Hlen Hst.
  destruct (conn_loop_chunks chunks Conn0 a r Hs eq_refl Hne Hlen) as (c & H1 & H2 & H3 & _); [by rewrite process_buf_step|done..|].
  by exists c.
Qed.

(** *** The event loop *)

(** The events of a connection on which nothing fails and nobody hangs up. *)
Definition quiet_event (ev : KqEvent) : Prop :=
  match ev with KqRead f _ eof => f = false /\ eof = false | KqWrite f => f = false end.
Definition kq_data (evs : list KqEvent) : bytes :=
  concat (map (fun ev => match ev with KqRead _ bs _ => bs | KqWrite _ => [] end) evs).

Lemma kq_write_quiet c : 0 <= send (kq_send c) ->
  let c' := kq_write send c in
  rbuf c' = rbuf c /\ close_after c' = close_after c /\ kq_state c' = kq_state c /\
  kq_sent c' ++ wbuf c' = kq_sent c ++ wbuf c.
Proof.
  intros Hs. unfold kq_write. rewrite (proj2 (Z.ltb_ge _ _)) by lia. cbn. split_and!; try done.
  by rewrite <- app_assoc, take_drop.
Qed.

Lemma kq_finish_open c : kq_state c = Open -> close_after c = false -> kq_finish c = c.
Proof. intros H1 H2. unfold kq_finish. by rewrite H1, H2. Qed.

(** Behind the last request of a connection that is to close: what is held
    is sent, and then the connection is closed. *)
Definition kq_last (c : KqConn) : Prop :=
  rbuf c = [] /\ close_after c = true /\ kq_state c = if wbuf c =s [] then Closed else Open.

Lemma kq_last_finish c : rbuf c = [] -> close_after c = true -> kq_state c = Open ->
  kq_last (kq_finish c) /\ kq_sent (kq_finish c) = kq_sent c /\ wbuf (kq_finish c) = wbuf c.
Proof.
  intros H1 H2 H3. unfold kq_finish, kq_last. rewrite H3, H2. cbn [andb]. destruct (wbuf c =s []) eqn:E; cbn; [by rewrite E|].
  by rewrite E.
Qed.

Lemma kq_last_step ev c (a : App W) : (forall k, 0 <= send k) -> quiet_event ev -> kq_data [ev] = [] -> kq_last c ->
  exists c', kq_step os env ui_html peer send ev (c, a) = (c', a) /\ kq_last c' /\ kq_sent c' ++ wbuf c' = kq_sent c ++ wbuf c.
Proof.
  intros Hs Hq Hd HL. pose proof HL as (L1 & L2 & L3). unfold kq_step. rewrite L3.
  destruct (wbuf c =s []) eqn:Ew; [by exists c|]. destruct ev as [f bs eof|f]; simpl in Hq; [destruct Hq as [-> ->]|subst f];
    cbn [kq_flag kq_is_write andb orb].
  - unfold kq_data in Hd. cbn [map concat] in Hd. rewrite app_nil_r in Hd. subst bs. unfold kq_read. rewrite L1, L2, L3. cbn [app orb].
    rewrite process_buf_step. cbv zeta. cbn [r_stop r_out r_app r_parsed].
    set (c1 := mkKq [] (wbuf c) true (want_write c || negb (wbuf c =s [])) (kq_sent c) Open (kq_send c)).
    destruct (kq_last_finish c1) as (F1 & F2 & F3); [done..|]. exists (kq_finish c1). split; [reflexivity|]. split; [exact F1|]. by rewrite F2, F3.
  - destruct (kq_write_quiet c (Hs _)) as (W1 & W2 & W3 & W4).
    destruct (kq_last_finish (kq_write send c)) as (F1 & F2 & F3); [by rewrite W1|by rewrite W2|by rewrite W3, L3|].
    eexists. split; [reflexivity|]. split; [exact F1|]. by rewrite F2, F3.
Qed.

Lemma kq_last_run evs : (forall k, 0 <= send k) -> forall c (a : App W), Forall quiet_event evs -> kq_data evs = [] -> kq_last c ->
  exists c', serve_kq evs (c, a) = (c', a) /\ kq_last c' /\ kq_sent c' ++ wbuf c' = kq_sent c ++ wbuf c.
Proof.
  intros Hs. induction evs as [|ev evs IH]; intros c a Hq Hd HL; [by exists c|]. apply Forall_cons in Hq as [Hev Hq].
  change (kq_data (ev :: evs)) with (kq_data ([ev] ++ evs)) in Hd. unfold kq_data in Hd. rewrite map_app, concat_app in Hd.
  apply app_eq_nil in Hd as [Hd1 Hd2]. destruct (kq_last_step ev c a Hs Hev Hd1 HL) as (c1 & E & HL1 & Hsw).
  change (serve_kq (ev :: evs) (c, a)) with (serve_kq evs (kq_step os env ui_html peer send ev (c, a))). rewrite E.
  destruct (IH c1 a Hq Hd2 HL1) as (c' & E' & HL' & Hsw'). exists c'. split; [exact E'|]. split; [exact HL'|]. by rewrite Hsw'.
Qed.

(** A run that ends for lack of bytes, or with a request to close and
    nothing behind it. *)
Definition orderly (s : bytes) (r : Run (W := W)) : Prop :=
  r_stop r = Incomplete \/ r_stop r = Closing /\ r_parsed r = length s.

Lemma process_buf_within s (a : App W) : (r_parsed (process_buf s [] a) <= length s)%nat.
Proof. apply (process_within os env ui_html peer (Datatypes.S (length s)) s 0 [] a). lia. Qed.

Lemma kq_run evs : (forall k, 0 <= send k) -> forall c (a : App W) r,
  kq_state c = Open -> close_after c = false -> Forall quiet_event evs -> len_ok (rbuf c ++ kq_data evs) ->
  process_buf (rbuf c) [] a = mkRun Incomplete 0 [] a ->
  r = process_buf (rbuf c ++ kq_data evs) [] a -> orderly (rbuf c ++ kq_data evs) r ->
  exists c', serve_kq evs (c, a) = (c', r_app r) /\
    kq_state c' = match r_stop r with Closing => if wbuf c' =s [] then Closed else Open | _ => Open end /\
    kq_sent c' ++ wbuf c' = kq_sent c ++ wbuf c ++ r_out r.
Proof.
  intros Hs. induction evs as [|ev evs IH]; intros c a r Ho Hca Hq Hlen Hw Hr Hst.
  - change (kq_data []) with ([] : bytes) in *. rewrite app_nil_r, Hw in Hr. subst r. exists c. cbn [r_app r_out].
    by rewrite !app_nil_r.
  - apply Forall_cons in Hq as [Hev Hq].
    change (serve_kq (ev :: evs) (c, a)) with (serve_kq evs (kq_step os env ui_html peer send ev (c, a))).
    unfold kq_step. rewrite Ho. destruct ev as [f bs eof|f].
    + destruct Hev as [-> ->]. cbn [kq_flag kq_is_write andb orb].
      change (kq_data (KqRead false bs false :: evs)) with (bs ++ kq_data evs) in *. rewrite app_assoc in *.
      unfold kq_read. rewrite Hca. set (buf := rbuf c ++ bs) in *.
      assert (Hlb : len_ok buf) by (unfold len_ok in *; rewrite length_app in Hlen; lia).
      rewrite (process_buf_app os env ui_html peer buf (kq_data evs) [] a Hlb) in Hr. cbv zeta in Hr.
      rewrite (process_buf_out os env ui_html peer buf (wbuf c)). cbv zeta. cbn [r_stop r_parsed r_out r_app].
      pose proof (process_rest buf [] a Hlb) as Hrest. cbv zeta in Hrest. set (r1 := process_buf buf [] a) in *.
      pose proof (process_buf_within buf a) as Hp1. fold r1 in Hp1.
      destruct (r_stop r1) eqn:E1; subst r; rewrite ?E1 in *; try (by destruct Hst as [Hst|[Hst _]]; rewrite E1 in Hst); cycle 1.
      { destruct Hst as [Hst|[_ Hst]]; [by rewrite E1 in Hst|]. rewrite length_app in Hst.
        assert (Hd : kq_data evs = []) by (apply length_zero_iff_nil; lia).
        cbn [r_stop r_parsed r_out r_app]. rewrite Hst, drop_ge by lia. rewrite Ho.
        match goal with |- context [kq_finish ?k] => destruct (kq_last_finish k) as (F1 & F2 & F3); [done..|] end.
        match type of F1 with kq_last ?k => destruct (kq_last_run evs Hs k (r_app r1) Hq Hd F1) as (c' & G1 & (_ & _ & G2) & G3) end.
        exists c'. split; [exact G1|]. split; [exact G2|]. etrans; [exact G3|]. rewrite F2, F3. apply app_assoc. }
      rewrite process_buf_out in Hst |- *. cbv zeta in *. cbn [run_shift r_stop r_out r_app orb] in *.
      specialize (Hrest eq_refl). rewrite process_buf_out in Hrest. cbv zeta in Hrest. injection Hrest as H1 H2 H3 H4.
      set (r2 := process_buf (drop (r_parsed r1) buf ++ kq_data evs) [] (r_app r1)) in *.
      rewrite kq_finish_open by done. rewrite Ho.
      match goal with |- context [serve_kq evs (?c1, _)] => destruct (IH c1 (r_app r1) r2) as (c' & Hc1 & Hc2 & Hc3) end;
        try done.
      * unfold len_ok in *. cbn [rbuf]. rewrite length_app in *. rewrite length_drop. lia.
      * cbn [rbuf]. destruct (process_buf (drop (r_parsed r1) buf) [] (r_app r1)) as [st p o a2].
        cbn [r_stop r_parsed r_out r_app] in H1, H2, H3, H4. rewrite H1, H2, H4. f_equal.
        apply (app_inv_head (r_out r1)). by rewrite app_nil_r.
      * unfold orderly in *. cbn [rbuf run_shift r_stop r_parsed] in *. destruct Hst as [?|[? Hst]]; [by left|right; split; [done|]].
        rewrite length_app, length_drop in *. lia.
      * exists c'. rewrite Hc1. split_and!; [done|done|]. rewrite Hc3. cbn [kq_sent wbuf]. by rewrite <- !app_assoc.
    + simpl in Hev. subst f. cbn [kq_flag kq_is_write andb orb].
      change (kq_data (KqWrite false :: evs)) with (kq_data evs) in *.
      assert (Hc1 : exists c1, (if wbuf c =s [] then c else kq_write send c) = c1 /\ rbuf c1 = rbuf c /\
        close_after c1 = false /\ kq_state c1 = Open /\ kq_sent c1 ++ wbuf c1 = kq_sent c ++ wbuf c).
      { destruct (wbuf c =s []); [by exists c|]. destruct (kq_write_quiet c (Hs _)) as (W1 & W2 & W3 & W4).
        eexists. split; [reflexivity|]. by rewrite W1, W2, W3. }
      destruct Hc1 as (c1 & -> & R1 & R2 & R3 & R4). rewrite kq_finish_open by done.
      destruct (IH c1 a r R3 R2 Hq) as (c' & Hc1 & Hc2 & Hc3); [by rewrite R1..| |].
      * by rewrite R1.
      * exists c'. rewrite Hc1. split_and!; [done|done|]. by rewrite Hc3, app_assoc, R4, <- app_assoc.
Qed.

(** C32 Both servers answer alike. On a connection where no send fails and
    the peer does not hang up, on which well-formed requests arrive, the last
    of them perhaps incomplete, and at most the last of them asking to close
    the connection, the event loop, whatever the order of its read and write
    events and however the bytes are split over them, has sent or still
    holds exactly the bytes the connection thread sends for the same stream,
    and leaves the application in the same state; and it closes the
    connection, once all is sent, if and only if the connection thread does.
    (They differ on what follows a request to close,
    [HttpFindings.kq_serves_after_close], on a malformed request, and on a
    half-closed connection.) *)
Theorem kq_answers_like_mini evs chunks (a : App W) :
  no_io_error send -> Forall quiet_event evs -> Forall (fun bs => bs ≠ []) chunks ->
  kq_data evs = concat chunks -> len_ok (concat chunks) ->
  (let r := process_buf (concat chunks) [] a in
   r_stop r = Incomplete \/ r_stop r = Closing /\ r_parsed r = length (concat chunks)) ->
  exists c k a', conn_loop (map Data chunks) (Conn0, a) = (c, a') /\ serve_kq evs (KqConn0, a) = (k, a') /\
    kq_sent k ++ wbuf k = c_sent c /\
    (wbuf k = [] -> kq_state k = c_state c) /\ (wbuf k ≠ [] -> kq_state k = Open).
Proof.
  intros Hs Hq Hne Hd Hlen Hst. cbv zeta in Hst.
  assert (Hs0 : forall k, 0 <= send k) by (intros j; specialize (Hs j); lia).
  destruct (conn_loop_chunks chunks Conn0 a (process_buf (concat chunks) [] a) Hs eq_refl Hne Hlen)
    as (c & H1 & H2 & H3 & _); [by rewrite process_buf_step|done|by destruct Hst as [?|[? _]]; [left|right]|].
  destruct (kq_run evs Hs0 KqConn0 a (process_buf (concat chunks) [] a)) as (k & K1 & K2 & K3); try done.
  - cbn [rbuf KqConn0 app]. by rewrite Hd.
  - cbn [rbuf KqConn0 app]. by rewrite Hd.
  - cbn [rbuf KqConn0 app]. by rewrite Hd.
  - exists c, k, (r_app (process_buf (concat chunks) [] a)). rewrite H1, K1, H2, H3, K2, K3.
    split_and!; [done..| |]; (destruct Hst as [->|[-> _]]; [done|]).
    + by intros ->.
    + intros Hw. by rewrite bool_decide_eq_false_2.
Qed.

(** C34 The request loop ends on every buffer: each turn but the last
    consumes at least one byte of it, never more than there are; and what it
    leaves over is not a complete request. *)
Theorem request_loop_ends s out (a : App W) :
  let r := process_buf s out a in
  r_stop r ≠ NoFuel /\ (r_parsed r <= length s)%nat /\
  (r_stop r = Incomplete -> ri_total (parse_req (drop (r_parsed r) s) 0) = 0).
Proof.
  remember (length s) as n eqn:Hn. assert (Hle : (length s <= n)%nat) by lia. rewrite Hn. clear Hn.
  revert s Hle out a. induction n as [|n IH]; intros s Hle out a; rewrite process_buf_step; cbv zeta;
    (destruct (ri_total (parse_req s 0) =? 0) eqn:E0; [bool_facts; simpl; rewrite ?drop_0; split_and!; done || lia|]); bool_facts.
  { destruct s; [|simpl in *; lia]. by rewrite parse_req_nil in E0. }
  destruct (ri_total (parse_req s 0) =? SIZE_MAX) eqn:E1; [simpl; split_and!; done || lia|]. bool_facts.
  pose proof (parse_req_within s E0 E1) as Hw. destruct (needs_body _ && _); [simpl; split_and!; done || lia|].
  destruct (handle _ _ _ _ _ _ _ _ a) as [r a'|a'|]; try (simpl; split_and!; done || lia).
  destruct (ri_alive _); [|simpl; split_and!; done || lia].
  set (t := Z.to_nat (ri_total (parse_req s 0))) in *.
  destruct (IH (drop t s)) with (out := write_reply env out r) (a := a') as (I1 & I2 & I3); [rewrite length_drop; lia|].
  unfold run_shift. cbn [r_stop r_parsed]. rewrite length_drop in I2. split_and!; [done|lia|].
  intros Hs. rewrite <- (I3 Hs), drop_drop. done.
Qed.

End Streams.

(** ** The witnesses *)
Definition demo_send (k : nat) : Z := 7.
Lemma demo_send_ok : no_io_error demo_send.
Proof. intros k. reflexivity. Qed.

Definition demo_chunks : list bytes :=
  [B "GET /x HTT"; B "P/1.1" ++ CRLF ++ B "Host: e.com" ++ [CR]; LF :: CRLF ++ B "GET /nope HTTP/1.1" ++ CRLF ++ B "a: b"; CRLF2].
Definition demo_run : Run (W := World) := process_buf RefOs demo_env [] (B "10.0.0.9") (concat demo_chunks) [] demo_app2.
Lemma demo_run_stop : r_stop demo_run = Incomplete.
Proof. vm_compute. reflexivity. Qed.
Lemma demo_chunks_ok : Forall (fun bs => bs ≠ []) demo_chunks /\ len_ok (concat demo_chunks).
Proof. split; [repeat (constructor; [done|]); constructor|vm_compute; reflexivity]. Qed.

Lemma chunks_do_not_matter_witness :
  exists c, conn_loop RefOs demo_env [] (B "10.0.0.9") demo_send (map Data demo_chunks) (Conn0, demo_app2) = (c, r_app demo_run) /\
    c_sent c = r_out demo_run.
Proof.
  destruct (chunks_do_not_matter RefOs demo_env [] (B "10.0.0.9") demo_send demo_chunks demo_app2 demo_send_ok
    (proj1 demo_chunks_ok) (proj2 demo_chunks_ok) (or_introl demo_run_stop)) as (c & H1 & H2 & _).
  exists c. split; [exact H1|exact H2].
Defined.

Definition demo_events : list KqEvent :=
  [KqWrite false; KqRead false (take 40 (concat demo_chunks)) false; KqWrite false;
   KqRead false (drop 40 (concat demo_chunks)) false; KqWrite false].
Lemma demo_events_ok : Forall quiet_event demo_events /\ kq_data demo_events = concat demo_chunks.
Proof. split; [repeat constructor|vm_compute; reflexivity]. Qed.

Lemma kq_answers_like_mini_witness :
  exists c k a', conn_loop RefOs demo_env [] (B "10.0.0.9") demo_send (map Data demo_chunks) (Conn0, demo_app2) = (c, a') /\
    serve_kq RefOs demo_env [] (B "10.0.0.9") demo_send demo_events (KqConn0, demo_app2) = (k, a') /\
    kq_sent k ++ wbuf k = c_sent c.
Proof.
  destruct (kq_answers_like_mini RefOs demo_env [] (B "10.0.0.9") demo_send demo_events demo_chunks demo_app2 demo_send_ok
    (proj1 demo_events_ok) (proj1 demo_chunks_ok) (proj2 demo_events_ok) (proj2 demo_chunks_ok) (or_introl demo_run_stop))
    as (c & k & a' & H1 & H2 & H3 & _).
  exists c, k, a'. split; [exact H1|split; [exact H2|exact H3]].
Defined.

Lemma request_loop_ends_witness : r_stop demo_run ≠ NoFuel.
Proof. apply (request_loop_ends RefOs demo_env [] (B "10.0.0.9") (concat demo_chunks) [] demo_app2). Defined.
