(* ===== verification/Bench.v ===== *)
(** * The load generator's reader of responses (bench.cpp)

    [RConn] holds the bytes received and not consumed; what [recv] returns
    is a list of chunks, an empty one for an end or an error. [read_resp]
    takes one response from the front. The claim is that it reads what
    write_reply of server.cpp writes; the finding, that a response whose head
    is not complete in the buffer makes it loop for ever. *)

From S2P Require Import Prelude CLib Common App Server ServerFacts ServerClaims.

(** ** [fill] *)
Record RConn := mkRConn { rc_buf : bytes; rc_feed : list bytes }.

Fixpoint fill_loop (n : Z) (feed : list bytes) (buf : bytes) : bool * RConn :=
  if Z.of_nat (length buf) <? n then
    match feed with
    | [] => (false, mkRConn buf [])
    | [] :: feed => (false, mkRConn buf feed)
    | ch :: feed => fill_loop n feed (buf ++ ch)
    end
  else (true, mkRConn buf feed).
Definition fill (c : RConn) (n : Z) : bool * RConn := fill_loop n (rc_feed c) (rc_buf c).

(** [c.buf.find("\r\n", p)]. *)
Definition find_crlf_from (s : bytes) (p : nat) : option nat := (fun k => (p + k)%nat) <$> find_sub CRLF (drop p s).

(** [strtoull(_, nullptr, 10)]: a minus sign negates modulo 2^64. *)
Definition strtoull (s : bytes) : Z :=
  match parse_int10 s with
  | None => 0
  | Some v => if 2 ^ 64 <=? Z.abs v then 2 ^ 64 - 1 else u64 v
  end.

(** ** The headers *)
(** The length of the body and whether it comes in chunks. *)
Definition resp_header (h : bytes) (st : Z * bool) : Z * bool :=
  match find_char ":"%char h with
  | None => st
  | Some colon =>
      let key := take colon h in
      let val := drop_while is_blank (drop (colon + 1) h) in
      if (key =s B "content-length") || (key =s B "Content-Length") then (strtoull val, snd st)
      else if ((key =s B "transfer-encoding") || (key =s B "Transfer-Encoding")) &&
              bool_decide (is_Some (find_sub (B "chunked") val)) then (fst st, true)
      else st
  end.

(** The loop over the lines from [p] to the end [he] of the head; every
    turn moves [p] on by two or more. *)
Fixpoint resp_headers (fuel : nat) (s : bytes) (p he : nat) (st : Z * bool) : Z * bool :=
  match fuel with
  | O => st
  | S fuel =>
      if (p <? he)%nat then
        let e := match find_crlf_from s p with Some e => Nat.min e he | None => he end in
        resp_headers fuel s (e + 2)%nat he (resp_header (take (e - p) (drop p s)) st)
      else st
  end.

(** ** A body in chunks *)

(** The end of the line at [p]: reads on until there is one. *)
Fixpoint line_end (fuel p : nat) (c : RConn) : option (option nat * RConn) :=
  match find_crlf_from (rc_buf c) p with
  | Some e => Some (Some e, c)
  | None =>
      match fuel with
      | O => None
      | S fuel =>
          let '(ok, c) := fill c (Z.of_nat (length (rc_buf c)) + 64) in
          if ok : bool then line_end fuel p c else Some (None, c)
      end
  end.

Inductive RRes := Code (z : Z) (c : RConn) | Fail (c : RConn) | Spin.

(** Where the last chunk ends. *)
Fixpoint chunks_end (fuel : nat) (p : nat) (c : RConn) : option (option nat * RConn) :=
  match fuel with
  | O => None
  | S fuel =>
      match line_end fuel p c with
      | None => None
      | Some (None, c) => Some (None, c)
      | Some (Some e, c) =>
          let n := strtoul16 (drop p (rc_buf c)) in
          if n =? 0 then Some (Some (e + 4)%nat, c)
          else
            let p := u64 (Z.of_nat e + 2 + n + 2) in
            let '(ok, c) := fill c p in
            if ok : bool then chunks_end fuel (Z.to_nat p) c else Some (None, c)
      end
  end.

Definition erase (p : nat) (c : RConn) : RConn := mkRConn (drop p (rc_buf c)) (rc_feed c).

(** ** [read_resp]: one turn of the loop; [Spin] when the fuel is out *)
Fixpoint read_resp (fuel : nat) (c : RConn) : RRes :=
  match fuel with
  | O => Spin
  | S fuel =>
      let '(ok, c) := fill c 5 in
      if negb ok then Fail c
      else
        match find_sub CRLF2 (rc_buf c) with
        | None => read_resp fuel c
        | Some he =>
            let code := match find_char SP (rc_buf c) with None => 0 | Some sp => i32 (strtoll (drop (sp + 1) (rc_buf c))) end in
            let p0 := match find_sub CRLF (rc_buf c) with Some k => (k + 2)%nat | None => 1%nat end in
            let '(cl, chunked) := resp_headers he (rc_buf c) p0 he (0, false) in
            let body_start := (he + 4)%nat in
            if chunked : bool then
              match chunks_end fuel body_start c with
              | None => Spin
              | Some (None, c) => Fail c
              | Some (Some p, c) => Code code (erase p c)
              end
            else
              let total := u64 (Z.of_nat body_start + cl) in
              let '(ok, c) := fill c total in
              if ok : bool then Code code (erase (Z.to_nat total) c) else Fail c
        end
  end.

(** ** Lemmas *)

Lemma recv_fill_spec n feed : forall buf, Forall (fun ch => ch ≠ []) feed -> n <= Z.of_nat (length (buf ++ concat feed)) ->
  exists c, fill_loop n feed buf = (true, c) /\ rc_buf c ++ concat (rc_feed c) = buf ++ concat feed /\
    n <= Z.of_nat (length (rc_buf c)) /\ Forall (fun ch => ch ≠ []) (rc_feed c).
Proof.
  induction feed as [|ch feed IH]; intros buf Hne Hn; cbn [fill_loop concat] in *.
  - rewrite app_nil_r in Hn. rewrite (proj2 (Z.ltb_ge _ _)) by done. by eexists.
  - destruct (Z.of_nat (length buf) <? n) eqn:E; [|by bool_facts; eexists].
    apply Forall_cons in Hne as [Hch Hne]. destruct ch as [|b ch]; [done|].
    destruct (IH (buf ++ b :: ch) Hne) as (c & H1 & H2 & H3 & H4); [by rewrite <- app_assoc|].
    exists c. split; [exact H1|]. by rewrite H2, <- app_assoc.
Qed.

(** What [fill] does to the stream: pieces move to the buffer. *)
Lemma fill_moves n feed : forall buf ok c, fill_loop n feed buf = (ok, c) ->
  exists d, feed = d ++ rc_feed c /\ rc_buf c = buf ++ concat d.
Proof.
  induction feed as [|ch feed IH]; intros buf ok c; cbn [fill_loop]; destruct (_ <? n).
  - intros [= <- <-]. exists []. split; [done|]. symmetry. apply app_nil_r.
  - intros [= <- <-]. exists []. split; [done|]. symmetry. apply app_nil_r.
  - destruct ch as [|b ch]; [intros [= <- <-]; exists [[]]; split; [done|]; symmetry; apply app_nil_r|].
    intros H. apply IH in H as (d & -> & ->). exists ((b :: ch) :: d). cbn [concat]. by rewrite <- app_assoc.
  - intros [= <- <-]. exists []. split; [done|]. symmetry. apply app_nil_r.
Qed.

Lemma drop_blank v : drop_while is_blank (SP :: v) = drop_while is_blank v.
Proof. unfold drop_while. cbn [span]. change (is_blank SP) with true. cbv iota. by destruct (span is_blank v). Qed.

Lemma resp_header_hline k v st : ":"%char ∉ k ->
  resp_header (hline k v) st =
    if (k =s B "content-length") || (k =s B "Content-Length") then (strtoull (drop_while is_blank v), snd st)
    else if ((k =s B "transfer-encoding") || (k =s B "Transfer-Encoding")) &&
            bool_decide (is_Some (find_sub (B "chunked") (drop_while is_blank v))) then (fst st, true)
    else st.
Proof.
  intros Hk. unfold resp_header, hline. change (B ": " ++ v) with (":"%char :: SP :: v). rewrite find_char_first by done.
  rewrite take_app_length. assert (E : drop (length k + 1) (k ++ ":"%char :: SP :: v) = SP :: v).
  { rewrite drop_app_ge by lia. by replace (length k + 1 - length k)%nat with 1%nat by lia. }
  rewrite E, drop_blank. reflexivity.
Qed.

Lemma resp_headers_lines ls : forall fuel s p body he st, Forall clean_line ls -> (length ls <= fuel)%nat ->
  drop p s = join_crlf ls ++ CRLF2 ++ body -> he = (p + length (join_crlf ls))%nat ->
  resp_headers fuel s p he st = fold_left (fun st h => resp_header h st) ls st.
Proof.
  induction ls as [|l ls IH]; intros fuel s p body he st Hls Hf Hd ->.
  { destruct fuel; [done|]. cbn [resp_headers join_crlf length]. by rewrite (proj2 (Nat.ltb_ge _ _)) by lia. }
  destruct fuel as [|fuel]; [simpl in Hf; lia|]. apply Forall_cons in Hls as [[Hl Hcr] Hls]. cbn [resp_headers fold_left].
  assert (Hlen : (0 < length l)%nat) by (destruct l; [done|simpl; lia]).
  assert (Hd2 : drop p s = l ++ CRLF ++ match ls with [] => CRLF ++ body | _ => join_crlf ls ++ CRLF2 ++ body end).
  { rewrite Hd. destruct ls; [done|]. rewrite join_crlf_cons. by rewrite <- !app_assoc. }
  assert (Hge : (length l <= length (join_crlf (l :: ls)))%nat).
  { destruct ls; [done|]. rewrite join_crlf_cons, length_app. lia. }
  rewrite (proj2 (Nat.ltb_lt _ _)) by lia. unfold find_crlf_from. rewrite Hd2, find_crlf_line by done. cbn [fmap option_fmap option_map].
  rewrite Nat.min_l by lia. replace (p + length l - p)%nat with (length l) by lia. rewrite take_app_length.
  destruct ls as [|l' ls].
  - destruct fuel; [done|]. cbn [resp_headers join_crlf]. by rewrite (proj2 (Nat.ltb_ge _ _)) by lia.
  - eapply IH; [done|simpl in *; lia| |].
    + replace (p + length l + 2)%nat with (p + (length l + 2))%nat by lia. rewrite <- drop_drop, Hd2, drop_app_ge by lia.
      by replace (length l + 2 - length l)%nat with 2%nat by lia.
    + rewrite join_crlf_cons, !length_app. simpl (length CRLF). lia.
Qed.

Lemma strtoull_length n : Z.of_nat n < 2 ^ 63 -> strtoull (drop_while is_blank (to_string (Z.of_nat n))) = Z.of_nat n.
Proof.
  intros Hn. assert (Hb : Forall (fun c => is_blank c = false) (to_string (Z.of_nat n))).
  { eapply Forall_impl; [apply to_string_chars|]. intros c Hc. unfold is_blank.
    destruct (c =c SP) eqn:E1; [by bool_facts; subst|]. destruct (c =c TAB) eqn:E2; [by bool_facts; subst|done]. }
  rewrite drop_while_none by done. unfold strtoull. rewrite <- (app_nil_r (to_string _)), parse_int10_to_string by done.
  rewrite (proj2 (Z.leb_gt _ _)) by lia. apply u64_id. unfold in_u64. lia.
Qed.

(** The status line, read with [atoi]. *)
Lemma status_code st x : known_status st ->
  exists sp, find_char SP (status_text st ++ x) = Some sp /\ i32 (strtoll (drop (sp + 1) (status_text st ++ x))) = st.
Proof.
  unfold known_status. rewrite !elem_of_cons, elem_of_nil. intros H.
  destruct_or!; try done; subst; exists 8%nat; (split; [reflexivity|reflexivity]).
Qed.

Definition framing : list bytes := [B "content-length"; B "Content-Length"; B "transfer-encoding"; B "Transfer-Encoding"].

Lemma resp_header_other k v st : ":"%char ∉ k -> k ∉ framing -> resp_header (hline k v) st = st.
Proof.
  intros Hk Hn. rewrite resp_header_hline by done. unfold framing in Hn. rewrite !not_elem_of_cons in Hn. destruct Hn as (? & ? & ? & ? & _).
  by rewrite !(bool_decide_eq_false_2 (k = _)) by done.
Qed.

Lemma resp_header_cl v st : resp_header (hline (B "content-length") v) st = (strtoull (drop_while is_blank v), snd st).
Proof. rewrite resp_header_hline by not_in. reflexivity. Qed.

Ltac key_out := apply (bool_decide_unpack (_ ∉ _)); vm_compute; exact I.

(** What the head of a reply announces. *)
Lemma reply_announces env r : reply_ok env r ->
  fold_left (fun st h => resp_header h st) (drop 1 (reply_lines env r)) (0, false) = (Z.of_nat (length (rp_body r)), false).
Proof.
  intros [Hs Hl Hc Ho Hb]. unfold reply_lines. cbn [app drop].
  destruct (rp_location r) as [l|]; cbn [fold_left]; rewrite resp_header_cl; rewrite !resp_header_other by key_out.
  - by destruct (Hl l eq_refl) as [_ ->].
  - by rewrite strtoull_length.
Qed.

(** The first bytes of a stream that hold the end of the first head. *)
Lemma whole_head ls body buf rest he : ls ≠ [] -> Forall clean_line ls -> find_sub CRLF2 buf = Some he ->
  buf ++ rest = join_crlf ls ++ CRLF2 ++ body -> he = length (join_crlf ls) /\ exists b, buf = join_crlf ls ++ CRLF2 ++ b /\ body = b ++ rest.
Proof.
  intros Hne Hls Hf Hb. pose proof (find_sub_app _ _ rest _ Hf) as Hf2. rewrite Hb, find_head in Hf2 by done. injection Hf2 as <-.
  split; [done|]. pose proof (find_sub_bound _ _ _ Hf) as Hlen. change (length CRLF2) with 4%nat in Hlen.
  exists (drop (length (join_crlf ls) + 4) buf). rewrite app_assoc in Hb.
  assert (H4 : length (join_crlf ls ++ CRLF2) = (length (join_crlf ls) + 4)%nat) by (rewrite length_app; done).
  assert (Ht : take (length (join_crlf ls) + 4) buf = join_crlf ls ++ CRLF2).
  { rewrite <- H4, <- (take_app_le buf rest) by lia. by rewrite Hb, take_app_length. }
  split; [by rewrite app_assoc, <- Ht, take_drop|]. rewrite <- drop_app_le by lia. by rewrite Hb, <- H4, drop_app_length.
Qed.

Lemma read_resp_reply fuel env r rest c c1 :
  reply_ok env r -> Forall (fun ch => ch ≠ []) (rc_feed c) -> Z.of_nat (length (write_reply env [] r)) < 2 ^ 63 ->
  rc_buf c ++ concat (rc_feed c) = write_reply env [] r ++ rest ->
  fill c 5 = (true, c1) -> is_Some (find_sub CRLF2 (rc_buf c1)) ->
  exists c', read_resp (S fuel) c = Code (rp_status r) c' /\ rc_buf c' ++ concat (rc_feed c') = rest /\
    Forall (fun ch => ch ≠ []) (rc_feed c') /\ exists d, rc_feed c = d ++ rc_feed c'.
Proof.
  intros Hr Hne Hlen Hs Hf [he Hhe]. cbn [read_resp]. rewrite Hf. cbn [negb]. rewrite Hhe.
  pose proof (reply_lines_clean env r Hr) as Hcl. pose proof Hr as [Hst Hl _ _ Hb].
  rewrite write_reply_lines in Hs, Hlen by (done || (unfold in_i64; lia)). set (bd := match rp_location r with Some _ => [] | None => rp_body r end) in *.
  assert (Hbd : bd = rp_body r) by (unfold bd; destruct (rp_location r) as [l|]; [by destruct (Hl l eq_refl) as [_ ->]|done]).
  set (J := join_crlf (reply_lines env r)) in *.
  destruct (status_text_eq _ Hst) as (_ & Hcst & _). set (tl := drop 1 (reply_lines env r)).
  assert (Htl : reply_lines env r = status_text (rp_status r) :: tl) by done.
  assert (HJ : J = status_text (rp_status r) ++ CRLF ++ join_crlf tl) by done.
  assert (Hctl : Forall clean_line tl) by by apply Forall_drop. clearbody tl.
  assert (Hpos : (0 < length J)%nat) by (rewrite HJ, length_app; destruct Hcst as [? _]; destruct (status_text _); [done|simpl; lia]).
  destruct (recv_fill_spec 5 (rc_feed c) (rc_buf c) Hne) as (c2 & F1 & F2 & _ & F4).
  { rewrite Hs, !length_app. change (length CRLF2) with 4%nat. lia. }
  unfold fill in Hf. rewrite F1 in Hf. injection Hf as <-. rewrite Hs, <- !app_assoc in F2.
  destruct (whole_head (reply_lines env r) (bd ++ rest) (rc_buf c2) (concat (rc_feed c2)) he) as (-> & b & Hbuf & Hbr); [by rewrite Htl|done|done|exact F2|].
  fold J in Hbuf |- *. assert (Hbuf' : rc_buf c2 = status_text (rp_status r) ++ CRLF ++ join_crlf tl ++ CRLF2 ++ b).
  { rewrite Hbuf, HJ. by rewrite <- !app_assoc. }
  destruct (status_code (rp_status r) (CRLF ++ join_crlf tl ++ CRLF2 ++ b) Hst) as (sp & Hsp & Hcode). rewrite <- Hbuf' in Hsp, Hcode.
  rewrite Hsp, Hcode. assert (find_sub CRLF (rc_buf c2) = Some (length (status_text (rp_status r)))) as -> by (rewrite Hbuf'; apply find_crlf_line, Hcst).
  rewrite (resp_headers_lines tl _ _ _ b); [|done| | |].
  2: { rewrite HJ, !length_app. pose proof (join_length tl Hctl). lia. }
  2: { rewrite Hbuf', drop_app_ge by lia. by replace (_ + 2 - _)%nat with 2%nat by lia. }
  2: { rewrite HJ, !length_app. simpl (length CRLF). lia. }
  pose proof (reply_announces env r Hr) as Ha. rewrite Htl in Ha. change (drop 1 (?x :: tl)) with tl in Ha. rewrite Ha, <- Hbd.
  rewrite !length_app in Hlen. change (length CRLF2) with 4%nat in Hlen.
  set (total := u64 _). assert (Htot : total = Z.of_nat (length (J ++ CRLF2 ++ bd))).
  { unfold total. rewrite u64_id by (unfold in_u64; lia). rewrite !length_app. change (length CRLF2) with 4%nat. lia. }
  destruct (recv_fill_spec total (rc_feed c2) (rc_buf c2) F4) as (c3 & G1 & G2 & G3 & G4).
  { rewrite F2, Htot, !length_app. lia. }
  destruct (fill_moves _ _ _ _ _ F1) as (d1 & E1 & _). destruct (fill_moves _ _ _ _ _ G1) as (d2 & E2 & _).
  unfold fill. rewrite G1. eexists. split; [done|]. cbn [erase rc_buf rc_feed]. split; [|split; [done|exists (d1 ++ d2); by rewrite <- app_assoc, <- E2]].
  rewrite <- drop_app_le by lia.
  rewrite G2, F2, Htot, Nat2Z.id. replace (J ++ CRLF2 ++ bd ++ rest) with ((J ++ CRLF2 ++ bd) ++ rest) by by rewrite <- !app_assoc.
  apply drop_app_length.
Qed.

(** The load generator reads what the server writes: from a stream that
    starts with any reply of write_reply, in whatever pieces it arrives as
    long as the first read brings the head whole, read_resp returns the
    status of the reply and leaves the connection at the first byte behind
    its body. *)
Theorem bench_reads_reply fuel env r rest c c1 :
  reply_ok env r -> Forall (fun ch => ch ≠ []) (rc_feed c) -> Z.of_nat (length (write_reply env [] r)) < 2 ^ 63 ->
  rc_buf c ++ concat (rc_feed c) = write_reply env [] r ++ rest ->
  fill c 5 = (true, c1) -> is_Some (find_sub CRLF2 (rc_buf c1)) ->
  exists c', read_resp (S fuel) c = Code (rp_status r) c' /\ rc_buf c' ++ concat (rc_feed c') = rest.
Proof.
  intros H1 H2 H3 H4 H5 H6. destruct (read_resp_reply fuel env r rest c c1 H1 H2 H3 H4 H5 H6) as (c' & ? & ? & _). by exists c'.
Qed.

Definition no_env : Env := fun _ => None.
Definition demo_reply : Reply := redirect (B "https://a.b/c").
Definition demo_conn : RConn := mkRConn [] [write_reply no_env [] demo_reply ++ B "HT"; B "TP"].

Lemma demo_reply_ok : reply_ok no_env demo_reply.
Proof. split; [by apply (bool_decide_unpack (_ ∈ _))|by intros l [= <-]; split; [not_in|]|done|not_in|done]. Qed.

Lemma bench_reads_reply_witness : exists c', read_resp 1 demo_conn = Code 302 c' /\ rc_buf c' ++ concat (rc_feed c') = B "HTTP".
Proof.
  eapply (bench_reads_reply 0 no_env demo_reply (B "HTTP") demo_conn _ demo_reply_ok).
  - apply Forall_cons. split; [vm_compute; discriminate|]. apply Forall_cons. split; [vm_compute; discriminate|]. constructor.
  - vm_compute. reflexivity.
  - vm_compute. reflexivity.
  - vm_compute. reflexivity.
  - vm_compute. by eexists.
Defined.

(** ** A head in two pieces *)

(** With five bytes in the buffer and no end of a head among them the loop
    does not receive again: it goes round without end. *)
Lemma read_resp_spins c : 5 <= Z.of_nat (length (rc_buf c)) -> find_sub CRLF2 (rc_buf c) = None -> forall fuel, read_resp fuel c = Spin.
Proof.
  intros Hn Hf fuel. induction fuel as [|fuel IH]; [done|]. cbn [read_resp].
  assert (fill c 5 = (true, c)) as ->; [|cbn [negb]; by rewrite Hf].
  unfold fill. destruct c as [buf [|ch feed]]; cbn [rc_buf rc_feed fill_loop] in *; by rewrite (proj2 (Z.ltb_ge _ _)) by lia.
Qed.

Example split_head_spins : forall fuel,
  read_resp fuel (let s := write_reply no_env [] demo_reply in mkRConn (take 40 s) [drop 40 s]) = Spin.
Proof. apply read_resp_spins; vm_compute; [discriminate|reflexivity]. Qed.
