(* ===== verification/BenchRun.v ===== *)
(** * The load generator's run against the server (bench.cpp)

    The requests of bench.cpp, [make_codes], which makes the links a run
    visits, and the thread of [blast], which visits them. The other end of
    the socket is an argument: for the bytes of a [send] it says what [send]
    returns and which bytes come back; another argument says into which
    pieces [recv] cuts the bytes that come back, those of all replies of a
    round of the pipeline together. The claim puts server.cpp, app.cpp and a
    store there: every link is made and every request of the measurement is
    counted as answered with its redirect. *)

From S2P Require Import Prelude CLib Common Codec Float Json Aof Metrics RateLimit Store StoreFacts StoreSpec StoreClaims App AppFacts AppClaims Server ServerFacts ServerClaims Bench.

(** ** Requests *)
Definition get_req (path : bytes) : bytes := B "GET " ++ path ++ B " HTTP/1.1" ++ CRLF ++ B "Host: x" ++ CRLF ++ CRLF.
Definition post_req (path body : bytes) : bytes :=
  B "POST " ++ path ++ B " HTTP/1.1" ++ CRLF ++ B "Host: x" ++ CRLF ++ B "content-type: application/json" ++ CRLF ++
  B "content-length: " ++ to_string (Z.of_nat (length body)) ++ CRLF ++ CRLF ++ body.

Definition alias_code (i : nat) : bytes := B "bk" ++ to_string (Z.of_nat i).
Definition alias_url (i : nat) : bytes := B "https://bench.example/" ++ to_string (Z.of_nat i).
Definition alias_body (i : nat) : bytes :=
  Q "{'url':'" ++ alias_url i ++ Q "','alias':'" ++ alias_code i ++ Q "'}".
Definition alias_req (i : nat) : bytes := post_req (B "/api/shorten") (alias_body i).

Section Client.
Context {S : Type} (deliver : bytes -> S -> Z * bytes * S) (cut : bytes -> list bytes).

(** ** [make_codes] *)

(** [SeedFailed]: the process prints the status and exits. *)
Inductive SeedRes := Seeded (codes : list bytes) (s : S) | SeedFailed (status : Z) (s : S) | SeedSpin.

Fixpoint make_codes_loop (fuel : nat) (l : list nat) (codes : list bytes) (rc : RConn) (s : S) : SeedRes :=
  match l with
  | [] => Seeded codes s
  | i :: l =>
      let '(_, out, s) := deliver (alias_req i) s in
      match read_resp fuel (mkRConn (rc_buf rc) (rc_feed rc ++ cut out)) with
      | Code status rc =>
          if negb (status =? 201) then SeedFailed status s
          else make_codes_loop fuel l (codes ++ [alias_code i]) rc s
      | Fail _ => SeedFailed (-1) s
      | Spin => SeedSpin
      end
  end.
Definition make_codes (fuel n : nat) (s : S) : SeedRes := make_codes_loop fuel (seq 0 n) [] (mkRConn [] []) s.

(** ** A thread of [blast] *)
Record Tally := mkTally { t_total : Z; t_non2xx : Z; t_errs : Z }.
Definition add_err (t : Tally) : Tally := mkTally (t_total t) (t_non2xx t) (t_errs t + 1).
Definition add_code (code : Z) (t : Tally) : Tally :=
  if (code <? 200) || (400 <=? code) then mkTally (t_total t) (t_non2xx t + 1) (t_errs t) else t.

(** The sends of a round: how many went out, the next request, and the bytes
    under way to the client. *)
Fixpoint send_batch (k : nat) (reqs : list bytes) (i batch : nat) (out : bytes) (s : S) (t : Tally)
  : nat * nat * bytes * S * Tally :=
  match k with
  | O => (i, batch, out, s, t)
  | Datatypes.S k =>
      let '(w, o, s) := deliver (nth i reqs []) s in
      if w <? 0 then (i, batch, out ++ o, s, add_err t)
      else send_batch k reqs (Nat.modulo (i + 1) (length reqs)) (batch + 1) (out ++ o) s t
  end.

(** The replies of a round; [None] when read_resp does not return. *)
Fixpoint read_batch (fuel todo got : nat) (rc : RConn) (t : Tally) : option (nat * RConn * Tally) :=
  match todo with
  | O => Some (got, rc, t)
  | Datatypes.S todo =>
      match read_resp fuel rc with
      | Spin => None
      | Fail rc => Some (got, rc, add_err t)
      | Code code rc => if code <? 0 then Some (got, rc, add_err t) else read_batch fuel todo (got + 1) rc (add_code code t)
      end
  end.

(** [rounds]: how often the clock is found before the deadline. *)
Fixpoint blast_rounds (fuel rounds pipe : nat) (reqs : list bytes) (i : nat) (rc : RConn) (s : S) (t : Tally) : option (Tally * S) :=
  match rounds with
  | O => Some (t, s)
  | Datatypes.S rounds =>
      let '(i, batch, out, s, t) := send_batch pipe reqs i 0 [] s t in
      if (batch =? 0)%nat then Some (t, s)
      else
        match read_batch fuel batch 0 (mkRConn (rc_buf rc) (rc_feed rc ++ cut out)) t with
        | None => None
        | Some (got, rc, t) =>
            if (got =? 0)%nat then Some (t, s)
            else blast_rounds fuel rounds pipe reqs i rc s (mkTally (t_total t + Z.of_nat got) (t_non2xx t) (t_errs t))
        end
  end.

(** Thread [c]. *)
Definition blast_thread (fuel rounds pipe c : nat) (reqs : list bytes) (s : S) : option (Tally * S) :=
  blast_rounds fuel rounds pipe reqs (Nat.modulo c (length reqs)) (mkRConn [] []) s (mkTally 0 0 0).

(** ** How the replies arrive *)
Context (env : Env).
Definition wr (rp : Reply) : bytes := write_reply env [] rp.

(** A reply the reader can take. *)
Definition readable (rp : Reply) : Prop := reply_ok env rp /\ len_ok (wr rp).

(** The pieces are not empty and lose nothing. *)
Record cuts (cut : bytes -> list bytes) : Prop := {
  cut_all s : concat (cut s) = s;
  cut_some s : Forall (fun p => p ≠ []) (cut s)
}.

(** No piece ends inside the head of a reply, but for its first four bytes:
    if all pieces up to some one hold the first [j] replies and the bytes
    [x] of the next, then [x] is shorter than five bytes or holds the end of
    the head. *)
Definition heads_whole (cut : bytes -> list bytes) : Prop := forall rps a b j x,
  Forall readable rps -> cut (concat (map wr rps)) = a ++ b ->
  concat a = concat (map wr (take j rps)) ++ x -> (length x < length (nth j (map wr rps) []))%nat ->
  (length x < 5)%nat \/ is_Some (find_sub CRLF2 x).

Context (fuel : nat) (Hcut : cuts cut) (Hheads : heads_whole cut).

Lemma status_long st : 5 <= Z.of_nat (length (status_line st)).
Proof. unfold status_line. repeat case_if; vm_compute; discriminate. Qed.

Lemma readable_head rp : readable rp -> is_Some (find_sub CRLF2 (wr rp)) /\ (5 <= length (wr rp))%nat.
Proof.
  intros [Hr _]. pose proof (reply_lines_clean env rp Hr) as Hc. split.
  - unfold wr. rewrite write_reply_lines by (apply Hr || (pose proof (ro_body _ _ Hr); unfold in_i64; lia)). rewrite find_head; [by eexists|by destruct rp|done].
  - unfold wr, write_reply. pose proof (status_long (rp_status rp)). destruct (rp_location rp); unfold itoa; rewrite !length_app; lia.
Qed.

(** The reader is behind the replies [ds]; [rps] are to come. *)
Record reading (ds rps : list Reply) (c : RConn) : Prop := {
  rd_ok : Forall readable (ds ++ rps);
  rd_at : exists a, cut (concat (map wr (ds ++ rps))) = a ++ rc_feed c /\ concat a = concat (map wr ds) ++ rc_buf c
}.

Lemma reading_start rps : Forall readable rps -> reading [] rps (mkRConn [] (cut (concat (map wr rps)))).
Proof. intros H. split; [done|]. by exists []. Qed.

Lemma reading_rest ds rps c : reading ds rps c -> rc_buf c ++ concat (rc_feed c) = concat (map wr rps) /\ Forall (fun p => p ≠ []) (rc_feed c).
Proof.
  intros [_ (a & H1 & H2)]. split.
  - pose proof (cut_all _ Hcut (concat (map wr (ds ++ rps)))) as H. rewrite H1, concat_app, H2, map_app, concat_app, <- app_assoc in H.
    by apply app_inv_head in H.
  - pose proof (cut_some _ Hcut (concat (map wr (ds ++ rps)))) as H. rewrite H1 in H. by apply Forall_app in H as [_ H].
Qed.

Lemma reading_end ds c : reading ds [] c -> c = mkRConn [] [].
Proof.
  intros H. destruct (reading_rest _ _ _ H) as [H1 H2]. destruct c as [buf feed]. cbn [rc_buf rc_feed map concat] in *.
  apply app_eq_nil in H1 as [-> H1]. destruct feed as [|ch feed]; [done|]. apply Forall_cons in H2 as [H2 _]. by destruct ch.
Qed.

(** One reply is read. *)
Lemma reading_next ds rp rps c : reading ds (rp :: rps) c ->
  exists c', read_resp (Datatypes.S fuel) c = Code (rp_status rp) c' /\ reading (ds ++ [rp]) rps c'.
Proof.
  intros H. destruct (reading_rest _ _ _ H) as [Hrest Hne]. destruct H as [Hok (a & Ha1 & Ha2)].
  assert (Hrp : readable rp) by (rewrite Forall_app, Forall_cons in Hok; tauto). destruct (readable_head rp Hrp) as [Hh H5].
  cbn [map concat] in Hrest. destruct (recv_fill_spec 5 (rc_feed c) (rc_buf c) Hne) as (c1 & F1 & F2 & F3 & _).
  { rewrite Hrest, length_app. lia. }
  destruct (fill_moves _ _ _ _ _ F1) as (d & E1 & E2).
  assert (Hhead : is_Some (find_sub CRLF2 (rc_buf c1))).
  { destruct (decide (length (rc_buf c1) < length (wr rp))%nat) as [Hlt|Hge].
    - destruct (Hheads (ds ++ rp :: rps) (a ++ d) (rc_feed c1) (length ds) (rc_buf c1)) as [Hx|Hx]; [done|..|lia|done].
      + by rewrite Ha1, E1, app_assoc.
      + by rewrite take_app_length, concat_app, Ha2, E2, <- app_assoc.
      + rewrite map_app, app_nth2 by (rewrite length_map; lia). rewrite length_map, Nat.sub_diag. cbn [map nth]. lia.
    - destruct Hh as [k Hk]. assert (Hp : rc_buf c1 = wr rp ++ drop (length (wr rp)) (rc_buf c1)).
      { rewrite <- (take_drop (length (wr rp)) (rc_buf c1)) at 1. f_equal. rewrite <- (take_app_le _ (concat (rc_feed c1))) by lia.
        by rewrite F2, Hrest, take_app_length. }
      rewrite Hp. exists k. by apply find_sub_app. }
  destruct Hrp as [Hr Hl]. destruct (read_resp_reply fuel env rp (concat (map wr rps)) c c1 Hr Hne Hl Hrest F1 Hhead) as (c' & R1 & R2 & _ & d' & R4).
  exists c'. split; [exact R1|]. split; [by rewrite <- app_assoc|]. exists (a ++ d'). rewrite <- (app_assoc ds). cbn [app]. split.
  - by rewrite Ha1, R4, app_assoc.
  - pose proof (cut_all _ Hcut (concat (map wr (ds ++ rp :: rps)))) as H. rewrite Ha1, R4, app_assoc, concat_app, (map_app wr ds), (concat_app (map wr ds)) in H.
    cbn [map concat] in H. rewrite <- R2 in H. rewrite map_app, (concat_app (map wr ds)). cbn [map concat]. rewrite app_nil_r.
    apply (app_inv_tail (concat (rc_feed c'))). rewrite H. by rewrite <- !app_assoc.
Qed.

(** ** A server that answers every request *)
Context (Inv : S -> Prop) (reqs : list bytes).
Hypothesis answered : forall r s, r ∈ reqs -> Inv s ->
  exists w rp s', deliver r s = (w, wr rp, s') /\ 0 <= w /\ readable rp /\ 200 <= rp_status rp < 400 /\ Inv s'.
Hypothesis some_reqs : reqs ≠ [].

Lemma send_batch_answered k : forall i batch out s t, Inv s -> (i < length reqs)%nat ->
  exists i' s' rps, send_batch k reqs i batch out s t = (i', (batch + k)%nat, out ++ concat (map wr rps), s', t) /\
    Inv s' /\ (i' < length reqs)%nat /\ length rps = k /\ Forall readable rps /\ Forall (fun rp => 200 <= rp_status rp < 400) rps.
Proof.
  assert (Hl : length reqs ≠ 0%nat) by by destruct reqs.
  induction k as [|k IH]; intros i batch out s t Hs Hi; cbn [send_batch].
  { exists i, s, []. cbn [map concat length]. by rewrite app_nil_r, Nat.add_0_r. }
  destruct (answered (nth i reqs []) s) as (w & rp & s' & -> & Hw & Hp & Hst & Hs'); [|done|].
  { apply list_elem_of_In, nth_In. lia. }
  rewrite (proj2 (Z.ltb_ge _ _)) by done.
  destruct (IH (Nat.modulo (i + 1) (length reqs)) (batch + 1)%nat (out ++ wr rp) s' t Hs') as (i' & s2 & rps & -> & H1 & H2 & H3 & H4 & H5);
    [by apply Nat.mod_upper_bound|].
  exists i', s2, (rp :: rps). cbn [map concat length]. rewrite <- app_assoc. split_and!; [do 4 f_equal; lia|done|done|lia|by constructor..].
Qed.

Lemma read_batch_answered rps : forall ds c got t, reading ds rps c -> Forall (fun rp => 200 <= rp_status rp < 400) rps ->
  read_batch (Datatypes.S fuel) (length rps) got c t = Some ((got + length rps)%nat, mkRConn [] [], t).
Proof.
  induction rps as [|rp rps IH]; intros ds c got t H Hst; cbn [read_batch length].
  { rewrite (reading_end _ _ H). by rewrite Nat.add_0_r. }
  apply Forall_cons in Hst as [Hs Hst]. destruct (reading_next _ _ _ _ H) as (c' & -> & H'). rewrite (proj2 (Z.ltb_ge _ _)) by lia.
  assert (add_code (rp_status rp) t = t) as ->.
  { unfold add_code. rewrite (proj2 (Z.ltb_ge _ _)), (proj2 (Z.leb_gt _ _)) by lia. done. }
  rewrite (IH _ _ _ _ H' Hst). do 3 f_equal. lia.
Qed.

(** Every request is counted, none as an error. *)
Lemma blast_answered rounds pipe c s : (0 < pipe)%nat -> Inv s ->
  exists s', blast_thread (Datatypes.S fuel) rounds pipe c reqs s = Some (mkTally (Z.of_nat (rounds * pipe)) 0 0, s') /\ Inv s'.
Proof.
  intros Hp. assert (H : forall i s n, Inv s -> (i < length reqs)%nat ->
    exists s', blast_rounds (Datatypes.S fuel) rounds pipe reqs i (mkRConn [] []) s (mkTally n 0 0) = Some (mkTally (n + Z.of_nat (rounds * pipe)) 0 0, s') /\ Inv s').
  { induction rounds as [|rounds IH]; intros i s0 n Hs Hi; cbn [blast_rounds].
    { exists s0. by rewrite Nat.mul_0_l, Z.add_0_r. }
    destruct (send_batch_answered pipe i 0 [] s0 (mkTally n 0 0) Hs Hi) as (i' & s1 & rps & -> & H1 & H2 & H3 & H4 & H5).
    rewrite (proj2 (Nat.eqb_neq _ _)) by lia. cbn [app rc_buf rc_feed]. rewrite Nat.add_0_l, <- H3.
    rewrite (read_batch_answered rps [] _ _ _ (reading_start _ H4) H5).
    rewrite (proj2 (Nat.eqb_neq _ _)) by lia. cbn [t_total t_non2xx t_errs].
    rewrite H3. destruct (IH i' s1 (n + Z.of_nat (0 + pipe)) H1 H2) as (s' & H6 & H7). exists s'. split; [|done]. rewrite H6. do 3 f_equal. lia. }
  intros Hs. destruct (H (Nat.modulo c (length reqs)) s 0 Hs) as (s' & H1 & H2); [apply Nat.mod_upper_bound; by destruct reqs|]. by exists s'.
Qed.
End Client.

(** The lengths of the literals. *)
Ltac lits := repeat match goal with
  | |- context [length (B ?s)] => let n := eval vm_compute in (length (B s)) in change (length (B s)) with n
  | |- context [length (Q ?s)] => let n := eval vm_compute in (length (Q s)) in change (length (Q s)) with n
  | |- context [length CRLF] => change (length CRLF) with 2%nat
  end.

(** ** The requests are understood *)

Lemma digits_free z x : isdigit x || (x =c "-") = false -> x ∉ to_string z.
Proof. intros Hx Hin. pose proof (to_string_chars z) as H. rewrite Forall_forall in H. specialize (H x Hin). congruence. Qed.

Lemma index_length i : Z.of_nat i < 2 ^ 31 -> (length (to_string (Z.of_nat i)) <= 18)%nat.
Proof. intros Hi. apply to_string_length; [lia|]. lia. Qed.

Lemma alias_code_ok i : Z.of_nat i < 2 ^ 31 -> code_ok (alias_code i) = true.
Proof.
  intros Hi. apply code_ok_spec. unfold alias_code. rewrite length_app. pose proof (index_length i Hi). split; [done|]. split; [simpl; lia|].
  apply Forall_app. split; [repeat constructor|]. eapply Forall_impl; [apply to_string_chars|]. intros c Hc. unfold code_char, isalnum.
  apply orb_true_iff in Hc as [-> | ->]; by rewrite ?orb_true_r.
Qed.

Lemma alias_code_inj i j : alias_code i = alias_code j -> i = j.
Proof. intros H. apply app_inv_head, to_string_inj in H. lia. Qed.

Lemma alias_url_valid i : Z.of_nat i < 2 ^ 31 -> is_valid_url (alias_url i) = true.
Proof.
  intros Hi. pose proof (index_length i Hi). unfold is_valid_url, len. apply andb_true_iff. split.
  - apply negb_true_iff, orb_false_iff. split; [done|]. apply Z.ltb_ge. unfold alias_url. rewrite length_app. simpl. lia.
  - reflexivity.
Qed.

Lemma quote_plain s : dq ∉ s -> bslash ∉ s -> quote s = dq :: s ++ [dq].
Proof.
  intros Hd Hb. unfold quote. assert (concat (map jesc1 s) = s) as ->; [|done]. induction s as [|c s IH]; [done|].
  apply not_elem_of_cons in Hd as [Hd1 Hd], Hb as [Hb1 Hb]. cbn [map concat]. rewrite IH by done. unfold jesc1.
  by rewrite !eqc_ne by congruence.
Qed.

(** The body is the JSON it is meant to be. *)
Lemma alias_body_json i : Z.of_nat i < 2 ^ 31 ->
  jparse (alias_body i) = Some (OBJ [(B "url", STR (alias_url i)); (B "alias", STR (alias_code i))]).
Proof.
  intros Hi. trans (jparse (render (VObj [(B "url", VStr (alias_url i)); (B "alias", VStr (alias_code i))]))); [|apply render_jparse].
  f_equal. cbn [render map fst snd commas]. rewrite (quote_code (alias_code i)) by by apply alias_code_ok.
  rewrite (quote_plain (alias_url i)).
  - unfold alias_body. repeat (rewrite <- !app_assoc; simpl). done.
  - unfold alias_url. rewrite not_elem_of_app. split; [not_in|by apply digits_free].
  - unfold alias_url. rewrite not_elem_of_app. split; [not_in|by apply digits_free].
Qed.

Definition host_line : bytes := hline (B "Host") (B "x").
Definition post_lines (body : bytes) : list bytes :=
  [host_line; hline (B "content-type") (B "application/json"); hline (B "content-length") (to_string (Z.of_nat (length body)))].

Lemma get_req_lines path : get_req path = join_crlf (http11 (B "GET") path :: [host_line]) ++ CRLF2 ++ [].
Proof. unfold get_req, http11. simpl join_crlf. repeat (rewrite <- !app_assoc; simpl). done. Qed.

Lemma post_req_lines path body : post_req path body = join_crlf (http11 (B "POST") path :: post_lines body) ++ CRLF2 ++ body.
Proof. unfold post_req, post_lines, http11, hline. simpl join_crlf. repeat (rewrite <- !app_assoc; simpl). done. Qed.

Lemma get_understood path rest : SP ∉ path -> CR ∉ path -> len_ok (get_req path) ->
  let ri := parse_req (get_req path ++ rest) 0 in
  ri_total ri = Z.of_nat (length (get_req path)) /\ ri_method ri = B "GET" /\ ri_path ri = path /\ ri_admin ri = [] /\ ri_xff ri = [] /\
  ri_alive ri = true /\ ri_body_len ri = 0 /\ request_body ri (get_req path ++ rest) = [].
Proof.
  rewrite get_req_lines. intros Hs Hc Hl. apply parse_req_lines; try done; [not_in|].
  constructor; [apply http11_clean; [not_in|done]|]. constructor; [apply hline_clean; [done|not_in|not_in]|constructor].
Qed.

Lemma post_understood path body rest : SP ∉ path -> CR ∉ path -> len_ok (post_req path body) ->
  let ri := parse_req (post_req path body ++ rest) 0 in
  ri_total ri = Z.of_nat (length (post_req path body)) /\ ri_method ri = B "POST" /\ ri_path ri = path /\ ri_admin ri = [] /\ ri_xff ri = [] /\
  ri_alive ri = true /\ ri_body_len ri = Z.of_nat (length body) /\ request_body ri (post_req path body ++ rest) = body.
Proof.
  rewrite post_req_lines. intros Hs Hc Hl. pose proof (to_string_trimmed (Z.of_nat (length body))) as Ht.
  assert (Hi : in_i64 (Z.of_nat (length body))) by (unfold len_ok in Hl; rewrite !length_app in Hl; unfold in_i64; lia).
  assert (Hf : fold_left (fun h l => header l h) (post_lines body) (mkHeads 0 true [] []) = mkHeads (Z.of_nat (length body)) true [] []).
  { unfold post_lines. cbn [fold_left]. rewrite header_cl_line by done. change (header host_line ?h) with h.
    change (header (hline (B "content-type") ?v) ?h) with h. cbn [hd_alive hd_admin hd_xff].
    rewrite <- (app_nil_r (to_string _)), strtoll_to_string, u64_id by (done || (unfold in_u64, in_i64 in *; lia)). done. }
  pose proof (parse_req_lines (B "POST") path (post_lines body) body rest) as H. cbv zeta in H. rewrite Hf in H.
  apply H; try done; [not_in|]. constructor; [apply http11_clean; [not_in|done]|].
  repeat (constructor; [apply hline_clean; [done|not_in|]|]); try not_in; [apply Ht|constructor].
Qed.

(** ** The server at the other end *)

(** A store that always answers when the code is given. *)
Class StoreAnswers (W : Type) {api : StoreApi W} {os : Os} {laws : StoreLaws W os} := {
  an_shorten u c ttl w : st_ok w -> code_ok c = true -> exists r w', st_shorten u (Some c) ttl w = Ret r w';
  an_resolve c w : st_ok w -> exists r w', st_resolve c w = Ret r w'
}.

#[export] Instance log_answers {std : StdImpl} os env fuel : StoreAnswers World (api := log_store os env fuel) (laws := log_laws os env fuel).
Proof.
  split; intros; simpl; [|unfold ret; by eexists _, _].
  unfold shorten. destruct (now_ms os _). destruct (find _ _); unfold of_outcome; by eexists _, _.
Qed.

Section Server.
Context {W : Type} {api : StoreApi W} {cast : CastImpl}.
Context (os : Os) (env : Env) (ui_html peer : bytes) (send : nat -> Z).
Context {laws : StoreLaws W os} {ans : StoreAnswers W}.
Context (cut_in cut_out : bytes -> list bytes) (fuel : nat).
Context (Hin : cuts cut_in) (Hout : cuts cut_out) (Hheads : heads_whole env cut_out).
Context (Hsend : no_io_error send) (Hcors : CR ∉ cors_origin env /\ Z.of_nat (length (cors_origin env)) < 2 ^ 32).

(** The thread of a connection of server.cpp takes what arrives, in the
    pieces of its own [recv]; what it sends comes back. *)
Definition serve_bytes (r : bytes) (ca : Conn * App W) : Z * bytes * (Conn * App W) :=
  let ca' := conn_loop os env ui_html peer send (map Data (cut_in r)) ca in
  (Z.of_nat (length r), drop (length (c_sent (fst ca))) (c_sent (fst ca')), ca').

(** A connection between two requests, on a server without a rate limit. *)
Definition ready (ca : Conn * App W) : Prop :=
  c_state (fst ca) = Open /\ c_buf (fst ca) = [] /\ st_ok (a_store (snd ca)) /\ limiter_off (snd ca).
Definition table_of (ca : Conn * App W) : gmap bytes (bytes * Z) := st_table (a_store (snd ca)).

(** One request that is understood and handled. *)
Lemma serve_one m p body q ca rp a1 : ready ca -> len_ok q ->
  (let ri := parse_req q 0 in
   ri_total ri = Z.of_nat (length q) /\ ri_method ri = m /\ ri_path ri = p /\ ri_admin ri = [] /\ ri_xff ri = [] /\
   ri_alive ri = true /\ ri_body_len ri = Z.of_nat (length body) /\ request_body ri q = body) ->
  q ≠ [] -> Z.of_nat (length body) <= MAX_BODY ->
  handle os env ui_html m p body [] (client_ip env [] peer) (snd ca) = Replied rp a1 ->
  exists c1, serve_bytes q ca = (Z.of_nat (length q), wr env rp, (c1, a1)) /\ c_state c1 = Open /\ c_buf c1 = [].
Proof.
  destruct ca as [c a]. cbn [fst snd]. intros (R1 & R2 & _) Hl (H1 & H2 & H3 & H4 & H5 & H6 & H7 & H8) Hne Hb Hh. cbn [fst snd] in *.
  assert (Hq : (0 < length q)%nat) by (destruct q; [done|simpl; lia]). unfold len_ok in Hl.
  assert (E : process_buf os env ui_html peer q [] a = mkRun Incomplete (length q) (write_reply env [] rp) a1).
  { rewrite process_buf_step. cbv zeta. rewrite H1, H2, H3, H4, H5, H6, H7, H8.
    rewrite (proj2 (Z.eqb_neq _ _)) by lia. rewrite (proj2 (Z.eqb_neq _ _)) by (unfold SIZE_MAX; lia).
    assert (needs_body m && (body_limit p <? Z.of_nat (length body)) = false) as ->.
    { apply andb_false_iff. right. apply Z.ltb_ge. unfold body_limit, MAX_BULK_BODY, MAX_BODY in *. case_if; lia. }
    rewrite Hh, Nat2Z.id, drop_all. unfold run_shift. rewrite process_buf_step. cbv zeta. rewrite parse_req_nil. simpl. by rewrite Nat.add_0_r. }
  destruct (conn_loop_chunks os env ui_html peer send (cut_in q) c a (process_buf os env ui_html peer q [] a) Hsend R1 (cut_some _ Hin q))
    as (c1 & K1 & K2 & K3 & K4); rewrite ?R2, ?(cut_all _ Hin); try done.
  - by rewrite E; left.
  - exists c1. unfold serve_bytes. cbn [fst]. rewrite E in *. rewrite K1. cbn [fst]. rewrite K2. cbn [r_out r_app fst r_stop r_parsed] in *.
    rewrite drop_app_length. split; [done|]. split; [done|]. rewrite (K4 eq_refl), R2, (cut_all _ Hin). apply drop_all.
Qed.

(** The store as the handlers find it has its table. *)
Lemma ticked_ok (a : App W) : st_ok (a_store a) ->
  let w := a_store (app_tick os a) in
  st_ok w /\ st_table w = st_table (a_store a) /\ (k_clock (st_sys (a_store a)) <= k_clock (st_sys w))%nat /\
  st_ok (st_with_sys (st_sys w) w) /\ st_table (st_with_sys (st_sys w) w) = st_table (a_store a).
Proof.
  intros Ha w. unfold w. destruct (app_tick_store os a) as (-> & _). rewrite law_sys.
  destruct (law_clock (snd (now_ms os (st_sys (a_store a)))) (a_store a) Ha) as [H1 E1]; [simpl; lia|].
  set (w1 := st_with_sys _ (a_store a)) in *. assert (st_sys w1 = snd (now_ms os (st_sys (a_store a)))) as Es by apply law_sys.
  destruct (law_clock (snd (now_ms os (st_sys (a_store a)))) w1 H1) as [H2 E2]; [by rewrite Es|]. rewrite E2, E1. split_and!; try done. simpl. lia.
Qed.

Lemma alias_req_small i : Z.of_nat i < 2 ^ 31 -> len_ok (alias_req i) /\ Z.of_nat (length (alias_body i)) <= 100.
Proof.
  intros Hi. pose proof (index_length i Hi) as H.
  assert (Hb : Z.of_nat (length (alias_body i)) <= 100) by (unfold alias_body, alias_url, alias_code; rewrite !length_app; simpl; lia).
  split; [|done]. unfold len_ok, alias_req, post_req. rewrite !length_app.
  assert (length (to_string (Z.of_nat (length (alias_body i)))) <= 3)%nat by (apply to_string_length; lia). lits. lia.
Qed.

Lemma cors_small : Z.of_nat (length (cors_block env)) < 2 ^ 33.
Proof. destruct Hcors as [_ H]. unfold cors_block. rewrite !length_app. lits. lia. Qed.

Lemma created_ok code : code_ok code = true -> reply_ok env (created_reply code) /\ len_ok (write_reply env [] (created_reply code)).
Proof.
  intros Hc. apply code_ok_spec in Hc as (_ & Hl & _). pose proof cors_small as Hs.
  assert (Hb : Z.of_nat (length (rp_body (created_reply code))) <= 1000) by (unfold created_reply, mk; cbn [rp_body]; rewrite !length_app; lits; lia).
  split.
  - split; [by apply (bool_decide_unpack (_ ∈ _))|by intros l [=]|by intros l [=]|apply Hcors|lia].
  - unfold len_ok, write_reply. change (rp_location (created_reply code)) with (@None bytes). cbv iota.
    rewrite itoa_to_string by (unfold in_i64; lia). change (status_line (rp_status (created_reply code))) with (B "HTTP/1.1 201 Created" ++ CRLF).
    change (default (B "application/json") (rp_ctype (created_reply code))) with (B "application/json").
    assert (length (to_string (Z.of_nat (length (rp_body (created_reply code))))) <= 4)%nat by (apply to_string_length; lia).
    rewrite !length_app. lits. change (length (@nil ascii)) with 0%nat. lia.
Qed.

Lemma redirect_ok u : CR ∉ u -> Z.of_nat (length u) < 2 ^ 32 -> reply_ok env (redirect u) /\ len_ok (write_reply env [] (redirect u)).
Proof.
  intros Hu Hl. pose proof cors_small as Hs. split.
  - split; [by apply (bool_decide_unpack (_ ∈ _))|by intros l [= <-]|by intros l [=]|apply Hcors|done].
  - unfold len_ok, write_reply. change (rp_location (redirect u)) with (Some u). cbv iota.
    change (status_line (rp_status (redirect u))) with (B "HTTP/1.1 302 Found" ++ CRLF).
    rewrite !length_app. lits. change (length (@nil ascii)) with 0%nat. lia.
Qed.

(** A link of the run is made. *)
Lemma seed_step i ca : ready ca -> Z.of_nat i < 2 ^ 31 -> table_of ca !! alias_code i = None ->
  exists w rp ca' k, serve_bytes (alias_req i) ca = (w, wr env rp, ca') /\ readable env rp /\ rp_status rp = 201 /\ ready ca' /\
    table_of ca' = <[alias_code i := (alias_url i, expiry (i64 (os_clock os k)) (link_ttl_ms env))]> (table_of ca).
Proof.
  intros Hr Hi Hn. pose proof Hr as (_ & _ & Hok & Hoff). destruct (ticked_ok (snd ca) Hok) as (_ & _ & Hk & T1 & T2).
  set (w := a_store (app_tick os (snd ca))) in *. pose proof (alias_code_ok i Hi) as Hc.
  destruct (an_shorten (alias_url i) (alias_code i) (link_ttl_ms env) _ T1 Hc) as (r & w' & Es).
  apply law_shorten in Es as Hr'; [|exact T1|by intros c [= <-]]. destruct Hr' as [Hok' Hr']. rewrite T2 in Hr'.
  destruct r as [c|]; [|by destruct Hr' as ((c & [= <-] & [x Hx]) & _); unfold table_of in Hn; rewrite Hn in Hx].
  destruct Hr' as (_ & Hal & now & (k & _ & ->) & Htab). assert (c = alias_code i) as -> by (destruct Hal as [[=]|[[=] _]]; done).
  destruct (handle_shorten os env ui_html (alias_body i) [] (client_ip env [] peer) (snd ca) _ (alias_url i) (Some (alias_code i))
    (link_ttl_ms env) (alias_code i) w' Hoff (alias_body_json i Hi) eq_refl (alias_url_valid i Hi)) as (a1 & Eh & Ea & El); [| |exact Es|].
  { unfold post_alias. change (jfind _ _) with (Some (STR (alias_code i))). cbv iota. by rewrite Hc. }
  { reflexivity. }
  destruct (alias_req_small i Hi) as [Hl Hb].
  destruct (serve_one (B "POST") (B "/api/shorten") (alias_body i) (alias_req i) ca (created_reply (alias_code i)) a1 Hr Hl) as (c1 & E & S1 & S2); [| |unfold MAX_BODY; lia|exact Eh|].
  { pose proof (post_understood (B "/api/shorten") (alias_body i) [] ltac:(not_in) ltac:(not_in) Hl) as H. by rewrite app_nil_r in H. }
  { done. }
  destruct (created_ok (alias_code i) Hc) as [Hro Hrl]. eexists _, _, (c1, a1), k. split; [exact E|]. split; [exact (conj Hro Hrl)|]. split; [done|].
  unfold ready, table_of, limiter_off. cbn [fst snd]. rewrite Ea, El. by split_and!.
Qed.

(** A visit of a link that is not expired. *)
Lemma visit_step i e ca : ready ca -> Z.of_nat i < 2 ^ 31 -> table_of ca !! alias_code i = Some (alias_url i, e) ->
  e = 0 \/ (forall k, i64 (os_clock os k) < e) ->
  exists w rp ca', serve_bytes (get_req ("/"%char :: alias_code i)) ca = (w, wr env rp, ca') /\ 0 <= w /\
    readable env rp /\ rp_status rp = 302 /\ ready ca' /\ table_of ca' = table_of ca.
Proof.
  intros Hr Hi Ht He. pose proof Hr as (_ & _ & Hok & Hoff). destruct (ticked_ok (snd ca) Hok) as (T1 & T2 & _).
  set (w := a_store (app_tick os (snd ca))) in *. pose proof (alias_code_ok i Hi) as Hc. pose proof (index_length i Hi) as Hil.
  destruct (an_resolve (alias_code i) w T1) as (t & w' & Es).
  destruct (law_resolve _ _ _ _ _ _ T1 Hc ltac:(rewrite T2; exact Ht) Es) as (Hok' & Htab & Hz & Hnz).
  assert (t = Some (alias_url i)) as ->.
  { destruct (decide (e = 0)) as [->|Hne]; [by apply Hz|]. destruct (Hnz Hne) as (now & (k & _ & ->) & ->).
    destruct He as [->|He]; [done|]. by rewrite (proj2 (Z.ltb_lt _ _)) by apply He. }
  destruct (handle_visit os env ui_html (alias_code i) [] [] (client_ip env [] peer) (snd ca) _ w' Hc ltac:(done) Es) as (a1 & Eh & Ea & El).
  unfold code_path in Eh. rewrite app_nil_r in Eh. set (q := get_req ("/"%char :: alias_code i)).
  assert (Hl : len_ok q).
  { unfold len_ok, q, get_req, alias_code. rewrite !length_app. cbn [length]. rewrite length_app. lits. lia. }
  destruct (serve_one (B "GET") ("/"%char :: alias_code i) [] q ca (redirect (alias_url i)) a1 Hr Hl) as (c1 & E & S1 & S2); [|done|done|exact Eh|].
  { pose proof (get_understood ("/"%char :: alias_code i) []) as H. rewrite app_nil_r in H. apply H; [..|exact Hl];
      apply not_elem_of_cons; (split; [done|]); unfold alias_code; rewrite not_elem_of_app; (split; [not_in|by apply digits_free]). }
  assert (Hu : CR ∉ alias_url i) by (unfold alias_url; rewrite not_elem_of_app; split; [not_in|by apply digits_free]).
  destruct (redirect_ok (alias_url i) Hu) as [Hro Hrl]; [unfold alias_url; rewrite length_app; lits; lia|].
  eexists _, _, (c1, a1). split; [exact E|]. split; [lia|]. split; [exact (conj Hro Hrl)|]. split; [done|].
  unfold ready, table_of, limiter_off. cbn [fst snd]. rewrite Ea, El, Htab. by split_and!.
Qed.

Lemma make_codes_ready l : forall codes ca, ready ca -> NoDup l ->
  Forall (fun i => Z.of_nat i < 2 ^ 31 /\ table_of ca !! alias_code i = None) l ->
  exists ca', make_codes_loop serve_bytes cut_out (Datatypes.S fuel) l codes (mkRConn [] []) ca = Seeded (codes ++ map alias_code l) ca' /\ ready ca' /\
    (forall i, i ∈ l -> exists k, table_of ca' !! alias_code i = Some (alias_url i, expiry (i64 (os_clock os k)) (link_ttl_ms env))) /\
    (forall c, c ∉ map alias_code l -> table_of ca' !! c = table_of ca !! c).
Proof.
  induction l as [|i l IH]; intros codes ca Hr Hnd Hl; cbn [make_codes_loop map].
  { exists ca. rewrite app_nil_r. split_and!; try done. intros i Hi. by apply elem_of_nil in Hi. }
  apply Forall_cons in Hl as [[Hi Hn] Hl]. apply NoDup_cons in Hnd as [Hni Hnd].
  destruct (seed_step i ca Hr Hi Hn) as (w & rp & ca1 & k & -> & Hp & Hst & Hr1 & Ht). cbn [rc_buf rc_feed app].
  pose proof (reading_start cut_out env [rp] ltac:(by constructor)) as Hs. cbn [map concat] in Hs. rewrite app_nil_r in Hs.
  destruct (reading_next cut_out env fuel Hout Hheads [] rp [] _ Hs) as (rc & -> & Hend). rewrite (reading_end cut_out env Hout _ _ Hend), Hst.
  change (negb (201 =? 201)) with false. cbv iota.
  destruct (IH (codes ++ [alias_code i]) ca1 Hr1 Hnd) as (ca2 & E & Hr2 & H1 & H2).
  { rewrite Forall_forall in Hl |- *. intros j Hj. destruct (Hl j Hj) as [? ?]. split; [done|]. rewrite Ht, lookup_insert_ne; [done|].
    intros Hc. apply alias_code_inj in Hc. by subst. }
  exists ca2. rewrite E, <- app_assoc. split_and!; [done|done|..].
  - intros j Hj. apply elem_of_cons in Hj as [->|Hj]; [|by apply H1]. exists k. rewrite H2, Ht, lookup_insert_eq; [done|].
    intros Hin'. apply list_elem_of_fmap in Hin' as (j & Hc & Hj). apply alias_code_inj in Hc. by subst.
  - intros c Hc. apply not_elem_of_cons in Hc as [Hc1 Hc2]. by rewrite H2, Ht, lookup_insert_ne.
Qed.

(** C30 The run of the load generator measures what it means to, on a network
    that keeps the head of every reply in one piece. Against the server on
    any store that keeps [StoreLaws] and answers, without a rate limit, with
    [n] aliases free, make_codes returns the [n] codes it names, each of
    which is then in the store with its own url while no other link has
    changed; and a thread of the measurement, whatever its number, its rounds
    and the length of its pipeline, counts one reply for every request it
    sent, none of them outside 2xx and 3xx and no error, as long as no link
    expires during the run. The replies of a round arrive as [recv] cuts
    them, many in one piece or one in many, but no piece ends between the
    fifth byte of a reply and the end of its head ([heads_whole]): there
    read_resp does not return ([Bench.split_head_spins]). *)
Theorem bench_run_clean n rounds pipe c (a : App W) :
  st_ok (a_store a) -> limiter_off a -> (0 < n)%nat -> Z.of_nat n <= 2 ^ 31 -> (0 < pipe)%nat ->
  (forall i, (i < n)%nat -> st_table (a_store a) !! alias_code i = None) ->
  (forall j k, link_ttl_ms env <= 0 \/ i64 (os_clock os k) < expiry (i64 (os_clock os j)) (link_ttl_ms env)) ->
  exists c1 a1 ca2, let codes := map alias_code (seq 0 n) in
    make_codes serve_bytes cut_out (Datatypes.S fuel) n (Conn0, a) = Seeded codes (c1, a1) /\
    (forall i, (i < n)%nat -> fst <$> st_table (a_store a1) !! alias_code i = Some (alias_url i)) /\
    (forall x, x ∉ codes -> st_table (a_store a1) !! x = st_table (a_store a) !! x) /\
    blast_thread serve_bytes cut_out (Datatypes.S fuel) rounds pipe c (map (fun x => get_req ("/"%char :: x)) codes) (Conn0, a1) =
      Some (mkTally (Z.of_nat (rounds * pipe)) 0 0, ca2).
Proof.
  intros Hok Hoff Hn Hn2 Hp Hfree Hclock.
  destruct (make_codes_ready (seq 0 n) [] (Conn0, a)) as ([c1 a1] & E & (_ & _ & R1 & R2) & H1 & H2); [done|apply NoDup_seq|..].
  { apply Forall_forall. intros i Hi. apply elem_of_seq in Hi. split; [lia|]. apply Hfree. lia. }
  set (Inv := fun ca => ready ca /\ forall i, i ∈ seq 0 n -> exists e, table_of ca !! alias_code i = Some (alias_url i, e) /\
    (e = 0 \/ forall k, i64 (os_clock os k) < e)).
  set (reqs := map (fun x => get_req ("/"%char :: x)) (map alias_code (seq 0 n))).
  assert (HI : Inv (Conn0, a1)).
  { split; [done|]. intros i Hi. destruct (H1 i Hi) as [j Hj]. eexists. split; [exact Hj|].
    destruct (decide (link_ttl_ms env <= 0)) as [Ht|Ht].
    - left. unfold expiry. by rewrite (proj2 (Z.ltb_ge _ _)).
    - right. intros k. by destruct (Hclock j k). }
  destruct (blast_answered serve_bytes cut_out env fuel Hout Hheads Inv reqs) with (rounds := rounds) (pipe := pipe) (c := c) (s := (Conn0, a1))
    as (ca2 & Hb & _); [| |done|done|].
  - intros r ca Hreq [Hr Hl]. unfold reqs in Hreq. apply list_elem_of_fmap in Hreq as (x & -> & Hx). apply list_elem_of_fmap in Hx as (i & -> & Hi).
    destruct (Hl i Hi) as (e & He & Hlive). apply elem_of_seq in Hi as Hi'.
    destruct (visit_step i e ca Hr ltac:(lia) He Hlive) as (w & rp & ca' & V1 & V2 & V3 & V3' & V4 & V5).
    exists w, rp, ca'. split; [done|]. split; [done|]. split; [done|]. split; [by rewrite V3'|]. split; [exact V4|]. intros j Hj. rewrite V5. by apply Hl.
  - unfold reqs. destruct n; [lia|]. discriminate.
  - exists c1, a1, ca2. cbv zeta. split; [exact E|]. split; [|split; [exact H2|exact Hb]].
    intros i Hi. destruct (H1 i) as [k Hk]; [apply elem_of_seq; lia|]. change (st_table (a_store a1)) with (table_of (c1, a1)). by rewrite Hk.
Qed.
End Server.

(** ** A run to instantiate the claim at *)
Definition pieces (n : nat) (s : bytes) : list bytes := filter (fun p => p ≠ []) [take n s; drop n s].
Definition whole (s : bytes) : list bytes := filter (fun p => p ≠ []) [s].

Lemma pieces_cuts n : cuts (pieces n).
Proof.
  split; intros s.
  - trans (take n s ++ drop n s); [|apply take_drop]. unfold pieces. rewrite !filter_cons, filter_nil.
    destruct (take n s), (drop n s); repeat case_decide; try done; cbn [concat]; by rewrite ?app_nil_r.
  - apply Forall_forall. intros p Hp. by apply list_elem_of_filter in Hp as [? _].
Qed.

Lemma whole_cuts : cuts whole /\ heads_whole demo_env whole.
Proof.
  split; [split; intros s|].
  - unfold whole. rewrite filter_cons, filter_nil. destruct s; case_decide; try done; cbn [concat]; by rewrite app_nil_r.
  - apply Forall_forall. intros p Hp. by apply list_elem_of_filter in Hp as [? _].
  - intros rps a b j x _ Hw Hx Hlt. destruct a as [|p a]; [symmetry in Hx; apply app_eq_nil in Hx as [_ ->]; left; simpl; lia|].
    exfalso. assert (Hp : concat (p :: a) = concat (map (wr demo_env) rps)).
    { unfold whole in Hw. rewrite filter_cons, filter_nil in Hw. case_decide; [|done]. injection Hw as -> Hw. symmetry in Hw.
      apply app_eq_nil in Hw as [-> _]. cbn [concat]. apply app_nil_r. }
    rewrite Hx in Hp. rewrite <- (take_drop j rps) in Hp at 2. rewrite map_app, concat_app in Hp. apply app_inv_head in Hp. subst x.
    rewrite <- (take_drop j rps) in Hlt at 2. destruct (drop j rps) as [|rp l] eqn:Ed.
    + rewrite map_app, app_nil_r, nth_overflow in Hlt; [simpl in Hlt; lia|]. rewrite length_map, length_take. lia.
    + assert (Hj : (j < length rps)%nat) by (apply (f_equal length) in Ed; rewrite length_drop in Ed; simpl in Ed; lia).
      rewrite map_app, app_nth2 in Hlt by (rewrite length_map, length_take; lia).
      rewrite length_map, length_take, Nat.min_l, Nat.sub_diag in Hlt by lia. cbn [map concat nth] in Hlt. rewrite length_app in Hlt. lia.
Qed.

(** A clock on which the run is short. *)
Definition ShortOs : Os := mkOs (fun k => 1000 + Z.of_nat (Nat.min k 50)) (fun _ => 64) (fun _ => 48) (fun _ => false) 42.
Definition run_api : StoreApi World := log_store ShortOs demo_env 3.
Definition run_laws : StoreLaws World (api := run_api) ShortOs := log_laws ShortOs demo_env 3.
Definition run_answers : StoreAnswers World (api := run_api) (laws := run_laws) := log_answers ShortOs demo_env 3.

Lemma short_clock j k : link_ttl_ms demo_env <= 0 \/ i64 (os_clock ShortOs k) < expiry (i64 (os_clock ShortOs j)) (link_ttl_ms demo_env).
Proof.
  right. change (link_ttl_ms demo_env) with 86400000. unfold expiry. change (0 <? 86400000) with true. cbv iota. 
  assert (H : forall n, i64 (os_clock ShortOs n) = 1000 + Z.of_nat (Nat.min n 50)) by (intros n; apply i64_id; cbn [os_clock ShortOs]; unfold in_i64; lia).
  rewrite !H, i64_id by (unfold in_i64; lia). lia.
Qed.

Lemma bench_run_clean_witness : exists c1 a1 ca2,
  make_codes (serve_bytes (api := run_api) ShortOs demo_env [] (B "10.0.0.1") (fun _ => 9) (pieces 30)) whole 1 3 (Conn0, demo_app) =
    Seeded [B "bk0"; B "bk1"; B "bk2"] (c1, a1) /\
  blast_thread (serve_bytes (api := run_api) ShortOs demo_env [] (B "10.0.0.1") (fun _ => 9) (pieces 30)) whole 1 4 10 2
    (map (fun x => get_req ("/"%char :: x)) [B "bk0"; B "bk1"; B "bk2"]) (Conn0, a1) = Some (mkTally 40 0 0, ca2).
Proof.
  destruct (bench_run_clean (laws := run_laws) (ans := run_answers) ShortOs demo_env [] (B "10.0.0.1") (fun _ => 9) (pieces 30) whole 0
    (pieces_cuts 30) (proj1 whole_cuts) (proj2 whole_cuts)) with (n := 3%nat) (rounds := 4%nat) (pipe := 10%nat) (c := 2%nat) (a := demo_app)
    as (c1 & a1 & ca2 & H1 & _ & _ & H4); try lia.
  - intros k. reflexivity.
  - split; [not_in|reflexivity].
  - exact demo_ok.
  - vm_compute. reflexivity.
  - intros i Hi. change (log_table mem_world !! alias_code i = None). rewrite log_table_lookup, data_fresh by reflexivity. by rewrite lookup_empty.
  - exact short_clock.
  - exists c1, a1, ca2. split; [exact H1|exact H4].
Defined.
