(* ===== verification/ServerLoop.v ===== *)
(** * The event loop over its connections

    [serve_kq] keeps a connection for every descriptor it has accepted and
    serves the events of all of them with one application. The requests of
    the connections are answered one after the other, and each connection
    gets the replies to its own requests, in their order. *)

From S2P Require Import Prelude CLib Common Codec Float Json Aof Metrics RateLimit Store StoreFacts App AppFacts AppClaims Server ServerFacts ServerClaims.

Section ServerLoop.
Context {W : Type} {api : StoreApi W} {cast : CastImpl}.
Context (os : Os) (env : Env) (ui_html : bytes).

(** ** The loop *)

(** A connection that was accepted: its descriptor, the address of the peer,
    and what the calls of [send] on it will return. *)
Record Accepted := mkAccepted { ac_fd : Z; ac_peer : bytes; ac_send : nat -> Z }.
Record Live := mkLive { lv_from : Accepted; lv_conn : KqConn }.

(** An event of the listening socket accepts until nothing is left: that many
    [Accept]. *)
Inductive LoopEvent := Accept (c : Accepted) | FdEvent (fd : Z) (ev : KqEvent).

(** [conns]; the connections that were closed, with what they got; the
    application; and whether the process was terminated. *)
Record LoopState := mkLoop { conns : gmap Z Live; gone : list Live; lp_app : App W; lp_dead : bool }.
Definition LoopState0 (a : App W) : LoopState := mkLoop ∅ [] a false.

(** [conns[c] = KqConn{}]: whatever was there is overwritten. *)
Definition accept (c : Accepted) (st : LoopState) : LoopState :=
  mkLoop (<[ac_fd c := mkLive c KqConn0]> (conns st)) (gone st) (lp_app st) (lp_dead st).

Definition fd_event (fd : Z) (ev : KqEvent) (st : LoopState) : LoopState :=
  match conns st !! fd with
  | None => st
  | Some lv =>
      let '(c, a) := kq_step os env ui_html (ac_peer (lv_from lv)) (ac_send (lv_from lv)) ev (lv_conn lv, lp_app st) in
      let lv := mkLive (lv_from lv) c in
      match kq_state c with
      | Open => mkLoop (<[fd := lv]> (conns st)) (gone st) a false
      | Closed => mkLoop (delete fd (conns st)) (gone st ++ [lv]) a false
      | Dead => mkLoop (<[fd := lv]> (conns st)) (gone st) a true
      end
  end.

Definition loop_step (st : LoopState) (ev : LoopEvent) : LoopState :=
  if lp_dead st then st else match ev with Accept c => accept c st | FdEvent fd ev => fd_event fd ev st end.
Definition kq_loop (evs : list LoopEvent) (st : LoopState) : LoopState := fold_left loop_step evs st.

(** ** The requests of a stream *)
Record Request := mkRequest { rq_method : bytes; rq_path : bytes; rq_body : bytes; rq_token : bytes; rq_xff : bytes }.
Definition request_of (s : bytes) : Request :=
  let ri := parse_req s 0 in mkRequest (ri_method ri) (ri_path ri) (request_body ri s) (ri_admin ri) (ri_xff ri).

(** The complete requests, why there are no more, and what is left over. *)
Fixpoint requests_in (n : nat) (s : bytes) : list Request * Stop * bytes :=
  match n with
  | O => ([], NoFuel, s)
  | S n =>
      let ri := parse_req s 0 in
      if ri_total ri =? 0 then ([], Incomplete, s)
      else if ri_total ri =? SIZE_MAX then ([], Malformed, s)
      else if needs_body (ri_method ri) && (body_limit (ri_path ri) <? ri_body_len ri) then ([], TooLarge, s)
      else
        let rest := drop (Z.to_nat (ri_total ri)) s in
        if ri_alive ri then let '(qs, st, r) := requests_in n rest in (request_of s :: qs, st, r) else ([request_of s], Closing, rest)
  end.
Definition requests (s : bytes) : list Request * Stop * bytes := requests_in (S (length s)) s.

Definition ask (peer : bytes) (q : Request) (a : App W) : Res (App W) :=
  handle os env ui_html (rq_method q) (rq_path q) (rq_body q) (rq_token q) (client_ip env (rq_xff q) peer) a.

Lemma requests_fuel n1 : forall n2 s, (length s < n1)%nat -> (length s < n2)%nat -> requests_in n1 s = requests_in n2 s.
Proof.
  induction n1 as [|n1 IH]; intros [|n2] s H1 H2; try lia. cbn [requests_in]. cbv zeta.
  destruct (ri_total (parse_req s 0) =? 0) eqn:E0; [done|]. destruct (ri_total (parse_req s 0) =? SIZE_MAX) eqn:E1; [done|]. bool_facts.
  pose proof (parse_req_within s E0 E1) as Hw. destruct (needs_body _ && _); [done|]. destruct (ri_alive _); [|done].
  rewrite (IH n2) by (rewrite length_drop; lia). done.
Qed.

Lemma requests_step s :
  requests s =
    let ri := parse_req s 0 in
    if ri_total ri =? 0 then ([], Incomplete, s)
    else if ri_total ri =? SIZE_MAX then ([], Malformed, s)
    else if needs_body (ri_method ri) && (body_limit (ri_path ri) <? ri_body_len ri) then ([], TooLarge, s)
    else
      let rest := drop (Z.to_nat (ri_total ri)) s in
      if ri_alive ri then let '(qs, st, r) := requests rest in (request_of s :: qs, st, r) else ([request_of s], Closing, rest).
Proof.
  unfold requests at 1. cbn [requests_in]. cbv zeta.
  destruct (ri_total (parse_req s 0) =? 0) eqn:E0; [done|]. destruct (ri_total (parse_req s 0) =? SIZE_MAX) eqn:E1; [done|]. bool_facts.
  pose proof (parse_req_within s E0 E1) as Hw. destruct (needs_body _ && _); [done|]. destruct (ri_alive _); [|done].
  unfold requests. rewrite (requests_fuel _ (S (length (drop (Z.to_nat (ri_total (parse_req s 0))) s)))); [done|rewrite length_drop; lia..].
Qed.

(** What follows a stream only matters to one that waits for more. *)
Lemma requests_app s x : len_ok s ->
  requests (s ++ x) =
    let '(qs, st, r) := requests s in
    match st with Incomplete => let '(qs', st', r') := requests (r ++ x) in (qs ++ qs', st', r') | _ => (qs, st, r ++ x) end.
Proof.
  remember (length s) as n eqn:Hn. assert (Hle : (length s <= n)%nat) by lia. clear Hn.
  revert s Hle. induction n as [|n IH]; intros s Hle Hlen; rewrite (requests_step s); cbv zeta;
    (destruct (ri_total (parse_req s 0) =? 0) eqn:E0; [by destruct (requests (s ++ x)) as [[? ?] ?]|]); bool_facts.
  { destruct s; [|simpl in *; lia]. by rewrite parse_req_nil in E0. }
  rewrite (requests_step (s ++ x)). cbv zeta. rewrite (parse_req_app s x E0), (proj2 (Z.eqb_neq _ _) E0).
  destruct (ri_total (parse_req s 0) =? SIZE_MAX) eqn:E1; [done|]. bool_facts.
  pose proof (parse_req_within s E0 E1) as Hw. destruct (needs_body _ && _) eqn:El; [done|].
  assert (Hq : request_of (s ++ x) = request_of s) by (unfold request_of; rewrite parse_req_app by done; by rewrite request_body_app).
  rewrite drop_app_le by lia. rewrite Hq. destruct (ri_alive _); [|done].
  rewrite IH by (unfold len_ok in *; rewrite length_drop; lia). destruct (requests (drop _ s)) as [[qs st] r].
  destruct st; try done. destruct (requests (r ++ x)) as [[qs' st'] r']. done.
Qed.

(** ** Serving *)

(** What the application was asked, for whom, and what it said. *)
Record Served := mkServed { sv_fd : Z; sv_peer : bytes; sv_req : Request; sv_reply : Reply }.

(** The requests are answered one after the other. *)
Fixpoint served (h : list Served) (a a' : App W) : Prop :=
  match h with
  | [] => a' = a
  | e :: h => exists a1, ask (sv_peer e) (sv_req e) a = Replied (sv_reply e) a1 /\ served h a1 a'
  end.

Definition for_fd (fd : Z) (h : list Served) : list Served := filter (fun e => sv_fd e = fd) h.
Definition replies (h : list Served) : bytes := concat (map (fun e => write_reply env [] (sv_reply e)) h).

Lemma served_app h1 h2 : forall a a1 a2, served h1 a a1 -> served h2 a1 a2 -> served (h1 ++ h2) a a2.
Proof. induction h1 as [|e h1 IH]; intros a a1 a2; [by intros ->|]. intros (b & ? & ?) ?. exists b. split; [done|]. by eapply IH. Qed.

Lemma replies_app h1 h2 : replies (h1 ++ h2) = replies h1 ++ replies h2.
Proof. unfold replies. by rewrite map_app, concat_app. Qed.

(** The request loop on a buffer whose requests are complete, unless the
    application ends it. *)
Lemma process_serves fd peer : forall s out a qs r, requests s = (qs, Incomplete, r) ->
  let run := process_buf os env ui_html peer s out a in
  (r_stop run = Crashed \/ r_stop run = Stuck) \/
  (r_stop run = Incomplete /\ drop (r_parsed run) s = r /\
   exists h, served h a (r_app run) /\ r_out run = out ++ replies h /\ map sv_req h = qs /\ Forall (fun e => sv_fd e = fd /\ sv_peer e = peer) h).
Proof.
  intros s. remember (length s) as n eqn:Hn. assert (Hle : (length s <= n)%nat) by lia. clear Hn.
  revert s Hle. induction n as [|n IH]; intros s Hle out a qs r; rewrite process_buf_step, requests_step; cbv zeta;
    (destruct (ri_total (parse_req s 0) =? 0) eqn:E0;
      [intros [= <- <-]; right; split_and!; [done|done|]; exists []; by rewrite app_nil_r|]); bool_facts.
  { destruct s; [|simpl in *; lia]. by rewrite parse_req_nil in E0. }
  destruct (ri_total (parse_req s 0) =? SIZE_MAX) eqn:E1; [done|]. bool_facts.
  pose proof (parse_req_within s E0 E1) as Hw. destruct (needs_body _ && _); [done|].
  destruct (ri_alive _); [|done]. destruct (requests (drop _ s)) as [[qs1 st1] r1] eqn:Er. intros [= <- -> ->].
  destruct (handle os env ui_html _ _ _ _ _ a) as [rp a'|a'|] eqn:Eh; [|left; by left|left; by right].
  set (t := Z.to_nat (ri_total (parse_req s 0))) in *.
  destruct (IH (drop t s)) with (out := write_reply env out rp) (a := a') (qs := qs1) (r := r) as [Hd|(H1 & H2 & h & H3 & H4 & H5 & H6)];
    [rewrite length_drop; lia|done|by left|].
  right. unfold run_shift. cbn [r_stop r_parsed r_app r_out]. split_and!; [done|by rewrite <- H2, drop_drop|].
  exists (mkServed fd peer (request_of s) rp :: h). split_and!; [by exists a'| |by cbn; rewrite H5|by constructor].
  rewrite H4, write_reply_app, <- app_assoc. done.
Qed.

(** ** The invariant of the loop *)

(** The bytes received on [fd]. *)
Definition bytes_of (fd : Z) (ev : LoopEvent) : bytes :=
  match ev with FdEvent f (KqRead _ bs _) => if decide (f = fd) then bs else [] | _ => [] end.
Definition stream (fd : Z) (evs : list LoopEvent) : bytes := concat (map (bytes_of fd) evs).

(** A connection has answered what it received. *)
Record up_to_date (lv : Live) (D : bytes) (h : list Served) : Prop := {
  up_open : kq_state (lv_conn lv) = Open;
  up_more : close_after (lv_conn lv) = false;
  up_reqs : requests D = (map sv_req h, Incomplete, rbuf (lv_conn lv));
  up_out : kq_sent (lv_conn lv) ++ wbuf (lv_conn lv) = replies h;
  up_peer : Forall (fun e => sv_peer e = ac_peer (lv_from lv)) h;
  up_send : forall k, 0 <= ac_send (lv_from lv) k
}.

Record loop_ok (st : LoopState) (D : Z -> bytes) (h : list Served) : Prop := {
  lo_live : forall fd lv, conns st !! fd = Some lv -> up_to_date lv (D fd) (for_fd fd h);
  lo_none : forall fd, conns st !! fd = None -> D fd = [] /\ for_fd fd h = []
}.

Lemma for_fd_app fd h1 h2 : for_fd fd (h1 ++ h2) = for_fd fd h1 ++ for_fd fd h2.
Proof. apply filter_app. Qed.
Lemma for_fd_all fd h : Forall (fun e => sv_fd e = fd) h -> for_fd fd h = h.
Proof. induction 1 as [|e h H _ IH]; [done|]. unfold for_fd in *. rewrite filter_cons_True by done. by rewrite IH. Qed.
Lemma for_fd_none fd fd' h : fd ≠ fd' -> Forall (fun e => sv_fd e = fd) h -> for_fd fd' h = [].
Proof. intros Hne. induction 1 as [|e h H _ IH]; [done|]. unfold for_fd in *. rewrite filter_cons_False by congruence. done. Qed.

(** Nothing fails on the connection and nobody hangs up; a descriptor is
    accepted once, and before its events. *)
Definition quiet_loop_event (ev : LoopEvent) : Prop :=
  match ev with Accept c => forall k, 0 <= ac_send c k | FdEvent _ ev => quiet_event ev end.
Fixpoint orderly (seen : gset Z) (evs : list LoopEvent) : Prop :=
  match evs with
  | [] => True
  | Accept c :: evs => (ac_fd c ∉ seen) /\ orderly ({[ac_fd c]} ∪ seen) evs
  | FdEvent fd _ :: evs => (fd ∈ seen) /\ orderly seen evs
  end.

Lemma accept_ok c st D h : loop_ok st D h -> conns st !! ac_fd c = None -> (forall k, 0 <= ac_send c k) -> loop_ok (accept c st) D h.
Proof.
  intros [L N] Hc Hs. destruct (N _ Hc) as [HD Hh]. split; intros fd; cbn [accept conns].
  - intros lv. rewrite lookup_insert. case_decide as He; [|apply L]. intros [= <-]. subst fd. rewrite HD, Hh. by split.
  - rewrite lookup_insert_None. intros [? _]. by apply N.
Qed.

Lemma up_write lv D h : up_to_date lv D h -> let c := lv_conn lv in
  up_to_date (mkLive (lv_from lv) (kq_finish (if wbuf c =s [] then c else kq_write (ac_send (lv_from lv)) c))) D h.
Proof.
  intros [U1 U2 U3 U4 U5 U6] c. assert (Hc : exists c1, (if wbuf c =s [] then c else kq_write (ac_send (lv_from lv)) c) = c1 /\ rbuf c1 = rbuf c /\
    close_after c1 = false /\ kq_state c1 = Open /\ kq_sent c1 ++ wbuf c1 = kq_sent c ++ wbuf c).
  { destruct (wbuf c =s []); [by exists c|]. destruct (kq_write_quiet _ c (U6 _)) as (W1 & W2 & W3 & W4). eexists. split; [reflexivity|]. by rewrite W1, W2, W3. }
  destruct Hc as (c1 & -> & R1 & R2 & R3 & R4). rewrite kq_finish_open by done. split; cbn [lv_conn lv_from]; [done|done|by rewrite R1|by rewrite R4|done|done].
Qed.

(** The other connections do not notice. *)
Lemma step_ok fd lv' a dead st D D' h hn : loop_ok st D h -> (forall f, f ≠ fd -> D' f = D f) -> Forall (fun e => sv_fd e = fd) hn ->
  up_to_date lv' (D' fd) (for_fd fd h ++ hn) -> loop_ok (mkLoop (<[fd := lv']> (conns st)) (gone st) a dead) D' (h ++ hn).
Proof.
  intros [L N] HD Hn U. split; intros f; cbn [conns].
  - intros lv. rewrite for_fd_app, lookup_insert. case_decide as He.
    + intros [= <-]. subst f. by rewrite (for_fd_all fd hn).
    + intros Hf. rewrite HD, (for_fd_none fd f hn), app_nil_r by congruence || done. by apply L.
  - rewrite lookup_insert_None. intros [Hf Hne]. rewrite for_fd_app, (for_fd_none fd f hn), app_nil_r, HD by congruence || done. by apply N.
Qed.

Definition stop_of (s : bytes) : Stop := snd (fst (requests s)).

Lemma stop_prefix s x : len_ok s -> stop_of (s ++ x) = Incomplete -> stop_of s = Incomplete.
Proof. intros Hl. unfold stop_of. rewrite requests_app by done. by destruct (requests s) as [[qs []] r]. Qed.

Lemma read_ok fd lv D h bs a : up_to_date lv D h -> len_ok D -> stop_of (D ++ bs) = Incomplete ->
  let '(c, a') := kq_step os env ui_html (ac_peer (lv_from lv)) (ac_send (lv_from lv)) (KqRead false bs false) (lv_conn lv, a) in
  kq_state c = Dead \/ exists hn, served hn a a' /\ Forall (fun e => sv_fd e = fd) hn /\ up_to_date (mkLive (lv_from lv) c) (D ++ bs) (h ++ hn).
Proof.
  intros [U1 U2 U3 U4 U5 U6] Hl Hs. unfold stop_of in Hs. pose proof (requests_app D bs Hl) as HR. rewrite U3 in HR.
  unfold kq_step. rewrite U1. cbn [kq_flag kq_is_write andb]. unfold kq_read. rewrite U2. cbn [orb].
  set (s := rbuf (lv_conn lv) ++ bs) in *. destruct (requests s) as [[qs st] r] eqn:Er. rewrite HR in Hs. cbn [fst snd] in Hs. subst st.
  pose proof (process_serves fd (ac_peer (lv_from lv)) s (wbuf (lv_conn lv)) a qs r Er) as HP. cbv zeta in HP.
  set (run := process_buf _ _ _ _ _ _ _) in *. destruct HP as [[HP|HP]|(H1 & H2 & hn & H3 & H4 & H5 & H6)]; [by rewrite HP; left..|].
  rewrite H1, U1. right. exists hn. rewrite kq_finish_open by done. split_and!; [done|by eapply Forall_impl; [exact H6|intros ? []]|].
  split; cbn [lv_conn lv_from kq_state close_after rbuf kq_sent wbuf]; try done.
  - by rewrite HR, map_app, H5, H2.
  - by rewrite H4, app_assoc, U4, replies_app.
  - apply Forall_app. split; [done|]. by eapply Forall_impl; [exact H6|intros ? []].
Qed.

Lemma step_event_ok ev st D h : loop_ok st D h -> lp_dead st = false -> quiet_loop_event ev ->
  match ev with Accept c => conns st !! ac_fd c = None | FdEvent fd _ => is_Some (conns st !! fd) end ->
  (forall fd, len_ok (D fd)) -> (forall fd, stop_of (D fd ++ bytes_of fd ev) = Incomplete) -> lp_dead (loop_step st ev) = false ->
  exists hn, served hn (lp_app st) (lp_app (loop_step st ev)) /\ loop_ok (loop_step st ev) (fun fd => D fd ++ bytes_of fd ev) (h ++ hn) /\
    dom (conns (loop_step st ev)) = match ev with Accept c => {[ac_fd c]} | _ => ∅ end ∪ dom (conns st).
Proof.
  intros HL Hd Hq Hfd Hlen Hstop. unfold loop_step. rewrite Hd. destruct ev as [c|fd ev].
  - intros _. exists []. split; [done|]. rewrite app_nil_r. pose proof (accept_ok c st D h HL Hfd Hq) as [L N].
    split; [|cbn [accept conns]; by rewrite dom_insert_L]. split; intros fd; cbn [bytes_of]; rewrite app_nil_r; [apply L|apply N].
  - destruct Hfd as [lv Hlv].
    assert (Hdom : forall lv', dom (<[fd := lv']> (conns st)) = (∅ : gset Z) ∪ dom (conns st)).
    { intros lv'. rewrite dom_insert_L. assert (fd ∈ dom (conns st)) by (apply elem_of_dom; by eexists). set_solver. } pose proof (lo_live _ _ _ HL fd lv Hlv) as U. unfold fd_event. rewrite Hlv.
    assert (Hother : forall f, f ≠ fd -> D f ++ bytes_of f (FdEvent fd ev) = D f).
    { intros f Hf. cbn [bytes_of]. destruct ev; [|by rewrite app_nil_r]. rewrite decide_False by congruence. by rewrite app_nil_r. }
    destruct ev as [f bs eof|f]; cbn [quiet_loop_event quiet_event] in Hq.
    + destruct Hq as [-> ->]. specialize (Hstop fd). cbn [bytes_of] in Hstop. rewrite decide_True in Hstop by done.
      pose proof (read_ok fd lv (D fd) _ bs (lp_app st) U (Hlen fd) Hstop) as HH.
      destruct (kq_step _ _ _ _ _ _ _) as [c a']. destruct HH as [->|(hn & H1 & H2 & H3)]; [done|].
      pose proof (up_open _ _ _ H3) as Ho. cbn [lv_conn] in Ho. rewrite Ho. intros _. exists hn. split; [done|].
      split; [|apply Hdom]. apply (step_ok fd _ _ _ st D); try done. cbn [bytes_of]. by rewrite decide_True.
    + subst f. unfold kq_step. rewrite (up_open _ _ _ U). cbn [kq_flag kq_is_write andb]. pose proof (up_write _ _ _ U) as HH. cbv zeta in HH.
      set (c := kq_finish _) in *. pose proof (up_open _ _ _ HH) as Ho. cbn [lv_conn] in Ho. rewrite Ho. intros _. exists [].
      split; [done|]. split; [|apply Hdom]. apply (step_ok fd _ _ _ st D); try done. cbn [bytes_of]. by rewrite !app_nil_r.
Qed.

Lemma kq_loop_dead evs : forall st, lp_dead st = true -> lp_dead (kq_loop evs st) = true.
Proof. induction evs as [|ev evs IH]; intros st H; [done|]. apply IH. unfold loop_step. by rewrite H. Qed.

Definition accepted (evs : list LoopEvent) : list Accepted := omap (fun ev => match ev with Accept c => Some c | _ => None end) evs.

Lemma loop_keeps evs : forall st D h, loop_ok st D h -> lp_dead st = false -> Forall quiet_loop_event evs -> orderly (dom (conns st)) evs ->
  (forall fd, len_ok (D fd ++ stream fd evs) /\ stop_of (D fd ++ stream fd evs) = Incomplete) -> lp_dead (kq_loop evs st) = false ->
  exists hn, served hn (lp_app st) (lp_app (kq_loop evs st)) /\ loop_ok (kq_loop evs st) (fun fd => D fd ++ stream fd evs) (h ++ hn) /\
    dom (conns (kq_loop evs st)) = list_to_set (map ac_fd (accepted evs)) ∪ dom (conns st).
Proof.
  induction evs as [|ev evs IH]; intros st D h HL Hd Hq Ho HD Hdead.
  { exists []. split; [done|]. rewrite app_nil_r. split; [|by rewrite left_id_L by apply _]. destruct HL as [L N]. split; intros fd; change (stream fd []) with ([] : bytes); rewrite app_nil_r; [apply L|apply N]. }
  apply Forall_cons in Hq as [Hev Hq]. change (kq_loop (ev :: evs) st) with (kq_loop evs (loop_step st ev)) in *.
  assert (Hd1 : lp_dead (loop_step st ev) = false).
  { destruct (lp_dead (loop_step st ev)) eqn:E; [|done]. by rewrite kq_loop_dead in Hdead. }
  assert (Hstream : forall fd, D fd ++ stream fd (ev :: evs) = (D fd ++ bytes_of fd ev) ++ stream fd evs) by (intros fd; by rewrite <- app_assoc).
  assert (Hlen : forall fd, len_ok (D fd) /\ len_ok (D fd ++ bytes_of fd ev)).
  { intros fd. destruct (HD fd) as [H _]. rewrite Hstream in H. unfold len_ok in *. rewrite !length_app in *. lia. }
  assert (Hfd : match ev with Accept c => conns st !! ac_fd c = None | FdEvent fd _ => is_Some (conns st !! fd) end).
  { destruct ev; cbn [orderly] in Ho; destruct Ho as [Ho _]; [by apply not_elem_of_dom in Ho|by apply elem_of_dom in Ho]. }
  destruct (step_event_ok ev st D h HL Hd Hev Hfd) as (h1 & S1 & L1 & E1); [apply Hlen| |done|].
  { intros fd. destruct (HD fd) as [_ H]. rewrite Hstream in H. eapply stop_prefix, H. apply Hlen. }
  destruct (IH (loop_step st ev) _ (h ++ h1) L1 Hd1 Hq) as (h2 & S2 & L2 & E2); [| |done|].
  - destruct ev; cbn [orderly] in Ho; rewrite E1; [apply Ho|]. rewrite (left_id_L ∅ (∪)). apply Ho.
  - intros fd. rewrite <- Hstream. apply HD.
  - exists (h1 ++ h2). split; [by eapply served_app|]. rewrite app_assoc. split; [|rewrite E2, E1; destruct ev; cbn; set_solver]. destruct L2 as [L N]. split; intros fd; rewrite Hstream; [apply L|apply N].
Qed.

Lemma loop_ok_start a : loop_ok (LoopState0 a) (fun _ => []) [].
Proof. split; intros fd; cbn [LoopState0 conns]; [intros lv; by rewrite lookup_empty|done]. Qed.
End ServerLoop.

(** ** The claim *)

(** C12 The event loop keeps its connections apart: while nothing fails and
    nobody hangs up, however the events of the connections interleave, every
    connection that was accepted is there, the application has answered the
    requests of all of them one after the other, those of a connection in its
    order and with its peer's address, and what a connection was sent or still
    waits for is exactly the replies to its own requests. *)
Theorem loop_serves_each {W : Type} {api : StoreApi W} {cast : CastImpl} os env ui_html evs (a : App W) :
  orderly ∅ evs -> Forall quiet_loop_event evs -> (forall fd, len_ok (stream fd evs) /\ stop_of (stream fd evs) = Incomplete) ->
  lp_dead (kq_loop os env ui_html evs (LoopState0 a)) = false ->
  let st := kq_loop os env ui_html evs (LoopState0 a) in
  dom (conns st) = list_to_set (map ac_fd (accepted evs)) /\
  exists h, served os env ui_html h a (lp_app st) /\
    forall fd lv, conns st !! fd = Some lv ->
      map sv_req (for_fd fd h) = fst (fst (requests (stream fd evs))) /\
      Forall (fun e => sv_peer e = ac_peer (lv_from lv)) (for_fd fd h) /\
      kq_sent (lv_conn lv) ++ wbuf (lv_conn lv) = replies env (for_fd fd h).
Proof.
  intros Ho Hq HD Hd st. destruct (loop_keeps os env ui_html evs (LoopState0 a) (fun _ => []) [] (loop_ok_start env a)) as (h & S & L & E); try done.
  split; [unfold st; rewrite E; cbn; by rewrite dom_empty_L, (right_id_L ∅ (∪))|]. exists h. split; [exact S|]. intros fd lv Hlv.
  destruct (lo_live _ _ _ _ L fd lv Hlv) as [_ _ U3 U4 U5 _]. cbn [app] in *. by rewrite U3.
Qed.

(** Two clients whose bytes arrive in turns. *)
Definition client (fd : Z) (peer : bytes) : Accepted := mkAccepted fd peer (fun _ => 7).
Definition two_clients : list LoopEvent :=
  [Accept (client 5 (B "10.0.0.5")); FdEvent 5 (KqRead false (B "GET /x HTT") false); Accept (client 6 (B "10.0.0.6"));
   FdEvent 6 (KqRead false (B "GET /nope HTTP/1.1" ++ CRLF ++ B "a: b" ++ CRLF2) false);
   FdEvent 5 (KqRead false (B "P/1.1" ++ CRLF ++ B "Host: e.com" ++ CRLF2) false); FdEvent 6 (KqWrite false); FdEvent 5 (KqWrite false)].

Lemma two_streams fd : stream fd two_clients = [] \/ fd = 5 \/ fd = 6.
Proof.
  destruct (decide (fd = 5)) as [|H5]; [by right; left|]. destruct (decide (fd = 6)) as [|H6]; [by right; right|]. left.
  unfold stream, two_clients. cbn [map concat bytes_of]. rewrite !decide_False by congruence. done.
Qed.

Lemma loop_serves_each_witness :
  let st := kq_loop RefOs demo_env [] two_clients (LoopState0 demo_app2) in
  dom (conns st) = {[5; 6]} /\
  exists h, served RefOs demo_env [] h demo_app2 (lp_app st) /\
    forall fd lv, conns st !! fd = Some lv ->
      map sv_req (for_fd fd h) = fst (fst (requests (stream fd two_clients))) /\
      Forall (fun e => sv_peer e = ac_peer (lv_from lv)) (for_fd fd h) /\
      kq_sent (lv_conn lv) ++ wbuf (lv_conn lv) = replies demo_env (for_fd fd h).
Proof.
  destruct (loop_serves_each RefOs demo_env [] two_clients demo_app2) as [H1 H2].
  - split_and!; try done; apply (bool_decide_unpack _); vm_compute; exact I.
  - repeat constructor; done.
  - intros fd. destruct (two_streams fd) as [->|[->| ->]]; split; vm_compute; reflexivity.
  - vm_compute. reflexivity.
  - split; [|exact H2]. rewrite H1. vm_compute. reflexivity.
Defined.

(** ** A descriptor that is used again

    The events of one call of [kevent] are handled one after the other. If a
    connection is closed by the first of its two events (it waits for the reply,
    so both filters report the end), and the listening socket comes between them and hands out
    the same number again, the second event closes the new connection. *)
Example stale_event_closes_new_connection :
  let st := kq_loop (W := World) RefOs demo_env []
    [Accept (client 5 (B "10.0.0.5")); FdEvent 5 (KqRead false (B "GET /x HTTP/1.1" ++ CRLF2) false);
     FdEvent 5 (KqWrite true); Accept (client 5 (B "10.0.0.9")); FdEvent 5 (KqRead true [] true);
     FdEvent 5 (KqRead false (B "GET /x HTTP/1.1" ++ CRLF2) false)] (LoopState0 demo_app2) in
  conns st !! 5 = None /\ map (fun lv => (ac_peer (lv_from lv), kq_sent (lv_conn lv))) (gone st) = [(B "10.0.0.5", []); (B "10.0.0.9", [])].
Proof. vm_compute. done. Qed.
