(* ===== verification/HttpFindings.v ===== *)
(** * Requests that go wrong

    Concrete requests on the application of AppClaims.v, evaluated by the
    kernel: what the HTTP interface accepts or loses although it should
    not. *)

From S2P Require Import Prelude CLib Common Codec Float Json Aof Metrics RateLimit Store StoreFacts StoreSpec StoreClaims App AppFacts AppClaims Server ServerFacts ServerClaims.

Definition post (body : bytes) : App World := state_of (demo_handle (B "POST") (B "/api/shorten") body [] demo_app).
Definition get (path : bytes) (a : App World) : option Reply := reply_of (demo_handle (B "GET") path [] [] a).

(** A lifetime below one millisecond is accepted and means forever: the
    limit [LINK_TTL_MS] is checked on the number, which is then cut to the
    integer 0, the store's sign for no expiry. So is a negative lifetime of a
    PATCH, and a not-a-number in either. *)
Theorem short_lifetime_never_expires :
  (exists a, demo_handle (B "POST") (B "/api/shorten") (Q "{'url':'http://e.com','alias':'abc','ttl_ms':0.5}") [] demo_app
     = Replied (created_reply (B "abc")) a /\ log_table (a_store a) !! B "abc" = Some (B "http://e.com", 0)) /\
  (exists a, demo_handle (B "PATCH") (B "/api/links/x") (Q "{'url':'http://e.com','ttl_ms':-1}") (B "secret") demo_app2
     = Replied (mk 200 (Q "{'ok':true}")) a /\ log_table (a_store a) !! B "x" = Some (B "http://e.com", 0)) /\
  (exists a, demo_handle (B "POST") (B "/api/shorten") (Q "{'url':'http://e.com','alias':'abc','ttl_ms':-nan}") [] demo_app
     = Replied (created_reply (B "abc")) a /\ log_table (a_store a) !! B "abc" = Some (B "http://e.com", 0)).
Proof. split_and!; eexists; split; vm_compute; reflexivity. Qed.

(** A url may hold line ends behind its host, and the redirect writes them
    into the head of the reply: whoever shortens a url decides about other
    headers of the replies to its visitors. *)
Theorem redirect_injects_headers :
  let a := post (Q "{'url':'http://e.com/\r\nset-cookie: s=1','alias':'abc'}") in
  match get (B "/abc") a with
  | Some r =>
      let s := write_reply demo_env [] r in
      match find_sub CRLF2 s with
      | Some he => field (B "set-cookie") (lines_of_head he (take he s)) = Some (B "s=1")
      | None => False
      end
  | None => False
  end.
Proof. vm_compute. reflexivity. Qed.

(** The alias [metrics] is given out and never redirects. *)
Example alias_metrics_hidden :
  exists a, demo_handle (B "POST") (B "/api/shorten") (Q "{'url':'http://e.com','alias':'metrics'}") [] demo_app
    = Replied (created_reply (B "metrics")) a /\
  exists r, get (B "/metrics") a = Some r /\ rp_status r = 200 /\ rp_location r = None.
Proof. eexists. split; [vm_compute; reflexivity|]. eexists. split_and!; vm_compute; reflexivity. Qed.

(** A batch may hold a url without a host, which a single request may not. *)
Example bulk_without_host :
  is_valid_url (B "https://") = false /\ ok_bulk_url (B "https://") = true /\
  is_valid_url (B "http:// /") = false /\ ok_bulk_url (B "http:// /") = true.
Proof. vm_compute. done. Qed.

Definition two_requests : bytes := B "GET /x HTTP/1.1" ++ CRLF ++ B "a: b" ++ CRLF2 ++ B "BAD" ++ CRLF2.

(** A malformed request drops the replies of the good ones read with it,
    although they were served; cut differently, the same stream answers. *)
Example malformed_drops_replies :
  c_sent (fst (conn_loop RefOs demo_env [] [] demo_send [Data two_requests] (Conn0, demo_app2))) = [] /\
  c_sent (fst (conn_loop RefOs demo_env [] [] demo_send [Data (take 25 two_requests); Data (drop 25 two_requests)]
    (Conn0, demo_app2))) ≠ [].
Proof. split; vm_compute; [reflexivity|discriminate]. Qed.

(** A request of one line and no header is not kept alive, although it is
    HTTP/1.1. *)
Example headerless_not_kept_alive : ri_alive (parse_req (B "GET /x HTTP/1.1" ++ CRLF2) 0) = false.
Proof. vm_compute. reflexivity. Qed.

Definition closing_request : bytes := B "GET /x HTTP/1.1" ++ CRLF ++ B "Connection: close" ++ CRLF2.

(** The event loop serves requests it reads after one that asked to close;
    the connection thread does not. *)
Example kq_serves_after_close :
  let run := serve_kq RefOs demo_env [] [] demo_send
    [KqRead false closing_request false; KqRead false closing_request false] (KqConn0, demo_app2) in
  nth OP_REDIRECT (OP_COUNTS (a_metrics (snd run))) 0 = 2 /\
  nth OP_REDIRECT (OP_COUNTS (a_metrics (snd
    (conn_loop RefOs demo_env [] [] demo_send [Data closing_request; Data closing_request] (Conn0, demo_app2))))) 0 = 1.
Proof. vm_compute. done. Qed.

(** A request that arrives together with the end of the stream is not
    answered by the event loop. *)
Example kq_drops_half_closed :
  let run := serve_kq RefOs demo_env [] [] demo_send [KqRead true closing_request true] (KqConn0, demo_app2) in
  kq_sent (fst run) = [] /\ wbuf (fst run) = [] /\ kq_state (fst run) = Closed /\ snd run = demo_app2.
Proof. vm_compute. done. Qed.
