(* ===== verification/HotCache.v ===== *)
(** * The value codec and the hot cache of the shared stores

    store_kv.cpp and store_rocks.cpp keep the corpus elsewhere and share,
    line for line, what is here: the value codec, the bounded FIFO cache, the
    pending hit counters and the code generator. The random draws are a
    parameter: [std::mt19937_64] is seeded by [std::random_device]. *)

From S2P Require Import Prelude CLib Common Aof Metrics Store StoreFacts StoreSpec.

(** ** The value codec *)
Definition BAR : ascii := "|"%char.

Definition enc (e c : Z) (u : bytes) : bytes :=
  B "v1|" ++ to_string e ++ B "|" ++ to_string c ++ B "|" ++ u.

(** [dec]: expiry, creation, url. *)
Definition dec (v : bytes) : option (Z * Z * bytes) :=
  let sv := if starts_with (B "v1|") v then drop 3 v else v in
  match find_char BAR sv with
  | None => None
  | Some p =>
      match stoll (take p sv) with
      | None => None
      | Some e =>
          let rest := drop (p + 1) sv in
          match find_char BAR rest with
          | Some q =>
              match stoll (take q rest) with
              | None => None
              | Some c => Some (e, c, drop (q + 1) rest)
              end
          | None => Some (e, 0, rest)
          end
      end
  end.

(** ** The cache *)
Definition KV_SHARDS : nat := 256.

(** [std::uniform_int_distribution<int>(0, 61)]: the k-th draw. *)
Class Rand := { rand : nat -> Z; rand_range : forall k, 0 <= rand k <= 61 }.

Record KvEntry := mkKvEntry { k_u : bytes; k_e : Z; k_at : Z }.
Record KvShard := mkKvShard { sh_m : gmap bytes KvEntry; sh_order : list bytes }.
Definition KvShard0 : KvShard := mkKvShard ∅ [].

(** The fields the two implementations have in common; [hc_draws] counts the
    draws of [rng]. *)
Record Hot := mkHot {
  hc_cache : list KvShard; hc_cap : Z; hc_ttl : Z; hc_dirty : list (gmap bytes Z);
  hc_instance : Z; hc_prefix : ascii; hc_draws : nat }.

(** The constructors' initialisers. *)
Definition hot_init (inst cache_entries cttl : Z) : Hot :=
  let i := Z.max 0 (Z.min inst 61) in
  mkHot (replicate KV_SHARDS KvShard0) (Z.max 16 (cache_entries / Z.of_nat KV_SHARDS)) cttl
    (replicate KV_SHARDS ∅) i (Base62.alpha i) 0.

Definition kv_shard (h : Hot) (code : bytes) : KvShard := default KvShard0 (hc_cache h !! shard_of code).
Definition upd_cache (code : bytes) (f : KvShard -> KvShard) (h : Hot) : Hot :=
  mkHot (alter f (shard_of code) (hc_cache h)) (hc_cap h) (hc_ttl h) (hc_dirty h) (hc_instance h) (hc_prefix h) (hc_draws h).
Definition set_dirty (d : list (gmap bytes Z)) (h : Hot) : Hot :=
  mkHot (hc_cache h) (hc_cap h) (hc_ttl h) d (hc_instance h) (hc_prefix h) (hc_draws h).
Definition set_draws (k : nat) (h : Hot) : Hot :=
  mkHot (hc_cache h) (hc_cap h) (hc_ttl h) (hc_dirty h) (hc_instance h) (hc_prefix h) k.

(** A change of [dirty[shard(code)]]. *)
Definition upd_dirty (f : gmap bytes Z -> gmap bytes Z) (code : bytes) (h : Hot) : Hot :=
  set_dirty (alter f (shard_of code) (hc_dirty h)) h.

(** [sh.m.find(code)]. *)
Definition cached (h : Hot) (code : bytes) : option KvEntry := sh_m (kv_shard h code) !! code.

(** [cache_del]. *)
Definition cache_del (code : bytes) : Hot -> Hot :=
  upd_cache code (fun sh => mkKvShard (delete code (sh_m sh)) (sh_order sh)).

(** [while (sh.m.size() >= cap_per_shard && !sh.order.empty())]. *)
Fixpoint cache_evict (cap : Z) (m : gmap bytes KvEntry) (order : list bytes) : KvShard :=
  match order with
  | [] => mkKvShard m []
  | c :: o => if cap <=? Z.of_nat (size m) then cache_evict cap (delete c m) o else mkKvShard m order
  end.

Definition put_shard (cap : Z) (code : bytes) (x : KvEntry) (sh : KvShard) : KvShard :=
  match sh_m sh !! code with
  | Some _ => mkKvShard (<[code := x]> (sh_m sh)) (sh_order sh)
  | None =>
      let sh := cache_evict cap (sh_m sh) (sh_order sh) in
      mkKvShard (<[code := x]> (sh_m sh)) (sh_order sh ++ [code])
  end.

Section Hot.
Context (os : Os) (env : Env) {rnd : Rand}.

(** [cache_get]: the clock is read only for a code that is there. *)
Definition cache_get (code : bytes) (h : Hot) (s : Sys) : option bytes * Hot * Sys :=
  match cached h code with
  | None => (None, h, s)
  | Some x =>
      let '(now, s) := now_ms os s in
      if (0 <? hc_ttl h) && (hc_ttl h <? i64 (now - k_at x)) then (None, cache_del code h, s)
      else if negb (k_e x =? 0) && (k_e x <=? now) then (None, h, s)
      else (Some (k_u x), h, s)
  end.

(** [cache_put]. *)
Definition cache_put (code u : bytes) (e : Z) (h : Hot) (s : Sys) : Hot * Sys :=
  let '(now, s) := now_ms os s in
  (upd_cache code (put_shard (hc_cap h) code (mkKvEntry u e now)) h, s).

(** ** Pending hits *)

(** [bump]. *)
Definition hot_bump (code : bytes) (h : Hot) : Hot :=
  if track_hits env
  then upd_dirty (fun d => <[code := i64 (default 0 (d !! code) + 1)]> d) code h
  else h.

(** [dirty[i].find(code)]. *)
Definition dirty_hits (h : Hot) (code : bytes) : option Z :=
  default ∅ (hc_dirty h !! shard_of code) !! code.

(** The loop of [flush_hits]: what was pending, shard by shard, and the maps
    cleared. *)
Definition take_dirty {std : StdImpl} (h : Hot) : list (bytes * Z) * Hot :=
  (concat (map umap_iter (hc_dirty h)), set_dirty (map (fun _ => ∅) (hc_dirty h)) h).

(** ** Codes *)
Fixpoint draw_suffix (n k : nat) : bytes :=
  match n with O => [] | S n' => Base62.alpha (rand k) :: draw_suffix n' (S k) end.

(** [gen_code]. *)
Definition hot_code (h : Hot) : bytes * Hot :=
  (hc_prefix h :: draw_suffix 7 (hc_draws h), set_draws (7 + hc_draws h) h).

End Hot.

(** ** The state of an engine: cache and counters over a backend *)
Record Engine (D : Type) := mkEngine {
  rw_hot : Hot; rw_db : D; rw_sys : Sys; rw_counters : Counters; rw_reads : nat }.
Arguments mkEngine {D}.
Arguments rw_hot {D}.
Arguments rw_db {D}.
Arguments rw_sys {D}.
Arguments rw_counters {D}.
Arguments rw_reads {D}.

Section Engine.
Context {D : Type} (os : Os) (env : Env).
(** [elapsed_us k]: what the steady clock measures for the k-th read. *)
Context (elapsed_us : nat -> Z).

Definition rw_set_hot (h : Hot) (w : Engine D) : Engine D := mkEngine h (rw_db w) (rw_sys w) (rw_counters w) (rw_reads w).
Definition rw_set_db (d : D) (w : Engine D) : Engine D := mkEngine (rw_hot w) d (rw_sys w) (rw_counters w) (rw_reads w).
Definition rw_set_sys (s : Sys) (w : Engine D) : Engine D := mkEngine (rw_hot w) (rw_db w) s (rw_counters w) (rw_reads w).
Definition rw_count (f : Counters -> Counters) (w : Engine D) : Engine D :=
  mkEngine (rw_hot w) (rw_db w) (rw_sys w) (f (rw_counters w)) (rw_reads w).

(** [metrics::store_read] with the time of this read. *)
Definition rw_count_read (w : Engine D) : Engine D :=
  mkEngine (rw_hot w) (rw_db w) (rw_sys w) (store_read (elapsed_us (rw_reads w)) (rw_counters w)) (S (rw_reads w)).

Definition rw_cache_get (code : bytes) (w : Engine D) : option bytes * Engine D :=
  let '(r, h, s) := cache_get os code (rw_hot w) (rw_sys w) in (r, rw_set_hot h (rw_set_sys s w)).
Definition rw_cache_put (code u : bytes) (e : Z) (w : Engine D) : Engine D :=
  let '(h, s) := cache_put os code u e (rw_hot w) (rw_sys w) in rw_set_hot h (rw_set_sys s w).
Definition rw_cache_del (code : bytes) (w : Engine D) : Engine D := rw_set_hot (cache_del code (rw_hot w)) w.
Definition rw_bump (code : bytes) (w : Engine D) : Engine D := rw_set_hot (hot_bump env code (rw_hot w)) w.
Definition links_count (n : Z) (c : Counters) : Counters :=
  mkCounters (CACHE_HIT c) (CACHE_MISS c) (STORE_READS c) (STORE_READ_US c) (STORE_WRITES c) (i64 (LINKS_TOTAL c + n)).

End Engine.

(** ** The codec inverts itself *)
Lemma number_no_bar z : BAR ∉ to_string z.
Proof.
  intros H. pose proof (to_string_chars z) as Hc. rewrite Forall_forall in Hc. specialize (Hc _ H). done.
Qed.

(** Cutting at the first bar behind a number. *)
Lemma cut_number z r :
  find_char BAR (to_string z ++ BAR :: r) = Some (length (to_string z)) /\
  take (length (to_string z)) (to_string z ++ BAR :: r) = to_string z /\
  drop (length (to_string z) + 1) (to_string z ++ BAR :: r) = r.
Proof.
  split; [apply find_char_first, number_no_bar|]. rewrite take_app_length. split; [done|].
  rewrite <- drop_drop, drop_app_length. done.
Qed.

Lemma dec_enc e c u : in_i64 e -> in_i64 c -> dec (enc e c u) = Some (e, c, u).
Proof.
  intros He Hc. unfold dec, enc. rewrite starts_with_app. change (drop 3 (B "v1|" ++ ?x)) with x.
  change (B "|" ++ ?x) with (BAR :: x).
  destruct (cut_number e (to_string c ++ B "|" ++ u)) as (-> & -> & ->). rewrite stoll_to_string by done.
  change (B "|" ++ u) with (BAR :: u). destruct (cut_number c u) as (-> & -> & ->). by rewrite stoll_to_string.
Qed.

Lemma dec_range v e c u : dec v = Some (e, c, u) -> in_i64 e /\ in_i64 c.
Proof.
  unfold dec. cbv zeta. destruct (find_char BAR _); [|done]. destruct (stoll _) as [e'|] eqn:He; [|done].
  destruct (find_char BAR (drop _ _)).
  - destruct (stoll (take n0 _)) as [c'|] eqn:Hc; [|done]. intros [= <- <- _]. split; by eapply stoll_range.
  - intros [= <- <- _]. split; [by eapply stoll_range|]. unfold in_i64. lia.
Qed.

(** ** The cache is bounded *)

(** A shard holds at most [cap] entries, and every one of them is queued for
    eviction. *)
Definition shard_wf (cap : Z) (sh : KvShard) : Prop :=
  Z.of_nat (size (sh_m sh)) <= cap /\ forall c, is_Some (sh_m sh !! c) -> c ∈ sh_order sh.

Record hot_wf (h : Hot) : Prop := {
  hw_len : length (hc_cache h) = KV_SHARDS;
  hw_dirty : length (hc_dirty h) = KV_SHARDS;
  hw_cap : 1 <= hc_cap h;
  hw_shards : Forall (shard_wf (hc_cap h)) (hc_cache h);
  hw_own : forall k d c, hc_dirty h !! k = Some d -> is_Some (d !! c) -> shard_of c = k
}.

Lemma cache_evict_sub cap m order c x : sh_m (cache_evict cap m order) !! c = Some x -> m !! c = Some x.
Proof.
  revert m. induction order as [|d o IH]; intros m; cbn [cache_evict]; [done|]. case_if; [|done].
  intros H. apply IH in H. by apply lookup_delete_Some in H as [_ ?].
Qed.

(** Afterwards there is room for one more. *)
Lemma cache_evict_wf cap sh : 1 <= cap -> shard_wf cap sh ->
  let sh' := cache_evict cap (sh_m sh) (sh_order sh) in
  Z.of_nat (size (sh_m sh')) < cap /\ forall c, is_Some (sh_m sh' !! c) -> c ∈ sh_order sh'.
Proof.
  intros Hcap [_ Hq]. destruct sh as [m order]. cbn [sh_m sh_order] in *. cbv zeta. revert m Hq.
  induction order as [|d o IH]; intros m Hq; cbn [cache_evict].
  - assert (m = ∅) as ->.
    { apply map_eq. intros c. rewrite lookup_empty. destruct (m !! c) eqn:E; [|done].
      exfalso. specialize (Hq c ltac:(by eexists)). by apply not_elem_of_nil in Hq. }
    cbn [sh_m sh_order]. rewrite map_size_empty. split; [lia|]. intros c. rewrite lookup_empty. by intros [? ?].
  - case_if; [|bool_facts; by split]. apply IH. intros c [x Hx]. apply lookup_delete_Some in Hx as [Hne Hx].
    specialize (Hq c ltac:(by eexists)). apply elem_of_cons in Hq as [->|?]; done.
Qed.

Lemma put_shard_wf cap code x sh : 1 <= cap -> shard_wf cap sh -> shard_wf cap (put_shard cap code x sh).
Proof.
  intros Hcap Hwf. unfold put_shard. destruct (sh_m sh !! code) as [y|] eqn:E.
  - destruct Hwf as [Hs Hq]. split; cbn [sh_m sh_order].
    + rewrite map_size_insert_Some; [done|by exists y].
    + intros c. destruct (decide (c = code)) as [->|]; [intros _; apply Hq; by exists y|].
      rewrite lookup_insert_ne by done. apply Hq.
  - destruct (cache_evict_wf cap sh Hcap Hwf) as [Hs Hq]. split; cbn [sh_m sh_order].
    + rewrite map_size_insert_None; [lia|]. destruct (sh_m (cache_evict _ _ _) !! code) eqn:E2; [|done].
      apply cache_evict_sub in E2. congruence.
    + intros c. rewrite elem_of_app, list_elem_of_singleton. destruct (decide (c = code)); [by right|].
      rewrite lookup_insert_ne by done. intros Hc. left. by apply Hq.
Qed.

Lemma upd_cache_wf code f h : (forall sh, shard_wf (hc_cap h) sh -> shard_wf (hc_cap h) (f sh)) ->
  hot_wf h -> hot_wf (upd_cache code f h).
Proof.
  intros Hf [H1 H2 H3 H4 H5]. split; cbn [upd_cache hc_cache hc_cap hc_dirty]; rewrite ?length_alter; try done.
  apply Forall_alter; [done|]. intros sh _. apply Hf.
Qed.

Lemma cache_del_wf code h : hot_wf h -> hot_wf (cache_del code h).
Proof.
  apply upd_cache_wf. intros sh [Hs Hq]. split; cbn [sh_m sh_order].
  - pose proof (map_size_delete code (sh_m sh)) as E. destruct (sh_m sh !! code); simpl in E; lia.
  - intros c [x Hx]. apply lookup_delete_Some in Hx as [_ Hx]. apply Hq. by eexists.
Qed.

Lemma cache_put_wf os code u e h s : hot_wf h -> hot_wf (fst (cache_put os code u e h s)).
Proof. intros H. apply upd_cache_wf; [|done]. intros sh. apply put_shard_wf, (hw_cap h H). Qed.

Lemma cache_get_wf os code h s : hot_wf h -> hot_wf (snd (fst (cache_get os code h s))).
Proof.
  intros H. unfold cache_get. destruct (cached h code); [|done]. cbn [now_ms]. repeat case_if; try done.
  by apply cache_del_wf.
Qed.

Lemma upd_dirty_wf f code h : (forall d c, is_Some (f d !! c) -> c = code \/ is_Some (d !! c)) ->
  hot_wf h -> hot_wf (upd_dirty f code h).
Proof.
  intros Hf [H1 H2 H3 H4 H5]. split; cbn [upd_dirty set_dirty hc_cache hc_cap hc_dirty]; rewrite ?length_alter; try done.
  intros k d c Hk Hc. destruct (decide (shard_of code = k)) as [<-|].
  - rewrite list_lookup_alter_eq in Hk. apply fmap_Some in Hk as (d0 & Hk & ->). destruct (Hf _ _ Hc) as [->|]; eauto.
  - rewrite list_lookup_alter_ne in Hk by done. eauto.
Qed.

Lemma dirty_hits_upd f code h c : hot_wf h ->
  dirty_hits (upd_dirty f code h) c =
    if decide (shard_of code = shard_of c) then f (default ∅ (hc_dirty h !! shard_of c)) !! c else dirty_hits h c.
Proof.
  intros H. unfold dirty_hits, upd_dirty. cbn [set_dirty hc_dirty]. case_decide as E; [|by rewrite list_lookup_alter_ne].
  rewrite E, list_lookup_alter_eq. assert (is_Some (hc_dirty h !! shard_of c)) as [d ->]; [|done].
  apply lookup_lt_is_Some. rewrite (hw_dirty h H). apply shard_of_lt.
Qed.

Lemma hot_bump_wf env code h : hot_wf h -> hot_wf (hot_bump env code h).
Proof.
  intros H. unfold hot_bump. case_if; [|done]. apply upd_dirty_wf; [|done].
  intros d c. destruct (decide (c = code)); [by left|]. rewrite lookup_insert_ne by done. by right.
Qed.

Lemma dirty_hits_bump env code h c : hot_wf h -> track_hits env = true ->
  dirty_hits (hot_bump env code h) c =
    if decide (c = code) then Some (i64 (default 0 (dirty_hits h code) + 1)) else dirty_hits h c.
Proof.
  intros H Ht. unfold hot_bump. rewrite Ht.
  rewrite dirty_hits_upd by done. unfold dirty_hits. repeat case_decide; subst; try done.
  - by rewrite lookup_insert_eq.
  - by rewrite lookup_insert_ne.
Qed.

Lemma take_dirty_wf {std : StdImpl} h : hot_wf h -> hot_wf (snd (take_dirty h)).
Proof.
  intros [H1 H2 H3 H4 H5]. split; cbn [take_dirty snd set_dirty hc_cache hc_cap hc_dirty]; rewrite ?length_map; try done.
  intros k d c Hk. apply list_lookup_fmap_Some_1 in Hk as (d0 & -> & _). rewrite lookup_empty. by intros [? ?].
Qed.

(** Everything pending is taken, once. *)
Lemma take_dirty_spec {std : StdImpl} h : hot_wf h ->
  NoDup (fst (take_dirty h)).*1 /\ (forall c n, (c, n) ∈ fst (take_dirty h) <-> dirty_hits h c = Some n) /\
  forall c, dirty_hits (snd (take_dirty h)) c = None.
Proof.
  intros H. cbn [take_dirty fst snd]. split_and!.
  - apply (nodup_concat_keys _ 0). intros k l Hk. apply list_lookup_fmap_Some_1 in Hk as (d & -> & Hk).
    split; [apply umap_iter_nodup|]. intros c [[c' n] [-> Hc]]%list_elem_of_fmap. apply umap_iter_elem in Hc.
    apply (hw_own h H k d); [done|]. by exists n.
  - intros c n. rewrite list_elem_of_In, in_concat. setoid_rewrite in_map_iff. unfold dirty_hits. split.
    + intros (l & (d & <- & Hd) & Hc). apply list_elem_of_In, umap_iter_elem in Hc.
      apply list_elem_of_In, list_elem_of_lookup in Hd as [k Hk].
      assert (shard_of c = k) as -> by (apply (hw_own h H k d); [done|by exists n]). by rewrite Hk.
    + intros Hc. destruct (hc_dirty h !! shard_of c) as [d|] eqn:Ed; simpl in Hc; [|by rewrite lookup_empty in Hc].
      exists (umap_iter d). split; [exists d; split; [done|by eapply list_elem_of_In, list_elem_of_lookup_2]|].
      by apply list_elem_of_In, umap_iter_elem.
  - intros c. unfold dirty_hits. cbn [set_dirty hc_dirty]. rewrite list_lookup_fmap.
    destruct (hc_dirty h !! shard_of c); simpl; apply lookup_empty.
Qed.
Lemma hot_code_wf {rnd : Rand} h : hot_wf h -> hot_wf (snd (hot_code h)).
Proof. intros [H1 H2 H3 H4 H5]. by split. Qed.

Lemma hot_init_wf inst n cttl : hot_wf (hot_init inst n cttl).
Proof.
  split; [done..|cbn [hot_init hc_cap]; lia| |].
  2:{ intros k d c Hk. apply lookup_replicate in Hk as [-> _]. rewrite lookup_empty. by intros [? ?]. }
  cbn [hot_init hc_cache hc_cap]. apply Forall_replicate. split.
  - unfold KvShard0. cbn [sh_m]. rewrite map_size_empty. lia.
  - intros c [x Hx]. unfold KvShard0 in Hx. cbn [sh_m] in Hx. by rewrite lookup_empty in Hx.
Qed.

(** ** What the cache holds *)
Lemma kv_shard_upd code f h c' : hot_wf h ->
  kv_shard (upd_cache code f h) c' = if decide (shard_of code = shard_of c') then f (kv_shard h c') else kv_shard h c'.
Proof.
  intros H. unfold kv_shard, upd_cache. cbn [hc_cache]. case_decide as E; [|by rewrite list_lookup_alter_ne].
  rewrite E, list_lookup_alter_eq. assert (is_Some (hc_cache h !! shard_of c')) as [sh ->]; [|done].
  apply lookup_lt_is_Some. rewrite (hw_len h H). apply shard_of_lt.
Qed.

Lemma cached_del code h c' : hot_wf h -> cached (cache_del code h) c' = if decide (code = c') then None else cached h c'.
Proof.
  intros H. unfold cached, cache_del. rewrite kv_shard_upd by done. repeat case_decide; subst; try done; cbn [sh_m].
  - apply lookup_delete_eq.
  - by rewrite lookup_delete_ne.
Qed.

Lemma cached_put os code u e h s : hot_wf h ->
  cached (fst (cache_put os code u e h s)) code = Some (mkKvEntry u e (fst (now_ms os s))).
Proof.
  intros H. unfold cached, cache_put. cbn [now_ms fst]. rewrite kv_shard_upd by done.
  rewrite decide_True by done. unfold put_shard. case_match; cbn [sh_m]; apply lookup_insert_eq.
Qed.

Lemma cached_put_ne os code u e h s c' x : hot_wf h -> c' ≠ code ->
  cached (fst (cache_put os code u e h s)) c' = Some x -> cached h c' = Some x.
Proof.
  intros H Hne. unfold cached, cache_put. cbn [now_ms fst]. rewrite kv_shard_upd by done. case_decide; [|done].
  unfold put_shard. case_match; cbn [sh_m]; rewrite lookup_insert_ne by done; [done|]. apply cache_evict_sub.
Qed.

(** The entries of [h'] are entries of [h]. *)
Definition shrinks (h' h : Hot) : Prop := forall c x, cached h' c = Some x -> cached h c = Some x.

Lemma shrinks_refl h : shrinks h h.
Proof. by intros c x. Qed.
#[local] Hint Resolve shrinks_refl Nat.le_refl : core.

Lemma cache_del_shrinks code h : hot_wf h -> shrinks (cache_del code h) h.
Proof. intros H c x. rewrite cached_del by done. by case_decide. Qed.

(** A hit is an entry that was put, read before it expires; every lookup
    leaves the other entries alone. *)
Lemma cache_get_spec os code h s r h' s' : hot_wf h -> cache_get os code h s = (r, h', s') ->
  hot_wf h' /\ shrinks h' h /\ fs s' = fs s /\ (k_clock s <= k_clock s')%nat /\
  hc_prefix h' = hc_prefix h /\ hc_draws h' = hc_draws h /\ hc_dirty h' = hc_dirty h /\
  match r with
  | Some u => exists x, cached h code = Some x /\ u = k_u x /\ (k_clock s < k_clock s')%nat /\
      (k_e x = 0 \/ fst (now_ms os s) < k_e x)
  | None => True
  end.
Proof.
  intros H E. pose proof (cache_get_wf os code h s H) as Hw. rewrite E in Hw. cbn [fst snd] in Hw. split; [done|].
  unfold cache_get in E. destruct (cached h code) as [x|] eqn:Ex; [|injection E as <- <- <-; by split_and!].
  cbn [now_ms] in E. destruct ((0 <? hc_ttl h) && _).
  { injection E as <- <- <-. split_and!; try done; [by apply cache_del_shrinks|simpl; lia]. }
  destruct (negb _ && _) eqn:El; injection E as <- <- <-; split_and!; try done; try (simpl; lia).
  exists x. split_and!; try done; [simpl; lia|]. apply andb_false_iff in El as [El|El]; bool_facts; auto.
Qed.

(** What the cache of a node cannot answer a lookup at [now] with: nothing
    held, an entry older than the lifetime of entries, an expired link. *)
Definition outdated (code : bytes) (h : Hot) (now : Z) : Prop := forall x, cached h code = Some x ->
  0 < hc_ttl h /\ hc_ttl h < i64 (now - k_at x) \/ k_e x ≠ 0 /\ k_e x <= now.

Lemma cache_get_outdated os code h s : outdated code h (fst (now_ms os s)) ->
  exists h' s', cache_get os code h s = (None, h', s') /\ (k_clock s <= k_clock s')%nat.
Proof.
  intros H. unfold cache_get. destruct (cached h code) as [x|] eqn:Ex; [|by eexists _, _]. specialize (H x Ex). cbn [now_ms fst] in *.
  destruct ((0 <? hc_ttl h) && _) eqn:E1; [eexists _, _; split; [done|simpl; lia]|].
  destruct H as [[H1 H2]|[H1 H2]].
  - rewrite (proj2 (Z.ltb_lt _ _) H1), (proj2 (Z.ltb_lt _ _) H2) in E1. done.
  - rewrite (proj2 (Z.eqb_neq _ _) H1), (proj2 (Z.leb_le _ _) H2). cbn [negb andb]. eexists _, _. split; [done|simpl; lia].
Qed.

(** The clock does not go back. *)
Definition clock_steady (o : Os) : Prop := forall j k, (j <= k)%nat -> i64 (os_clock o j) <= i64 (os_clock o k).

(** The expiry [e] lies at or before one of the first [k] clock readings. *)
Definition gone_by (os : Os) (k : nat) (e : Z) : Prop := e ≠ 0 /\ exists j, (j < k)%nat /\ e <= i64 (os_clock os j).

(** Every entry, but those of the codes [X], agrees with a table of urls and
    expiries, or has expired by the time [k] and left the table. *)
Definition agrees (os : Os) (X : list bytes) (k : nat) (tbl : gmap bytes (bytes * Z)) (h : Hot) : Prop :=
  forall c x, c ∉ X -> cached h c = Some x ->
    match tbl !! c with Some (u, e) => k_u x = u /\ k_e x = e | None => gone_by os k (k_e x) end.

Lemma gone_by_le os k k' e : (k <= k')%nat -> gone_by os k e -> gone_by os k' e.
Proof. intros Hk [He (j & Hj & H)]. split; [done|]. exists j. split; [lia|done]. Qed.

Lemma agrees_le os X k k' tbl h : (k <= k')%nat -> agrees os X k tbl h -> agrees os X k' tbl h.
Proof.
  intros Hk H c x Hc Hx. specialize (H c x Hc Hx). destruct (tbl !! c) as [[u e]|]; [done|]. by eapply gone_by_le.
Qed.

Lemma agrees_shrinks os X k tbl h h' : shrinks h' h -> agrees os X k tbl h -> agrees os X k tbl h'.
Proof. intros Hs Ha c x Hc Hx. by apply Ha, Hs. Qed.

Lemma agrees_sub os X X' k tbl h : X ⊆ X' -> agrees os X k tbl h -> agrees os X' k tbl h.
Proof. intros Hs Ha c x Hc. apply Ha. intros Hin. by apply Hc, Hs. Qed.

(** Writing a row and caching it. *)
Lemma agrees_put os X k code u e tbl h s : hot_wf h ->
  agrees os (code :: X) k tbl h -> agrees os X k (<[code := (u, e)]> tbl) (fst (cache_put os code u e h s)).
Proof.
  intros H Ha c x Hc Hx. destruct (decide (c = code)) as [->|Hne].
  - rewrite lookup_insert_eq. rewrite cached_put in Hx by done. by injection Hx as <-.
  - rewrite lookup_insert_ne by done. apply Ha; [|by eapply cached_put_ne]. rewrite elem_of_cons. by intros [|].
Qed.

(** Changing the row of a code that is not cached. *)
Lemma agrees_uncached os X k code tbl tbl' h : cached h code = None -> (forall c, c ≠ code -> tbl' !! c = tbl !! c) ->
  agrees os X k tbl h -> agrees os X k tbl' h.
Proof.
  intros H Ht Ha c x Hc Hx. destruct (decide (c = code)) as [->|]; [congruence|]. rewrite Ht by done. by apply Ha.
Qed.

Lemma agrees_init os X k tbl inst n cttl : agrees os X k tbl (hot_init inst n cttl).
Proof.
  intros c x _. unfold cached, kv_shard, hot_init. cbn [hc_cache].
  destruct (replicate KV_SHARDS KvShard0 !! shard_of c) eqn:E; [|done]. by apply lookup_replicate in E as [-> _].
Qed.

(** Codes of an instance have its prefix, eight letters or digits. *)
Lemma draw_suffix_spec {rnd : Rand} n : forall k,
  length (draw_suffix n k) = n /\ Forall (fun c => c ∈ Base62.ALPHABET) (draw_suffix n k).
Proof.
  induction n as [|n IH]; intros k; cbn [draw_suffix]; [by split|]. destruct (IH (S k)) as [Hl Hf].
  split; [simpl; by rewrite Hl|]. constructor; [|done]. apply Base62.alpha_in. pose proof (rand_range k). lia.
Qed.
