(* ===== verification/StoreRocks.v ===== *)
(** * store_rocks.cpp: the embedded RocksDB store

    RocksDB is a parameter: the class [RocksDb] is the part of its interface
    the file calls, [RocksLaws] what its documentation promises of a database
    without I/O errors. The two callbacks the file gives to RocksDB, the
    merge operator and the compaction filter, are definitions. Background
    compactions are occurrences of [rk_compact] between operations. *)

From S2P Require Import Prelude CLib Common Aof Metrics Store StoreFacts StoreSpec App AppFacts HotCache.

(** ** The callbacks *)

(** [memcpy] between a [uint64_t] and eight bytes, on a little-endian machine. *)
Fixpoint le_bytes (n : nat) (z : Z) : bytes :=
  match n with O => [] | S n' => chr z :: le_bytes n' (z / 256) end.
Definition le64 (z : Z) : bytes := le_bytes 8 z.
Fixpoint le_val (s : bytes) : Z := match s with [] => 0 | c :: s => cc c + 256 * le_val s end.
Definition rd64 (s : bytes) : Z := le_val (take 8 s).

(** [if (value.size() >= 8) memcpy(&delta, value.data(), 8)]. *)
Definition slice64 (s : bytes) : Z := if (8 <=? length s)%nat then rd64 s else 0.

(** [U64AddMerge::Merge]. *)
Definition u64_merge (existing : option bytes) (value : bytes) : bytes :=
  let base := match existing with Some x => slice64 x | None => 0 end in
  le64 (u64 (base + slice64 value)).

(** [ExpiryFilter::Filter]: drop the link if it has expired. *)
Definition expiry_filter (os : Os) (v : bytes) (s : Sys) : bool * Sys :=
  match dec v with
  | Some (e, _, _) => if e =? 0 then (false, s) else let '(now, s) := now_ms os s in (e <=? now, s)
  | None => (false, s)
  end.

(** ** RocksDB *)
Inductive Cf := DEFAULT | LINKS | HITS.
Inductive BatchOp := BPut (k v : bytes) | BDelete (cf : Cf) (k : bytes) | BMerge (k v : bytes).
Inductive Got := Found (v : bytes) | NotFound | Failed.

(** Writes report whether the status is ok. *)
Class RocksDb (D : Type) := {
  rk_get : Cf -> bytes -> D -> Got;
  rk_put : bytes -> bytes -> D -> bool * D;
  rk_write : list BatchOp -> D -> bool * D;
  rk_iter : D -> list (bytes * bytes);
  rk_compact : (bytes -> Sys -> bool * Sys) -> D -> Sys -> D * Sys
}.

(** A write batch on the contents of the two column families. *)
Definition batch_op (lh : gmap bytes bytes * gmap bytes bytes) (o : BatchOp) : gmap bytes bytes * gmap bytes bytes :=
  match o with
  | BPut k v => (<[k := v]> (fst lh), snd lh)
  | BDelete LINKS k => (delete k (fst lh), snd lh)
  | BDelete HITS k => (fst lh, delete k (snd lh))
  | BDelete DEFAULT _ => lh
  | BMerge k v => (fst lh, <[k := u64_merge (snd lh !! k) v]> (snd lh))
  end.
Definition got_of (v : option bytes) : Got := match v with Some v => Found v | None => NotFound end.

(** A database without I/O errors: reads find what was written, a batch is
    applied in order, a compaction drops a link only when the filter said
    so. *)
Class RocksLaws (D : Type) {db : RocksDb D} (os : Os) := {
  db_ok : D -> Prop;
  db_links : D -> gmap bytes bytes;
  db_hit_map : D -> gmap bytes bytes;
  law_get_links k d : db_ok d -> rk_get LINKS k d = got_of (db_links d !! k);
  law_get_hits k d : db_ok d -> rk_get HITS k d = got_of (db_hit_map d !! k);
  law_put k v d : db_ok d -> exists d', rk_put k v d = (true, d') /\ db_ok d' /\
    db_links d' = <[k := v]> (db_links d) /\ db_hit_map d' = db_hit_map d;
  law_write ops d : db_ok d -> exists d', rk_write ops d = (true, d') /\ db_ok d' /\
    (db_links d', db_hit_map d') = fold_left batch_op ops (db_links d, db_hit_map d);
  law_iter d : db_ok d -> rk_iter d ≡ₚ map_to_list (db_links d);
  law_compact d s : db_ok d ->
    let '(d', s') := rk_compact (expiry_filter os) d s in
    db_ok d' /\ db_hit_map d' = db_hit_map d /\ fs s' = fs s /\ (k_clock s <= k_clock s')%nat /\
    forall k, db_links d' !! k = db_links d !! k \/
      (db_links d' !! k = None /\ exists v s1, db_links d !! k = Some v /\
         (k_clock s <= k_clock s1 < k_clock s')%nat /\ fst (expiry_filter os v s1) = true)
}.

(** ** The store *)
Section Rocks.
Context {D : Type} {db : RocksDb D} {std : StdImpl} {rnd : Rand}.
(** [elapsed_us k]: what the steady clock measures for the k-th read. *)
Context (os : Os) (env : Env) (elapsed_us : nat -> Z).

Definition rw_put (k v : bytes) (w : Engine D) : bool * Engine D :=
  let '(ok, d) := rk_put k v (rw_db w) in (ok, rw_set_db d w).
Definition rw_write (ops : list BatchOp) (w : Engine D) : bool * Engine D :=
  let '(ok, d) := rk_write ops (rw_db w) in (ok, rw_set_db d w).

(** [db_get] and [db_hits]; an error counts as absent. *)
Definition db_get (code : bytes) (w : Engine D) : option bytes :=
  match rk_get LINKS code (rw_db w) with Found v => Some v | _ => None end.
Definition db_hits (code : bytes) (w : Engine D) : Z :=
  match rk_get HITS code (rw_db w) with
  | Found v => if (length v <? 8)%nat then 0 else i64 (rd64 v)
  | _ => 0
  end.

(** [healthy]: a read of the empty key ([""] with a NUL in front). *)
Definition rocks_healthy (w : Engine D) : bool :=
  match rk_get DEFAULT [] (rw_db w) with Failed => false | _ => true end.

(** [flush_hits]; the status of the write is not looked at. *)
Definition rocks_flush (w : Engine D) : Engine D :=
  let '(ds, h) := take_dirty (rw_hot w) in
  let w := rw_set_hot h w in
  let ops := map (fun cn => BMerge (fst cn) (le64 (u64 (snd cn)))) ds in
  match ops with [] => w | _ => snd (rw_write ops w) end.

(** [resolve]. *)
Definition rocks_resolve (code : bytes) (w : Engine D) : option bytes * Engine D :=
  let '(r, w) := rw_cache_get os code w in
  match r with
  | Some u => (Some u, rw_bump env code (rw_count cache_hit w))
  | None =>
      let w := rw_count cache_miss w in
      let got := db_get code w in
      let w := rw_count_read elapsed_us w in
      match got with
      | None => (None, w)
      | Some v =>
          match dec v with
          | None => (None, w)
          | Some (e, _, us) =>
              let '(ok, s) := live os e (rw_sys w) in
              let w := rw_set_sys s w in
              if ok then (Some us, rw_bump env code (rw_cache_put os code us e w)) else (None, w)
          end
      end
  end.

(** The end of [shorten] for a free code: write, then cache. *)
Definition rocks_create (code url : bytes) (exp now : Z) (w : Engine D) : option bytes * Engine D :=
  let '(ok, w) := rw_put code (enc exp now url) w in
  if ok then (Some code, rw_cache_put os code url exp w) else (None, w).

(** The retry loop for a generated code. *)
Fixpoint rocks_fresh (fuel : nat) (url : bytes) (exp now : Z) (w : Engine D) : Out (option bytes) (Engine D) :=
  match fuel with
  | O => Hang
  | S f =>
      let '(c, h) := hot_code (rw_hot w) in
      let w := rw_set_hot h w in
      match db_get c w with
      | Some _ => rocks_fresh f url exp now w
      | None => ret (rocks_create c url exp now w)
      end
  end.

Definition rocks_shorten (fuel : nat) (url : bytes) (alias : option bytes) (ttl_ms : Z) (w : Engine D)
  : Out (option bytes) (Engine D) :=
  let w := rw_count store_write w in
  let '(now, s) := now_ms os (rw_sys w) in
  let w := rw_set_sys s w in
  let exp := expiry now ttl_ms in
  match alias with
  | Some code =>
      match db_get code w with
      | Some _ => Ret None w
      | None => ret (rocks_create code url exp now w)
      end
  | None => rocks_fresh fuel url exp now w
  end.

(** The first loop of [shorten_many]: the codes, empty where the draw was
    taken, and the batch. *)
Fixpoint rocks_batch (urls : list bytes) (exp now : Z) (w : Engine D) : list bytes * list BatchOp * Engine D :=
  match urls with
  | [] => ([], [], w)
  | u :: us =>
      let '(c, h) := hot_code (rw_hot w) in
      let w := rw_set_hot h w in
      let taken := bool_decide (is_Some (db_get c w)) in
      let '(cs, ops, w) := rocks_batch us exp now w in
      if taken then ([] :: cs, ops, w) else (c :: cs, BPut c (enc exp now u) :: ops, w)
  end.

(** The second loop. *)
Fixpoint rocks_settle (fuel : nat) (ok : bool) (urls codes : list bytes) (exp ttl_ms : Z) (w : Engine D)
  : Out (list bytes) (Engine D) :=
  match urls, codes with
  | u :: us, c :: cs =>
      if (c =s []) || negb ok then
        match rocks_shorten fuel u None ttl_ms w with
        | Ret r w =>
            match rocks_settle fuel ok us cs exp ttl_ms w with
            | Ret l w => Ret (default c r :: l) w
            | o => o
            end
        | Raise w => Raise w
        | Hang => Hang
        end
      else
        match rocks_settle fuel ok us cs exp ttl_ms (rw_cache_put os c u exp w) with
        | Ret l w => Ret (c :: l) w
        | o => o
        end
  | _, _ => Ret [] w
  end.

Definition rocks_shorten_many (fuel : nat) (urls : list bytes) (ttl_ms : Z) (w : Engine D)
  : Out (list bytes) (Engine D) :=
  let '(now, s) := now_ms os (rw_sys w) in
  let w := rw_set_sys s w in
  let exp := expiry now ttl_ms in
  let '(codes, ops, w) := rocks_batch urls exp now w in
  let '(ok, w) := rw_write ops w in
  rocks_settle fuel ok urls codes exp ttl_ms w.

Definition rocks_update (code url : bytes) (ttl_ms : Z) (has_ttl : bool) (w : Engine D) : MutResult * Engine D :=
  match db_get code w with
  | None => (MMissing, w)
  | Some v =>
      match dec v with
      | None => (MMissing, w)
      | Some (e, c, _) =>
          let '(exp, s) :=
            if has_ttl then
              if 0 <? ttl_ms then let '(now, s) := now_ms os (rw_sys w) in (i64 (now + ttl_ms), s) else (0, rw_sys w)
            else (e, rw_sys w) in
          let '(ok, w) := rw_put code (enc exp c url) (rw_set_sys s w) in
          if ok then (MOk, rw_cache_del code w) else (MMissing, w)
      end
  end.

(** [remove]; the status of the write is not looked at. *)
Definition rocks_remove (code : bytes) (w : Engine D) : MutResult * Engine D :=
  match db_get code w with
  | None => (MMissing, w)
  | Some _ =>
      let '(_, w) := rw_write [BDelete LINKS code; BDelete HITS code] w in
      (MOk, rw_cache_del code w)
  end.

(** One step of the iteration in [list] at time [now]. *)
Definition rocks_item (now : Z) (q : bytes) (w : Engine D) (kv : bytes * bytes) : option Link :=
  match dec (snd kv) with
  | None => None
  | Some (e, c, u) =>
      if negb (e =? 0) && (e <=? now) then None
      else if matches q (fst kv) u then Some (mkLink (fst kv) u (db_hits (fst kv) w) c e)
      else None
  end.

(** The page of sorted items. *)
Definition page (limit offset : nat) (items : list Link) : list Link * nat :=
  let total := length items in
  if (total <=? offset)%nat then ([], total)
  else (take (Nat.min (offset + limit) total - offset) (drop offset items), total).

Definition rocks_list (limit offset : nat) (sort q : bytes) (w : Engine D) : (list Link * nat) * Engine D :=
  let '(now, s) := now_ms os (rw_sys w) in
  let w := rw_set_sys s w in
  let items := omap (rocks_item now q w) (rk_iter (rw_db w)) in
  let items := if sort =s B "hits" then std_sort l_hits items else std_sort l_created items in
  (page limit offset items, w).

(** [dirty[i][code]], which makes an entry of 0. *)
Definition dirty_touch (code : bytes) : Hot -> Hot :=
  upd_dirty (fun d => <[code := default 0 (d !! code)]> d) code.

Definition rocks_stats (code : bytes) (w : Engine D) : option Link * Engine D :=
  match db_get code w with
  | None => (None, w)
  | Some v =>
      match dec v with
      | None => (None, w)
      | Some (e, c, u) =>
          let '(ok, s) := live os e (rw_sys w) in
          let w := rw_set_sys s w in
          if ok then
            let h := i64 (db_hits code w + default 0 (dirty_hits (rw_hot w) code)) in
            (Some (mkLink code u h c e), rw_set_hot (dirty_touch code (rw_hot w)) w)
          else (None, w)
      end
  end.

Definition rocks_seed (fuel : nat) (urls : list bytes) (w : Engine D) : Out nat (Engine D) :=
  match rocks_shorten_many fuel urls 0 w with
  | Ret _ w => Ret (length urls) (rocks_flush w)
  | Raise w => Raise w
  | Hang => Hang
  end.

Definition rocks_empty (w : Engine D) : bool := bool_decide (rk_iter (rw_db w) = []).

Definition rocks_compact (w : Engine D) : Engine D :=
  let '(d, s) := rk_compact (expiry_filter os) (rw_db w) (rw_sys w) in rw_set_db d (rw_set_sys s w).

(** ** The branches of [class Store] for this engine *)
Definition store_rocks_shorten (fuel : nat) (url : bytes) (alias : option bytes) (ttl_ms : Z) (w : Engine D)
  : Out (option bytes) (Engine D) :=
  match rocks_shorten fuel url alias ttl_ms w with
  | Ret (Some c) w => Ret (Some c) (rw_count (links_count 1) w)
  | o => o
  end.
Definition store_rocks_shorten_many (fuel : nat) (urls : list bytes) (ttl_ms : Z) (w : Engine D)
  : Out (list bytes) (Engine D) :=
  match rocks_shorten_many fuel urls ttl_ms w with
  | Ret l w => Ret l (rw_count (links_count (Z.of_nat (length l))) w)
  | o => o
  end.
Definition store_rocks_remove (code : bytes) (w : Engine D) : MutResult * Engine D :=
  match rocks_remove code w with
  | (MOk, w) => (MOk, rw_count (links_count (-1)) w)
  | o => o
  end.

End Rocks.

#[export] Instance rocks_store {D} {db : RocksDb D} {std : StdImpl} {rnd : Rand} (os : Os) (env : Env) (us : nat -> Z) (fuel : nat)
  : StoreApi (Engine D) := {
  st_sys := rw_sys;
  st_with_sys := rw_set_sys;
  st_counters := rw_counters;
  st_healthy w := Ret (rocks_healthy w) w;
  st_resolve code w := ret (rocks_resolve os env us code w);
  st_shorten := store_rocks_shorten os fuel;
  st_shorten_many := store_rocks_shorten_many os fuel;
  st_update code u ttl has w := ret (rocks_update os code u ttl has w);
  st_remove code w := ret (store_rocks_remove code w);
  st_list limit offset sort q w := ret (rocks_list os limit offset sort q w);
  st_stats code w := ret (rocks_stats os code w)
}.
