(* ===== verification/RocksFacts.v ===== *)
(** * The RocksDB store keeps the promises of a store

    The links of the database, the cache that agrees with them, what every
    operation does to both, and the instance of [StoreLaws]: what AppClaims.v
    shows of the HTTP interface holds over this engine too. *)

From S2P Require Import Prelude CLib Common Aof Metrics Store StoreFacts StoreSpec App AppFacts HotCache StoreRocks.

Section RocksFacts.
Context {D : Type} {db : RocksDb D} {std : StdImpl} {rnd : Rand} (os : Os) {laws : RocksLaws D os}.
Implicit Types w : Engine D.

(** ** The table of links *)
Definition value_row (v : bytes) : option (bytes * Z) :=
  match dec v with Some (e, _, u) => Some (u, e) | None => None end.
Definition rocks_table (w : Engine D) : gmap bytes (bytes * Z) := omap value_row (db_links (rw_db w)).

(** A database without errors, a bounded cache, a prefix of the alphabet and
    values the codec reads. *)
Record rocks_wf (w : Engine D) : Prop := {
  rok_db : db_ok (rw_db w);
  rok_hot : hot_wf (rw_hot w);
  rok_prefix : hc_prefix (rw_hot w) ∈ Base62.ALPHABET;
  rok_values : forall c v, db_links (rw_db w) !! c = Some v -> is_Some (dec v)
}.

(** The cache agrees with the table, but for the codes [X]. *)
Definition rocks_agrees (X : list bytes) (w : Engine D) : Prop :=
  agrees os X (k_clock (rw_sys w)) (rocks_table w) (rw_hot w).
Definition rocks_okX (X : list bytes) (w : Engine D) : Prop := rocks_wf w /\ rocks_agrees X w.
Definition rocks_ok (w : Engine D) : Prop := rocks_okX [] w.

Lemma rocks_table_lookup w c : rocks_table w !! c = db_links (rw_db w) !! c ≫= value_row.
Proof. apply lookup_omap. Qed.

Lemma db_get_spec w c : rocks_wf w -> db_get c w = db_links (rw_db w) !! c.
Proof. intros H. unfold db_get. rewrite law_get_links by apply H. by destruct (_ !! c). Qed.

(** Absent from the database and absent from the table are the same. *)
Lemma table_none w c : rocks_wf w -> rocks_table w !! c = None <-> db_links (rw_db w) !! c = None.
Proof.
  intros H. rewrite rocks_table_lookup. destruct (db_links (rw_db w) !! c) as [v|] eqn:E; [|done]. simpl.
  destruct (rok_values w H c v E) as [[[e cr] u] Hd]. unfold value_row. by rewrite Hd.
Qed.

Lemma table_some w c v e cr u : db_links (rw_db w) !! c = Some v -> dec v = Some (e, cr, u) ->
  rocks_table w !! c = Some (u, e).
Proof. intros Hv Hd. rewrite rocks_table_lookup, Hv. simpl. unfold value_row. by rewrite Hd. Qed.

(** ** Changes beside the database *)
Lemma rocks_wf_hot w h : rocks_wf w -> hot_wf h -> hc_prefix h = hc_prefix (rw_hot w) -> rocks_wf (rw_set_hot h w).
Proof. intros [H1 H2 H3 H4] Hw Hp. split; cbn [rw_set_hot rw_db rw_hot]; try done. by rewrite Hp. Qed.
Lemma rocks_wf_sys w s : rocks_wf w -> rocks_wf (rw_set_sys s w).
Proof. by intros [H1 H2 H3 H4]. Qed.

Lemma rocks_ok_hot X w h : rocks_okX X w -> hot_wf h -> hc_prefix h = hc_prefix (rw_hot w) ->
  shrinks h (rw_hot w) -> rocks_okX X (rw_set_hot h w).
Proof. intros [H1 H2] Hw Hp Hs. split; [by apply rocks_wf_hot|]. by apply (agrees_shrinks _ _ _ _ (rw_hot w)). Qed.

Lemma rocks_ok_sys X w s : rocks_okX X w -> (k_clock (rw_sys w) <= k_clock s)%nat -> rocks_okX X (rw_set_sys s w).
Proof. intros [H1 H2] Hk. split; [by apply rocks_wf_sys|]. by apply (agrees_le _ _ (k_clock (rw_sys w))). Qed.
Lemma rocks_ok_count X f w : rocks_okX X w -> rocks_okX X (rw_count f w).
Proof. by intros [[H1 H2 H3 H4] H5]. Qed.
Lemma rocks_ok_count_read X us w : rocks_okX X w -> rocks_okX X (rw_count_read us w).
Proof. by intros [[H1 H2 H3 H4] H5]. Qed.

Lemma rocks_ok_bump X env c w : rocks_okX X w -> rocks_okX X (rw_bump env c w).
Proof.
  intros H. apply rocks_ok_hot; [done|apply hot_bump_wf, H|unfold hot_bump; by case_if|].
  intros c' x. unfold hot_bump. by case_if.
Qed.

Lemma rocks_ok_code X w c h : rocks_okX X w -> hot_code (rw_hot w) = (c, h) ->
  rocks_okX X (rw_set_hot h w) /\ code_ok c = true /\ length c = 8%nat.
Proof.
  intros H [= <- <-]. split; [apply rocks_ok_hot; [done|by apply (hot_code_wf (rw_hot w)), H|done|by intros c x]|].
  split; [|reflexivity]. destruct (draw_suffix_spec 7 (hc_draws (rw_hot w))) as [Hl Hf].
  apply (code_shape_ok (hc_prefix (rw_hot w))); [apply H|]. split_and!; [reflexivity|done|exact Hf].
Qed.

(** Caching a row of the table. *)
Lemma rocks_ok_put_cached X c u e w : rocks_okX (c :: X) w -> rocks_table w !! c = Some (u, e) ->
  rocks_okX X (rw_cache_put os c u e w).
Proof.
  intros [Hw Ha] Ht. unfold rw_cache_put, cache_put. cbn [now_ms].
  pose proof (agrees_put os X _ c u e _ _ (rw_sys w) (rok_hot w Hw) Ha) as Hp. rewrite insert_id in Hp by done.
  split; [|eapply agrees_le; [|exact Hp]; simpl; lia].
  apply (rocks_wf_hot (rw_set_sys _ w)); [by apply rocks_wf_sys|by apply (cache_put_wf os c u e _ (rw_sys w)), Hw|done].
Qed.

(** ** Changes of the database *)

(** After a successful [Put]; the cache is told later. *)
Lemma rw_put_spec c u e cr w : rocks_wf w -> in_i64 e -> in_i64 cr ->
  exists w', rw_put c (enc e cr u) w = (true, w') /\ rw_hot w' = rw_hot w /\ rw_sys w' = rw_sys w /\
    rocks_wf w' /\ rocks_table w' = <[c := (u, e)]> (rocks_table w).
Proof.
  intros [H1 H2 H3 H4] He Hc. destruct (law_put c (enc e cr u) (rw_db w) H1) as (d & Hp & Hd & Hl & Hh).
  exists (rw_set_db d w). unfold rw_put. rewrite Hp. split_and!; try done.
  - split; cbn [rw_set_db rw_db rw_hot]; try done. intros c' v. rewrite Hl.
    destruct (decide (c' = c)) as [->|]; [rewrite lookup_insert_eq|rewrite lookup_insert_ne by done; apply H4].
    intros [= <-]. rewrite dec_enc by done. by eexists.
  - unfold rocks_table. cbn [rw_set_db rw_db]. rewrite Hl, (omap_insert_Some _ _ _ _ (u, e)); [done|].
    unfold value_row. by rewrite dec_enc.
Qed.

Lemma rocks_create_spec X c u exp now w : rocks_okX X w -> in_i64 exp -> in_i64 now ->
  exists w', rocks_create os c u exp now w = (Some c, w') /\ rocks_okX X w' /\
    rocks_table w' = <[c := (u, exp)]> (rocks_table w) /\ rw_sys w' = snd (now_ms os (rw_sys w)).
Proof.
  intros [Hw Ha] He Hn. destruct (rw_put_spec c u exp now w Hw He Hn) as (w1 & Hp & Hh & Hs & Hw1 & Ht).
  unfold rocks_create. rewrite Hp. eexists. split; [reflexivity|]. split; [|by rewrite <- Hs].
  apply rocks_ok_put_cached; [|by rewrite Ht, lookup_insert_eq]. split; [done|].
  unfold rocks_agrees. rewrite Hh, Hs, Ht. intros c' x Hc Hx. rewrite elem_of_cons in Hc.
  rewrite lookup_insert_ne by (intros ->; tauto). apply Ha; [tauto|done].
Qed.

(** ** The operations *)
Lemma now_range s : in_i64 (fst (now_ms os s)).
Proof. apply i64_range. Qed.
Lemma expiry_i64 now ttl : in_i64 (expiry now ttl).
Proof. unfold expiry. case_if; [apply i64_range|unfold in_i64; lia]. Qed.
Lemma read_now s s' : (k_clock s < k_clock s')%nat -> read_during os s s' (fst (now_ms os s)).
Proof. intros H. exists (k_clock s). split; [lia|done]. Qed.
Hint Resolve now_range expiry_i64 : core.

(** The retry loop ends with a fresh code; it writes nothing else. *)
Lemma rocks_fresh_spec X n u exp now : in_i64 exp -> in_i64 now -> forall w, rocks_okX X w ->
  match rocks_fresh os n u exp now w with
  | Ret r w' => exists c, r = Some c /\ rocks_okX X w' /\ rocks_table w !! c = None /\ code_ok c = true /\ length c = 8%nat /\
      rocks_table w' = <[c := (u, exp)]> (rocks_table w) /\ rw_sys w' = snd (now_ms os (rw_sys w))
  | Raise _ => False
  | Hang => True
  end.
Proof.
  intros He Hn. induction n as [|n IH]; intros w H; cbn [rocks_fresh]; [done|].
  destruct (hot_code (rw_hot w)) as [c h] eqn:Ec. destruct (rocks_ok_code X w c h H Ec) as (Ho & Hc & Hl).
  rewrite (db_get_spec _ c (proj1 Ho)). destruct (db_links _ !! c) eqn:Ed; [exact (IH _ Ho)|].
  apply table_none in Ed; [|apply Ho]. destruct (rocks_create_spec X c u exp now _ Ho He Hn) as (w' & -> & H1 & H2 & H3).
  simpl. by exists c.
Qed.

Lemma rocks_shorten_spec X n u alias ttl w : rocks_okX X w ->
  match rocks_shorten os n u alias ttl w with
  | Ret (Some c) w' => rocks_okX X w' /\ rocks_table w !! c = None /\
      (alias = Some c \/ (alias = None /\ code_ok c = true /\ length c = 8%nat)) /\
      rocks_table w' = <[c := (u, expiry (fst (now_ms os (rw_sys w))) ttl)]> (rocks_table w) /\
      rw_sys w' = snd (now_ms os (snd (now_ms os (rw_sys w))))
  | Ret None w' => rocks_okX X w' /\ rocks_table w' = rocks_table w /\ (exists c, alias = Some c /\ is_Some (rocks_table w !! c))
  | Raise _ => False
  | Hang => alias = None
  end.
Proof.
  intros H. unfold rocks_shorten. rewrite (surjective_pairing (now_ms os _)). cbv beta iota zeta.
  change (rw_sys (rw_count store_write w)) with (rw_sys w). set (w1 := rw_set_sys _ (rw_count _ w)).
  set (now := fst (now_ms os (rw_sys w))).
  assert (H1 : rocks_okX X w1) by (apply rocks_ok_sys; [by apply rocks_ok_count|simpl; lia]).
  destruct alias as [c|].
  - rewrite (db_get_spec _ c (proj1 H1)). destruct (db_links (rw_db w1) !! c) as [v|] eqn:Ed.
    + split_and!; try done. exists c. split; [done|]. apply not_eq_None_Some. rewrite (table_none w) by apply H.
      change (db_links (rw_db w) !! c) with (db_links (rw_db w1) !! c). by rewrite Ed.
    + apply table_none in Ed; [|apply H1].
      destruct (rocks_create_spec X c u (expiry now ttl) now w1 H1) as (w' & -> & H2 & H3 & H4); [by unfold now..|]. simpl.
      split_and!; auto.
  - pose proof (rocks_fresh_spec X n u (expiry now ttl) now (expiry_i64 _ _) (now_range _) w1 H1) as Hf.
    destruct (rocks_fresh os n u _ _ w1); [|done..]. destruct Hf as (c & -> & H2 & H3 & H4 & H5 & H6 & H7). split_and!; auto.
Qed.

(** What a hit of the cache means for the table. *)
Lemma rocks_hit_spec c w u1 h1 s1 : rocks_ok w -> cache_get os c (rw_hot w) (rw_sys w) = (Some u1, h1, s1) ->
  (k_clock (rw_sys w) < k_clock s1)%nat /\
  match rocks_table w !! c with
  | Some (u, e) => u1 = u /\ (e = 0 \/ fst (now_ms os (rw_sys w)) < e)
  | None => exists e, gone_by os (k_clock (rw_sys w)) e /\ fst (now_ms os (rw_sys w)) < e
  end.
Proof.
  intros [Hw Ha] Eg. destruct (cache_get_spec os c _ _ _ h1 s1 (rok_hot w Hw) Eg) as (_ & _ & _ & _ & _ & _ & _ & Hr).
  destruct Hr as (x & Hx & -> & Hk & Hl). split; [done|].
  specialize (Ha c x (not_elem_of_nil c) Hx). destruct (rocks_table w !! c) as [[u e]|].
  - destruct Ha as [<- <-]. by split.
  - exists (k_e x). split; [done|]. destruct Ha as [He _]. by destruct Hl.
Qed.

(** A lookup gives the row of the table, from the cache or the database; an
    expired link that a compaction dropped can only come back if the clock
    goes back. *)
Lemma rocks_resolve_spec env us c w r w' : rocks_ok w -> rocks_resolve os env us c w = (r, w') ->
  rocks_ok w' /\ rocks_table w' = rocks_table w /\
  match rocks_table w !! c with
  | Some (u, e) => (e = 0 -> r = Some u) /\
      (e ≠ 0 -> exists now, read_during os (rw_sys w) (rw_sys w') now /\ r = (if now <? e then Some u else None))
  | None => r = None \/ exists e, gone_by os (k_clock (rw_sys w)) e /\ fst (now_ms os (rw_sys w)) < e
  end.
Proof.
  intros H. unfold rocks_resolve, rw_cache_get. destruct (cache_get os c (rw_hot w) (rw_sys w)) as [[r1 h1] s1] eqn:Eg.
  destruct (cache_get_spec os c _ _ r1 h1 s1 (rok_hot w (proj1 H)) Eg) as (Hw1 & Hs1 & _ & Hk1 & Hp1 & _).
  set (w1 := rw_set_hot h1 (rw_set_sys s1 w)).
  assert (H1 : rocks_ok w1) by (by apply (rocks_ok_hot [] (rw_set_sys s1 w)); [apply rocks_ok_sys|..]).
  destruct r1 as [u1|].
  - destruct (rocks_hit_spec c w u1 h1 s1 H Eg) as [Hk Hr]. intros [= <- <-].
    split; [by apply rocks_ok_bump, rocks_ok_count|]. split; [done|].
    destruct (rocks_table w !! c) as [[u e]|]; [|by right]. destruct Hr as [-> Hl]. split; [done|]. intros He.
    exists (fst (now_ms os (rw_sys w))). split; [by apply read_now|].
    destruct Hl as [?|Hl]; [done|]. by rewrite (proj2 (Z.ltb_lt _ _) Hl).
  - rewrite (db_get_spec (rw_count cache_miss w1) c) by exact (proj1 (rocks_ok_count [] cache_miss w1 H1)).
    change (db_links (rw_db (rw_count cache_miss w1))) with (db_links (rw_db w)).
    set (w2 := rw_count_read us (rw_count cache_miss w1)).
    assert (H2 : rocks_ok w2) by by apply rocks_ok_count_read, rocks_ok_count.
    rewrite rocks_table_lookup. destruct (db_links (rw_db w) !! c) as [v|] eqn:Ev; simpl; [|intros [= <- <-]; auto].
    unfold value_row. destruct (dec v) as [[[e cr] u]|] eqn:Ed; [|intros [= <- <-]; auto].
    assert (Hput : forall s, (k_clock s1 <= k_clock s)%nat ->
      rocks_ok (rw_bump env c (rw_cache_put os c u e (rw_set_sys s w2)))).
    { intros s Hs. apply rocks_ok_bump, rocks_ok_put_cached; [|by apply (table_some _ c v e cr)].
      apply rocks_ok_sys; [|done]. split; [apply H2|]. eapply agrees_sub; [|apply H2]. set_solver. }
    unfold live. destruct (e =? 0) eqn:E0; bool_facts.
    + intros [= <- <-]. split; [by apply Hput|]. by split_and!.
    + cbn [now_ms]. change (rw_sys w2) with s1. destruct (i64 (os_clock os (k_clock s1)) <? e) eqn:El.
      * intros [= <- <-]. split; [apply Hput; simpl; lia|]. split_and!; try done. intros _.
        exists (fst (now_ms os s1)). cbn [now_ms fst]. rewrite El. split; [|done].
        exists (k_clock s1). split; [split; [done|]; simpl; lia|done].
      * intros [= <- <-]. split; [apply rocks_ok_sys; [done|simpl; lia]|]. split_and!; try done. intros _.
        exists (fst (now_ms os s1)). cbn [now_ms fst]. rewrite El.
        split; [|done]. exists (k_clock s1). split; [split; [done|]; simpl; lia|done].
Qed.

Lemma rocks_update_spec c u ttl has w r w' : rocks_ok w -> rocks_update os c u ttl has w = (r, w') ->
  rocks_ok w' /\
  match r with
  | MOk => exists u0 e0 e, rocks_table w !! c = Some (u0, e0) /\ rocks_table w' = <[c := (u, e)]> (rocks_table w) /\
      if has then exists now, (0 < ttl -> read_during os (rw_sys w) (rw_sys w') now) /\ e = expiry now ttl else e = e0
  | MMissing => rocks_table w !! c = None /\ rocks_table w' = rocks_table w
  | MRemote => False
  end.
Proof.
  intros [H Ha]. unfold rocks_update. rewrite (db_get_spec w c H).
  destruct (db_links (rw_db w) !! c) as [v|] eqn:Ev; [|intros [= <- <-]; by rewrite (table_none w)].
  destruct (rok_values w H c v Ev) as [[[e0 cr] u0] Hd]. rewrite Hd.
  pose proof (table_some w c v e0 cr u0 Ev Hd) as Ht. destruct (dec_range _ _ _ _ Hd) as [He0 Hcr].
  destruct (if has then _ else _) as [exp s] eqn:Ee.
  assert (Hx : in_i64 exp /\ (k_clock (rw_sys w) <= k_clock s)%nat /\
    (if has then exists now, (0 < ttl -> now = fst (now_ms os (rw_sys w)) /\ s = snd (now_ms os (rw_sys w))) /\ exp = expiry now ttl
     else exp = e0)).
  { destruct has; [|by injection Ee as <- <-]. unfold expiry. destruct (0 <? ttl) eqn:E0; bool_facts.
    - cbn [now_ms] in Ee. injection Ee as <- <-. split; [apply i64_range|]. split; [simpl; lia|].
      exists (fst (now_ms os (rw_sys w))). by split.
    - injection Ee as <- <-. split; [unfold in_i64; lia|]. split; [done|]. exists 0. split; [lia|done]. }
  destruct Hx as (Hxr & Hxk & Hx).
  destruct (rw_put_spec c u exp cr (rw_set_sys s w) (rocks_wf_sys w s H) Hxr Hcr) as (w1 & -> & Hh & Hs & Hw1 & Htb).
  intros [= <- <-]. split; [|exists u0, e0, exp; split; [done|]; split; [exact Htb|]].
  - split; [apply rocks_wf_hot; [done|rewrite Hh; apply cache_del_wf, H|done]|].
    unfold rocks_agrees, rw_cache_del. cbn [rw_set_hot rw_sys rw_hot]. rewrite Hh, Hs.
    apply (agrees_uncached _ _ _ c (rocks_table w)); [rewrite cached_del by apply H; by rewrite decide_True|
      |apply (agrees_shrinks _ _ _ _ (rw_hot w)); [apply cache_del_shrinks, H|by eapply agrees_le]].
    intros c' Hne. change (rocks_table (rw_set_hot _ w1)) with (rocks_table w1). rewrite Htb. by apply lookup_insert_ne.
  - destruct has; [|done]. destruct Hx as (now & Hn & ->). exists now. split; [|done].
    intros Hpos. destruct (Hn Hpos) as [-> ->]. apply read_now. unfold rw_cache_del. cbn [rw_set_hot rw_sys].
    rewrite Hs. simpl. lia.
Qed.

(** [remove] takes the link, its hits and its cache entry. *)
Lemma rocks_remove_spec c w r w' : rocks_ok w -> rocks_remove c w = (r, w') ->
  rocks_ok w' /\
  match r with
  | MOk => is_Some (rocks_table w !! c) /\ rocks_table w' = delete c (rocks_table w) /\ cached (rw_hot w') c = None /\
      db_hit_map (rw_db w') = delete c (db_hit_map (rw_db w)) /\ rw_sys w' = rw_sys w
  | MMissing => rocks_table w !! c = None /\ rocks_table w' = rocks_table w
  | MRemote => False
  end.
Proof.
  intros [H Ha]. unfold rocks_remove. rewrite (db_get_spec w c H).
  destruct (db_links (rw_db w) !! c) as [v|] eqn:Ev; [|intros [= <- <-]; by rewrite (table_none w)].
  destruct (law_write [BDelete LINKS c; BDelete HITS c] (rw_db w) (rok_db w H)) as (d & E & Hd & Hm).
  cbn [fold_left batch_op fst snd] in Hm. injection Hm as Hl Hh. unfold rw_write. rewrite E. intros [= <- <-].
  assert (Hc : cached (cache_del c (rw_hot w)) c = None) by (rewrite cached_del by apply H; by rewrite decide_True).
  assert (Ht : rocks_table (rw_cache_del c (rw_set_db d w)) = delete c (rocks_table w)).
  { unfold rocks_table. change (rw_db (rw_cache_del c (rw_set_db d w))) with d. by rewrite Hl, omap_delete. }
  split; [split|].
  - apply rocks_wf_hot; [|apply cache_del_wf, H|done]. split; cbn [rw_set_db rw_db rw_hot]; [done|apply H..|].
    rewrite Hl. intros c' v' Hv. apply lookup_delete_Some in Hv as [_ Hv]. by eapply rok_values.
  - unfold rocks_agrees. rewrite Ht. apply (agrees_uncached _ _ _ c (rocks_table w)); [done| |].
    + intros c' Hne. by apply lookup_delete_ne.
    + apply (agrees_shrinks _ _ _ _ (rw_hot w)); [apply cache_del_shrinks, H|done].
  - split; [apply not_eq_None_Some; rewrite (table_none w) by done; by rewrite Ev|]. by split_and!.
Qed.

End RocksFacts.
