(* ===== verification/RocksBulk.v ===== *)
(** * shorten_many of the RocksDB store

    The batch, its rows in the table, and the second loop that caches them
    and retries the draws that were taken. While it runs, the codes that are
    written but not yet cached are hidden from the agreement of cache and
    table. *)

From S2P Require Import Prelude CLib Common Aof Metrics Store StoreFacts StoreSpec App AppFacts HotCache StoreRocks RocksFacts.

Section RocksBulk.
Context {D : Type} {db : RocksDb D} {std : StdImpl} {rnd : Rand} (os : Os) {laws : RocksLaws D os}.
Implicit Types w : Engine D.

(** ** The rows of a batch *)
Definition batch_puts (exp now : Z) (cus : list (bytes * bytes)) : list BatchOp :=
  omap (fun cu => if fst cu =s [] then None else Some (BPut (fst cu) (enc exp now (snd cu)))) cus.

Fixpoint add_rows (exp : Z) (cus : list (bytes * bytes)) (tbl : gmap bytes (bytes * Z)) : gmap bytes (bytes * Z) :=
  match cus with
  | [] => tbl
  | (c, u) :: r => add_rows exp r (if c =s [] then tbl else <[c := (u, exp)]> tbl)
  end.

(** A code of the batch: empty where the draw was taken, else free. *)
Definition batch_code (w : Engine D) (c : bytes) : Prop :=
  c = [] \/ (code_ok c = true /\ length c = 8%nat /\ rocks_table os w !! c = None).

Lemma rocks_batch_spec X us exp now : forall w, rocks_okX os X w ->
  let '(cs, ops, w1) := rocks_batch us exp now w in
  rocks_okX os X w1 /\ rw_db w1 = rw_db w /\ rw_sys w1 = rw_sys w /\ length cs = length us /\
  ops = batch_puts exp now (zip cs us) /\ Forall (batch_code w) cs.
Proof.
  induction us as [|u us IH]; intros w H; cbn [rocks_batch]; [by split_and!|].
  destruct (hot_code (rw_hot w)) as [c h] eqn:Ec. destruct (rocks_ok_code os X w c h H Ec) as (Ho & Hc & Hl).
  specialize (IH _ Ho). rewrite (db_get_spec os _ c (proj1 Ho)). change (rw_db (rw_set_hot h w)) with (rw_db w) in *.
  destruct (rocks_batch us exp now _) as [[cs ops] w1]. destruct IH as (H1 & H2 & H3 & H4 & -> & H6).
  destruct (db_links (rw_db w) !! c) as [v|] eqn:Ed; cbn [is_Some]; case_bool_decide as Hb.
  - split_and!; try done; [simpl; by rewrite H4|]. constructor; [by left|done].
  - by destruct Hb.
  - by destruct Hb.
  - split_and!; try done; [simpl; by rewrite H4| |].
    + cbn [zip zip_with batch_puts omap list_omap fst snd]. by destruct c.
    + constructor; [|done]. right. split_and!; [done..|]. apply (table_none os w); [apply H|done].
Qed.

(** Writing the batch adds the rows, which the codec reads. *)
Lemma fold_batch_links exp now cus : in_i64 exp -> in_i64 now -> forall l h,
  (forall c v, l !! c = Some v -> is_Some (dec v)) ->
  let lh := fold_left batch_op (batch_puts exp now cus) (l, h) in
  snd lh = h /\ omap value_row (fst lh) = add_rows exp cus (omap value_row l) /\
  (forall c v, fst lh !! c = Some v -> is_Some (dec v)).
Proof.
  intros He Hn. induction cus as [|[c u] cus IH]; intros l h Hl; cbn [add_rows]; [done|].
  unfold batch_puts. cbn [omap list_omap fst snd]. case_bool_decide; [by apply IH|]. cbn [fold_left batch_op fst snd].
  destruct (IH (<[c := enc exp now u]> l) h) as (H1 & H2 & H3).
  { intros c' v. destruct (decide (c' = c)) as [->|]; [rewrite lookup_insert_eq|rewrite lookup_insert_ne by done; apply Hl].
    intros [= <-]. rewrite dec_enc by done. by eexists. }
  split; [exact H1|]. rewrite (omap_insert_Some _ _ _ _ (u, exp)) in H2 by (unfold value_row; by rewrite dec_enc).
  by split.
Qed.

Lemma add_rows_other exp cus tbl c : c ∉ cus.*1 -> add_rows exp cus tbl !! c = tbl !! c.
Proof.
  revert tbl. induction cus as [|[d u] cus IH]; intros tbl Hc; cbn [add_rows]; [done|].
  cbn [fmap list_fmap fst] in Hc. rewrite elem_of_cons in Hc. rewrite IH by tauto. case_bool_decide; [done|].
  apply lookup_insert_ne. intros ->. tauto.
Qed.

(** No row has the empty code. *)
Lemma add_rows_nil exp cus tbl : add_rows exp cus tbl !! ([] : bytes) = tbl !! ([] : bytes).
Proof.
  revert tbl. induction cus as [|[c u] cus IH]; intros tbl; cbn [add_rows]; [done|].
  rewrite IH. case_bool_decide; [done|]. by apply lookup_insert_ne.
Qed.

(** The last row of a code is the one that stays. *)
Fixpoint rows_in (exp : Z) (cus : list (bytes * bytes)) (tbl : gmap bytes (bytes * Z)) : Prop :=
  match cus with
  | [] => True
  | (c, u) :: r => (c ≠ [] -> c ∉ r.*1 -> tbl !! c = Some (u, exp)) /\ (c ≠ [] -> is_Some (tbl !! c)) /\ rows_in exp r tbl
  end.

Lemma add_rows_mono exp cus tbl c : is_Some (tbl !! c) -> is_Some (add_rows exp cus tbl !! c).
Proof.
  revert tbl. induction cus as [|[d u] cus IH]; intros tbl Hc; cbn [add_rows]; [done|]. apply IH.
  case_bool_decide; [done|]. destruct (decide (c = d)) as [->|]; [rewrite lookup_insert_eq; by eexists|by rewrite lookup_insert_ne].
Qed.

Lemma add_rows_in exp cus tbl : rows_in exp cus (add_rows exp cus tbl).
Proof.
  revert tbl. induction cus as [|[c u] cus IH]; intros tbl; cbn [add_rows rows_in]; [done|]. split_and!; [| |apply IH].
  - intros Hne Hc. rewrite add_rows_other by done. rewrite bool_decide_eq_false_2 by done. apply lookup_insert_eq.
  - intros Hne. apply add_rows_mono. rewrite bool_decide_eq_false_2 by done. rewrite lookup_insert_eq. by eexists.
Qed.

Lemma rows_in_lookup exp cus tbl i c u : rows_in exp cus tbl -> cus !! i = Some (c, u) -> c ≠ [] ->
  (forall j u', (i < j)%nat -> cus !! j ≠ Some (c, u')) -> tbl !! c = Some (u, exp).
Proof.
  revert i. induction cus as [|[d v] cus IH]; intros [|i]; cbn [rows_in]; try done; intros (H1 & _ & H3).
  - intros [= -> ->] Hne Hj. apply H1; [done|]. intros [[c' u'] [-> Hin]]%list_elem_of_fmap.
    apply list_elem_of_lookup in Hin as [j Hin]. by apply (Hj (S j) u' ltac:(lia)).
  - intros Hi Hne Hj. apply (IH i H3 Hi Hne). intros j u' Hij. apply (Hj (S j)). lia.
Qed.

Lemma rows_in_fresh exp cus tbl c v : tbl !! c = None -> rows_in exp cus tbl -> rows_in exp cus (<[c := v]> tbl).
Proof.
  intros Hn. induction cus as [|[d u] cus IH]; cbn [rows_in]; [done|]. intros (H1 & H2 & H3). split_and!; [| |by apply IH].
  - intros Hne Hd. rewrite lookup_insert_ne; [by apply H1|]. intros ->. destruct (H2 Hne). congruence.
  - intros Hne. rewrite lookup_insert_ne; [by apply H2|]. intros ->. destruct (H2 Hne). congruence.
Qed.

(** The codes still to be cached. *)
Definition pending (cs : list bytes) : list bytes := filter (fun c => c ≠ []) cs.

(** Caching the next row. *)
Lemma rocks_put_pending c u exp us cs w : c ≠ [] -> length cs = length us ->
  rocks_okX os (pending (c :: cs)) w -> rows_in exp (zip (c :: cs) (u :: us)) (rocks_table os w) ->
  rocks_okX os (pending cs) (rw_cache_put os c u exp w).
Proof.
  intros Hne Hl Ho (H1 & _ & _). unfold pending in Ho. rewrite filter_cons_True in Ho by done. fold (pending cs) in Ho.
  destruct (decide (c ∈ cs)) as [Hin|Hin].
  - assert (Hp : c ∈ pending cs) by (apply list_elem_of_filter; by split).
    destruct Ho as [Hw Ha]. unfold rw_cache_put, cache_put. cbn [now_ms]. split.
    + apply (rocks_wf_hot os (rw_set_sys _ w)); [by apply rocks_wf_sys|by apply (cache_put_wf os c u exp _ (rw_sys w)), Hw|done].
    + pose proof (agrees_put os (pending cs) _ c u exp _ _ (rw_sys w) (rok_hot os w Hw) Ha) as Hq.
      eapply agrees_le; [|intros c' x Hc Hx]; [|specialize (Hq c' x Hc Hx)].
      * simpl. apply Nat.le_succ_diag_r.
      * rewrite lookup_insert_ne in Hq by (intros ->; tauto). exact Hq.
  - apply rocks_ok_put_cached; [done|]. apply H1; [done|]. rewrite fst_zip; [done|]. by rewrite Hl.
Qed.

(** ** The second loop *)

(** The rows the retries add: fresh codes, within the call. *)
Definition retried (w w' : Engine D) (u c : bytes) (ttl : Z) : Prop :=
  rocks_table os w !! c = None /\ code_ok c = true /\
  exists now, read_during os (rw_sys w) (rw_sys w') now /\ rocks_table os w' !! c = Some (u, expiry now ttl).

Lemma retried_later w0 w w' u c ttl : rocks_table os w0 ⊆ rocks_table os w ->
  (k_clock (rw_sys w0) <= k_clock (rw_sys w))%nat -> retried w w' u c ttl -> retried w0 w' u c ttl.
Proof.
  intros Ht Hk (H1 & H2 & now & H3 & H4). split; [|split; [done|exists now; split; [by eapply read_during_wider|done]]].
  destruct (rocks_table os w0 !! c) eqn:E; [|done]. rewrite (lookup_weaken _ _ _ _ E Ht) in H1. done.
Qed.

Lemma rocks_settle_spec n exp ttl us : forall cs w, length cs = length us ->
  rocks_okX os (pending cs) w -> rows_in exp (zip cs us) (rocks_table os w) ->
  match rocks_settle os n true us cs exp ttl w with
  | Ret codes w' => rocks_ok os w' /\ length codes = length us /\ rocks_table os w ⊆ rocks_table os w' /\
      (k_clock (rw_sys w) <= k_clock (rw_sys w'))%nat /\
      (forall c, c ∉ codes -> rocks_table os w' !! c = rocks_table os w !! c) /\
      forall i u c0, us !! i = Some u -> cs !! i = Some c0 -> exists c, codes !! i = Some c /\
        (c0 ≠ [] -> c = c0) /\ (c0 = [] -> retried w w' u c ttl)
  | Raise _ => False
  | Hang => True
  end.
Proof.
  induction us as [|u us IH]; intros [|c0 cs] w Hl Ho Hr; try done; cbn [rocks_settle].
  rewrite orb_false_r. injection Hl as Hl. case_bool_decide as Hc.
  - subst c0. change (pending ([] :: cs)) with (pending cs) in Ho.
    pose proof (rocks_shorten_spec os (pending cs) n u None ttl w Ho) as Hs.
    destruct (rocks_shorten os n u None ttl w) as [[c|] w1|w1|]; [|destruct Hs as (_ & _ & ? & ? & _); done|done..].
    destruct Hs as (Ho1 & Hn & [?|(_ & Hcok & _)] & Ht1 & Hs1); [done|].
    assert (Hsub : rocks_table os w ⊆ rocks_table os w1) by (rewrite Ht1; by apply insert_subseteq).
    assert (Hk : (k_clock (rw_sys w) < k_clock (rw_sys w1))%nat) by (rewrite Hs1; simpl; lia).
    specialize (IH cs w1 Hl Ho1). destruct (rocks_settle os n true us cs exp ttl w1) as [codes w'|w'|] eqn:Es;
      [|by apply IH; rewrite Ht1; apply rows_in_fresh, Hr|done].
    destruct IH as (H1 & H2 & H3 & H4 & H5 & H6); [rewrite Ht1; apply rows_in_fresh; [done|apply Hr]|].
    split_and!; [done|by simpl; rewrite H2|by etrans|lia| |].
    + intros c'. rewrite not_elem_of_cons. intros [Hne Hc']. rewrite H5, Ht1 by done. by apply lookup_insert_ne.
    + intros [|i] u' c'; cbn [lookup list_lookup].
      * intros [= <-] [= <-]. exists c. split_and!; [done..|]. intros _. split; [done|]. split; [done|].
        exists (fst (now_ms os (rw_sys w))). split; [apply read_now; lia|].
        apply (lookup_weaken (rocks_table os w1)); [|done]. by rewrite Ht1, lookup_insert_eq.
      * intros Hu Hc'. destruct (H6 i u' c' Hu Hc') as (c1 & Hc1 & Ha & Hb). exists c1. split_and!; [done..|].
        intros He. eapply retried_later; [exact Hsub|lia|by apply Hb].
  - pose proof (rocks_put_pending c0 u exp us cs w Hc Hl Ho Hr) as Ho1.
    set (w1 := rw_cache_put os c0 u exp w) in *.
    assert (Hk : (k_clock (rw_sys w) <= k_clock (rw_sys w1))%nat)
      by (unfold w1, rw_cache_put, cache_put; simpl; lia).
    specialize (IH cs w1 Hl Ho1 (proj2 (proj2 Hr))).
    destruct (rocks_settle os n true us cs exp ttl w1) as [codes w'|w'|]; [|done..].
    destruct IH as (H1 & H2 & H3 & H4 & H5 & H6). split_and!; [done|by simpl; rewrite H2|done|lia| |].
    + intros c'. rewrite not_elem_of_cons. intros [Hne Hc']. by apply H5.
    + intros [|i] u' c'; cbn [lookup list_lookup].
      * intros [= <-] [= <-]. by exists c0.
      * intros Hu Hc'. destruct (H6 i u' c' Hu Hc') as (c1 & Hc1 & Ha & Hb). exists c1. split_and!; [done..|].
        intros He. by apply (retried_later w w1), Hb.
Qed.

(** ** [shorten_many] *)
Lemma rocks_write_batch X exp now cus w : rocks_okX os X w -> in_i64 exp -> in_i64 now ->
  (forall c, c ∈ cus.*1 -> c ≠ [] -> c ∈ X) ->
  exists w1, rw_write (batch_puts exp now cus) w = (true, w1) /\ rocks_okX os X w1 /\ rw_sys w1 = rw_sys w /\
    rocks_table os w1 = add_rows exp cus (rocks_table os w).
Proof.
  intros [H Ha] He Hn HX. destruct (law_write (batch_puts exp now cus) (rw_db w) (rok_db os w H)) as (d & E & Hd & Hm).
  destruct (fold_batch_links exp now cus He Hn (db_links (rw_db w)) (db_hit_map (rw_db w)) (rok_values os w H)) as (H1 & H2 & H3).
  rewrite <- Hm in H1, H2, H3. cbn [fst snd] in H1, H2, H3.
  exists (rw_set_db d w). unfold rw_write. rewrite E. split; [done|]. split; [|split; [done|exact H2]].
  split; [split; cbn [rw_set_db rw_db rw_hot]; try apply H; [done|exact H3]|].
  unfold rocks_agrees. change (rocks_table os (rw_set_db d w)) with (omap value_row (db_links d)). rewrite H2.
  intros c x Hc Hx. destruct (decide (c ∈ cus.*1)) as [Hin|Hin]; [|rewrite add_rows_other by done; by apply Ha].
  destruct (decide (c = [])) as [->|Hne]; [|by destruct (Hc (HX c Hin Hne))].
  rewrite add_rows_nil. by apply Ha.
Qed.

Lemma agrees_hide X w : rocks_ok os w -> rocks_okX os X w.
Proof. intros [H Ha]. split; [done|]. eapply agrees_sub; [|exact Ha]. set_solver. Qed.

Lemma rocks_shorten_many_spec n us ttl w : rocks_ok os w ->
  match rocks_shorten_many os n us ttl w with
  | Ret codes w' => rocks_ok os w' /\ length codes = length us /\
      (forall c, c ∉ codes -> rocks_table os w' !! c = rocks_table os w !! c) /\
      forall i u, us !! i = Some u -> exists c, codes !! i = Some c /\ code_ok c = true /\ rocks_table os w !! c = None /\
        (NoDup codes -> exists now, read_during os (rw_sys w) (rw_sys w') now /\
           rocks_table os w' !! c = Some (u, expiry now ttl))
  | Raise _ => False
  | Hang => True
  end.
Proof.
  intros H. unfold rocks_shorten_many. rewrite (surjective_pairing (now_ms os _)). cbv beta iota zeta.
  set (now := fst (now_ms os (rw_sys w))). set (exp := expiry now ttl). set (w0 := rw_set_sys _ w).
  assert (H0 : rocks_ok os w0) by (apply rocks_ok_sys; [done|simpl; lia]).
  pose proof (rocks_batch_spec [] us exp now w0 H0) as Hb.
  destruct (rocks_batch us exp now w0) as [[cs ops] w1]. destruct Hb as (H1 & Hdb & Hs1 & Hl & -> & Hc).
  assert (Ht1 : rocks_table os w1 = rocks_table os w) by (unfold rocks_table; by rewrite Hdb).
  destruct (rocks_write_batch (pending cs) exp now (zip cs us) w1) as (w2 & -> & H2 & Hs2 & Ht2);
    [by apply agrees_hide|apply expiry_i64|apply now_range|rewrite fst_zip by lia; intros c ??; by apply list_elem_of_filter|].
  pose proof (rocks_settle_spec n exp ttl us cs w2 Hl H2) as Hset. rewrite Ht2 in Hset at 1. specialize (Hset (add_rows_in _ _ _)).
  destruct (rocks_settle os n true us cs exp ttl w2) as [codes w'|w'|]; [|done..].
  destruct Hset as (Ho & Hlen & Hsub & Hk & Hother & Hi). rewrite Ht2, Ht1 in *.
  assert (Hk2 : (k_clock (rw_sys w) < k_clock (rw_sys w2))%nat) by (rewrite Hs2, Hs1; simpl; lia).
  split; [done|]. split; [done|].
  assert (Hcodes : forall c, c ∉ codes -> c ≠ [] -> c ∉ cs).
  { intros c Hc1 Hne [i Hci]%list_elem_of_lookup. assert (Hlt : (i < length us)%nat) by (rewrite <- Hl; by eapply lookup_lt_Some).
    apply lookup_lt_is_Some in Hlt as [u Hu]. destruct (Hi i u c Hu Hci) as (c' & Hc' & He & _).
    apply Hc1, list_elem_of_lookup. exists i. by rewrite <- (He Hne). }
  split.
  - intros c Hc1. rewrite Hother by done. destruct (decide (c = [])) as [->|Hne].
    + apply add_rows_nil.
    + apply add_rows_other. rewrite fst_zip by lia. by apply Hcodes.
  - intros i u Hu. assert (Hlt : (i < length cs)%nat) by (rewrite Hl; by eapply lookup_lt_Some).
    apply lookup_lt_is_Some in Hlt as [c0 Hc0]. destruct (Hi i u c0 Hu Hc0) as (c & Hci & Ha & Hb).
    exists c. split; [done|]. rewrite Forall_lookup in Hc. destruct (Hc i c0 Hc0) as [->|(Hok & _ & Hn)].
    + destruct (Hb eq_refl) as (Hn & Hok & nw & Hnw & Hrow). split; [done|].
      rewrite Ht2 in Hn. split; [|intros _; exists nw; split; [eapply read_during_wider; [|exact Hnw]; lia|done]].
      destruct (rocks_table os w !! c) eqn:E; [|done].
      pose proof (add_rows_mono exp (zip cs us) (rocks_table os w) c ltac:(by eexists)) as [? Hm]. congruence.
    + assert (Hne : c0 ≠ []) by by destruct c0. rewrite (Ha Hne) in *. split; [done|]. split; [done|]. intros Hnd.
      exists now. split; [apply read_now; lia|]. apply (lookup_weaken (add_rows exp (zip cs us) (rocks_table os w))); [|done].
      apply (rows_in_lookup exp (zip cs us) _ i); [apply add_rows_in|by apply lookup_zip_Some|done|].
      intros j u' Hij [Hcj Huj]%lookup_zip_Some. destruct (Hi j u' c0 Huj Hcj) as (c' & Hc' & Ha' & _).
      rewrite (Ha' Hne) in Hc'. pose proof (NoDup_lookup _ _ _ _ Hnd Hci Hc'). lia.
Qed.
End RocksBulk.
