(* ===== verification/MemRocks.v ===== *)
(** * A database of two maps

    An instance of [RocksDb] that keeps [RocksLaws], so that the theorems
    about the RocksDB store have something to hold of, and one whose writes
    all fail. *)

From S2P Require Import Prelude CLib Common Aof Metrics Store StoreFacts App AppFacts HotCache StoreRocks.

Record MemDb := mkMem { md_links : gmap bytes bytes; md_hits : gmap bytes bytes }.
Definition mem0 : MemDb := mkMem ∅ ∅.

(** The filter on one link, and on all of them. *)
Definition mem_filter1 (f : bytes -> Sys -> bool * Sys) (ms : gmap bytes bytes * Sys) (kv : bytes * bytes) : gmap bytes bytes * Sys :=
  let '(b, s) := f (snd kv) (snd ms) in (if b : bool then delete (fst kv) (fst ms) else fst ms, s).
Definition mem_compact (f : bytes -> Sys -> bool * Sys) (d : MemDb) (s : Sys) : MemDb * Sys :=
  let '(m, s) := fold_left (mem_filter1 f) (map_to_list (md_links d)) (md_links d, s) in (mkMem m (md_hits d), s).

Definition mem_get (cf : Cf) (k : bytes) (d : MemDb) : Got :=
  match cf with DEFAULT => NotFound | LINKS => got_of (md_links d !! k) | HITS => got_of (md_hits d !! k) end.

#[export] Instance mem_db : RocksDb MemDb := {
  rk_get := mem_get;
  rk_put k v d := (true, mkMem (<[k := v]> (md_links d)) (md_hits d));
  rk_write ops d := let '(l, h) := fold_left batch_op ops (md_links d, md_hits d) in (true, mkMem l h);
  rk_iter d := map_to_list (md_links d);
  rk_compact := mem_compact
}.

(** The disk is full. *)
Definition full_db : RocksDb MemDb := {|
  rk_get := mem_get;
  rk_put k v d := (false, d);
  rk_write ops d := (false, d);
  rk_iter d := map_to_list (md_links d);
  rk_compact f d s := (d, s)
|}.

Lemma expiry_filter_clock os v s : fs (snd (expiry_filter os v s)) = fs s /\
  (k_clock s <= k_clock (snd (expiry_filter os v s)))%nat /\
  (fst (expiry_filter os v s) = true -> (k_clock s < k_clock (snd (expiry_filter os v s)))%nat).
Proof.
  unfold expiry_filter. destruct (dec v) as [[[e c] u]|]; [|done]. destruct (e =? 0); [done|]. cbn [now_ms]. simpl.
  split_and!; [done|lia|lia].
Qed.

Lemma fold_filter_spec os l : NoDup l.*1 -> forall m s, (forall k v, (k, v) ∈ l -> m !! k = Some v) ->
  let '(m', s') := fold_left (mem_filter1 (expiry_filter os)) l (m, s) in
  fs s' = fs s /\ (k_clock s <= k_clock s')%nat /\
  forall k, m' !! k = m !! k \/ (m' !! k = None /\ exists v s1, m !! k = Some v /\
    (k_clock s <= k_clock s1 < k_clock s')%nat /\ fst (expiry_filter os v s1) = true).
Proof.
  induction l as [|[k v] l IH]; intros Hnd m s Hl; cbn [fold_left]; [split_and!; auto|].
  cbn [fmap list_fmap fst] in Hnd. apply NoDup_cons in Hnd as [Hk Hnd].
  destruct (expiry_filter_clock os v s) as (H1 & H2 & H3). unfold mem_filter1 at 2. cbn [fst snd].
  destruct (expiry_filter os v s) as [b s1] eqn:Ef. cbn [fst snd] in *.
  set (m1 := if b then _ else _). specialize (IH Hnd m1 s1).
  assert (Hm1 : forall k', k' ≠ k -> m1 !! k' = m !! k') by (intros k' Hne; unfold m1; destruct b; [by apply lookup_delete_ne|done]).
  assert (Hl1 : forall k' v', (k', v') ∈ l -> m1 !! k' = Some v').
  { intros k' v' Hin. rewrite Hm1; [by apply Hl; right|]. intros ->. apply Hk, list_elem_of_fmap. by exists (k, v'). }
  specialize (IH Hl1). destruct (fold_left _ l (m1, s1)) as [m' s']. destruct IH as (I1 & I2 & I3).
  split_and!; [by rewrite I1|lia|]. intros k'. specialize (I3 k'). destruct (decide (k' = k)) as [->|Hne].
  - assert (Hkm : m !! k = Some v) by (apply Hl; left). unfold m1 in I3. destruct b.
    + right. destruct I3 as [I3|(I3 & _)]; (split; [by rewrite I3, ?lookup_delete_eq|]); exists v, s; rewrite Ef; split_and!; try done; lia.
    + destruct I3 as [I3|(I3 & v1 & s2 & I4 & I5 & I6)]; [by left|]. right. split; [done|]. exists v1, s2. split_and!; try done; lia.
  - rewrite Hm1 in I3 by done. destruct I3 as [I3|(I3 & v1 & s2 & I4 & I5 & I6)]; [by left|]. right. split; [done|].
    exists v1, s2. split_and!; try done; lia.
Qed.

#[export] Instance mem_laws os : RocksLaws MemDb os.
Proof.
  refine {| db_ok := fun _ => True; db_links := md_links; db_hit_map := md_hits |}.
  - done.
  - done.
  - intros k v d _. by eexists.
  - intros ops d _. cbn [rk_write mem_db]. destruct (fold_left batch_op ops _) as [l h]. by eexists.
  - done.
  - intros d s _. cbn [rk_compact mem_db]. unfold mem_compact.
    pose proof (fold_filter_spec os (map_to_list (md_links d)) (NoDup_fst_map_to_list _) (md_links d) s) as H.
    specialize (H (fun k v Hin => proj1 (elem_of_map_to_list _ _ _) Hin)).
    destruct (fold_left _ _ _) as [m s']. by destruct H as (H1 & H2 & H3).
Defined.
