(* ===== verification/RocksClaims.v ===== *)
(** * What the RocksDB store promises

    Hit counting through the merge operator, compaction, sessions of any
    operations, and the instances of [StoreLaws] and [StoreNoRaise]. The
    witnesses run on a database of two maps. *)

From S2P Require Import Prelude CLib Common Codec Float Json Aof Metrics RateLimit Store StoreFacts StoreSpec App AppFacts HotCache StoreRocks RocksFacts RocksBulk MemRocks.

(** ** Values *)

(** The two forms written before the version mark. *)
Definition enc_plain (e c : Z) (u : bytes) : bytes := to_string e ++ B "|" ++ to_string c ++ B "|" ++ u.
Definition enc_old (e : Z) (u : bytes) : bytes := to_string e ++ B "|" ++ u.

Lemma number_no_mark z r : starts_with (B "v1|") (to_string z ++ r) = false.
Proof.
  destruct (to_string_cons z) as (c & s & -> & Hc). cbn [app].
  destruct (starts_with (B "v1|") (c :: s ++ r)) eqn:E; [|done]. apply starts_with_spec in E as [x E]. by injection E as -> _.
Qed.

(** A stored value gives back what was stored: expiry, creation and url,
    for all 64-bit numbers and urls of any bytes; a value of the form without
    the version mark is read the same, and one of the oldest form too if its
    url holds no bar. *)
Theorem value_roundtrip e c u :
  in_i64 e -> in_i64 c ->
  dec (enc e c u) = Some (e, c, u) /\ dec (enc_plain e c u) = Some (e, c, u) /\
  (BAR ∉ u -> dec (enc_old e u) = Some (e, 0, u)).
Proof.
  intros He Hc. split; [by apply dec_enc|]. split.
  - unfold dec, enc_plain. rewrite number_no_mark. change (B "|" ++ ?x) with (BAR :: x).
    destruct (cut_number e (to_string c ++ B "|" ++ u)) as (-> & -> & ->). rewrite stoll_to_string by done.
    change (B "|" ++ u) with (BAR :: u). destruct (cut_number c u) as (-> & -> & ->). by rewrite stoll_to_string.
  - intros Hu. unfold dec, enc_old. rewrite number_no_mark. change (B "|" ++ ?x) with (BAR :: x).
    destruct (cut_number e u) as (-> & -> & ->). rewrite stoll_to_string by done. by rewrite find_char_none.
Qed.
Lemma value_roundtrip_witness : dec (enc (2 ^ 62) 17 (B "https://a.b/c|d")) = Some (2 ^ 62, 17, B "https://a.b/c|d").
Proof. apply (value_roundtrip (2 ^ 62) 17 (B "https://a.b/c|d")); unfold in_i64; lia. Defined.

(** ** Little-endian counters *)
Lemma le_val_bytes n z : le_val (le_bytes n z) = z mod 256 ^ Z.of_nat n.
Proof.
  revert z. induction n as [|n IH]; intros z; cbn [le_bytes le_val]; [by rewrite Z.mod_1_r|].
  rewrite IH, cc_chr, Nat2Z.inj_succ, Z.pow_succ_r by lia.
  rewrite Z.rem_mul_r by lia. lia.
Qed.

Lemma le_bytes_length n z : length (le_bytes n z) = n.
Proof. revert z. induction n as [|n IH]; intros z; simpl; [done|]. by rewrite IH. Qed.

Lemma slice64_le64 z : slice64 (le64 z) = u64 z.
Proof.
  unfold slice64, rd64, le64. rewrite le_bytes_length. cbn [Nat.leb].
  rewrite take_ge by (by rewrite le_bytes_length). rewrite le_val_bytes. done.
Qed.

(** The counter a merge leaves. *)
Lemma slice64_merge x v : slice64 (u64_merge x v) = u64 (match x with Some x => slice64 x | None => 0 end + slice64 v).
Proof.
  unfold u64_merge. cbv zeta. rewrite slice64_le64. unfold u64. apply Z.mod_mod. lia.
Qed.

Lemma i64_u64 z : i64 (u64 z) = i64 z.
Proof. unfold i64, u64. by rewrite Zplus_mod_idemp_l. Qed.
Lemma i64_add_l a b : i64 (i64 a + b) = i64 (a + b).
Proof.
  unfold i64 at 1 3. f_equal. unfold i64.
  replace ((a + 2 ^ 63) mod 2 ^ 64 - 2 ^ 63 + b + 2 ^ 63) with ((a + 2 ^ 63) mod 2 ^ 64 + b) by lia.
  rewrite Zplus_mod_idemp_l. f_equal. lia.
Qed.
Lemma i64_add_r a b : i64 (a + i64 b) = i64 (a + b).
Proof. by rewrite Z.add_comm, i64_add_l, Z.add_comm. Qed.
Lemma i64_add_u64 a b : i64 (u64 a + u64 b) = i64 (a + b).
Proof. rewrite <- i64_u64, <- (i64_u64 (a + b)). unfold u64. by rewrite <- Zplus_mod. Qed.

(** The merge operator is what RocksDB requires of one: merging two
    deltas first and the result into a counter gives the counter that
    merging them one after the other gives; and a counter merged with any
    deltas reads as their sum, modulo 2^64. *)
Theorem merge_adds_up :
  (forall x b c, u64_merge x (u64_merge (Some b) c) = u64_merge (Some (u64_merge x b)) c) /\
  (forall ds x, slice64 (fold_left (fun v d => u64_merge (Some v) (le64 d)) ds (le64 x)) = u64 (x + foldr Z.add 0 ds)).
Proof.
  assert (Hu : forall a b, u64 (u64 a + b) = u64 (a + b)) by (intros a b; unfold u64; apply Zplus_mod_idemp_l).
  split.
  - intros x b c. unfold u64_merge at 1 3. f_equal. cbv zeta. rewrite !slice64_merge.
    set (p := match x with Some x => slice64 x | None => 0 end). rewrite Hu, Z.add_comm, Hu. f_equal. lia.
  - induction ds as [|d ds IH]; intros x; cbn [fold_left foldr]; [rewrite slice64_le64; f_equal; lia|].
    assert (E : u64_merge (Some (le64 x)) (le64 d) = le64 (u64 (x + d))).
    { unfold u64_merge. cbv zeta. rewrite !slice64_le64, Hu. f_equal. by rewrite Z.add_comm, Hu, Z.add_comm. }
    rewrite E, IH, Hu. f_equal. lia.
Qed.

Section RocksClaims.
Context {D : Type} {db : RocksDb D} {std : StdImpl} {rnd : Rand} (os : Os) {laws : RocksLaws D os}.
Implicit Types w : Engine D.

(** ** Hits *)

(** The hits [stats] reports: the counter in the database and what is
    pending here. *)
Definition hits_of (c : bytes) (w : Engine D) : Z := i64 (db_hits c w + default 0 (dirty_hits (rw_hot w) c)).

Definition base_hits (m : gmap bytes bytes) (c : bytes) : Z := match m !! c with Some x => slice64 x | None => 0 end.
Lemma db_hits_spec c w : db_ok (rw_db w) -> db_hits c w = i64 (base_hits (db_hit_map (rw_db w)) c).
Proof.
  intros H. unfold db_hits, base_hits. rewrite law_get_hits by done. destruct (_ !! c) as [x|]; [|done]. simpl. unfold slice64.
  destruct (Nat.ltb_spec (length x) 8), (Nat.leb_spec 8 (length x)); (lia || done).
Qed.

Lemma hits_of_spec c w : db_ok (rw_db w) ->
  hits_of c w = i64 (base_hits (db_hit_map (rw_db w)) c + default 0 (dirty_hits (rw_hot w) c)).
Proof. intros H. unfold hits_of. by rewrite db_hits_spec, i64_add_l. Qed.

(** A batch of merges, each code once. *)
Definition merges (ds : list (bytes * Z)) : list BatchOp := map (fun cn => BMerge (fst cn) (le64 (u64 (snd cn)))) ds.

Lemma fold_merges ds : NoDup ds.*1 -> forall l m, 
  let lm := fold_left batch_op (merges ds) (l, m) in
  fst lm = l /\ (forall c n, (c, n) ∈ ds -> base_hits (snd lm) c = u64 (base_hits m c + u64 n)) /\
  (forall c, c ∉ ds.*1 -> snd lm !! c = m !! c).
Proof.
  induction ds as [|[d n] ds IH]; intros Hnd l m; cbn [merges map fold_left batch_op fst snd].
  - split_and!; try done. intros c n H. by apply elem_of_nil in H.
  - cbn [fmap list_fmap fst] in *. apply NoDup_cons in Hnd as [Hd Hnd].
    destruct (IH Hnd l (<[d := u64_merge (m !! d) (le64 (u64 n))]> m)) as (H1 & H2 & H3).
    change (map _ ds) with (merges ds). split_and!; [done| |].
    + intros c k [[= -> ->]|Hin]%elem_of_cons.
      * unfold base_hits. rewrite H3 by done. rewrite lookup_insert_eq, slice64_merge, slice64_le64.
        f_equal. by rewrite (u64_id (u64 n)) by apply u64_range.
      * rewrite (H2 c k Hin). unfold base_hits. rewrite lookup_insert_ne; [done|]. intros ->. apply Hd.
        apply list_elem_of_fmap. by exists (c, k).
    + intros c Hc. rewrite elem_of_cons in Hc. rewrite H3 by tauto. apply lookup_insert_ne. intros ->. tauto.
Qed.

Lemma rocks_flush_spec w : rocks_ok os w ->
  rocks_ok os (rocks_flush w) /\ rocks_table os (rocks_flush w) = rocks_table os w /\
  rw_sys (rocks_flush w) = rw_sys w /\ forall c, hits_of c (rocks_flush w) = hits_of c w /\ dirty_hits (rw_hot (rocks_flush w)) c = None.
Proof.
  intros H. pose proof (take_dirty_spec (rw_hot w) (rok_hot os w (proj1 H))) as (Hnd & Hin & Hnone).
  pose proof (take_dirty_wf (rw_hot w) (rok_hot os w (proj1 H))) as Hw'.
  unfold rocks_flush. destruct (take_dirty (rw_hot w)) as [ds h] eqn:Etd. cbn [fst snd] in *.
  assert (Hh : rocks_ok os (rw_set_hot h w)).
  { injection Etd as _ <-. apply rocks_ok_hot; [done|done|done|by intros c x]. }
  change (map _ ds) with (merges ds).
  destruct (law_write (merges ds) (rw_db w) (rok_db os w (proj1 H))) as (d & E & Hd & Hm).
  pose proof (fold_merges ds Hnd (db_links (rw_db w)) (db_hit_map (rw_db w))) as HF.
  rewrite <- Hm in HF. cbn [fst snd] in HF. destruct HF as (H1 & H2 & H3).
  assert (Hd' : forall w', rw_hot w' = h -> db_ok (rw_db w') ->
    (forall c n, (c, n) ∈ ds -> base_hits (db_hit_map (rw_db w')) c = u64 (base_hits (db_hit_map (rw_db w)) c + u64 n)) ->
    (forall c, c ∉ ds.*1 -> db_hit_map (rw_db w') !! c = db_hit_map (rw_db w) !! c) ->
    forall c, hits_of c w' = hits_of c w /\ dirty_hits (rw_hot w') c = None).
  { intros w' Hhot Hok H2' H3' c. rewrite Hhot, Hnone. split; [|done].
    rewrite !hits_of_spec by (done || apply H). rewrite Hhot, Hnone. cbn [default option_map from_option].
    destruct (dirty_hits (rw_hot w) c) as [n|] eqn:En.
    - apply Hin in En. rewrite (H2' c n En). simpl. rewrite Z.add_0_r, i64_u64.
      by rewrite <- (i64_add_r _ (u64 n)), i64_u64, i64_add_r.
    - unfold base_hits. rewrite H3'; [done|]. intros [[c' n] [-> Hc]]%list_elem_of_fmap. apply Hin in Hc.
      cbn [fst] in En. by rewrite En in Hc. }
  destruct (merges ds) as [|o ops] eqn:Eo.
  - assert (ds = []) as -> by (by destruct ds). split_and!; try done.
    apply Hd'; [done|apply H| |done]. intros c n Hc. by apply elem_of_nil in Hc.
  - unfold rw_write. change (rw_db (rw_set_hot h w)) with (rw_db w). rewrite E. cbn [snd].
    assert (Ht : rocks_table os (rw_set_db d (rw_set_hot h w)) = rocks_table os w)
      by (unfold rocks_table; cbn [rw_set_db rw_db]; by rewrite H1).
    split_and!; try done; [|by apply Hd'].
    destruct Hh as [[G1 G2 G3 G4] G5]. split; [split; cbn [rw_set_db rw_db rw_hot]; try done; by rewrite H1|].
    unfold rocks_agrees. rewrite Ht. exact G5.
Qed.

(** A visit that finds its link counts one hit of that code, no other
    lookup and no other code's visit counts any. *)
Lemma rocks_resolve_hits env us c w r w' c' : rocks_ok os w -> track_hits env = true ->
  rocks_resolve os env us c w = (r, w') ->
  hits_of c' w' = if decide (c' = c /\ is_Some r) then i64 (hits_of c w + 1) else hits_of c' w.
Proof.
  intros H Ht.
  assert (Hb : forall w1 u, db_ok (rw_db w1) -> hot_wf (rw_hot w1) -> rw_db w1 = rw_db w -> hc_dirty (rw_hot w1) = hc_dirty (rw_hot w) ->
    hits_of c' (rw_bump env c w1) = if decide (c' = c /\ is_Some (Some u : option bytes)) then i64 (hits_of c w + 1) else hits_of c' w).
  { intros w1 u Hok Hw Hd Hq.
    assert (Hdh : forall x, dirty_hits (rw_hot w1) x = dirty_hits (rw_hot w) x) by (intros x; unfold dirty_hits; by rewrite Hq).
    rewrite !hits_of_spec by (done || (rewrite <- Hd; done) || apply H).
    unfold rw_bump. cbn [rw_set_hot rw_db rw_hot]. rewrite dirty_hits_bump, Hd, !Hdh by done.
    destruct (decide (c' = c)) as [->|Hne].
    - rewrite decide_True by (split; [done|by eexists]). simpl. rewrite i64_add_r, i64_add_l. f_equal. lia.
    - rewrite decide_False by tauto. done. }
  unfold rocks_resolve, rw_cache_get. destruct (cache_get os c (rw_hot w) (rw_sys w)) as [[r1 h1] s1] eqn:Eg.
  destruct (cache_get_spec os c _ _ r1 h1 s1 (rok_hot os w (proj1 H)) Eg) as (Hw1 & _ & _ & _ & _ & _ & Hdy & _).
  destruct r1 as [u1|].
  - intros [= <- <-]. apply Hb; [apply H|done|done|done].
  - assert (Hn : forall w1, rw_db w1 = rw_db w -> hc_dirty (rw_hot w1) = hc_dirty (rw_hot w) ->
      hits_of c' w1 = if decide (c' = c /\ is_Some (None : option bytes)) then i64 (hits_of c w + 1) else hits_of c' w).
    { intros w1 Hd Hq. rewrite decide_False by (intros [_ [? ?]]; done). unfold hits_of, db_hits, dirty_hits. by rewrite Hd, Hq. }
    destruct (db_get c _) as [v|]; [|intros [= <- <-]; by apply Hn].
    destruct (dec v) as [[[e cr] u]|]; [|intros [= <- <-]; by apply Hn].
    destruct (live os e _) as [[] s]; intros [= <- <-]; [|by apply Hn].
    apply Hb; try done; [apply H|]. by apply (cache_put_wf os c u e h1 s).
Qed.

(** ** Compaction *)
Lemma expiry_filter_spec v s : fst (expiry_filter os v s) = true ->
  exists e c u, dec v = Some (e, c, u) /\ e ≠ 0 /\ e <= fst (now_ms os s).
Proof.
  unfold expiry_filter. destruct (dec v) as [[[e c] u]|]; [|done]. destruct (e =? 0) eqn:E0; [done|].
  cbn [now_ms fst]. intros H. exists e, c, u. bool_facts. split_and!; done.
Qed.

Lemma rocks_compact_spec w : rocks_ok os w ->
  rocks_ok os (rocks_compact os w) /\ (forall c, hits_of c (rocks_compact os w) = hits_of c w) /\
  rocks_table os (rocks_compact os w) ⊆ rocks_table os w /\
  forall c u e, rocks_table os w !! c = Some (u, e) -> rocks_table os (rocks_compact os w) !! c = None ->
    gone_by os (k_clock (rw_sys (rocks_compact os w))) e.
Proof.
  intros [H Ha]. unfold rocks_compact. pose proof (law_compact (rw_db w) (rw_sys w) (rok_db os w H)) as Hc.
  destruct (rk_compact (expiry_filter os) (rw_db w) (rw_sys w)) as [d s]. destruct Hc as (Hd & Hh & _ & Hk & Hl).
  set (w' := rw_set_db d (rw_set_sys s w)).
  assert (Hsub : forall c v, db_links d !! c = Some v -> db_links (rw_db w) !! c = Some v).
  { intros c v Hv. destruct (Hl c) as [E|[E _]]; congruence. }
  assert (Hgone : forall c u e, rocks_table os w !! c = Some (u, e) -> rocks_table os w' !! c = None -> gone_by os (k_clock s) e).
  { intros c u e Hr Hn. rewrite rocks_table_lookup in Hr, Hn. destruct (Hl c) as [E|(_ & v & s1 & Hv & Hks & Hf)].
    - change (rw_db w') with d in Hn. rewrite E in Hn. congruence.
    - rewrite Hv in Hr. simpl in Hr. destruct (expiry_filter_spec v s1 Hf) as (e1 & c1 & u1 & Hdec & He & Hle).
      unfold value_row in Hr. rewrite Hdec in Hr. injection Hr as <- <-. split; [done|]. exists (k_clock s1). split; [lia|exact Hle]. }
  assert (Hts : rocks_table os w' ⊆ rocks_table os w).
  { apply map_subseteq_spec. intros c x Hx. rewrite rocks_table_lookup in *. change (rw_db w') with d in Hx.
    destruct (db_links d !! c) as [v|] eqn:Ev; [|done]. by rewrite (Hsub c v Ev). }
  split_and!; [split| |done|exact Hgone].
  - destruct H as [H1 H2 H3 H4]. split; try done. intros c v Hv. eapply H4, Hsub, Hv.
  - intros c x Hx Hcx. change (rw_hot w') with (rw_hot w) in Hcx. specialize (Ha c x Hx Hcx).
    change (k_clock (rw_sys w')) with (k_clock s).
    destruct (rocks_table os w' !! c) as [[u e]|] eqn:Er.
    + by rewrite (lookup_weaken _ _ _ _ Er Hts) in Ha.
    + destruct (rocks_table os w !! c) as [[u e]|] eqn:Er2; [|by eapply gone_by_le].
      destruct Ha as [_ ->]. by eapply Hgone.
  - intros c. unfold hits_of. rewrite !db_hits_spec by (done || apply H). change (rw_db w') with d. by rewrite Hh.
Qed.

(** ** The other operations leave the table *)
Lemma rocks_stats_spec c w r w' : rocks_ok os w -> rocks_stats os c w = (r, w') ->
  rocks_ok os w' /\ rocks_table os w' = rocks_table os w /\
  match r with
  | Some l => l_code l = c /\ rocks_table os w !! c = Some (l_url l, l_expires l) /\ l_hits l = hits_of c w
  | None => True
  end.
Proof.
  intros H. unfold rocks_stats. destruct (db_get c w) as [v|] eqn:Eg; [|by intros [= <- <-]].
  destruct (dec v) as [[[e cr] u]|] eqn:Ed; [|by intros [= <- <-]].
  unfold live. assert (Hk : exists s, (k_clock (rw_sys w) <= k_clock s)%nat /\
    exists ok, (if e =? 0 then (true, rw_sys w) else let '(now, s') := now_ms os (rw_sys w) in (now <? e, s')) = (ok, s)).
  { destruct (e =? 0); [exists (rw_sys w); split; [done|by eexists]|]. cbn [now_ms]. eexists. split; [|by eexists]. simpl. lia. }
  destruct Hk as (s & Hk & ok & ->). assert (Hs : rocks_ok os (rw_set_sys s w)) by by apply rocks_ok_sys.
  destruct ok; intros [= <- <-]; [|by split_and!]. split_and!; try done.
  - apply rocks_ok_hot; [done| |done|by intros c' x]. apply upd_dirty_wf; [|apply H].
    intros d c'. destruct (decide (c' = c)); [by left|]. rewrite lookup_insert_ne by done. by right.
  - rewrite (db_get_spec os w c) in Eg by apply H. by apply (table_some os w c v e cr u).
Qed.

(** ** Sessions *)
Inductive RkOp :=
| RkResolve (c : bytes) | RkShorten (u : bytes) (alias : option bytes) (ttl : Z) | RkShortenMany (us : list bytes) (ttl : Z)
| RkUpdate (c u : bytes) (ttl : Z) (has : bool) | RkRemove (c : bytes) | RkStats (c : bytes)
| RkList (limit offset : nat) (sort q : bytes) | RkFlush | RkCompact.

Definition rk_step (env : Env) (us : nat -> Z) (fuel : nat) (o : RkOp) (w : Engine D) : option (Engine D) :=
  match o with
  | RkResolve c => Some (snd (rocks_resolve os env us c w))
  | RkShorten u alias ttl => match store_rocks_shorten os fuel u alias ttl w with Ret _ w => Some w | _ => None end
  | RkShortenMany l ttl => match store_rocks_shorten_many os fuel l ttl w with Ret _ w => Some w | _ => None end
  | RkUpdate c u ttl has => Some (snd (rocks_update os c u ttl has w))
  | RkRemove c => Some (snd (store_rocks_remove c w))
  | RkStats c => Some (snd (rocks_stats os c w))
  | RkList l o s q => Some (snd (rocks_list os l o s q w))
  | RkFlush => Some (rocks_flush w)
  | RkCompact => Some (rocks_compact os w)
  end.
Fixpoint rk_run (env : Env) (us : nat -> Z) (fuel : nat) (l : list RkOp) (w : Engine D) : option (Engine D) :=
  match l with
  | [] => Some w
  | o :: l => match rk_step env us fuel o w with Some w => rk_run env us fuel l w | None => None end
  end.

(** The state a process starts with on a database. *)
Definition rocks_open (d : D) (inst cache_entries cttl : Z) (s : Sys) (links : Z) : Engine D :=
  mkEngine (hot_init inst cache_entries cttl) d s (links_count links Counters0) 0.

Lemma rocks_open_ok d inst n cttl s links : db_ok d -> (forall c v, db_links d !! c = Some v -> is_Some (dec v)) ->
  rocks_ok os (rocks_open d inst n cttl s links).
Proof.
  intros Hd Hv. split; [|apply agrees_init]. split; try done; [apply hot_init_wf|]. apply Base62.alpha_in. lia.
Qed.

Lemma store_rocks_shorten_ok fuel u alias ttl w r w' : rocks_ok os w -> store_rocks_shorten os fuel u alias ttl w = Ret r w' -> rocks_ok os w'.
Proof.
  intros H. unfold store_rocks_shorten. pose proof (rocks_shorten_spec os [] fuel u alias ttl w H) as Hs.
  destruct (rocks_shorten os fuel u alias ttl w) as [[c|] w1|w1|]; [|intros [= <- <-]; apply Hs|done..].
  intros [= <- <-]. apply rocks_ok_count, Hs.
Qed.

Lemma rk_step_ok env us fuel o w w' : rocks_ok os w -> rk_step env us fuel o w = Some w' -> rocks_ok os w'.
Proof.
  intros H. destruct o; cbn [rk_step].
  - destruct (rocks_resolve os env us c w) eqn:E. intros [= <-]. by eapply rocks_resolve_spec.
  - destruct (store_rocks_shorten os fuel u alias ttl w) eqn:E; [|done..]. intros [= <-]. by eapply store_rocks_shorten_ok.
  - unfold store_rocks_shorten_many. pose proof (rocks_shorten_many_spec os fuel us0 ttl w H) as Hs.
    destruct (rocks_shorten_many os fuel us0 ttl w); [|done..]. intros [= <-]. apply rocks_ok_count, Hs.
  - destruct (rocks_update os c u ttl has w) eqn:E. intros [= <-]. by eapply rocks_update_spec.
  - unfold store_rocks_remove. destruct (rocks_remove c w) as [r1 w1] eqn:E.
    pose proof (rocks_remove_spec os c w _ _ H E) as [Ho _]. intros [= <-].
    destruct r1; [by apply rocks_ok_count|done..].
  - destruct (rocks_stats os c w) eqn:E. intros [= <-]. by eapply rocks_stats_spec.
  - intros [= <-]. apply rocks_ok_sys; [done|simpl; lia].
  - intros [= <-]. by apply rocks_flush_spec.
  - intros [= <-]. by apply rocks_compact_spec.
Qed.

Lemma rk_run_ok env us fuel l w w' : rocks_ok os w -> rk_run env us fuel l w = Some w' -> rocks_ok os w'.
Proof.
  revert w. induction l as [|o l IH]; intros w H; cbn [rk_run]; [by intros [= <-]|].
  destruct (rk_step env us fuel o w) as [w1|] eqn:E; [|done]. apply IH. by eapply rk_step_ok.
Qed.

(** C25 The cache cannot be seen: open the store on any database, perform any
    operations, flushes and compactions; then [resolve] answers exactly what
    the links of the database say, the url of a link that does not expire,
    the url of one that expires after a clock reading made for the lookup and
    nothing otherwise, and nothing for a code the database does not have. *)
Theorem rocks_cache_transparent env us fuel d inst n cttl s links ops w c r w' :
  clock_steady os -> db_ok d -> (forall c v, db_links d !! c = Some v -> is_Some (dec v)) ->
  rk_run env us fuel ops (rocks_open d inst n cttl s links) = Some w ->
  rocks_resolve os env us c w = (r, w') ->
  rocks_table os w' = rocks_table os w /\
  match rocks_table os w !! c with
  | Some (u, e) => (e = 0 -> r = Some u) /\
      (e ≠ 0 -> exists now, read_during os (rw_sys w) (rw_sys w') now /\ r = if now <? e then Some u else None)
  | None => r = None
  end.
Proof.
  intros Hcl Hd Hv Hrun Hr. pose proof (rk_run_ok _ _ _ _ _ _ (rocks_open_ok d inst n cttl s links Hd Hv) Hrun) as Ho.
  destruct (rocks_resolve_spec os env us c w r w' Ho Hr) as (_ & Ht & Hs). split; [done|].
  destruct (rocks_table os w !! c) as [[u e]|]; [done|]. destruct Hs as [|(e & (_ & j & Hj & Hle) & Hlt)]; [done|].
  specialize (Hcl j (k_clock (rw_sys w)) ltac:(lia)). simpl in Hlt. lia.
Qed.

(** A batch makes a link of every url: as many codes as urls, every one
    valid and free before; if they are distinct, each leads to its own url
    with the lifetime asked for, counted from a moment within the call.
    Nothing else changes. *)
Theorem rocks_shorten_many_correct fuel l ttl w codes w' :
  rocks_ok os w -> rocks_shorten_many os fuel l ttl w = Ret codes w' ->
  rocks_ok os w' /\ length codes = length l /\
  (forall c, c ∉ codes -> rocks_table os w' !! c = rocks_table os w !! c) /\
  forall i u, l !! i = Some u -> exists c, codes !! i = Some c /\ code_ok c = true /\ rocks_table os w !! c = None /\
    (NoDup codes -> exists now, read_during os (rw_sys w) (rw_sys w') now /\
       rocks_table os w' !! c = Some (u, expiry now ttl)).
Proof. intros H E. pose proof (rocks_shorten_many_spec os fuel l ttl w H) as Hs. by rewrite E in Hs. Qed.

(** Hits are counted exactly, modulo 2^64: a lookup that finds its link
    adds one to the hits of that code and of no other, one that finds
    nothing adds none; moving the pending hits to the database and compacting
    it change no count; and [stats] reports the count. *)
Theorem rocks_hits_exact env us w :
  rocks_ok os w -> track_hits env = true ->
  (forall c r w', rocks_resolve os env us c w = (r, w') -> forall c',
     hits_of c' w' = if decide (c' = c /\ is_Some r) then i64 (hits_of c w + 1) else hits_of c' w) /\
  (forall c, hits_of c (rocks_flush w) = hits_of c w /\ dirty_hits (rw_hot (rocks_flush w)) c = None) /\
  (forall c, hits_of c (rocks_compact os w) = hits_of c w) /\
  (forall c l w', rocks_stats os c w = (Some l, w') -> l_hits l = hits_of c w).
Proof.
  intros H Ht. split_and!.
  - intros c r w' E c'. by eapply rocks_resolve_hits.
  - by apply rocks_flush_spec.
  - by apply rocks_compact_spec.
  - intros c l w' E. by apply (rocks_stats_spec c w (Some l) w' H E).
Qed.

(** [compact] reclaims expired links only: a link it drops had an expiry
    at or before a clock reading that had been made; all others stay as they
    are, with their hits. *)
Theorem rocks_compact_drops_expired_only w :
  rocks_ok os w ->
  rocks_ok os (rocks_compact os w) /\
  (forall c u e, rocks_table os w !! c = Some (u, e) ->
     ~ gone_by os (k_clock (rw_sys (rocks_compact os w))) e -> rocks_table os (rocks_compact os w) !! c = Some (u, e)) /\
  (forall c x, rocks_table os (rocks_compact os w) !! c = Some x -> rocks_table os w !! c = Some x) /\
  forall c, hits_of c (rocks_compact os w) = hits_of c w.
Proof.
  intros H. destruct (rocks_compact_spec w H) as (Ho & Hh & Hs & Hg). split_and!; [done| | |done].
  - intros c u e Hr Hn. destruct (rocks_table os (rocks_compact os w) !! c) as [x|] eqn:E.
    + rewrite (lookup_weaken _ _ _ _ E Hs) in Hr. congruence.
    + destruct Hn. by eapply Hg.
  - intros c x Hx. by eapply lookup_weaken.
Qed.

(** A removed link is gone: after [remove] succeeded the code resolves to
    nothing at once, cached or not, its hits in the database are gone, and
    every other link is as before. *)
Theorem rocks_removed_not_served env us c w w' :
  rocks_ok os w -> rocks_remove c w = (MOk, w') ->
  fst (rocks_resolve os env us c w') = None /\ base_hits (db_hit_map (rw_db w')) c = 0 /\
  forall c', c' ≠ c -> rocks_table os w' !! c' = rocks_table os w !! c'.
Proof.
  intros H E. destruct (rocks_remove_spec os c w MOk w' H E) as (Ho & _ & Ht & Hc & Hh & _). split_and!.
  - unfold rocks_resolve, rw_cache_get, cache_get. rewrite Hc.
    assert (Hn : db_links (rw_db w') !! c = None) by (apply (table_none os w'); [apply Ho|by rewrite Ht, lookup_delete_eq]).
    unfold db_get. change (rw_db (rw_count cache_miss _)) with (rw_db w'). by rewrite law_get_links, Hn by apply Ho.
  - unfold base_hits. by rewrite Hh, lookup_delete_eq.
  - intros c' Hne. by rewrite Ht, lookup_delete_ne.
Qed.
End RocksClaims.

(** ** The engine behind the interface *)
Lemma ret_inv {A W} (xw : A * W) r w' : ret xw = Ret r w' -> xw = (r, w').
Proof. destruct xw. by intros [= -> ->]. Qed.

#[export] Instance rocks_store_laws {D} {db : RocksDb D} {std : StdImpl} {rnd : Rand} os env us fuel {laws : RocksLaws D os}
  : StoreLaws (Engine D) (api := rocks_store os env us fuel) os.
Proof.
  refine {| st_ok := rocks_ok os : Engine D -> Prop; st_table := rocks_table os : Engine D -> _ |}.
  - done.
  - intros s w H Hk. by split; [apply rocks_ok_sys|].
  - intros u alias ttl w r w' H _ E. pose proof (rocks_shorten_spec os [] fuel u alias ttl w H) as Hs.
    cbn [st_shorten rocks_store] in E. unfold store_rocks_shorten in E.
    destruct (rocks_shorten os fuel u alias ttl w) as [[c|] w1|w1|]; [|injection E as <- <-; tauto|done..].
    injection E as <- <-. destruct Hs as (Ho & Hn & Ha & Ht & Hsys). split; [by apply rocks_ok_count|].
    split; [done|]. split; [done|]. exists (fst (now_ms os (rw_sys w))). split; [|done]. apply read_now.
    cbn [st_sys rocks_store rw_count rw_sys]. rewrite Hsys. simpl. lia.
  - intros c u e w r w' H _ Ht E. destruct (rocks_resolve_spec os env us c w r w' H (ret_inv _ _ _ E)) as (Ho & Htb & Hs).
    rewrite Ht in Hs. exact (conj Ho (conj Htb Hs)).
  - intros c u ttl has w r w' H _ E. destruct (rocks_update_spec os c u ttl has w r w' H (ret_inv _ _ _ E)) as (Ho & Hs).
    split; [done|]. by destruct r.
  - intros c w r w' H _ E. apply ret_inv in E. unfold store_rocks_remove in E. destruct (rocks_remove c w) as [r1 w1] eqn:Er.
    destruct (rocks_remove_spec os c w r1 w1 H Er) as (Ho & Hs).
    destruct r1; injection E as <- <-; [|by split|done]. split; [by apply rocks_ok_count|]. by destruct Hs as (? & ? & _).
Defined.

(** Not even a failing database makes it throw. *)
Lemma rocks_shorten_no_raise {D} {db : RocksDb D} {rnd : Rand} os n u alias ttl (w w' : Engine D) :
  rocks_shorten os n u alias ttl w ≠ Raise w'.
Proof.
  assert (Hf : forall exp now w, rocks_fresh os n u exp now w ≠ Raise w').
  { intros exp now. induction n as [|n' IH]; intros w1; cbn [rocks_fresh]; [done|].
    destruct (hot_code (rw_hot w1)). destruct (db_get _ _); [apply IH|done]. }
  unfold rocks_shorten. destruct (now_ms os _). destruct alias; [by destruct (db_get _ _)|apply Hf].
Qed.

#[export] Instance rocks_no_raise {D} {db : RocksDb D} {std : StdImpl} {rnd : Rand} os env us fuel
  : StoreNoRaise (Engine D) (api := rocks_store os env us fuel).
Proof.
  assert (Hs : forall ok l cs exp ttl (w w' : Engine D), rocks_settle os fuel ok l cs exp ttl w ≠ Raise w').
  { intros ok l. induction l as [|u l IH]; intros [|c cs] exp ttl w w'; cbn [rocks_settle]; try done. case_if.
    - pose proof (rocks_shorten_no_raise os fuel u None ttl w) as Hn. destruct (rocks_shorten os fuel u None ttl w) as [r w1|w1|]; [|by destruct (Hn w1)|done].
      specialize (IH cs exp ttl w1). destruct (rocks_settle os fuel ok l cs exp ttl w1) as [| w2|]; [done|by destruct (IH w2)|done].
    - specialize (IH cs exp ttl (rw_cache_put os c u exp w)).
      destruct (rocks_settle os fuel ok l cs exp ttl _) as [| w2|]; [done|by destruct (IH w2)|done]. }
  constructor; intros; cbn [rocks_store st_healthy st_resolve st_shorten st_shorten_many st_update st_remove st_list st_stats];
    unfold ret; try done.
  - unfold store_rocks_shorten. pose proof (rocks_shorten_no_raise os fuel u alias ttl w) as Hn.
    destruct (rocks_shorten os fuel u alias ttl w) as [[c|] w1|w1|]; done.
  - unfold store_rocks_shorten_many, rocks_shorten_many. destruct (now_ms os _). destruct (rocks_batch _ _ _ _) as [[cs ops] w1].
    destruct (rw_write ops w1) as [ok w2]. specialize (Hs ok us0 cs (expiry z ttl) ttl w2).
    destruct (rocks_settle os fuel ok us0 cs (expiry z ttl) ttl w2) as [|w3|]; [done|by destruct (Hs w3)|done].
Qed.

(** ** The witnesses *)
#[local] Existing Instance RefStd.
Lemma cycle_range k : 0 <= Z.of_nat (k mod 62) <= 61.
Proof. pose proof (Nat.mod_upper_bound k 62 ltac:(lia)). lia. Qed.
Definition cycle_rand : Rand := {| rand k := Z.of_nat (k mod 62); rand_range := cycle_range |}.
#[local] Existing Instance cycle_rand.

(** A clock of thousand seconds, then standing still. *)
Definition SlowOs : Os := mkOs (fun k => Z.min (1000 * Z.of_nat k) 1000000) (os_write RefOs) (os_read RefOs) (os_alive RefOs) (os_pid RefOs).
Lemma SlowOs_steady : clock_steady SlowOs.
Proof. intros j k H. simpl. rewrite !i64_id by (unfold in_i64; lia). lia. Qed.

Definition rdemo_env : Env := fun _ => None.
Definition rdemo_us : nat -> Z := fun _ => 7.
Definition rdemo_open : Engine MemDb := rocks_open mem0 0 100000 5000 RefSys 0.
Definition rdemo_ops : list RkOp :=
  [RkShorten (B "https://a.b/c") (Some (B "x")) 20000; RkShortenMany [B "https://e.com/1"; B "https://e.com/2"] 0;
   RkResolve (B "x"); RkFlush; RkCompact; RkUpdate (B "x") (B "https://a.b/d") 0 false].
Definition rdemo_end : Engine MemDb := default rdemo_open (rk_run SlowOs rdemo_env rdemo_us 3 rdemo_ops rdemo_open).
Lemma rdemo_run : rk_run SlowOs rdemo_env rdemo_us 3 rdemo_ops rdemo_open = Some rdemo_end.
Proof. vm_compute. reflexivity. Qed.
Lemma mem0_values c v : db_links (RocksLaws := mem_laws SlowOs) mem0 !! c = Some v -> is_Some (dec v).
Proof. intros H. exfalso. exact (lookup_empty_Some _ _ H). Qed.
Lemma mem0_ok : db_ok (RocksLaws := mem_laws SlowOs) mem0.
Proof. exact I. Qed.
Lemma rdemo_ok : rocks_ok SlowOs rdemo_end.
Proof. exact (rk_run_ok SlowOs _ _ _ _ _ _ (rocks_open_ok SlowOs mem0 0 100000 5000 RefSys 0 mem0_ok mem0_values) rdemo_run). Qed.

Definition rdemo_visit : option bytes * Engine MemDb := rocks_resolve SlowOs rdemo_env rdemo_us (B "x") rdemo_end.
Lemma rdemo_visit_eq : rdemo_visit = (Some (B "https://a.b/d"), snd rdemo_visit).
Proof. vm_compute. reflexivity. Qed.
Lemma rocks_cache_transparent_witness :
  rdemo_visit = (Some (B "https://a.b/d"), snd rdemo_visit) /\
  rocks_table SlowOs (snd rdemo_visit) = rocks_table SlowOs rdemo_end.
Proof.
  split; [exact rdemo_visit_eq|].
  destruct (rocks_cache_transparent SlowOs rdemo_env rdemo_us 3 mem0 0 100000 5000 RefSys 0 rdemo_ops rdemo_end (B "x")
    (Some (B "https://a.b/d")) (snd rdemo_visit) SlowOs_steady mem0_ok mem0_values rdemo_run rdemo_visit_eq) as [H _].
  exact H.
Defined.

Definition rdemo_bulk : Out (list bytes) (Engine MemDb) := rocks_shorten_many SlowOs 3 [B "https://e.com/3"] 0 rdemo_end.
Definition rdemo_bulk_end : Engine MemDb := match rdemo_bulk with Ret _ w => w | _ => rdemo_end end.
Lemma rdemo_bulk_eq : rdemo_bulk = Ret [B "0efghijk"] rdemo_bulk_end.
Proof. vm_compute. reflexivity. Qed.
Lemma rocks_shorten_many_correct_witness : rdemo_bulk = Ret [B "0efghijk"] rdemo_bulk_end /\ rocks_ok SlowOs rdemo_bulk_end.
Proof.
  split; [exact rdemo_bulk_eq|].
  destruct (rocks_shorten_many_correct SlowOs 3 [B "https://e.com/3"] 0 rdemo_end [B "0efghijk"] rdemo_bulk_end rdemo_ok rdemo_bulk_eq)
    as [H _].
  exact H.
Defined.

Lemma rocks_hits_exact_witness : hits_of (B "x") (snd rdemo_visit) = 2.
Proof.
  destruct (rocks_hits_exact SlowOs rdemo_env rdemo_us rdemo_end rdemo_ok eq_refl) as (H & _).
  specialize (H (B "x") (Some (B "https://a.b/d")) (snd rdemo_visit) rdemo_visit_eq (B "x")). rewrite H. vm_compute. reflexivity.
Defined.

Lemma rocks_compact_drops_expired_only_witness : rocks_ok SlowOs (rocks_compact SlowOs rdemo_end).
Proof. destruct (rocks_compact_drops_expired_only SlowOs rdemo_end rdemo_ok) as [H _]. exact H. Defined.

Definition rdemo_removed : Engine MemDb := snd (rocks_remove (B "x") rdemo_end).
Lemma rdemo_remove_eq : rocks_remove (B "x") rdemo_end = (MOk, rdemo_removed).
Proof. vm_compute. reflexivity. Qed.
Lemma rocks_removed_not_served_witness : fst (rocks_resolve SlowOs rdemo_env rdemo_us (B "x") rdemo_removed) = None.
Proof.
  destruct (rocks_removed_not_served SlowOs rdemo_env rdemo_us (B "x") rdemo_end rdemo_removed rdemo_ok rdemo_remove_eq) as [H _].
  exact H.
Defined.
