(* ===== verification/RocksFindings.v ===== *)
(** * Where the RocksDB store and its cache fall short

    The cache is bounded, its queue is not; and what a database that cannot
    write, a removed link with pending hits, two equal draws and an old value
    with a bar in its url lead to, evaluated on small inputs. *)

From S2P Require Import Prelude CLib Common Aof Metrics Store StoreFacts StoreSpec App AppFacts HotCache StoreRocks RocksFacts RocksBulk MemRocks RocksClaims.

(** The cache is bounded whatever happens: after any operations every
    shard holds at most [cap_per_shard] links, each of them queued for
    eviction. *)
Theorem rocks_cache_bounded {D} {db : RocksDb D} {std : StdImpl} {rnd : Rand} os {laws : RocksLaws D os}
    env us fuel d inst n cttl s links ops w k sh :
  db_ok d -> (forall c v, db_links d !! c = Some v -> is_Some (dec v)) ->
  rk_run os env us fuel ops (rocks_open d inst n cttl s links) = Some w ->
  hc_cache (rw_hot w) !! k = Some sh ->
  Z.of_nat (size (sh_m sh)) <= hc_cap (rw_hot w) /\ forall c, is_Some (sh_m sh !! c) -> c ∈ sh_order sh.
Proof.
  intros Hd Hv Hrun Hk. pose proof (rk_run_ok os _ _ _ _ _ _ (rocks_open_ok os d inst n cttl s links Hd Hv) Hrun) as [H _].
  pose proof (hw_shards _ (rok_hot os w H)) as Hs. rewrite Forall_lookup in Hs. by apply (Hs k sh).
Qed.

(** ** The queue *)

(** A link that is cached and dropped from the cache, [n] times. *)
Fixpoint churn (os : Os) (n : nat) (code u : bytes) (h : Hot) (s : Sys) : Hot * Sys :=
  match n with
  | O => (h, s)
  | S n' =>
      let '(h, s) := churn os n' code u h s in
      let '(h, s) := cache_put os code u 0 h s in
      (cache_del code h, s)
  end.

(** The queue of the cache is not bounded: a link that is visited and
    then dropped from the cache, by an update or because its entry went
    stale, leaves a place in the queue each time. After [n] rounds the cache
    holds nothing of it and the queue has [n] places for it. *)
Theorem queue_grows os inst cache_entries cttl code u s n :
  let sh := kv_shard (fst (churn os n code u (hot_init inst cache_entries cttl) s)) code in
  sh_m sh = ∅ /\ length (sh_order sh) = n.
Proof.
  cbv zeta. set (h0 := hot_init inst cache_entries cttl).
  assert (H : let h := fst (churn os n code u h0 s) in
    hot_wf h /\ sh_m (kv_shard h code) = ∅ /\ sh_order (kv_shard h code) = replicate n code); [|split; [apply H|]].
  - induction n as [|n IH]; cbn [churn fst].
    + split; [apply hot_init_wf|]. unfold kv_shard, h0, hot_init. cbn [hc_cache].
      destruct (replicate KV_SHARDS KvShard0 !! shard_of code) eqn:E; [|done]. by apply lookup_replicate in E as [-> _].
    + destruct (churn os n code u h0 s) as [h s1]. destruct IH as (Hw & Hm & Ho). cbn [fst] in *. cbv zeta.
      unfold cache_put. cbn [now_ms]. pose proof (cache_put_wf os code u 0 h s1 Hw) as Hp. unfold cache_put in Hp. cbn [now_ms fst] in Hp.
      split; [by apply cache_del_wf|]. unfold cache_del. cbn [fst]. rewrite kv_shard_upd, kv_shard_upd, !decide_True by done.
      unfold put_shard. rewrite Hm, lookup_empty, Ho. cbn [sh_m sh_order].
      assert (He : cache_evict (hc_cap h) ∅ (replicate n code) = mkKvShard ∅ (replicate n code)).
      { destruct n; cbn [replicate cache_evict]; [done|]. rewrite map_size_empty.
        rewrite (proj2 (Z.leb_gt _ _)); [done|]. pose proof (hw_cap h Hw). lia. }
      rewrite He. cbn [sh_m sh_order]. split; [by rewrite delete_insert_id|]. by rewrite <- replicate_S_end.
  - destruct H as (_ & _ & ->). apply length_replicate.
Qed.

(** An old place in the queue evicts a fresh entry: with room for two, [y]
    was put last but goes first, since it had a place from before. *)
Example stale_place_evicts :
  let put c sh := put_shard 2 c (mkKvEntry (B "u") 0 0) sh in
  let del c sh := mkKvShard (delete c (sh_m sh)) (sh_order sh) in
  let sh := put (B "z") (put (B "y") (put (B "x") (del (B "y") (put (B "y") KvShard0)))) in
  (is_Some (sh_m sh !! B "x"), sh_m sh !! B "y") = (is_Some (Some (mkKvEntry (B "u") 0 0)), None).
Proof. vm_compute. reflexivity. Qed.

(** ** Old values *)

(** A value written as expiry and url is read back only if the url holds no
    bar. *)
Example legacy_bar :
  dec (B "0|https://a.b/c") = Some (0, 0, B "https://a.b/c") /\ dec (B "0|https://a.b/c|d") = None.
Proof. vm_compute. done. Qed.

(** ** A database that cannot write *)
#[local] Existing Instance RefStd.
#[local] Existing Instance cycle_rand.
Definition full_world : Engine MemDb :=
  mkEngine (hot_init 0 0 5000) (mkMem {[ B "x" := enc 0 1 (B "https://a.b/c") ]} ∅) RefSys Counters0 0.

Section Full.
#[local] Existing Instance full_db.

(** A free alias is said to be taken; a batch reports codes that do not
    exist; a deletion reports success and the link is still there. *)
Example full_disk_lies :
  (match rocks_shorten SlowOs 1 (B "https://a.b/d") (Some (B "free")) 0 full_world with Ret r w => Some (r, db_get (B "free") w) | _ => None end)
    = Some (None, None) /\
  (match rocks_shorten_many SlowOs 1 [B "https://a.b/d"] 0 full_world with Ret cs w => Some (cs, map (fun c => db_get c w) cs) | _ => None end)
    = Some ([B "00123456"], [None]) /\
  (let '(r, w) := rocks_remove (B "x") full_world in (r, fst (rocks_resolve SlowOs rdemo_env rdemo_us (B "x") w)))
    = (MOk, Some (B "https://a.b/c")).
Proof. vm_compute. done. Qed.
End Full.

(** ** Pending hits outlive their link *)

(** A visited link is removed before the flush; the next link with its alias
    starts with the old visit. *)
Definition leak_ops : list RkOp :=
  [RkShorten (B "https://a.b/c") (Some (B "x")) 0; RkResolve (B "x"); RkRemove (B "x");
   RkShorten (B "https://e.com/") (Some (B "x")) 0].
Example rocks_removed_hits_leak :
  (fun w => (fst <$> rocks_table SlowOs w !! B "x", hits_of (B "x") w)) <$> rk_run SlowOs rdemo_env rdemo_us 1 leak_ops rdemo_open
    = Some (Some (B "https://e.com/"), 1).
Proof. vm_compute. reflexivity. Qed.

(** ** Equal draws in a batch *)
Definition stuck_rand : Rand.
Proof. refine {| rand := fun _ => 0 |}. intros _. lia. Defined.

(** Two urls, one code: the draws of a batch are only compared with the
    database. *)
Example batch_collision :
  (match rocks_shorten_many (rnd := stuck_rand) SlowOs 1 [B "https://a.b/1"; B "https://a.b/2"] 0 rdemo_open with
   | Ret cs w => Some (cs, fst <$> rocks_table SlowOs w !! B "00000000") | _ => None end)
    = Some ([B "00000000"; B "00000000"], Some (B "https://a.b/2")).
Proof. vm_compute. reflexivity. Qed.

(** ** A late entry *)

(** Two threads: a lookup has read the row, an update writes a new url and
    drops the code from the cache, and then the lookup puts what it read.
    The cache now has the old url. (The operations of the model are atomic;
    this is the order of their parts.) *)
Definition late_put : option (option (Z * Z * bytes) * option bytes * option bytes) :=
  w ← rk_run SlowOs rdemo_env rdemo_us 1 [RkShorten (B "https://a.b/c") (Some (B "x")) 0] rdemo_open;
  let w := rw_cache_del (B "x") w in
  let row := db_get (B "x") w ≫= dec in
  let w := snd (rocks_update SlowOs (B "x") (B "https://a.b/d") 0 false w) in
  let w := match row with Some (e, _, u) => rw_cache_put SlowOs (B "x") u e w | None => w end in
  Some (row, fst (rocks_resolve SlowOs rdemo_env rdemo_us (B "x") w), fst <$> rocks_table SlowOs w !! B "x").
Example late_put_stale : exists row, late_put = Some (row, Some (B "https://a.b/c"), Some (B "https://a.b/d")).
Proof. eexists. vm_compute. reflexivity. Qed.

(** ** The witness *)
Definition rdemo_shard : KvShard := kv_shard (rw_hot rdemo_end) (B "x").
Lemma rdemo_shard_eq : hc_cache (rw_hot rdemo_end) !! shard_of (B "x") = Some rdemo_shard.
Proof. vm_compute. reflexivity. Qed.
Lemma rocks_cache_bounded_witness : Z.of_nat (size (sh_m rdemo_shard)) <= hc_cap (rw_hot rdemo_end).
Proof.
  destruct (rocks_cache_bounded SlowOs rdemo_env rdemo_us 3 mem0 0 100000 5000 RefSys 0 rdemo_ops rdemo_end (shard_of (B "x"))
    rdemo_shard mem0_ok mem0_values rdemo_run rdemo_shard_eq) as [H _].
  exact H.
Defined.
