(* ===== verification/Kv.v ===== *)
(** * kv.cpp: the RESP client

    The reader over what [recv] returns, the writer, the pipeline over a set
    of connections and the commands on top. What the server sends is data:
    the chunks of a connection are what its successive [recv] calls return,
    an empty one being a call that fails or finds the stream closed. Memory
    is not bounded: a length the code cannot allocate ends like one whose
    bytes never come, with an exception of [pipe]. *)

From S2P Require Import Prelude CLib Common Aof App.

(** ** Replies *)

(** [struct Resp]. *)
Inductive Resp := mkResp (kind : ascii) (str : bytes) (num : Z) (arr : list Resp).
Definition r_kind (r : Resp) : ascii := let '(mkResp k _ _ _) := r in k.
Definition r_str (r : Resp) : bytes := let '(mkResp _ s _ _) := r in s.
Definition r_num (r : Resp) : Z := let '(mkResp _ _ n _) := r in n.
Definition r_arr (r : Resp) : list Resp := let '(mkResp _ _ _ a) := r in a.

(** [null()]. *)
Definition r_null (r : Resp) : bool := ((r_kind r =c "$") && (r_num r <? 0)) || ((r_kind r =c "*") && (r_num r <? 0)).

(** [struct Conn], with the chunks still to come. *)
Record Conn := mkConn { c_rbuf : bytes; c_rpos : nat; c_in : list bytes }.

(** ** [struct Reader] *)
Definition fill (c : Conn) : bool * Conn :=
  let c := if decide (c_rpos c = length (c_rbuf c)) then mkConn [] 0 (c_in c) else c in
  match c_in c with
  | [] => (false, c)
  | [] :: cs => (false, mkConn (c_rbuf c) (c_rpos c) cs)
  | ch :: cs => (true, mkConn (c_rbuf c ++ ch) (c_rpos c) cs)
  end.

(** How a read ends: with a value, with [false], with an exception of
    [stoll]; [RFuel] is the model's own: the loop has not ended yet. *)
Inductive RdRes (A : Type) := ROk (a : A) (c : Conn) | RFail (c : Conn) | RThrow (c : Conn) | RFuel.
Arguments ROk {A}.
Arguments RFail {A}.
Arguments RThrow {A}.
Arguments RFuel {A}.

(** [if (!read) return false], an exception passing through. *)
Definition rd_bind {A B} (r : RdRes A) (k : A -> Conn -> RdRes B) : RdRes B :=
  match r with ROk a c => k a c | RFail c => RFail c | RThrow c => RThrow c | RFuel => RFuel end.

(** The loops turn once more for every chunk. *)
Definition turns (c : Conn) : nat := S (length (c_in c)).

Fixpoint byte_loop (n : nat) (c : Conn) : RdRes ascii :=
  match n with
  | O => RFuel
  | S n' =>
      match c_rbuf c !! c_rpos c with
      | Some b => ROk b (mkConn (c_rbuf c) (S (c_rpos c)) (c_in c))
      | None => let '(ok, c) := fill c in if ok : bool then byte_loop n' c else RFail c
      end
  end.
Definition byte (c : Conn) : RdRes ascii := byte_loop (turns c) c.

Fixpoint line_loop (n : nat) (c : Conn) : RdRes bytes :=
  match n with
  | O => RFuel
  | S n' =>
      match find_sub CRLF (drop (c_rpos c) (c_rbuf c)) with
      | Some p => ROk (take p (drop (c_rpos c) (c_rbuf c))) (mkConn (c_rbuf c) (c_rpos c + p + 2) (c_in c))
      | None => let '(ok, c) := fill c in if ok : bool then line_loop n' c else RFail c
      end
  end.
Definition line (c : Conn) : RdRes bytes := line_loop (turns c) c.

(** [exact(dst, n)]: [left] bytes are missing. *)
Fixpoint exact_loop (n : nat) (left : Z) (acc : bytes) (c : Conn) : RdRes bytes :=
  match n with
  | O => RFuel
  | S n' =>
      if left <=? 0 then ROk acc c
      else
        let avail := (length (c_rbuf c) - c_rpos c)%nat in
        if (0 <? avail)%nat then
          let k := Z.to_nat (Z.min (Z.of_nat avail) left) in
          exact_loop n' (left - Z.of_nat k) (acc ++ take k (drop (c_rpos c) (c_rbuf c)))
            (mkConn (c_rbuf c) (c_rpos c + k) (c_in c))
        else let '(ok, c) := fill c in if ok : bool then exact_loop n' left acc c else RFail c
  end.
Definition exact (left : Z) (c : Conn) : RdRes bytes := exact_loop (2 * turns c + 1) left [] c.

(** [if (!rd.line(l)) return false; out.num = stoll(l)]. *)
Definition number (c : Conn) : RdRes Z :=
  rd_bind (line c) (fun l c => match stoll l with Some n => ROk n c | None => RThrow c end).

(** [read_resp] and its loop over the elements of an array. *)
Fixpoint read_resp (fuel : nat) (c : Conn) : RdRes Resp :=
  match fuel with
  | O => RFuel
  | S f =>
      rd_bind (byte c) (fun k c =>
        if (k =c "+") || (k =c "-") then rd_bind (line c) (fun l c => ROk (mkResp k l 0 []) c)
        else if (k =c ":") || (k =c "$") || (k =c "*") then
          rd_bind (number c) (fun n c =>
            if k =c ":" then ROk (mkResp k [] n []) c
            else if n <? 0 then ROk (mkResp k [] n []) c
            else if k =c "$" then rd_bind (exact (n + 2) c) (fun d c => ROk (mkResp k (take (Z.to_nat n) d) n []) c)
            else rd_bind (read_arr f n c) (fun l c => ROk (mkResp k [] n l) c))
        else RFail c)
  end
with read_arr (fuel : nat) (n : Z) (c : Conn) : RdRes (list Resp) :=
  match fuel with
  | O => RFuel
  | S f =>
      if n <=? 0 then ROk [] c
      else rd_bind (read_resp f c) (fun r c => rd_bind (read_arr f (n - 1) c) (fun l c => ROk (r :: l) c))
  end.

(** The bytes a connection can still give, and fuel that is enough. *)
Definition avail (c : Conn) : nat := length (drop (c_rpos c) (c_rbuf c)) + length (concat (c_in c)).
Definition resp_fuel (c : Conn) : nat := 2 * avail c + 1.
Definition read1 (c : Conn) : RdRes Resp := read_resp (resp_fuel c) c.

(** ** Commands *)

(** [warg]. *)
Definition warg (b a : bytes) : bytes := b ++ B "$" ++ to_string (Z.of_nat (length a)) ++ CRLF ++ a ++ CRLF.

Definition wcmd (b : bytes) (args : list bytes) : bytes :=
  fold_left warg args (b ++ B "*" ++ to_string (Z.of_nat (length args)) ++ CRLF).

(** The other end: how much of a [send] on connection [i] it takes, and the
    chunks it answers with once everything is sent. *)
Class KvPeer (S : Type) := {
  peer_send : nat -> bytes -> S -> Z * S;
  peer_recv : nat -> S -> list bytes * S
}.

Record Kv (S : Type) := mkKv { kv_conns : list Conn; kv_next : Z; kv_peer : S }.
Arguments mkKv {S}.
Arguments kv_conns {S}.
Arguments kv_next {S}.
Arguments kv_peer {S}.

Section Pipe.
Context {S : Type} {peer : KvPeer S}.

(** The send loop: [n = send(fd, data + off, size - off)]. *)
Fixpoint send_loop (fuel : nat) (i : nat) (buf : bytes) (s : S) : Out unit S :=
  match buf with
  | [] => Ret tt s
  | _ =>
      match fuel with
      | O => Hang
      | Datatypes.S f =>
          let '(n, s) := peer_send i buf s in
          if n <=? 0 then Raise s else send_loop f i (drop (Z.to_nat n) buf) s
      end
  end.

(** The replies, one for each command. *)
Fixpoint read_all (n : nat) (c : Conn) : RdRes (list Resp) :=
  match n with
  | O => ROk [] c
  | Datatypes.S n' => rd_bind (read1 c) (fun r c => rd_bind (read_all n' c) (fun rs c => ROk (r :: rs) c))
  end.

(** [conn()]: the connections in turn. *)
Definition kv_index (kv : Kv S) : nat := Z.to_nat (kv_next kv mod Z.of_nat (length (kv_conns kv))).

Definition pipe (cmds : list (list bytes)) (kv : Kv S) : Out (list Resp) (Kv S) :=
  let i := kv_index kv in
  let next := u64 (kv_next kv + 1) in
  let buf := fold_left wcmd cmds [] in
  match send_loop (length buf) i buf (kv_peer kv) with
  | Hang => Hang
  | Raise s => Raise (mkKv (kv_conns kv) next s)
  | Ret _ s =>
      let '(chunks, s) := peer_recv i s in
      let c := default (mkConn [] 0 []) (kv_conns kv !! i) in
      let back c := mkKv (<[i := c]> (kv_conns kv)) next s in
      match read_all (length cmds) (mkConn (c_rbuf c) (c_rpos c) (c_in c ++ chunks)) with
      | ROk rs c => Ret rs (back c)
      | RFail c | RThrow c => Raise (back c)
      | RFuel => Hang
      end
  end.
End Pipe.

(** ** The commands

    They need of the client only [pipe]; [KvIo] is that interface. *)
Class KvIo (K : Type) := { io_pipe : list (list bytes) -> K -> Out (list Resp) K }.
#[export] Instance kv_io {S} {peer : KvPeer S} : KvIo (Kv S) := {| io_pipe := pipe |}.

(** An exception ends the caller too. *)
Definition out_bind {A A' W} (o : Out A W) (k : A -> W -> Out A' W) : Out A' W :=
  match o with Ret x w => k x w | Raise w => Raise w | Hang => Hang end.
Notation "'let*' x , w := o 'in' k" := (out_bind o (fun x w => k)) (at level 200, x name, w name, o at level 200, k at level 200) : shrt_scope.

(** What an operation returns; its state need not be computed to know. *)
Definition out_ret {A W} (o : Out A W) : option A := match o with Ret x _ => Some x | _ => None end.
Definition out_state {A W} (w : W) (o : Out A W) : W := match o with Ret _ w => w | _ => w end.
Lemma out_ret_eq {A W} (o : Out A W) x w : out_ret o = Some x -> o = Ret x (out_state w o).
Proof. destruct o; [by intros [= ->]|done..]. Qed.
Lemma out_ret_inj {A W} (x y : A) (v w : W) : Ret x v = Ret y w -> x = y /\ v = w.
Proof. by intros [= -> ->]. Qed.

Section Commands.
Context {K : Type} {io : KvIo K}.

Definition Resp0 : Resp := mkResp Ascii.zero [] 0 [].

(** [cmd]: [rs[0]] of a pipeline of one. *)
Definition cmd (args : list bytes) (kv : K) : Out Resp K :=
  let* rs, kv := io_pipe [args] kv in Ret (default Resp0 (head rs)) kv.

Definition kv_get (k : bytes) (kv : K) : Out (option bytes) K :=
  let* r, kv := cmd [B "GET"; k] kv in Ret (if r_null r then None else Some (r_str r)) kv.

Definition set_args (k v : bytes) (px_ms : Z) (nx : bool) : list bytes :=
  [B "SET"; k; v] ++ (if 0 <? px_ms then [B "PX"; to_string px_ms] else []) ++ (if nx then [B "NX"] else []).
Definition resp_ok (r : Resp) : bool := (r_kind r =c "+") && (r_str r =s B "OK").
Definition resp_one (r : Resp) : bool := (r_kind r =c ":") && (r_num r =? 1).

Definition kv_set (k v : bytes) (px_ms : Z) (nx : bool) (kv : K) : Out bool K :=
  let* r, kv := cmd (set_args k v px_ms nx) kv in Ret (resp_ok r) kv.

Definition int_of (r : Resp) : Z := if r_kind r =c ":" then r_num r else 0.
Definition kv_del (k : bytes) (kv : K) : Out Z K := let* r, kv := cmd [B "DEL"; k] kv in Ret (int_of r) kv.

Definition incrby_many (deltas : list (bytes * Z)) (kv : K) : Out unit K :=
  match deltas with
  | [] => Ret tt kv
  | _ => let* _r, kv := io_pipe (map (fun kd => [B "INCRBY"; fst kd; to_string (snd kd)]) deltas) kv in Ret tt kv
  end.

Definition kv_hget (k f : bytes) (kv : K) : Out (option bytes) K :=
  let* r, kv := cmd [B "HGET"; k; f] kv in Ret (if (r_kind r =c "$") && negb (r_null r) then Some (r_str r) else None) kv.
Definition kv_hsetnx (k f v : bytes) (kv : K) : Out bool K := let* r, kv := cmd [B "HSETNX"; k; f; v] kv in Ret (resp_one r) kv.
Definition kv_hset (k f v : bytes) (kv : K) : Out bool K := let* r, kv := cmd [B "HSET"; k; f; v] kv in Ret (r_kind r =c ":") kv.
Definition kv_hdel (k f : bytes) (kv : K) : Out Z K := let* r, kv := cmd [B "HDEL"; k; f] kv in Ret (int_of r) kv.

Definition hincrby_many (deltas : list (bytes * bytes * Z)) (kv : K) : Out unit K :=
  match deltas with
  | [] => Ret tt kv
  | _ => let* _r, kv := io_pipe (map (fun d => [B "HINCRBY"; fst (fst d); snd (fst d); to_string (snd d)]) deltas) kv in Ret tt kv
  end.

Definition flushdb (kv : K) : Out unit K := let* _r, kv := cmd [B "FLUSHDB"] kv in Ret tt kv.

(** The cursor and the items of a scan reply; [None] for any other reply. *)
Definition scan_reply (r : Resp) : option (bytes * list bytes) :=
  match r_kind r =c "*", r_arr r with
  | true, [c; items] => Some (r_str c, map r_str (r_arr items))
  | _, _ => None
  end.

(** [scan_each]: the keys handed to the callback, in order. The server ends
    the loop by the cursor 0; [Hang] after [fuel] replies. *)
Fixpoint scan_loop (fuel : nat) (cursor pat : bytes) (kv : K) : Out (list bytes) K :=
  match fuel with
  | O => Hang
  | S f =>
      let* r, kv := cmd [B "SCAN"; cursor; B "MATCH"; pat; B "COUNT"; B "500"] kv in
      match scan_reply r with
      | None => Ret [] kv
      | Some (cursor, ks) =>
          if cursor =s B "0" then Ret ks kv
          else let* l, kv := scan_loop f cursor pat kv in Ret (ks ++ l) kv
      end
  end.
Definition scan_each (fuel : nat) (pat : bytes) : K -> Out (list bytes) K := scan_loop fuel (B "0") pat.

(** Field and value alternate; a last field without a value is dropped. *)
Fixpoint pairs (l : list bytes) : list (bytes * bytes) :=
  match l with f :: v :: l => (f, v) :: pairs l | _ => [] end.

Fixpoint hscan_loop (fuel : nat) (cursor k : bytes) (kv : K) : Out (list (bytes * bytes)) K :=
  match fuel with
  | O => Hang
  | S f =>
      let* r, kv := cmd [B "HSCAN"; k; cursor; B "COUNT"; B "1000"] kv in
      match scan_reply r with
      | None => Ret [] kv
      | Some (cursor, items) =>
          if cursor =s B "0" then Ret (pairs items) kv
          else let* l, kv := hscan_loop f cursor k kv in Ret (pairs items ++ l) kv
      end
  end.
Definition hscan_each (fuel : nat) (k : bytes) : K -> Out (list (bytes * bytes)) K := hscan_loop fuel (B "0") k.
End Commands.
