(* ===== verification/KvFacts.v ===== *)
(** * The RESP reader on a stream of bytes

    Whatever pieces [recv] returns, the reader sees one stream: the bytes of
    the buffer followed by those of the chunks. *)

From S2P Require Import Prelude CLib Common Aof App Kv.

(** The stream, and connections whose chunks are not empty. *)
Definition rest (c : Conn) : bytes := drop (c_rpos c) (c_rbuf c) ++ concat (c_in c).
Definition live_conn (c : Conn) : Prop := (c_rpos c <= length (c_rbuf c))%nat /\ Forall (fun ch => ch ≠ []) (c_in c).

Lemma rest_avail c : length (rest c) = avail c.
Proof. unfold rest, avail. apply length_app. Qed.

(** A successful [fill] moves a chunk into the buffer. *)
Lemma fill_spec c ch cs : live_conn c -> c_in c = ch :: cs ->
  exists c', fill c = (true, c') /\ live_conn c' /\ rest c' = rest c /\ c_in c' = cs /\
    drop (c_rpos c') (c_rbuf c') = drop (c_rpos c) (c_rbuf c) ++ ch.
Proof.
  intros [Hp Hc] E. unfold fill. rewrite E in Hc. apply Forall_cons in Hc as [Hne Hcs].
  set (c1 := if decide _ then _ else c).
  assert (H1 : (c_rpos c1 <= length (c_rbuf c1))%nat /\ drop (c_rpos c1) (c_rbuf c1) = drop (c_rpos c) (c_rbuf c) /\ c_in c1 = ch :: cs).
  { unfold c1. case_decide as Ed; [|done]. cbn [c_rpos c_rbuf c_in]. split; [lia|]. split; [|done]. by rewrite Ed, drop_all. }
  destruct H1 as (H1 & H2 & H3). rewrite H3. destruct ch as [|b ch]; [done|].
  eexists. split; [reflexivity|]. cbn [c_rpos c_rbuf c_in]. rewrite <- H2. unfold rest, live_conn. cbn [c_rpos c_rbuf c_in].
  rewrite E, drop_app_le by done. split_and!; try done; [rewrite length_app; lia|].
  cbn [concat]. by rewrite <- app_assoc, H2.
Qed.

Lemma fill_false c c' : fill c = (false, c') -> avail c' = avail c.
Proof.
  unfold fill. set (c1 := if decide _ then _ else c). assert (H : avail c1 = avail c).
  { unfold c1. case_decide as Ed; [|done]. unfold avail. cbn [c_rpos c_rbuf c_in]. by rewrite Ed, drop_all. }
  destruct (c_in c1) as [|[|b ch] cs] eqn:E; intros [= <-]; [done|]. rewrite <- H. unfold avail.
  cbn [c_rpos c_rbuf c_in]. by rewrite E.
Qed.

(** A step of the loops: with bytes in sight the buffer gets some. *)
Lemma rest_in c : live_conn c -> drop (c_rpos c) (c_rbuf c) = [] -> rest c ≠ [] -> exists ch cs, c_in c = ch :: cs.
Proof. intros _ Hd Hr. unfold rest in Hr. rewrite Hd in Hr. destruct (c_in c) as [|ch cs]; [done|]. by exists ch, cs. Qed.

Lemma lookup_drop_cons {A} (l : list A) i x r : drop i l = x :: r -> l !! i = Some x /\ drop (S i) l = r /\ (i < length l)%nat.
Proof.
  intros H. assert (l !! i = Some x) as Hx by (rewrite <- (Nat.add_0_r i), <- lookup_drop, H; done).
  split; [done|]. split; [|by eapply lookup_lt_Some]. replace (S i) with (i + 1)%nat by lia. by rewrite <- drop_drop, H.
Qed.

Lemma byte_spec c b r : live_conn c -> rest c = b :: r ->
  exists c', byte c = ROk b c' /\ live_conn c' /\ rest c' = r.
Proof.
  unfold byte. intros Hl Hr. assert (Hn : (turns c <= turns c)%nat) by done. revert Hn. generalize (turns c) at 2 3. intros n.
  revert c Hl Hr. induction n as [|n IH]; intros c Hl Hr Hn; [unfold turns in Hn; lia|]. cbn [byte_loop].
  destruct (drop (c_rpos c) (c_rbuf c)) as [|b' d] eqn:Ed.
  - assert (c_rbuf c !! c_rpos c = None) as ->.
    { apply lookup_ge_None_2. apply (f_equal length) in Ed. rewrite length_drop in Ed. simpl in Ed. lia. }
    destruct (rest_in c Hl Ed ltac:(by rewrite Hr)) as (ch & cs & Ein).
    destruct (fill_spec c ch cs Hl Ein) as (c' & -> & Hl' & Hr' & Hin & _). apply IH; [done|by rewrite Hr'|].
    unfold turns in *. rewrite Hin. rewrite Ein in Hn. simpl in Hn. lia.
  - destruct (lookup_drop_cons _ _ _ _ Ed) as (Hx & Hd & Hlt). unfold rest in Hr. rewrite Ed in Hr. injection Hr as -> Hr.
    rewrite Hx. eexists. split; [reflexivity|]. split; [split; [cbn; lia|apply Hl]|]. unfold rest. cbn [c_rpos c_rbuf c_in].
    by rewrite Hd.
Qed.

Lemma line_spec c l r : live_conn c -> rest c = l ++ CRLF ++ r -> find_sub CRLF (l ++ CRLF ++ r) = Some (length l) ->
  exists c', line c = ROk l c' /\ live_conn c' /\ rest c' = r.
Proof.
  unfold line. intros Hl Hr Hf. assert (Hn : (turns c <= turns c)%nat) by done. revert Hn. generalize (turns c) at 2 3. intros n.
  revert c Hl Hr. induction n as [|n IH]; intros c Hl Hr Hn; [unfold turns in Hn; lia|]. cbn [line_loop].
  destruct (find_sub CRLF (drop (c_rpos c) (c_rbuf c))) as [p|] eqn:Ep.
  - pose proof (find_sub_app _ _ (concat (c_in c)) _ Ep) as Ea. fold (rest c) in Ea. rewrite Hr, Hf in Ea. injection Ea as <-.
    pose proof (find_sub_bound _ _ _ Ep) as Hb. change (length CRLF) with 2%nat in Hb. rewrite length_drop in Hb.
    assert (Ht : take (length l + 2) (rest c) = take (length l + 2) (drop (c_rpos c) (c_rbuf c)))
      by (unfold rest; rewrite take_app_le; [done|rewrite length_drop; lia]).
    assert (Hl2 : take (length l) (drop (c_rpos c) (c_rbuf c)) = l).
    { apply (f_equal (take (length l))) in Ht. rewrite !take_take, Nat.min_l in Ht by lia. rewrite <- Ht, Hr.
      by rewrite take_app_length. }
    rewrite Hl2. eexists. split; [reflexivity|]. split; [split; [cbn; lia|apply Hl]|].
    unfold rest in *. cbn [c_rpos c_rbuf c_in]. rewrite <- Nat.add_assoc, <- drop_drop.
    apply (f_equal (drop (length l + 2))) in Hr. rewrite drop_app_le in Hr by (rewrite length_drop; lia). rewrite Hr.
    rewrite app_assoc. replace (length l + 2)%nat with (length (l ++ CRLF)) by (rewrite length_app; done). apply drop_app_length.
  - destruct (c_in c) as [|ch cs] eqn:Ein.
    { unfold rest in Hr. rewrite Ein in Hr. cbn [concat] in Hr. rewrite app_nil_r in Hr. rewrite Hr in Ep. congruence. }
    destruct (fill_spec c ch cs Hl Ein) as (c' & -> & Hl' & Hr' & Hin & _). apply IH; [done|by rewrite Hr'|].
    unfold turns in *. rewrite Hin. rewrite Ein in Hn. simpl in Hn. lia.
Qed.

(** [exact] takes what is asked for, over any number of chunks. *)
Lemma exact_loop_spec n : forall c d r acc, live_conn c -> rest c = d ++ r ->
  (1 <= n)%nat -> (d ≠ [] -> 2 * length (c_in c) + (if decide (drop (c_rpos c) (c_rbuf c) = []) then 0 else 1) + 1 <= n)%nat ->
  exists c', exact_loop n (Z.of_nat (length d)) acc c = ROk (acc ++ d) c' /\ live_conn c' /\ rest c' = r.
Proof.
  induction n as [|n IH]; intros c d r acc Hl Hr Hn1 Hn; [lia|]. cbn [exact_loop].
  destruct d as [|b d]; [eexists; by rewrite app_nil_r|]. specialize (Hn ltac:(done)). set (left := Z.of_nat (length (b :: d))).
  assert (Hleft : 0 < left) by (unfold left; simpl; lia). rewrite (proj2 (Z.leb_gt _ _)) by done. cbv zeta.
  rewrite <- length_drop. set (buf := drop (c_rpos c) (c_rbuf c)) in *.
  destruct (Nat.ltb_spec 0 (length buf)) as [Hb|Hb].
  - set (k := Z.to_nat (Z.min (Z.of_nat (length buf)) left)).
    assert (Hk : (k <= length buf)%nat /\ (k <= length (b :: d))%nat /\ (0 < k)%nat) by (unfold k, left in *; lia).
    assert (Htk : take k buf = take k (b :: d)).
    { unfold rest in Hr. fold buf in Hr. apply (f_equal (take k)) in Hr. rewrite !take_app_le in Hr by lia. done. }
    rewrite Htk. set (c1 := mkConn _ _ _).
    assert (Hd1 : drop (c_rpos c1) (c_rbuf c1) = drop k buf) by (unfold c1, buf; cbn; by rewrite drop_drop).
    replace (left - Z.of_nat k) with (Z.of_nat (length (drop k (b :: d)))) by (rewrite length_drop; unfold left; lia).
    rewrite decide_False in Hn by (intros E; rewrite E in Hb; simpl in Hb; lia).
    destruct (IH c1 (drop k (b :: d)) r (acc ++ take k (b :: d))) as (c' & -> & Hl' & Hr').
    + split; [|apply Hl]. unfold c1. cbn [c_rpos c_rbuf]. unfold buf in Hk. rewrite length_drop in Hk. lia.
    + unfold rest in *. rewrite Hd1. fold buf in Hr. change (c_in c1) with (c_in c).
      apply (f_equal (drop k)) in Hr. by rewrite !drop_app_le in Hr by lia.
    + lia.
    + intros Hne. rewrite Hd1. change (c_in c1) with (c_in c). rewrite decide_True; [lia|].
      assert (k ≠ length (b :: d)) by (intros E; apply Hne; rewrite E; apply drop_all).
      apply drop_ge. unfold k, left in *. lia.
    + exists c'. split; [|done]. by rewrite <- app_assoc, take_drop.
  - assert (Hbn : buf = []) by (destruct buf; [done|simpl in Hb; lia]).
    destruct (rest_in c Hl Hbn ltac:(by rewrite Hr)) as (ch & cs & Ein).
    destruct (fill_spec c ch cs Hl Ein) as (c1 & -> & Hl1 & Hr1 & Hin & Hd1). fold buf in Hd1. rewrite Hbn in Hd1.
    rewrite decide_True, Ein in Hn by done. cbn [length] in Hn.
    apply (IH c1 (b :: d) r acc Hl1); [by rewrite Hr1|lia|]. intros _. rewrite Hin. case_decide; lia.
Qed.

Lemma exact_spec c d r : live_conn c -> rest c = d ++ r ->
  exists c', exact (Z.of_nat (length d)) c = ROk d c' /\ live_conn c' /\ rest c' = r.
Proof.
  intros Hl Hr. unfold exact. apply (exact_loop_spec _ c d r [] Hl Hr); [lia|]. intros _. unfold turns. case_decide; lia.
Qed.

(** ** Replies on the wire *)

(** How a server writes a reply. *)
Fixpoint resp_encode (r : Resp) : bytes :=
  let '(mkResp k s n a) := r in
  if (k =c "+") || (k =c "-") then k :: s ++ CRLF
  else if (k =c "$") && (0 <=? n) then k :: to_string n ++ CRLF ++ s ++ CRLF
  else if (k =c "*") && (0 <=? n) then k :: to_string n ++ CRLF ++ concat (map resp_encode a)
  else k :: to_string n ++ CRLF.

(** The replies of the protocol: lines without a line break, 64-bit numbers,
    null values, strings of any bytes, arrays. *)
Inductive resp_wf : Resp -> Prop :=
| wf_line k s : k = "+"%char \/ k = "-"%char -> CR ∉ s -> resp_wf (mkResp k s 0 [])
| wf_int n : in_i64 n -> resp_wf (mkResp ":" [] n [])
| wf_null k n : k = "$"%char \/ k = "*"%char -> in_i64 n -> n < 0 -> resp_wf (mkResp k [] n [])
| wf_bulk s : in_i64 (Z.of_nat (length s)) -> resp_wf (mkResp "$" s (Z.of_nat (length s)) [])
| wf_arr a : in_i64 (Z.of_nat (length a)) -> Forall resp_wf a -> resp_wf (mkResp "*" [] (Z.of_nat (length a)) a).

Lemma number_no_cr z : CR ∉ to_string z.
Proof. intros H. pose proof (to_string_chars z) as Hc. rewrite Forall_forall in Hc. by specialize (Hc _ H). Qed.

Lemma number_spec c z r : live_conn c -> in_i64 z -> rest c = to_string z ++ CRLF ++ r ->
  exists c', number c = ROk z c' /\ live_conn c' /\ rest c' = r.
Proof.
  intros Hl Hz Hr. destruct (line_spec c (to_string z) r Hl Hr) as (c' & Hc & Hl' & Hr').
  { apply (find_sub_first CR [LF]). apply number_no_cr. }
  exists c'. unfold number. rewrite Hc. cbn [rd_bind]. by rewrite stoll_to_string.
Qed.

(** A null value or a negative length is a number and nothing more. *)
Lemma read_null n c k z x : live_conn c -> k = "$"%char \/ k = "*"%char -> in_i64 z -> z < 0 ->
  rest c = k :: to_string z ++ CRLF ++ x ->
  exists c', read_resp (S n) c = ROk (mkResp k [] z []) c' /\ live_conn c' /\ rest c' = x.
Proof.
  intros Hl Hk Hz Hneg Hr. destruct (byte_spec c k _ Hl Hr) as (c1 & Hb & Hl1 & Hr1).
  destruct (number_spec c1 z x Hl1 Hz Hr1) as (c2 & Hn & Hl2 & Hr2). exists c2. split; [|done].
  cbn [read_resp]. rewrite Hb. destruct Hk as [-> | ->]; simpl; rewrite Hn; cbn [rd_bind]; simpl; rewrite (proj2 (Z.ltb_lt _ _) Hneg); done.
Qed.

Lemma read_encoded n :
  (forall r c x, resp_wf r -> live_conn c -> rest c = resp_encode r ++ x -> (2 * length (resp_encode r) + 1 <= n)%nat ->
     exists c', read_resp n c = ROk r c' /\ live_conn c' /\ rest c' = x) /\
  (forall l c x, Forall resp_wf l -> live_conn c -> rest c = concat (map resp_encode l) ++ x ->
     (2 * length (concat (map resp_encode l)) + 2 <= n)%nat ->
     exists c', read_arr n (Z.of_nat (length l)) c = ROk l c' /\ live_conn c' /\ rest c' = x).
Proof.
  induction n as [|n [IHr IHl]]; [split; intros; lia|]. split.
  - intros r c x Hw Hl Hr Hn. destruct Hw as [k s Hk Hs|z Hz|k z Hk Hz Hneg|s Hs|a Ha Hwf].
    + assert (Hr' : rest c = k :: s ++ CRLF ++ x) by (rewrite Hr; destruct Hk as [-> | ->]; simpl; by rewrite <- app_assoc).
      destruct (byte_spec c k _ Hl Hr') as (c1 & Hb & Hl1 & Hr1).
      destruct (line_spec c1 s x Hl1 Hr1) as (c2 & Hc & Hl2 & Hr2); [by apply (find_sub_first CR [LF])|].
      exists c2. split; [|done]. cbn [read_resp]. rewrite Hb. destruct Hk as [-> | ->]; simpl; by rewrite Hc.
    + assert (Hr' : rest c = ":"%char :: to_string z ++ CRLF ++ x) by (rewrite Hr; simpl; by rewrite <- app_assoc).
      destruct (byte_spec c _ _ Hl Hr') as (c1 & Hb & Hl1 & Hr1).
      destruct (number_spec c1 z x Hl1 Hz Hr1) as (c2 & Hc & Hl2 & Hr2).
      exists c2. split; [|done]. cbn [read_resp]. rewrite Hb. simpl. by rewrite Hc.
    + apply (read_null n c k z x Hl Hk Hz Hneg). rewrite Hr. assert (E : (0 <=? z) = false) by (apply Z.leb_gt; lia).
      destruct Hk as [-> | ->]; cbn [resp_encode]; rewrite E; simpl; by rewrite <- app_assoc.
    + set (z := Z.of_nat (length s)) in *. assert (E : (0 <=? z) = true) by (apply Z.leb_le; unfold z; lia).
      assert (Hr' : rest c = "$"%char :: to_string z ++ CRLF ++ (s ++ CRLF) ++ x).
      { rewrite Hr. cbn [resp_encode]. rewrite E. cbn [Ascii.eqb Bool.eqb andb orb app]. by rewrite <- !app_assoc. }
      destruct (byte_spec c _ _ Hl Hr') as (c1 & Hb & Hl1 & Hr1).
      destruct (number_spec c1 z _ Hl1 Hs Hr1) as (c2 & Hc & Hl2 & Hr2).
      destruct (exact_spec c2 (s ++ CRLF) x Hl2 Hr2) as (c3 & He & Hl3 & Hr3).
      exists c3. split; [|done]. cbn [read_resp]. rewrite Hb. simpl. rewrite Hc. simpl.
      rewrite (proj2 (Z.ltb_ge z 0)) by (unfold z; lia).
      replace (z + 2) with (Z.of_nat (length (s ++ CRLF))) by (rewrite length_app; unfold z; change (length CRLF) with 2%nat; lia).
      rewrite He. cbn [rd_bind]. unfold z. by rewrite Nat2Z.id, take_app_length.
    + set (z := Z.of_nat (length a)) in *. assert (E : (0 <=? z) = true) by (apply Z.leb_le; unfold z; lia).
      assert (Henc : resp_encode (mkResp "*" [] z a) = "*"%char :: to_string z ++ CRLF ++ concat (map resp_encode a))
        by (cbn [resp_encode]; by rewrite E).
      assert (Hr' : rest c = "*"%char :: to_string z ++ CRLF ++ concat (map resp_encode a) ++ x).
      { rewrite Hr, Henc. cbn [app]. by rewrite <- !app_assoc. }
      destruct (byte_spec c _ _ Hl Hr') as (c1 & Hb & Hl1 & Hr1).
      destruct (number_spec c1 z _ Hl1 Ha Hr1) as (c2 & Hc & Hl2 & Hr2).
      destruct (IHl a c2 x Hwf Hl2 Hr2) as (c3 & He & Hl3 & Hr3).
      { rewrite Henc in Hn. cbn [length] in Hn. rewrite !length_app in Hn. lia. }
      exists c3. split; [|done]. cbn [read_resp]. rewrite Hb. simpl. rewrite Hc. simpl.
      rewrite (proj2 (Z.ltb_ge z 0)) by (unfold z; lia). fold z in He. by rewrite He.
  - intros l c x Hw Hl Hr Hn. cbn [read_arr]. destruct Hw as [|r l Hwr Hwl].
    + by exists c.
    + cbn [map concat] in Hr, Hn. rewrite <- app_assoc in Hr. rewrite length_app in Hn.
      rewrite (proj2 (Z.leb_gt _ _)) by (simpl; lia).
      assert (Hpos : (0 < length (resp_encode r))%nat) by (destruct r as [k s z a]; cbn [resp_encode]; repeat case_if; simpl; lia).
      destruct (IHr r c _ Hwr Hl Hr ltac:(lia)) as (c1 & -> & Hl1 & Hr1).
      destruct (IHl l c1 x Hwl Hl1 Hr1 ltac:(lia)) as (c2 & He & Hl2 & Hr2).
      exists c2. split; [|done]. cbn [rd_bind]. replace (Z.of_nat (length (r :: l)) - 1) with (Z.of_nat (length l)) by (simpl; lia).
      by rewrite He.
Qed.

Lemma read1_encoded r c x : resp_wf r -> live_conn c -> rest c = resp_encode r ++ x ->
  exists c', read1 c = ROk r c' /\ live_conn c' /\ rest c' = x.
Proof.
  intros Hw Hl Hr. unfold read1. apply (proj1 (read_encoded (resp_fuel c))); [done..|].
  unfold resp_fuel. rewrite <- rest_avail, Hr, length_app. lia.
Qed.

Lemma read_all_encoded rs : forall c x, Forall resp_wf rs -> live_conn c -> rest c = concat (map resp_encode rs) ++ x ->
  exists c', read_all (length rs) c = ROk rs c' /\ live_conn c' /\ rest c' = x.
Proof.
  induction rs as [|r rs IH]; intros c x Hw Hl Hr; cbn [length read_all]; [by exists c|].
  apply Forall_cons in Hw as [Hwr Hws]. cbn [map concat] in Hr. rewrite <- app_assoc in Hr.
  destruct (read1_encoded r c _ Hwr Hl Hr) as (c1 & -> & Hl1 & Hr1). cbn [rd_bind].
  destruct (IH c1 x Hws Hl1 Hr1) as (c2 & -> & Hl2 & Hr2). by exists c2.
Qed.
