(* ===== verification/KvClaims.v ===== *)
(** * What the RESP client promises *)

From S2P Require Import Prelude CLib Common Aof App Kv KvFacts.

(** ** Commands on the wire *)
Definition bulk (a : bytes) : Resp := mkResp "$" a (Z.of_nat (length a)) [].
Definition cmd_resp (args : list bytes) : Resp := mkResp "*" [] (Z.of_nat (length args)) (map bulk args).

Lemma bulk_encode a : resp_encode (bulk a) = B "$" ++ to_string (Z.of_nat (length a)) ++ CRLF ++ a ++ CRLF.
Proof. unfold bulk. cbn [resp_encode]. rewrite (proj2 (Z.leb_le 0 _)) by lia. done. Qed.

Lemma wcmd_encode b args : wcmd b args = b ++ resp_encode (cmd_resp args).
Proof.
  unfold wcmd, cmd_resp. cbn [resp_encode]. rewrite (proj2 (Z.leb_le 0 _)) by lia. cbn [Ascii.eqb Bool.eqb andb orb].
  assert (H : forall l b, fold_left warg l b = b ++ concat (map resp_encode (map bulk l))).
  { induction l as [|a l IH]; intros b0; cbn [fold_left map concat]; [by rewrite app_nil_r|].
    rewrite IH. unfold warg. rewrite <- bulk_encode. by rewrite <- app_assoc. }
  rewrite H. rewrite <- !app_assoc. done.
Qed.

Lemma wcmds_encode cmds : fold_left wcmd cmds [] = concat (map resp_encode (map cmd_resp cmds)).
Proof.
  assert (H : forall l b, fold_left wcmd l b = b ++ concat (map resp_encode (map cmd_resp l))); [|by rewrite H].
  induction l as [|a l IH]; intros b; cbn [fold_left map concat]; [by rewrite app_nil_r|].
  by rewrite IH, wcmd_encode, <- app_assoc.
Qed.

Definition small_args (args : list bytes) : Prop :=
  in_i64 (Z.of_nat (length args)) /\ Forall (fun a => in_i64 (Z.of_nat (length a))) args.

Lemma cmd_resp_wf args : small_args args -> resp_wf (cmd_resp args).
Proof.
  intros [Hn Ha]. unfold cmd_resp. rewrite <- (length_map bulk args) at 1. apply wf_arr; [by rewrite length_map|].
  apply Forall_map. eapply Forall_impl; [exact Ha|]. intros a H. by apply wf_bulk.
Qed.

(** Replies are read as they were written: whatever pieces [recv] hands
    over, and whatever follows, [read_resp] gives back every reply of the
    protocol, nested arrays and strings of any bytes included, and leaves
    the stream right behind it. *)
Theorem reply_read_back r c x :
  resp_wf r -> live_conn c -> rest c = resp_encode r ++ x ->
  exists c', read1 c = ROk r c' /\ live_conn c' /\ rest c' = x.
Proof. apply read1_encoded. Qed.

(** What the client writes is what it means: the bytes of a pipeline are
    read, by the same protocol, as exactly its commands, each an array of
    its arguments, of any bytes. *)
Theorem commands_read_back cmds c x :
  Forall small_args cmds -> live_conn c -> rest c = fold_left wcmd cmds [] ++ x ->
  exists c', read_all (length cmds) c = ROk (map cmd_resp cmds) c' /\ live_conn c' /\ rest c' = x.
Proof.
  intros Hs Hl Hr. rewrite wcmds_encode in Hr. rewrite <- (length_map cmd_resp cmds). apply read_all_encoded; [|done..].
  apply Forall_map. eapply Forall_impl; [exact Hs|]. apply cmd_resp_wf.
Qed.

(** ** The reader always ends *)

(** A [fill] that succeeds takes a chunk and loses no byte. *)
Lemma fill_takes c : let '(ok, c') := fill c in
  (avail c' <= avail c)%nat /\ (ok = true -> S (length (c_in c')) = length (c_in c)).
Proof.
  unfold fill. set (c1 := if decide _ then _ else c). assert (H : avail c1 = avail c /\ c_in c1 = c_in c).
  { unfold c1. case_decide as Ed; [|done]. unfold avail. cbn [c_rpos c_rbuf c_in]. by rewrite Ed, drop_all. }
  destruct H as [<- <-]. destruct (c_in c1) as [|[|b ch] cs] eqn:E; [done|..]; unfold avail; cbn [c_rpos c_rbuf c_in]; rewrite E; [done|].
  cbn [concat]. rewrite !length_drop, !length_app. split; [lia|done].
Qed.

(** What the parts of the reader do to the stream: they end, and a value
    takes at least [d] bytes of it. *)
Definition ended {A} (d : nat) (c : Conn) (r : RdRes A) : Prop :=
  match r with
  | ROk _ c' => (avail c' + d <= avail c)%nat
  | RFail c' | RThrow c' => (avail c' <= avail c)%nat
  | RFuel => False
  end.

Lemma ended_bind {A B} d e c (r : RdRes A) (k : A -> Conn -> RdRes B) : ended d c r ->
  (forall a c', (avail c' + d <= avail c)%nat -> ended e c' (k a c')) -> ended (d + e) c (rd_bind r k).
Proof.
  destruct r as [a c'|c'|c'|]; simpl; try done. intros H Hk. specialize (Hk a c' H).
  destruct (k a c'); simpl in *; try done; lia.
Qed.

Lemma ended_weaken {A} d e c c' (r : RdRes A) : ended e c' r -> (d <= e)%nat -> (avail c' <= avail c)%nat -> ended d c r.
Proof. destruct r; simpl; try done; lia. Qed.

Lemma byte_ends c : ended 1 c (byte c).
Proof.
  unfold byte. assert (Hn : (turns c <= turns c)%nat) by done. revert Hn. generalize (turns c) at 2 3. intros n.
  revert c. induction n as [|n IH]; intros c Hn; [unfold turns in Hn; lia|]. cbn [byte_loop].
  destruct (c_rbuf c !! c_rpos c) as [b|] eqn:E.
  - apply lookup_lt_Some in E. simpl. unfold avail. cbn [c_rpos c_rbuf c_in]. rewrite !length_drop. lia.
  - pose proof (fill_takes c) as Hf. destruct (fill c) as [[] c1]; [|apply Hf]. destruct Hf as [Hf Ht]. specialize (Ht eq_refl).
    apply (ended_weaken 1 1 c c1); [|done..]. apply IH. unfold turns in *. lia.
Qed.

Lemma line_ends c : ended 0 c (line c).
Proof.
  unfold line. assert (Hn : (turns c <= turns c)%nat) by done. revert Hn. generalize (turns c) at 2 3. intros n.
  revert c. induction n as [|n IH]; intros c Hn; [unfold turns in Hn; lia|]. cbn [line_loop]. destruct (find_sub _ _) as [p|].
  - simpl. unfold avail. cbn [c_rpos c_rbuf c_in]. rewrite !length_drop. lia.
  - pose proof (fill_takes c) as Hf. destruct (fill c) as [[] c1]; [|apply Hf]. destruct Hf as [Hf Ht]. specialize (Ht eq_refl).
    apply (ended_weaken 0 0 c c1); [|done..]. apply IH. unfold turns in *. lia.
Qed.

(** Two turns for a chunk: one brings it, one takes from it. *)
Lemma exact_loop_ends n : forall left acc c, (1 <= n)%nat ->
  ((0 < left)%Z -> 2 * length (c_in c) + (if decide (c_rpos c < length (c_rbuf c))%nat then 1 else 0) + 2 <= n)%nat ->
  ended 0 c (exact_loop n left acc c).
Proof.
  induction n as [|n IH]; intros left acc c H1 Hn; [lia|]. cbn [exact_loop].
  destruct (Z.leb_spec left 0) as [?|Hl]; [simpl; lia|]. specialize (Hn Hl). cbv zeta. destruct (Nat.ltb_spec 0 (length (c_rbuf c) - c_rpos c)) as [Hb|Hb].
  - rewrite decide_True in Hn by lia. set (k := Z.to_nat _). set (c1 := mkConn _ _ _).
    apply (ended_weaken 0 0 c c1); [|done|unfold c1, avail; cbn [c_rpos c_rbuf c_in]; rewrite !length_drop; lia].
    apply IH; [lia|]. intros Hl'. unfold c1. cbn [c_rpos c_rbuf c_in]. rewrite decide_False by (unfold k in *; lia). lia.
  - rewrite decide_False in Hn by lia. pose proof (fill_takes c) as Hf. destruct (fill c) as [[] c1]; [|apply Hf].
    destruct Hf as [Hf Ht]. specialize (Ht eq_refl). apply (ended_weaken 0 0 c c1); [|done..]. apply IH; [lia|]. intros _. case_decide; lia.
Qed.

Lemma exact_ends left c : ended 0 c (exact left c).
Proof. apply exact_loop_ends; unfold turns; [lia|]. intros _. case_decide; lia. Qed.

Lemma number_ends c : ended 0 c (number c).
Proof. apply (ended_bind 0 0); [apply line_ends|]. intros l c' _. destruct (stoll l); simpl; lia. Qed.

Lemma read_ends n :
  (forall c, (2 * avail c + 1 <= n)%nat -> ended 1 c (read_resp n c)) /\
  (forall k c, (2 * avail c + 2 <= n)%nat -> ended 0 c (read_arr n k c)).
Proof.
  induction n as [|n [IHr IHa]]; [split; intros; lia|]. split.
  - intros c Hn. cbn [read_resp]. apply (ended_bind 1 0); [apply byte_ends|]. intros k c1 H1.
    destruct ((k =c "+") || (k =c "-")).
    { apply (ended_bind 0 0); [apply line_ends|]. intros l c2 _. simpl. lia. }
    destruct ((k =c ":") || (k =c "$") || (k =c "*")); [|simpl; lia].
    apply (ended_bind 0 0); [apply number_ends|]. intros z c2 H2. repeat (case_if; [simpl; lia|]). case_if.
    + apply (ended_bind 0 0); [apply exact_ends|]. intros d c3 _. simpl. lia.
    + apply (ended_bind 0 0); [apply IHa; lia|]. intros l c3 _. simpl. lia.
  - intros k c Hn. cbn [read_arr]. case_if; [simpl; lia|]. apply (ended_weaken 0 1 c c); [|lia..].
    apply (ended_bind 1 0); [apply IHr; lia|]. intros r c1 H1. apply (ended_bind 0 0); [apply IHa; lia|]. intros l c2 _. simpl. lia.
Qed.

Lemma read1_ends c : ended 1 c (read1 c).
Proof. apply (proj1 (read_ends (resp_fuel c))). done. Qed.

Lemma read_all_ends n : forall c, ended n c (read_all n c).
Proof.
  induction n as [|n IH]; intros c; cbn [read_all]; [simpl; lia|]. apply (ended_bind 1 n); [apply read1_ends|]. intros r c1 _.
  replace n with (n + 0)%nat at 1 by lia. apply (ended_bind n 0); [apply IH|]. intros rs c2 _. simpl. lia.
Qed.

(** ** A pipeline *)
Section Pipe.
Context {S : Type} {peer : KvPeer S}.

(** The connection a pipeline uses next, with nothing left over from before. *)
Definition clean_conn (c : Conn) : Prop := live_conn c /\ rest c = [].

Lemma live_app c chunks : live_conn c -> Forall (fun ch => ch ≠ []) chunks ->
  let c' := mkConn (c_rbuf c) (c_rpos c) (c_in c ++ chunks) in live_conn c' /\ rest c' = rest c ++ concat chunks.
Proof.
  intros [Hp Hc] Hch. split; [split; [done|by apply Forall_app]|]. unfold rest. cbn [c_rpos c_rbuf c_in].
  by rewrite concat_app, app_assoc.
Qed.

(** Every turn of the send loop sends a byte. *)
Lemma send_loop_ends fuel : forall i buf s, (length buf <= fuel)%nat -> send_loop fuel i buf s ≠ Hang.
Proof.
  induction fuel as [|fuel IH]; intros i [|b buf] s Hn; cbn [send_loop length] in *; [done|lia|done|].
  destruct (peer_send i (b :: buf) s) as [n s1]. destruct (Z.leb_spec n 0); [done|]. apply IH. rewrite length_drop. simpl. lia.
Qed.

(** C40 The reader ends on every input, malformed and hostile ones included.
    The loops that wait for a byte, a line or a number of bytes and the
    recursion over the elements of an array all end, with a reply, [false]
    or an exception of [stoll]: [RFuel], which every one of them returns
    when its turns are used up, never comes out. A reply takes at least one
    byte of the stream. So a pipeline, its send loop included, returns or
    raises whatever the server sends, and however little a [send] takes. *)
Theorem reader_ends :
  (forall c, match read1 c with
     | ROk _ c' => (avail c' < avail c)%nat
     | RFail c' | RThrow c' => (avail c' <= avail c)%nat
     | RFuel => False
     end) /\
  (forall cmds (kv : Kv S), pipe cmds kv ≠ Hang).
Proof.
  split.
  - intros c. pose proof (read1_ends c) as H. destruct (read1 c); simpl in H; try done; lia.
  - intros cmds kv. unfold pipe. destruct (send_loop _ _ _ _) as [u s|s|] eqn:E; [|done|by apply send_loop_ends in E].
    destruct (peer_recv _ s) as [chunks s2]. cbv zeta. set (c := mkConn _ _ _).
    pose proof (read_all_ends (length cmds) c) as H. by destruct (read_all (length cmds) c).
Qed.

(** C39 A pipeline returns exactly the server's replies, in the order of the
    commands: if everything is sent and the answer, in whatever pieces it
    comes, is one well-formed reply for each command, then these are the
    replies of [pipe]; the connection is clean again, the others are
    untouched and the next one is in turn. *)
Theorem pipe_returns_replies cmds rs (kv : Kv S) c0 s1 s2 chunks :
  kv_conns kv !! kv_index kv = Some c0 -> clean_conn c0 ->
  send_loop (length (fold_left wcmd cmds [])) (kv_index kv) (fold_left wcmd cmds []) (kv_peer kv) = Ret tt s1 ->
  peer_recv (kv_index kv) s1 = (chunks, s2) -> Forall (fun ch => ch ≠ []) chunks ->
  length rs = length cmds -> Forall resp_wf rs -> concat chunks = concat (map resp_encode rs) ->
  exists c1, clean_conn c1 /\
    pipe cmds kv = Ret rs (mkKv (<[kv_index kv := c1]> (kv_conns kv)) (u64 (kv_next kv + 1)) s2).
Proof.
  intros Hc0 [Hl Hr] Hs Hp Hch Hlen Hw Hcat. unfold pipe. rewrite Hs, Hp, Hc0. cbn [default from_option id].
  destruct (live_app c0 chunks Hl Hch) as [Hl1 Hr1]. rewrite Hr, Hcat in Hr1. cbn [app] in Hr1.
  rewrite <- (app_nil_r (concat _)) in Hr1. destruct (read_all_encoded rs _ [] Hw Hl1 Hr1) as (c1 & Hra & Hl2 & Hr2).
  exists c1. split; [done|]. rewrite <- Hlen. by rewrite Hra.
Qed.
End Pipe.

(** ** The witnesses *)
Definition demo_conn : Conn := mkConn (B "xx") 2 [B "*2"; CRLF ++ B "$3" ++ [CR]; [LF] ++ B "a|"; B "b" ++ CRLF ++ B ":-7"; CRLF ++ B "+OK"].
Definition demo_reply : Resp := mkResp "*" [] 2 [bulk (B "a|b"); mkResp ":" [] (-7) []].
Lemma demo_reply_wf : resp_wf demo_reply.
Proof.
  apply (wf_arr [bulk (B "a|b"); mkResp ":" [] (-7) []]); [unfold in_i64; simpl; lia|].
  repeat constructor; unfold in_i64; simpl; lia.
Qed.
Lemma demo_conn_live : live_conn demo_conn.
Proof. split; [simpl; lia|]. repeat constructor; discriminate. Qed.

Lemma reply_read_back_witness : exists c', read1 demo_conn = ROk demo_reply c' /\ rest c' = B "+OK".
Proof.
  destruct (reply_read_back demo_reply demo_conn (B "+OK") demo_reply_wf demo_conn_live eq_refl) as (c' & H1 & _ & H2).
  exists c'. split; [exact H1|exact H2].
Defined.

Definition demo_cmds : list (list bytes) := [[B "GET"; B "l:x"]; [B "SET"; B "l:y"; CRLF ++ B "$"; B "NX"]].
Lemma demo_cmds_small : Forall small_args demo_cmds.
Proof. repeat constructor; unfold in_i64; simpl; lia. Qed.
Definition demo_cmd_conn : Conn := mkConn [] 0 [fold_left wcmd demo_cmds []].
Lemma demo_cmd_live : live_conn demo_cmd_conn.
Proof. split; [simpl; lia|]. repeat constructor. discriminate. Qed.
Lemma demo_cmd_rest : rest demo_cmd_conn = fold_left wcmd demo_cmds [] ++ [].
Proof. vm_compute. reflexivity. Qed.
Lemma commands_read_back_witness : exists c', read_all 2 demo_cmd_conn = ROk (map cmd_resp demo_cmds) c'.
Proof.
  destruct (commands_read_back demo_cmds demo_cmd_conn [] demo_cmds_small demo_cmd_live demo_cmd_rest) as (c' & H & _).
  exists c'. exact H.
Defined.

(** A server that answers from a script, taking five bytes at a time. *)
#[local] Instance script_peer : KvPeer (list (list bytes)) := {
  peer_send _ _ s := (5, s);
  peer_recv _ s := match s with [] => ([], []) | ch :: s => (ch, s) end
}.
Definition script_kv (n : nat) (s : list (list bytes)) : Kv (list (list bytes)) := mkKv (replicate n (mkConn [] 0 [])) 0 s.
Definition demo_rs : list Resp := [bulk (B "v1|0|1|u"); mkResp "+" (B "OK") 0 []].
Definition demo_chunks : list bytes := [B "$8"; CRLF ++ B "v1|0|1|u"; CRLF ++ B "+OK"; CRLF].

Lemma pipe_returns_replies_witness :
  exists c1, pipe demo_cmds (script_kv 1 [demo_chunks]) = Ret demo_rs (mkKv [c1] 1 []).
Proof.
  destruct (pipe_returns_replies demo_cmds demo_rs (script_kv 1 [demo_chunks]) (mkConn [] 0 []) [demo_chunks] [] demo_chunks)
    as (c1 & _ & H); [reflexivity|split; [split; [simpl; lia|constructor]|reflexivity]|vm_compute; reflexivity|reflexivity
    |repeat constructor; discriminate|reflexivity| |reflexivity|exists c1; exact H].
  constructor; [apply (wf_bulk (B "v1|0|1|u")); unfold in_i64; simpl; lia|constructor; [|constructor]].
  apply wf_line; [by left|]. apply (bool_decide_unpack (_ ∉ _)). vm_compute. exact I.
Defined.

(** ** A late reply *)

(** The read of the first reply is interrupted and throws; the reply comes
    with the second one. The next GET on the connection returns the value of
    the first key, and so it goes on. *)
Definition late_kv : Kv (list (list bytes)) :=
  script_kv 1 [[[]]; [B "$5" ++ CRLF ++ B "url-a" ++ CRLF; B "$5" ++ CRLF ++ B "url-b" ++ CRLF]].
Example late_reply_taken_for_next :
  match kv_get (B "l:a") late_kv with
  | Raise kv => match kv_get (B "l:b") kv with Ret v _ => v | _ => None end
  | _ => None
  end = Some (B "url-a").
Proof. vm_compute. reflexivity. Qed.
