(* ===== verification/StoreKv.v ===== *)
(** * store_kv.cpp: the store on an external key-value server

    The corpus lives in the server ([l:{code}] to the encoded link,
    [h:{code}] to its hits, or both as fields of hashes); this process keeps
    the cache, the pending hits and the client. The operations are written
    over [KvIo], the client's pipeline: the server and the other nodes are
    whatever answers it. An exception of the client that is not caught ends
    the operation with [Raise]. Scans and the search for a free code take a
    fuel; the flush thread and the janitor are operations. *)

From S2P Require Import Prelude CLib Common Aof Metrics Store StoreFacts App HotCache StoreRocks Kv.

(** ** The configuration *)

(** [std::stoull]: throws without digits or out of range; a minus sign
    negates modulo 2^64. *)
Definition stoull (s : bytes) : option Z :=
  match parse_int10 s with
  | Some v => if Z.abs v <? 2 ^ 64 then Some (u64 v) else None
  | None => None
  end.

Record KvCfg := mkCfg { layout_hash : bool; buckets : Z }.

(** [KV_LAYOUT] and [KV_BUCKETS]; [None] when [stoull] throws. *)
Definition kv_config (env : Env) : option KvCfg :=
  let lh := match env (B "KV_LAYOUT") with Some v => v =s B "hash" | None => false end in
  match env (B "KV_BUCKETS") with
  | None => Some (mkCfg lh 1000000)
  | Some v => match stoull v with Some n => Some (mkCfg lh (u32 (Z.max 1 n))) | None => None end
  end.

(** ** Keys *)
Definition lkey (c : bytes) : bytes := B "l:" ++ c.
Definition hkey (c : bytes) : bytes := B "h:" ++ c.
Definition hfield (c : bytes) : bytes := B "h:" ++ c.
Definition bkey (cfg : KvCfg) (c : bytes) : bytes := B "l:" ++ to_string (Z.of_nat (shard_of c) mod buckets cfg).

(** [try { .. } catch (...) { .. }]. *)
Definition out_catch {A W} (o : Out A W) (k : W -> Out A W) : Out A W :=
  match o with Raise w => k w | _ => o end.

Section StoreKv.
Context {K : Type} {io : KvIo K} {std : StdImpl} {rnd : Rand}.
Context (os : Os) (env : Env) (elapsed_us : nat -> Z) (cfg : KvCfg) (fuel : nat).
Abbreviation W := (Engine K).

(** A command of the client within the state. *)
Definition on_kv {A} (f : K -> Out A K) (w : W) : Out A W :=
  match f (rw_db w) with
  | Ret x kv => Ret x (rw_set_db kv w)
  | Raise kv => Raise (rw_set_db kv w)
  | Hang => Hang
  end.

(** [kv_get]. *)
Definition kv_row (code : bytes) : K -> Out (option bytes) K :=
  if layout_hash cfg then kv_hget (bkey cfg code) code else kv_get (lkey code).

(** The two ways to write a new link. *)
Definition kv_new (code v : bytes) (ttl_ms : Z) : K -> Out bool K :=
  if layout_hash cfg then kv_hsetnx (bkey cfg code) code v else kv_set (lkey code) v ttl_ms true.

(** [flush_hits]: the pending maps are cleared before the server is asked. *)
Definition kv_flush (w : W) : Out unit W :=
  let '(ds, h) := take_dirty (rw_hot w) in
  let w := rw_set_hot h w in
  if layout_hash cfg
  then on_kv (hincrby_many (map (fun cn => (bkey cfg (fst cn), hfield (fst cn), snd cn)) ds)) w
  else on_kv (incrby_many (map (fun cn => (B "h:" ++ fst cn, snd cn)) ds)) w.

(** A field of a bucket that has expired by [now]. *)
Definition is_dead (now : Z) (fv : bytes * bytes) : bool :=
  negb (starts_with (B "h:") (fst fv)) &&
  match dec (snd fv) with Some (e, _, _) => negb (e =? 0) && (e <=? now) | None => false end.

Fixpoint sweep_buckets (now : Z) (bs : list bytes) (w : W) : Out (list (list bytes)) W :=
  match bs with
  | [] => Ret [] w
  | b :: bs =>
      let* fvs, w := on_kv (hscan_each fuel b) w in
      let* dels, w := sweep_buckets now bs w in
      Ret (map (fun fv => [B "HDEL"; b; fst fv]) (List.filter (is_dead now) fvs) ++ dels) w
  end.

(** [sweep_expired]. *)
Definition sweep_expired (w : W) : Out unit W :=
  let* bs, w := on_kv (scan_each fuel (B "l:*")) w in
  let '(now, s) := now_ms os (rw_sys w) in
  let* dels, w := sweep_buckets now bs (rw_set_sys s w) in
  match dels with [] => Ret tt w | _ => let* _r, w := on_kv (io_pipe dels) w in Ret tt w end.

Definition kv_healthy (w : W) : Out bool W :=
  out_catch (let* r, w := on_kv (cmd [B "PING"]) w in Ret ((r_kind r =c "+") && (r_str r =s B "PONG")) w)
    (fun w => Ret false w).

(** [resolve]. *)
Definition kv_resolve (code : bytes) (w : W) : Out (option bytes) W :=
  let '(r, w) := rw_cache_get os code w in
  match r with
  | Some u => Ret (Some u) (rw_bump env code (rw_count cache_hit w))
  | None =>
      let* v, w := on_kv (kv_row code) (rw_count cache_miss w) in
      let w := rw_count_read elapsed_us w in
      match v with
      | None => Ret None w
      | Some v =>
          match dec v with
          | None => Ret None w
          | Some (e, _, us) =>
              let '(ok, s) := live os e (rw_sys w) in
              let w := rw_set_sys s w in
              if ok then Ret (Some us) (rw_bump env code (rw_cache_put os code us e w)) else Ret None w
          end
      end
  end.

(** The retry loop for a generated code; an exception ends it with no code. *)
Fixpoint kv_fresh (n : nat) (url : bytes) (exp now ttl_ms : Z) (w : W) : Out (option bytes) W :=
  match n with
  | O => Hang
  | S n' =>
      let '(c, h) := hot_code (rw_hot w) in
      match on_kv (kv_new c (enc exp now url) ttl_ms) (rw_set_hot h w) with
      | Ret true w => Ret (Some c) w
      | Ret false w => kv_fresh n' url exp now ttl_ms w
      | Raise w => Ret None w
      | Hang => Hang
      end
  end.

Definition kv_shorten (url : bytes) (alias : option bytes) (ttl_ms : Z) (w : W) : Out (option bytes) W :=
  let w := rw_count store_write w in
  let '(now, s) := now_ms os (rw_sys w) in
  let w := rw_set_sys s w in
  let exp := expiry now ttl_ms in
  match alias with
  | Some code =>
      let* ok, w := on_kv (kv_new code (enc exp now url) ttl_ms) w in
      Ret (if ok : bool then Some code else None) w
  | None => kv_fresh fuel url exp now ttl_ms w
  end.

(** The commands of a batch. *)
Definition new_cmd (code v : bytes) (ttl_ms : Z) : list bytes :=
  if layout_hash cfg then [B "HSETNX"; bkey cfg code; code; v] else set_args (lkey code) v ttl_ms true.

Fixpoint kv_batch (urls : list bytes) (exp now ttl_ms : Z) (h : Hot) : list bytes * list (list bytes) * Hot :=
  match urls with
  | [] => ([], [], h)
  | u :: us =>
      let '(c, h) := hot_code h in
      let '(cs, cmds, h) := kv_batch us exp now ttl_ms h in
      (c :: cs, new_cmd c (enc exp now u) ttl_ms :: cmds, h)
  end.

Definition new_ok (r : Resp) : bool := if layout_hash cfg then resp_one r else resp_ok r.

(** The loop over the replies; a code whose reply is missing or not ok is
    drawn anew, and kept as it is when that fails. *)
Fixpoint kv_settle (urls codes : list bytes) (rs : list Resp) (ttl_ms : Z) (w : W) : Out (list bytes) W :=
  match urls, codes with
  | u :: us, c :: cs =>
      let* c1, w :=
        (if match rs with r :: _ => new_ok r | [] => false end then Ret c w
         else let* c2, w := kv_shorten u None ttl_ms w in Ret (default c c2) w) in
      let* l, w := kv_settle us cs (drop 1 rs) ttl_ms w in
      Ret (c1 :: l) w
  | _, _ => Ret [] w
  end.

Definition kv_shorten_many (urls : list bytes) (ttl_ms : Z) (w : W) : Out (list bytes) W :=
  let '(now, s) := now_ms os (rw_sys w) in
  let exp := expiry now ttl_ms in
  let '(codes, cmds, h) := kv_batch urls exp now ttl_ms (rw_hot w) in
  let w := rw_set_hot h (rw_set_sys s w) in
  let* rs, w := out_catch (on_kv (io_pipe cmds) w) (fun w => Ret [] w) in
  kv_settle urls codes rs ttl_ms w.

Definition kv_update (code url : bytes) (ttl_ms : Z) (has_ttl : bool) (w : W) : Out MutResult W :=
  let* v, w := on_kv (kv_row code) w in
  match v with
  | None => Ret MMissing w
  | Some v =>
      match dec v with
      | None => Ret MMissing w
      | Some (e, c, _) =>
          let '(exp, s) :=
            if has_ttl then
              if 0 <? ttl_ms then let '(now, s) := now_ms os (rw_sys w) in (i64 (now + ttl_ms), s) else (0, rw_sys w)
            else (e, rw_sys w) in
          let w := rw_set_sys s w in
          let* ok, w :=
            (if layout_hash cfg then on_kv (kv_hset (bkey cfg code) code (enc exp c url)) w
             else
               let '(px, s) := if 0 <? exp then let '(now, s) := now_ms os (rw_sys w) in (i64 (exp - now), s) else (0, rw_sys w) in
               on_kv (kv_set (lkey code) (enc exp c url) px false) (rw_set_sys s w)) in
          if ok : bool then Ret MOk (rw_cache_del code w) else Ret MMissing w
      end
  end.

Definition kv_remove (code : bytes) (w : W) : Out MutResult W :=
  let del1 := if layout_hash cfg then kv_hdel (bkey cfg code) code else kv_del (lkey code) in
  let del2 := if layout_hash cfg then kv_hdel (bkey cfg code) (hfield code) else kv_del (hkey code) in
  let* n, w := on_kv del1 w in
  if n <=? 0 then Ret MMissing w
  else let* _n, w := on_kv del2 w in Ret MOk (rw_cache_del code w).

(** ** [list] *)

(** A link of the listing: readable, not expired, matching. *)
Definition kv_item (now : Z) (q code v : bytes) : option Link :=
  match dec v with
  | None => None
  | Some (e, c, u) =>
      if negb (e =? 0) && (e <=? now) then None
      else if matches q code u then Some (mkLink code u 0 c e) else None
  end.
Definition set_hits (h : Z) (l : Link) : Link := mkLink (l_code l) (l_url l) h (l_created l) (l_expires l).

(** The callback over the fields of a bucket: hits, or a link. *)
Definition hash_field (now : Z) (q : bytes) (st : gmap bytes Z * list Link) (fv : bytes * bytes) : gmap bytes Z * list Link :=
  if starts_with (B "h:") (fst fv) then
    match stoll (snd fv) with Some n => (<[drop 2 (fst fv) := n]> (fst st), snd st) | None => st end
  else match kv_item now q (fst fv) (snd fv) with Some l => (fst st, snd st ++ [l]) | None => st end.

Fixpoint hash_list (now : Z) (q : bytes) (bs : list bytes) (st : gmap bytes Z * list Link) (w : W)
  : Out (gmap bytes Z * list Link) W :=
  match bs with
  | [] => Ret st w
  | b :: bs => let* fvs, w := on_kv (hscan_each fuel b) w in hash_list now q bs (fold_left (hash_field now q) fvs st) w
  end.

(** The replies of the plain layout, two for each key. *)
Fixpoint plain_items (now : Z) (q : bytes) (keys : list bytes) (rs : list Resp) : list Link :=
  match keys, rs with
  | k :: ks, r :: rs =>
      let code := drop 2 k in
      let rest := plain_items now q ks (drop 1 rs) in
      if r_null r then rest
      else match kv_item now q code (r_str r) with
      | None => rest
      | Some l =>
          match rs with
          | h :: _ => (if r_null h then l else match stoll (r_str h) with Some n => set_hits n l | None => l end) :: rest
          | [] => l :: rest
          end
      end
  | _, _ => []
  end.

Definition kv_links (now : Z) (q : bytes) (w : W) : Out (list Link) W :=
  let* ks, w := on_kv (scan_each fuel (B "l:*")) w in
  if layout_hash cfg then
    let* st, w := hash_list now q ks (∅, []) w in
    Ret (map (fun l => match fst st !! l_code l with Some n => set_hits n l | None => l end) (snd st)) w
  else if negb (forallb (fun k => (2 <=? length k)%nat) ks) then Raise w
  else
    let cmds := concat (map (fun k => [[B "GET"; k]; [B "GET"; hkey (drop 2 k)]]) ks) in
    let* rs, w := out_catch (on_kv (io_pipe cmds) w) (fun w => Ret [] w) in
    Ret (plain_items now q ks rs) w.

(** Sorted only by hits; the other order is the server's. *)
Definition kv_list (limit offset : nat) (sort q : bytes) (w : W) : Out (list Link * nat) W :=
  let '(now, s) := now_ms os (rw_sys w) in
  let* items, w := kv_links now q (rw_set_sys s w) in
  Ret (page limit offset (if sort =s B "hits" then std_sort l_hits items else items)) w.

Definition kv_stats (code : bytes) (w : W) : Out (option Link) W :=
  let* v, w := on_kv (kv_row code) w in
  let* hv, w := on_kv (if layout_hash cfg then kv_hget (bkey cfg code) (hfield code) else kv_get (hkey code)) w in
  match v with
  | None => Ret None w
  | Some v =>
      match dec v with
      | None => Ret None w
      | Some (e, c, u) =>
          let h := match hv with Some hv => default 0 (stoll hv) | None => 0 end in
          Ret (Some (mkLink code u (match dirty_hits (rw_hot w) code with Some n => i64 (h + n) | None => h end) c e)) w
      end
  end.

Definition kv_seed (urls : list bytes) (w : W) : Out nat W :=
  let* _c, w := kv_shorten_many urls 0 w in
  let* _u, w := kv_flush w in
  Ret (length urls) w.

Definition kv_empty (w : W) : Out bool W :=
  let* ks, w := on_kv (scan_each fuel (B "l:*")) w in Ret (bool_decide (ks = [])) w.

(** ** The branches of [class Store] for this engine *)
Definition store_kv_shorten (url : bytes) (alias : option bytes) (ttl_ms : Z) (w : W) : Out (option bytes) W :=
  let* r, w := kv_shorten url alias ttl_ms w in
  Ret r (match r with Some _ => rw_count (links_count 1) w | None => w end).
Definition store_kv_shorten_many (urls : list bytes) (ttl_ms : Z) (w : W) : Out (list bytes) W :=
  let* l, w := kv_shorten_many urls ttl_ms w in Ret l (rw_count (links_count (Z.of_nat (length l))) w).
Definition store_kv_remove (code : bytes) (w : W) : Out MutResult W :=
  let* r, w := kv_remove code w in
  Ret r (match r with MOk => rw_count (links_count (-1)) w | _ => w end).

End StoreKv.

#[export] Instance kv_store {K} {io : KvIo K} {std : StdImpl} {rnd : Rand} (os : Os) (env : Env) (us : nat -> Z) (cfg : KvCfg) (fuel : nat)
  : StoreApi (Engine K) := {
  st_sys := rw_sys;
  st_with_sys := rw_set_sys;
  st_counters := rw_counters;
  st_healthy := kv_healthy;
  st_resolve := kv_resolve os env us cfg;
  st_shorten := store_kv_shorten os cfg fuel;
  st_shorten_many := store_kv_shorten_many os cfg fuel;
  st_update := kv_update os cfg;
  st_remove := store_kv_remove cfg;
  st_list := kv_list os cfg fuel;
  st_stats := kv_stats cfg
}.
