(* ===== verification/KvServer.v ===== *)
(** * What the store relies on of a key-value server

    The cells of the server: a string is a key without a field, a hash one
    cell for each field. A command is answered at once, and nothing else
    happens between the commands of one operation; what happens between
    operations (expiry by PX, other nodes) is not the business of this
    interface. The laws are those of the Redis documentation for the commands
    the store sends: a key must not be of the other type, and a lifetime must
    be one the server can add to its clock. *)

From S2P Require Import Prelude CLib Common Aof App HotCache Kv StoreKv.

Definition Cell : Type := bytes * option bytes.

(** Replies. *)
Definition nil_reply : Resp := mkResp "$" [] (-1) [].
Definition bulk_resp (v : bytes) : Resp := mkResp "$" v (Z.of_nat (length v)) [].
Definition get_reply (v : option bytes) : Resp := match v with Some v => bulk_resp v | None => nil_reply end.
Definition int_reply (n : Z) : Resp := mkResp ":" [] n [].
Definition ok_reply : Resp := mkResp "+" (B "OK") 0 [].
Definition pong_reply : Resp := mkResp "+" (B "PONG") 0 [].
Definition bool_reply (b : bool) : Resp := int_reply (if b then 1 else 0).

Definition is_str (m : gmap Cell bytes) (k : bytes) : Prop := forall f, m !! (k, Some f) = None.
Definition is_hash (m : gmap Cell bytes) (k : bytes) : Prop := m !! (k, None) = None.
Definition absent (m : gmap Cell bytes) (c : Cell) : bool := bool_decide (m !! c = None).

(** The counter in a cell: nothing counts as 0. *)
Definition counter_in (m : gmap Cell bytes) (c : Cell) (n : Z) : Prop :=
  (m !! c = None /\ n = 0) \/ (m !! c = Some (to_string n) /\ in_i64 n).

(** An answer [r] that leaves a good server with the cells [m]. *)
Definition answered {K} (ok : K -> Prop) (cells : K -> gmap Cell bytes) (p : Resp * K) (r : Resp) (m : gmap Cell bytes) : Prop :=
  fst p = r /\ ok (snd p) /\ cells (snd p) = m.

(** A pipeline is its commands one after the other. *)
Fixpoint run_all {K} (exec : list bytes -> K -> Resp * K) (cmds : list (list bytes)) (kv : K) : list Resp * K :=
  match cmds with
  | [] => ([], kv)
  | c :: cs => let '(r, kv) := exec c kv in let '(rs, kv) := run_all exec cs kv in (r :: rs, kv)
  end.

Class KvServer (K : Type) {io : KvIo K} := {
  srv_ok : K -> Prop;
  srv_cells : K -> gmap Cell bytes;
  srv_exec : list bytes -> K -> Resp * K;
  law_pipe cmds kv : srv_ok kv -> io_pipe cmds kv = let '(rs, kv) := run_all srv_exec cmds kv in Ret rs kv;
  law_ping kv : srv_ok kv -> answered srv_ok srv_cells (srv_exec [B "PING"] kv) pong_reply (srv_cells kv);
  law_get k kv : srv_ok kv -> is_str (srv_cells kv) k ->
    answered srv_ok srv_cells (srv_exec [B "GET"; k] kv) (get_reply (srv_cells kv !! (k, None))) (srv_cells kv);
  law_set k v px nx kv : srv_ok kv -> is_str (srv_cells kv) k -> px < 2 ^ 62 ->
    let set := negb nx || absent (srv_cells kv) (k, None) in
    answered srv_ok srv_cells (srv_exec (set_args k v px nx) kv) (if set then ok_reply else nil_reply)
      (if set then <[(k, None) := v]> (srv_cells kv) else srv_cells kv);
  law_del k kv : srv_ok kv -> is_str (srv_cells kv) k ->
    answered srv_ok srv_cells (srv_exec [B "DEL"; k] kv) (bool_reply (negb (absent (srv_cells kv) (k, None))))
      (delete (k, None) (srv_cells kv));
  law_incrby k d n kv : srv_ok kv -> is_str (srv_cells kv) k -> counter_in (srv_cells kv) (k, None) n -> in_i64 d -> in_i64 (n + d) ->
    answered srv_ok srv_cells (srv_exec [B "INCRBY"; k; to_string d] kv) (int_reply (n + d))
      (<[(k, None) := to_string (n + d)]> (srv_cells kv));
  law_hget k f kv : srv_ok kv -> is_hash (srv_cells kv) k ->
    answered srv_ok srv_cells (srv_exec [B "HGET"; k; f] kv) (get_reply (srv_cells kv !! (k, Some f))) (srv_cells kv);
  law_hsetnx k f v kv : srv_ok kv -> is_hash (srv_cells kv) k ->
    let set := absent (srv_cells kv) (k, Some f) in
    answered srv_ok srv_cells (srv_exec [B "HSETNX"; k; f; v] kv) (bool_reply set)
      (if set then <[(k, Some f) := v]> (srv_cells kv) else srv_cells kv);
  law_hset k f v kv : srv_ok kv -> is_hash (srv_cells kv) k ->
    answered srv_ok srv_cells (srv_exec [B "HSET"; k; f; v] kv) (bool_reply (absent (srv_cells kv) (k, Some f)))
      (<[(k, Some f) := v]> (srv_cells kv));
  law_hdel k f kv : srv_ok kv -> is_hash (srv_cells kv) k ->
    answered srv_ok srv_cells (srv_exec [B "HDEL"; k; f] kv) (bool_reply (negb (absent (srv_cells kv) (k, Some f))))
      (delete (k, Some f) (srv_cells kv));
  law_hincrby k f d n kv : srv_ok kv -> is_hash (srv_cells kv) k -> counter_in (srv_cells kv) (k, Some f) n -> in_i64 d -> in_i64 (n + d) ->
    answered srv_ok srv_cells (srv_exec [B "HINCRBY"; k; f; to_string d] kv) (int_reply (n + d))
      (<[(k, Some f) := to_string (n + d)]> (srv_cells kv))
}.

(** ** The commands on a server that keeps the laws *)
Section Server.
Context {K : Type} {io : KvIo K} {srv : KvServer K}.

(** The state behind an answer. *)
Definition left_with (kv : K) (m : gmap Cell bytes) : Prop := srv_ok kv /\ srv_cells kv = m.

Lemma cmd_answered args kv r m : srv_ok kv -> answered srv_ok srv_cells (srv_exec args kv) r m ->
  exists kv', cmd args kv = Ret r kv' /\ left_with kv' m.
Proof.
  intros Hok (<- & H1 & H2). unfold cmd. rewrite law_pipe by done. cbn [run_all]. destruct (srv_exec args kv) as [r kv'].
  by exists kv'.
Qed.

Ltac answer H := destruct (cmd_answered _ _ _ _ ltac:(eassumption) H) as (kv' & -> & ?); exists kv'; split; [|assumption]; cbn [out_bind].

Lemma kv_get_spec k kv : srv_ok kv -> is_str (srv_cells kv) k ->
  exists kv', kv_get k kv = Ret (srv_cells kv !! (k, None)) kv' /\ left_with kv' (srv_cells kv).
Proof.
  intros Hok Hs. unfold kv_get. answer (law_get k kv Hok Hs). destruct (_ !! _) as [v|]; [|done]. unfold r_null. simpl.
  by rewrite (proj2 (Z.ltb_ge (Z.of_nat (length v)) 0)) by lia.
Qed.

Lemma kv_hget_spec k f kv : srv_ok kv -> is_hash (srv_cells kv) k ->
  exists kv', kv_hget k f kv = Ret (srv_cells kv !! (k, Some f)) kv' /\ left_with kv' (srv_cells kv).
Proof.
  intros Hok Hs. unfold kv_hget. answer (law_hget k f kv Hok Hs). destruct (_ !! _) as [v|]; [|done]. unfold r_null. simpl.
  by rewrite (proj2 (Z.ltb_ge (Z.of_nat (length v)) 0)) by lia.
Qed.

Lemma kv_set_spec k v px nx kv : srv_ok kv -> is_str (srv_cells kv) k -> px < 2 ^ 62 ->
  let set := negb nx || absent (srv_cells kv) (k, None) in
  exists kv', kv_set k v px nx kv = Ret set kv' /\ left_with kv' (if set then <[(k, None) := v]> (srv_cells kv) else srv_cells kv).
Proof.
  intros Hok Hs Hp set. unfold kv_set. answer (law_set k v px nx kv Hok Hs Hp). fold set. by destruct set.
Qed.

Lemma kv_hsetnx_spec k f v kv : srv_ok kv -> is_hash (srv_cells kv) k ->
  let set := absent (srv_cells kv) (k, Some f) in
  exists kv', kv_hsetnx k f v kv = Ret set kv' /\ left_with kv' (if set then <[(k, Some f) := v]> (srv_cells kv) else srv_cells kv).
Proof. intros Hok Hs set. unfold kv_hsetnx. answer (law_hsetnx k f v kv Hok Hs). fold set. by destruct set. Qed.

Lemma kv_hset_spec k f v kv : srv_ok kv -> is_hash (srv_cells kv) k ->
  exists kv', kv_hset k f v kv = Ret true kv' /\ left_with kv' (<[(k, Some f) := v]> (srv_cells kv)).
Proof. intros Hok Hs. unfold kv_hset. by answer (law_hset k f v kv Hok Hs). Qed.

Lemma kv_del_spec k kv : srv_ok kv -> is_str (srv_cells kv) k ->
  exists kv', kv_del k kv = Ret (if absent (srv_cells kv) (k, None) then 0 else 1) kv' /\ left_with kv' (delete (k, None) (srv_cells kv)).
Proof. intros Hok Hs. unfold kv_del. answer (law_del k kv Hok Hs). by destruct (absent _ _). Qed.

Lemma kv_hdel_spec k f kv : srv_ok kv -> is_hash (srv_cells kv) k ->
  exists kv', kv_hdel k f kv = Ret (if absent (srv_cells kv) (k, Some f) then 0 else 1) kv' /\ left_with kv' (delete (k, Some f) (srv_cells kv)).
Proof. intros Hok Hs. unfold kv_hdel. answer (law_hdel k f kv Hok Hs). by destruct (absent _ _). Qed.
End Server.
