(* ===== verification/MiniKv.v ===== *)
(** * A key-value server in a map

    An instance of [KvServer] that keeps its laws, so that the theorems about
    the store on a server have something to hold of, and one that no command
    reaches. Nothing expires by itself here. *)

From S2P Require Import Prelude CLib Common Aof App HotCache Kv StoreKv KvServer.

Abbreviation Mini := (gmap Cell bytes).

Definition arr_reply (l : list bytes) : Resp := mkResp "*" [] (Z.of_nat (length l)) (map bulk_resp l).

(** A scan that returns everything at once. *)
Definition scan_all (l : list bytes) : Resp := mkResp "*" [] 2 [bulk_resp (B "0"); arr_reply l].
Definition mini_keys (pat : bytes) (m : Mini) : list bytes :=
  List.filter (starts_with (removelast pat)) (remove_dups (map (fun cv => fst (fst cv)) (map_to_list m))).
Definition mini_fields (k : bytes) (m : Mini) : list bytes :=
  concat (map (fun cv => match fst cv with (k', Some f) => if k' =s k then [f; snd cv] else [] | _ => [] end) (map_to_list m)).

Definition mini_incr (c : Cell) (d : bytes) (m : Mini) : Resp * Mini :=
  match match m !! c with Some v => stoll v | None => Some 0 end, stoll d with
  | Some n, Some d => (int_reply (n + d), <[c := to_string (n + d)]> m)
  | _, _ => (mkResp "-" (B "ERR value is not an integer or out of range") 0 [], m)
  end.

Definition mini_exec (args : list bytes) (m : Mini) : Resp * Mini :=
  let op := nth 0 args [] in
  let k := nth 1 args [] in
  let x := nth 2 args [] in
  let y := nth 3 args [] in
  if op =s B "PING" then (pong_reply, m)
  else if op =s B "GET" then (get_reply (m !! (k, None)), m)
  else if op =s B "SET" then
    if negb (bool_decide (B "NX" ∈ drop 3 args)) || absent m (k, None) then (ok_reply, <[(k, None) := x]> m) else (nil_reply, m)
  else if op =s B "DEL" then (bool_reply (negb (absent m (k, None))), delete (k, None) m)
  else if op =s B "INCRBY" then mini_incr (k, None) x m
  else if op =s B "HGET" then (get_reply (m !! (k, Some x)), m)
  else if op =s B "HSETNX" then
    if absent m (k, Some x) then (bool_reply true, <[(k, Some x) := y]> m) else (bool_reply false, m)
  else if op =s B "HSET" then (bool_reply (absent m (k, Some x)), <[(k, Some x) := y]> m)
  else if op =s B "HDEL" then (bool_reply (negb (absent m (k, Some x))), delete (k, Some x) m)
  else if op =s B "HINCRBY" then mini_incr (k, Some x) y m
  else if op =s B "SCAN" then (scan_all (mini_keys y m), m)
  else if op =s B "HSCAN" then (scan_all (mini_fields k m), m)
  else (mkResp "-" (B "ERR unknown command") 0 [], m).

#[export] Instance mini_io : KvIo Mini := {| io_pipe cmds m := let '(rs, m) := run_all mini_exec cmds m in Ret rs m |}.

(** Nobody listens: every [send] fails. *)
Definition dead_io : KvIo Mini := {| io_pipe cmds m := Raise m |}.

(** ** The laws *)
Lemma mini_incr_spec c d n m : counter_in m c n -> in_i64 d ->
  mini_incr c (to_string d) m = (int_reply (n + d), <[c := to_string (n + d)]> m).
Proof.
  intros Hn Hd. unfold mini_incr. rewrite (stoll_to_string d) by done. destruct Hn as [[-> ->]|[-> Hn]]; [done|].
  by rewrite stoll_to_string.
Qed.

Lemma nx_in_set k v px nx : bool_decide (B "NX" ∈ drop 3 (set_args k v px nx)) = nx.
Proof.
  assert (Hpx : to_string px ≠ B "NX").
  { intros E. pose proof (to_string_chars px) as H. rewrite E in H. apply Forall_cons in H as [H _]. discriminate. }
  unfold set_args. cbn [app drop]. destruct nx.
  - apply bool_decide_eq_true, elem_of_app. right. by left.
  - apply bool_decide_eq_false. rewrite app_nil_r. case_if; [|by intros ?%elem_of_nil].
    intros [?|[?|?%elem_of_nil]%elem_of_cons]%elem_of_cons; [discriminate|congruence|done].
Qed.

Ltac mini := unfold mini_exec; cbn [nth];
  repeat match goal with |- context [?a =s B ?b] => let v := eval vm_compute in (a =s B b) in change (a =s B b) with v; cbv iota end.

#[export] Instance mini_server : KvServer Mini.
Proof.
  refine {| srv_ok _ := True; srv_cells m := m; srv_exec := mini_exec |}; intros; mini; try done.
  - rewrite nx_in_set. change (nth 1 (set_args k v px nx) []) with k. change (nth 2 (set_args k v px nx) []) with v.
    unfold set. by destruct (negb nx || _).
  - by rewrite (mini_incr_spec _ d n).
  - unfold set. by destruct (absent _ _).
  - by rewrite (mini_incr_spec _ d n).
Defined.
