(* ===== verification/KvStoreClaims.v ===== *)
(** * What the store on a key-value server promises

    Nothing is assumed of the server or of the other nodes: the theorems
    speak of what the server answered to this node. *)

From S2P Require Import Prelude CLib Common Codec Float Json Aof Metrics RateLimit Store StoreFacts StoreSpec App AppFacts HotCache StoreRocks RocksClaims Kv KvFacts StoreKv KvServer MiniKv.

Section KvStore.
Context {K : Type} {io : KvIo K} {std : StdImpl} {rnd : Rand}.
Context (os : Os) (env : Env) (us : nat -> Z) (cfg : KvCfg) (fuel : nat).
Implicit Types w : Engine K.

(** ** Operations that put nothing into the cache *)
Definition hot_le (h' h : Hot) : Prop := hot_wf h -> hot_wf h' /\ shrinks h' h.
Definition out_le {A} (h : Hot) (o : Out A (Engine K)) : Prop :=
  match o with Ret _ w | Raise w => hot_le (rw_hot w) h | Hang => True end.

Lemma hot_le_refl h : hot_le h h.
Proof. intros H. split; [done|apply shrinks_refl]. Qed.
Lemma hot_le_trans h1 h2 h3 : hot_le h1 h2 -> hot_le h2 h3 -> hot_le h1 h3.
Proof. intros H12 H23 H. destruct (H23 H) as [H2 S2]. destruct (H12 H2) as [H1 S1]. split; [done|]. intros c x Hx. by apply S2, S1. Qed.
Lemma hot_le_dirty f code h : (forall d c, is_Some (f d !! c) -> c = code \/ is_Some (d !! c)) -> hot_le (upd_dirty f code h) h.
Proof. intros Hf H. split; [by apply upd_dirty_wf|by intros c x]. Qed.
Lemma hot_le_del code h : hot_le (cache_del code h) h.
Proof. intros H. split; [by apply cache_del_wf|by apply cache_del_shrinks]. Qed.
Lemma hot_le_code h : hot_le (snd (hot_code h)) h.
Proof. intros H. split; [by apply hot_code_wf|by intros c x]. Qed.
Lemma hot_le_take h : hot_le (snd (take_dirty h)) h.
Proof. intros H. split; [by apply take_dirty_wf|by intros c x]. Qed.
Hint Resolve hot_le_refl hot_le_del hot_le_code hot_le_take : core.

Lemma out_le_mono {A} h1 h2 (o : Out A (Engine K)) : hot_le h1 h2 -> out_le h1 o -> out_le h2 o.
Proof. intros H. destruct o; simpl; [by intros ?; eapply hot_le_trans..|done]. Qed.
Lemma out_le_bind {A A'} h (o : Out A (Engine K)) (k : A -> Engine K -> Out A' (Engine K)) :
  out_le h o -> (forall x w, hot_le (rw_hot w) h -> out_le h (k x w)) -> out_le h (out_bind o k).
Proof. intros Ho Hk. destruct o; [by apply Hk|done..]. Qed.
Lemma out_le_on_kv {A} h (f : K -> Out A K) w : hot_le (rw_hot w) h -> out_le h (on_kv f w).
Proof. intros H. unfold on_kv. by destruct (f (rw_db w)). Qed.
Lemma out_le_catch {A} h (o : Out A (Engine K)) k :
  out_le h o -> (forall w, hot_le (rw_hot w) h -> out_le h (k w)) -> out_le h (out_catch o k).
Proof. intros Ho Hk. destruct o; [done|by apply Hk|done]. Qed.

(** A sequence of commands and pure steps. *)
Ltac out_le_tac :=
  repeat first
    [ done
    | apply out_le_bind; [|intros ? ? ?]
    | apply out_le_catch; [|intros ? ?]
    | apply out_le_on_kv
    | case_match; simplify_eq
    | progress cbn [out_le] ].

Lemma kv_flush_le w : out_le (rw_hot w) (kv_flush cfg w).
Proof.
  unfold kv_flush. pose proof (hot_le_take (rw_hot w)) as H. destruct (take_dirty (rw_hot w)) as [ds h]. cbn [snd] in H.
  case_if; by apply out_le_on_kv.
Qed.

Lemma kv_fresh_le n url exp now ttl h : forall w, hot_le (rw_hot w) h -> out_le h (kv_fresh cfg n url exp now ttl w).
Proof.
  induction n as [|n IH]; intros w Hw; cbn [kv_fresh]; [done|]. pose proof (hot_le_code (rw_hot w)) as Hc.
  destruct (hot_code (rw_hot w)) as [c h1]. cbn [snd] in Hc.
  pose proof (out_le_on_kv h (kv_new cfg c (enc exp now url) ttl) (rw_set_hot h1 w) ltac:(by eapply hot_le_trans)) as Ho.
  destruct (on_kv _ _) as [[] w1|w1|]; [done|by apply IH|done|done].
Qed.

Lemma kv_shorten_le url alias ttl w h : hot_le (rw_hot w) h -> out_le h (kv_shorten os cfg fuel url alias ttl w).
Proof. intros H. unfold kv_shorten. destruct (now_ms os _) as [now s]. destruct alias; [out_le_tac|by apply kv_fresh_le]. Qed.

Lemma kv_batch_le urls exp now ttl : forall h, hot_le (snd (kv_batch cfg urls exp now ttl h)) h.
Proof.
  induction urls as [|u l IH]; intros h; cbn [kv_batch]; [done|]. pose proof (hot_le_code h) as Hc.
  destruct (hot_code h) as [c h1]. specialize (IH h1). destruct (kv_batch cfg l exp now ttl h1) as [[cs cmds] h2].
  cbn [snd] in *. by eapply hot_le_trans.
Qed.

Lemma kv_settle_le h urls : forall codes rs ttl w, hot_le (rw_hot w) h -> out_le h (kv_settle os cfg fuel urls codes rs ttl w).
Proof.
  induction urls as [|u l IH]; intros [|c cs] rs ttl w Hw; cbn [kv_settle]; try done.
  apply out_le_bind; [|intros c1 w1 Hw1; apply out_le_bind; [by apply IH|done]].
  case_if; [done|]. apply out_le_bind; [by apply kv_shorten_le|done].
Qed.

Lemma kv_shorten_many_le urls ttl w : out_le (rw_hot w) (kv_shorten_many os cfg fuel urls ttl w).
Proof.
  unfold kv_shorten_many. destruct (now_ms os _) as [now s]. pose proof (kv_batch_le urls (expiry now ttl) now ttl (rw_hot w)) as Hb.
  destruct (kv_batch _ _ _ _ _ _) as [[codes cmds] h]. cbn [snd] in Hb.
  apply out_le_bind; [apply out_le_catch; [by apply out_le_on_kv|done]|]. intros rs w1 H1. by apply kv_settle_le.
Qed.

Lemma kv_update_le c url ttl has w : out_le (rw_hot w) (kv_update os cfg c url ttl has w).
Proof.
  unfold kv_update. apply out_le_bind; [by apply out_le_on_kv|]. intros [v|] w1 H1; [|done].
  destruct (dec v) as [[[e cr] u]|]; [|done]. destruct (if has then _ else _) as [exp s].
  apply out_le_bind.
  - case_if; [by apply out_le_on_kv|]. destruct (if 0 <? exp then _ else _) as [px s']. by apply out_le_on_kv.
  - intros [] w2 H2; [|done]. cbn [out_le]. eapply hot_le_trans; [apply hot_le_del|done].
Qed.

Lemma kv_remove_le c w : out_le (rw_hot w) (kv_remove cfg c w).
Proof.
  unfold kv_remove. apply out_le_bind; [by apply out_le_on_kv|]. intros n w1 H1. case_if; [done|].
  apply out_le_bind; [by apply out_le_on_kv|]. intros m w2 H2. cbn [out_le]. eapply hot_le_trans; [apply hot_le_del|done].
Qed.

(** ** A node *)
Inductive KvStep :=
| KsShorten (u : bytes) (alias : option bytes) (ttl : Z) | KsShortenMany (l : list bytes) (ttl : Z)
| KsUpdate (c u : bytes) (ttl : Z) (has : bool) | KsRemove (c : bytes) | KsFlush.

(** The state an operation leaves, whether it returns or throws. *)
Definition left_state {A} (o : Out A (Engine K)) : option (Engine K) :=
  match o with Ret _ w | Raise w => Some w | Hang => None end.
Definition kv_step (o : KvStep) (w : Engine K) : option (Engine K) :=
  match o with
  | KsShorten u alias ttl => left_state (kv_shorten os cfg fuel u alias ttl w)
  | KsShortenMany l ttl => left_state (kv_shorten_many os cfg fuel l ttl w)
  | KsUpdate c u ttl has => left_state (kv_update os cfg c u ttl has w)
  | KsRemove c => left_state (kv_remove cfg c w)
  | KsFlush => left_state (kv_flush cfg w)
  end.

(** The server's answer to the lookup of a code, if [resolve] asks for one:
    the code, the value and the number of clock readings before it. *)
Definition kv_answers (code : bytes) (w : Engine K) : list (bytes * bytes * nat) :=
  match rw_cache_get os code w with
  | (Some _, _) => []
  | (None, w1) =>
      match on_kv (kv_row cfg code) (rw_count cache_miss w1) with
      | Ret (Some v) w2 => [(code, v, k_clock (rw_sys w2))]
      | _ => []
      end
  end.

(** A run of a node, with all answers so far. Between operations time passes
    and the server changes in any way: other nodes, evictions, restarts. *)
Inductive node : list (bytes * bytes * nat) -> Engine K -> Prop :=
| node_open kv inst n cttl s c : node [] (mkEngine (hot_init inst n cttl) kv s c 0)
| node_env tr w kv s : node tr w -> (k_clock (rw_sys w) <= k_clock s)%nat -> node tr (rw_set_sys s (rw_set_db kv w))
| node_op tr w o w' : node tr w -> kv_step o w = Some w' -> node tr w'
| node_resolve tr w c w' : node tr w -> left_state (kv_resolve os env us cfg c w) = Some w' -> node (tr ++ kv_answers c w) w'.

(** Where an entry of the cache comes from. *)
Definition from_answer (tr : list (bytes * bytes * nat)) (c u : bytes) (e at_ : Z) : Prop :=
  exists v cr k k', (c, v, k) ∈ tr /\ dec v = Some (e, cr, u) /\ (k <= k' <= S k)%nat /\ at_ = i64 (os_clock os k').

Definition node_ok (tr : list (bytes * bytes * nat)) (w : Engine K) : Prop :=
  hot_wf (rw_hot w) /\ forall c x, cached (rw_hot w) c = Some x -> from_answer tr c (k_u x) (k_e x) (k_at x).

Lemma from_answer_app tr tr' c u e a : from_answer tr c u e a -> from_answer (tr ++ tr') c u e a.
Proof. intros (v & cr & k & k' & H & ?). exists v, cr, k, k'. split; [apply elem_of_app; by left|done]. Qed.

Lemma node_ok_le tr tr' w w' : hot_le (rw_hot w') (rw_hot w) -> node_ok tr w -> node_ok (tr ++ tr') w'.
Proof. intros Hle [H Hc]. destruct (Hle H) as [H' Hs]. split; [done|]. intros c x Hx. by apply from_answer_app, Hc, Hs. Qed.

Lemma hot_le_bump c h : hot_le (hot_bump env c h) h.
Proof. intros H. split; [by apply hot_bump_wf|]. intros c' x. unfold hot_bump. by case_if. Qed.

Lemma on_kv_sys {A} (f : K -> Out A K) w x w' : on_kv f w = Ret x w' -> rw_hot w' = rw_hot w /\ rw_sys w' = rw_sys w.
Proof. unfold on_kv. destruct (f (rw_db w)); [|done..]. by intros [= _ <-]. Qed.

(** The cache after [resolve], and where the url it returns comes from. *)
Lemma kv_resolve_cases tr c w : node_ok tr w ->
  match kv_resolve os env us cfg c w with
  | Ret r w' => node_ok (tr ++ kv_answers c w) w' /\
      match r with
      | None => True
      | Some u =>
          (exists e at_, from_answer tr c u e at_ /\ (0 < hc_ttl (rw_hot w) -> i64 (fst (now_ms os (rw_sys w)) - at_) <= hc_ttl (rw_hot w)) /\
             (e = 0 \/ fst (now_ms os (rw_sys w)) < e)) \/
          (exists v e cr k, kv_answers c w = [(c, v, k)] /\ dec v = Some (e, cr, u) /\ (e = 0 \/ i64 (os_clock os k) < e))
      end
  | Raise w' => node_ok (tr ++ kv_answers c w) w'
  | Hang => True
  end.
Proof.
  intros [Hw Hc]. unfold kv_resolve, kv_answers, rw_cache_get.
  destruct (cache_get os c (rw_hot w) (rw_sys w)) as [[r1 h1] s1] eqn:Eg.
  destruct (cache_get_spec os c _ _ r1 h1 s1 Hw Eg) as (Hw1 & Hs1 & _ & _ & _ & _ & _ & Hr1).
  assert (Hle : hot_le h1 (rw_hot w)) by by intros _.
  destruct r1 as [u1|].
  - split; [apply (node_ok_le _ _ w); [|done]; eapply hot_le_trans; [apply hot_le_bump|done]|]. left.
    destruct Hr1 as (x & Hx & -> & _ & Hl). exists (k_e x), (k_at x). split; [by apply Hc|]. split; [|done].
    intros Httl. unfold cache_get in Eg. rewrite Hx in Eg. cbn [now_ms fst] in *.
    destruct ((0 <? hc_ttl (rw_hot w)) && _) eqn:E; [done|]. rewrite (proj2 (Z.ltb_lt _ _) Httl) in E. cbn [andb] in E. by bool_facts.
  - set (w1 := rw_count cache_miss _). pose proof (out_le_on_kv (rw_hot w) (kv_row cfg c) w1 Hle) as Hk.
    destruct (on_kv (kv_row cfg c) w1) as [v w2|w2|] eqn:Ek; [|by apply (node_ok_le _ _ w)|done]. cbn [out_le out_bind] in *.
    set (w3 := rw_count_read us w2). assert (H3 : forall tr', node_ok (tr ++ tr') w3) by (intros tr'; by apply (node_ok_le _ _ w)).
    destruct v as [v|]; [|by split]. destruct (dec v) as [[[e cr] u]|] eqn:Ed; [|by split].
    destruct (live os e (rw_sys w3)) as [ok s] eqn:El. destruct ok; [|split; [apply H3|done]].
    assert (Hs : (k_clock (rw_sys w2) <= k_clock s <= S (k_clock (rw_sys w2)))%nat /\ (e = 0 \/ i64 (os_clock os (k_clock (rw_sys w2))) < e)).
    { unfold live in El. destruct (e =? 0) eqn:E0; bool_facts; [injection El as <-; split; [change (rw_sys w3) with (rw_sys w2); lia|by left]|].
      cbn [now_ms] in El. injection El as El <-. split; [change (rw_sys w3) with (rw_sys w2); simpl; lia|right; by bool_facts]. }
    destruct Hs as [Hks Hlive]. split.
    + destruct (H3 [(c, v, k_clock (rw_sys w2))]) as [Hw3 Hc3].
      assert (Hp : node_ok (tr ++ [(c, v, k_clock (rw_sys w2))]) (rw_cache_put os c u e (rw_set_sys s w3))).
      { unfold rw_cache_put. destruct (cache_put os c u e _ _) as [h4 s4] eqn:Ep.
        assert (h4 = fst (cache_put os c u e (rw_hot w3) s)) as -> by (pose proof (f_equal fst Ep) as Ef; cbn [fst] in Ef; by rewrite <- Ef).
        split; [by apply cache_put_wf|]. intros c' x Hx. destruct (decide (c' = c)) as [->|Hne].
        - cbn [rw_set_hot rw_hot] in Hx. rewrite cached_put in Hx by done. injection Hx as <-.
          exists v, cr, (k_clock (rw_sys w2)), (k_clock s). split; [apply elem_of_app; right; by left|]. split_and!; [done|lia|lia|done].
        - cbn [rw_set_hot rw_hot] in Hx. apply Hc3. by eapply cached_put_ne. }
      rewrite <- (app_nil_r (tr ++ _)). apply (node_ok_le _ [] (rw_cache_put os c u e (rw_set_sys s w3))); [apply hot_le_bump|done].
    + right. exists v, e, cr, (k_clock (rw_sys w2)). by split_and!.
Qed.

Lemma node_run_ok tr w : node tr w -> node_ok tr w.
Proof.
  induction 1 as [kv inst n cttl s c|tr w kv s H IH Hk|tr w o w' H IH Hs|tr w c w' H IH Hs].
  - split; [apply hot_init_wf|]. intros c' x Hx. exfalso. revert Hx. unfold cached, kv_shard, hot_init. cbn [rw_hot hc_cache].
    destruct (replicate KV_SHARDS KvShard0 !! shard_of c') eqn:E; [|done]. by apply lookup_replicate in E as [-> _].
  - done.
  - rewrite <- (app_nil_r tr). apply (node_ok_le tr [] w); [|done].
    assert (Ho : forall A (o : Out A (Engine K)), out_le (rw_hot w) o -> left_state o = Some w' -> hot_le (rw_hot w') (rw_hot w))
      by (intros A o0; destruct o0; simpl; [by intros ? [= <-]..|done]).
    destruct o; cbn [kv_step] in Hs; eapply Ho; try exact Hs;
      [by apply kv_shorten_le|apply kv_shorten_many_le|apply kv_update_le|apply kv_remove_le|apply kv_flush_le].
  - pose proof (kv_resolve_cases tr c w IH) as Hr.
    destruct (kv_resolve os env us cfg c w); simplify_eq/=; [by destruct Hr|done].
Qed.

(** C29 Staleness is bounded by [CACHE_TTL_MS], whatever the other nodes and
    the server do: a url that [resolve] returns is one the server answered
    for that code, either in this very call or to an earlier lookup of this
    node; in the second case the clock reading taken right after that answer
    is at most [CACHE_TTL_MS] before the reading of this call (unless the
    bound is switched off), and in both cases the link had not expired by a
    reading of this call. *)
Theorem kv_staleness_bounded tr w c u w' :
  node tr w -> kv_resolve os env us cfg c w = Ret (Some u) w' ->
  (exists v e cr k, kv_answers c w = [(c, v, k)] /\ dec v = Some (e, cr, u) /\ (e = 0 \/ i64 (os_clock os k) < e)) \/
  (exists v e cr k k', (c, v, k) ∈ tr /\ dec v = Some (e, cr, u) /\ (k <= k' <= S k)%nat /\
     (0 < hc_ttl (rw_hot w) -> i64 (fst (now_ms os (rw_sys w)) - i64 (os_clock os k')) <= hc_ttl (rw_hot w)) /\
     (e = 0 \/ fst (now_ms os (rw_sys w)) < e)).
Proof.
  intros Hn E. pose proof (kv_resolve_cases tr c w (node_run_ok tr w Hn)) as H. rewrite E in H.
  destruct H as [_ [(e & a & (v & cr & k & k' & Hin & Hd & Hk & ->) & Ht & Hl)|H]]; [right|by left].
  by exists v, e, cr, k, k'.
Qed.

(** The janitor deletes expired links only: every command [sweep_expired]
    sends takes one field of a bucket, not a hit counter, whose value the
    server gave and whose expiry lies at or before the clock reading of the
    sweep. *)
Theorem sweep_deletes_expired_only now bs w dels w' :
  sweep_buckets fuel now bs w = Ret dels w' ->
  forall d, d ∈ dels -> exists b f v e c u, d = [B "HDEL"; b; f] /\ b ∈ bs /\ starts_with (B "h:") f = false /\
    dec v = Some (e, c, u) /\ e ≠ 0 /\ e <= now.
Proof.
  revert w dels w'. induction bs as [|b bs IH]; intros w dels w' E d Hd; cbn [sweep_buckets] in E.
  - injection E as <- _. by apply elem_of_nil in Hd.
  - destruct (on_kv (hscan_each fuel b) w) as [fvs w1|w1|]; [|done..]. cbn [out_bind] in E.
    destruct (sweep_buckets fuel now bs w1) as [ds w2|w2|] eqn:Es; [|done..]. cbn [out_bind] in E. injection E as <- _.
    apply elem_of_app in Hd as [Hd|Hd].
    + apply list_elem_of_fmap in Hd as ([f v] & -> & Hf). apply list_elem_of_In, filter_In in Hf as [_ Hf].
      unfold is_dead in Hf. cbn [fst snd] in Hf. apply andb_true_iff in Hf as [Hs Hdead]. apply negb_true_iff in Hs.
      destruct (dec v) as [[[e c] u]|] eqn:Ed; [|done]. bool_facts.
      exists b, f, v, e, c, u. split_and!; try done. by left.
    + destruct (IH w1 ds w2 Es d Hd) as (b' & f & v & e & c & u & H1 & H2 & H3). exists b', f, v, e, c, u.
      split; [done|]. split; [by right|done].
Qed.
End KvStore.

(** ** The witnesses *)
#[local] Existing Instance RefStd.
#[local] Existing Instance cycle_rand.

Definition stale_cfg : KvCfg := mkCfg false 1000000.
Definition stale_open : Engine Mini :=
  mkEngine (hot_init 0 100000 5000) (<[(lkey (B "x"), None) := enc 0 1 (B "https://a.b/c")]> (∅ : Mini)) RefSys Counters0 0.
Definition stale_visit (w : Engine Mini) : Out (option bytes) (Engine Mini) := kv_resolve SlowOs rdemo_env rdemo_us stale_cfg (B "x") w.
Definition stale_seen : Engine Mini := out_state stale_open (stale_visit stale_open).
Lemma stale_visit_eq : stale_visit stale_open = Ret (Some (B "https://a.b/c")) stale_seen.
Proof. apply out_ret_eq. vm_compute. reflexivity. Qed.
Lemma stale_again_eq : stale_visit stale_seen = Ret (Some (B "https://a.b/c")) (out_state stale_open (stale_visit stale_seen)).
Proof. apply out_ret_eq. vm_compute. reflexivity. Qed.
Definition stale_tr : list (bytes * bytes * nat) := [] ++ kv_answers SlowOs stale_cfg (B "x") stale_open.
Lemma stale_node : node SlowOs rdemo_env rdemo_us stale_cfg 3 stale_tr stale_seen.
Proof. apply node_resolve; [apply node_open|]. change (left_state (stale_visit stale_open) = Some stale_seen). by rewrite stale_visit_eq. Qed.
Lemma stale_cached : kv_answers SlowOs stale_cfg (B "x") stale_seen = [].
Proof. vm_compute. reflexivity. Qed.

(** The second visit is served from the cache, with the first one's answer. *)
Lemma kv_staleness_bounded_witness : exists v k, (B "x", v, k) ∈ stale_tr.
Proof.
  destruct (kv_staleness_bounded SlowOs rdemo_env rdemo_us stale_cfg 3 stale_tr stale_seen (B "x") (B "https://a.b/c") _ stale_node stale_again_eq)
    as [(v & e & cr & k & H & _)|(v & e & cr & k & k' & H & _)]; [|exists v, k; exact H].
  rewrite stale_cached in H. discriminate H.
Defined.

Definition sweep_cfg : KvCfg := mkCfg true 1000000.
Definition sweep_bucket : bytes := bkey sweep_cfg (B "x").
Definition sweep_world : Engine Mini :=
  mkEngine (hot_init 0 100000 5000) (<[(sweep_bucket, Some (B "x")) := enc 10 1 (B "https://a.b/c")]> (∅ : Mini)) RefSys Counters0 0.
Definition sweep_out : Out (list (list bytes)) (Engine Mini) := sweep_buckets 3 5000 [sweep_bucket] sweep_world.
Lemma sweep_out_eq : sweep_out = Ret [[B "HDEL"; sweep_bucket; B "x"]] (out_state sweep_world sweep_out).
Proof. apply out_ret_eq. vm_compute. reflexivity. Qed.
Lemma sweep_deletes_expired_only_witness : exists b f v e c u,
  [B "HDEL"; sweep_bucket; B "x"] = [B "HDEL"; b; f] /\ dec v = Some (e, c, u) /\ e <= 5000.
Proof.
  destruct (sweep_deletes_expired_only 3 5000 [sweep_bucket] sweep_world _ _ sweep_out_eq [B "HDEL"; sweep_bucket; B "x"] ltac:(by left))
    as (b & f & v & e & c & u & H1 & _ & _ & H2 & _ & H3).
  exists b, f, v, e, c, u. split; [exact H1|]. split; [exact H2|exact H3].
Defined.
