(* ===== verification/KvStoreFacts.v ===== *)
(** * The store on a key-value server keeps the promises of a store

    Over a server that keeps the laws of KvServer.v: the table of links in its
    cells, what every operation does to it, and the instance of [StoreLaws],
    so that what AppClaims.v shows of the HTTP interface holds over this
    engine too. *)

From S2P Require Import Prelude CLib Common Aof Metrics Store StoreFacts StoreSpec App AppFacts HotCache StoreRocks RocksFacts Kv StoreKv KvServer.

Section KvStoreFacts.
Context {K : Type} {io : KvIo K} {srv : KvServer K} {std : StdImpl} {rnd : Rand} (os : Os) (cfg : KvCfg).
Implicit Types w : Engine K.
Implicit Types m : gmap Cell bytes.

(** ** Where a link lives *)
Definition row_cell (c : bytes) : Cell := if layout_hash cfg then (bkey cfg c, Some c) else (lkey c, None).
Definition hit_cell (c : bytes) : Cell := if layout_hash cfg then (bkey cfg c, Some (hfield c)) else (hkey c, None).

Lemma row_cell_inj c c' : row_cell c = row_cell c' -> c = c'.
Proof. unfold row_cell, lkey. case_if; [by intros [= _ ->]|by intros [= ->]]. Qed.

Lemma hit_cell_inj c c' : hit_cell c = hit_cell c' -> c = c'.
Proof. unfold hit_cell, hkey, hfield. case_if; [by intros [= _ ->]|by intros [= ->]]. Qed.

(** No code is the name of a counter. *)
Lemma row_hit_ne c c' : code_ok c = true -> row_cell c ≠ hit_cell c'.
Proof.
  intros (_ & _ & Hc)%code_ok_spec. unfold row_cell, hit_cell, hfield, lkey, hkey. case_if; [|done].
  intros [= _ ->]. apply Forall_cons in Hc as [_ Hc]. apply Forall_cons in Hc as [Hc _]. discriminate.
Qed.

(** All cells are of the layout's type. *)
Definition typed m : Prop := forall k f, is_Some (m !! (k, f)) -> bool_decide (is_Some f) = layout_hash cfg.

Lemma typed_str m k : typed m -> layout_hash cfg = false -> is_str m k.
Proof.
  intros H Hl f. destruct (m !! (k, Some f)) as [v|] eqn:E; [|done]. specialize (H k (Some f) ltac:(by exists v)).
  rewrite Hl in H. apply bool_decide_eq_false in H. exfalso. apply H. by eexists.
Qed.
Lemma typed_hash m k : typed m -> layout_hash cfg = true -> is_hash m k.
Proof.
  intros H Hl. unfold is_hash. destruct (m !! (k, None)) as [v|] eqn:E; [|done]. specialize (H k None ltac:(by exists v)).
  rewrite Hl in H. apply bool_decide_eq_true in H. by destruct H.
Qed.
Lemma typed_insert m c v : bool_decide (is_Some (snd c)) = layout_hash cfg -> typed m -> typed (<[c := v]> m).
Proof.
  intros Hc H k f. destruct (decide (c = (k, f))) as [->|]; [done|]. rewrite lookup_insert_ne by done. apply H.
Qed.
Lemma typed_delete m c : typed m -> typed (delete c m).
Proof. intros H k f [v Hv]. apply lookup_delete_Some in Hv as [_ Hv]. apply (H k f). by exists v. Qed.
Lemma row_typed c : bool_decide (is_Some (snd (row_cell c))) = layout_hash cfg.
Proof. unfold row_cell. case_if; (apply bool_decide_eq_true; by eexists) || (apply bool_decide_eq_false; intros [? ?]; done). Qed.
Lemma hit_typed c : bool_decide (is_Some (snd (hit_cell c))) = layout_hash cfg.
Proof. unfold hit_cell. case_if; (apply bool_decide_eq_true; by eexists) || (apply bool_decide_eq_false; intros [? ?]; done). Qed.

(** ** The table of links *)

(** The code a cell is the row of. *)
Definition cell_code (c : Cell) : option bytes :=
  let code := match c with (_, Some f) => f | (k, None) => drop 2 k end in
  if code_ok code && bool_decide (row_cell code = c) then Some code else None.

Lemma cell_code_row c : cell_code (row_cell c) = if code_ok c then Some c else None.
Proof.
  unfold cell_code. assert ((let '(k, f) := row_cell c in match f with Some f => f | None => drop 2 k end) = c) as Hc
    by (unfold row_cell; by case_if).
  destruct (row_cell c) as [k [f|]] eqn:E; rewrite Hc; destruct (code_ok c); try done;
    (rewrite bool_decide_eq_true_2; [done|congruence]).
Qed.
Lemma cell_code_some cell c : cell_code cell = Some c -> code_ok c = true /\ row_cell c = cell.
Proof.
  unfold cell_code. destruct cell as [k f]. cbv zeta. set (code := match f with Some _ => _ | None => _ end). intros H.
  destruct (code_ok code) eqn:Hc; [|done]. case_bool_decide as Hr; [|done]. injection H as <-. by split.
Qed.

Definition table_entry (cv : Cell * bytes) : option (bytes * (bytes * Z)) :=
  match cell_code (fst cv), value_row (snd cv) with Some c, Some r => Some (c, r) | _, _ => None end.
Definition cells_table m : gmap bytes (bytes * Z) := list_to_map (omap table_entry (map_to_list m)).

Lemma cells_table_lookup m c : cells_table m !! c = if code_ok c then m !! row_cell c ≫= value_row else None.
Proof.
  assert (Hin : forall r, (c, r) ∈ omap table_entry (map_to_list m) <-> code_ok c = true /\ m !! row_cell c ≫= value_row = Some r).
  { intros r. rewrite list_elem_of_omap. split.
    - intros ([cell v] & Hin & He). unfold table_entry in He. cbn [fst snd] in He.
      destruct (cell_code cell) as [c'|] eqn:Ec; [|done]. destruct (value_row v) as [r'|] eqn:Ev; [|done]. injection He as -> ->.
      apply cell_code_some in Ec as [Hc <-]. apply elem_of_map_to_list in Hin. by rewrite Hin.
    - intros [Hc Hr]. destruct (m !! row_cell c) as [v|] eqn:Ev; [|done]. exists (row_cell c, v).
      split; [by apply elem_of_map_to_list|]. unfold table_entry. cbn [fst snd] in *. simpl in Hr. by rewrite cell_code_row, Hc, Hr. }
  destruct (cells_table m !! c) as [r|] eqn:E.
  - apply elem_of_list_to_map_2, Hin in E as [-> ->]. done.
  - destruct (code_ok c) eqn:Hc; [|done]. destruct (m !! row_cell c ≫= value_row) as [r|] eqn:Er; [|done].
    assert (H : (c, r) ∈ omap table_entry (map_to_list m)) by (by apply Hin).
    apply elem_of_list_to_map_1' in H; [unfold cells_table in E; congruence|]. intros r' H'. apply Hin in H' as [_ H']. congruence.
Qed.

(** ** The states of a node *)

(** In the plain layout the server is told the lifetimes, and the clock must
    leave room for them. *)
Definition clock_fits : Prop := layout_hash cfg = false -> forall k, 0 <= i64 (os_clock os k) < 2 ^ 61.
Context (Hclock : clock_fits).
Definition ttl_fits (ttl : Z) : Prop := layout_hash cfg = false -> ttl < 2 ^ 61.
Definition exp_fits (e : Z) : Prop := layout_hash cfg = false -> e < 2 ^ 62.

Definition kv_table w : gmap bytes (bytes * Z) := cells_table (srv_cells (rw_db w)).

Record kv_wf w : Prop := {
  kvo_srv : srv_ok (rw_db w);
  kvo_typed : typed (srv_cells (rw_db w));
  kvo_hot : hot_wf (rw_hot w);
  kvo_prefix : hc_prefix (rw_hot w) ∈ Base62.ALPHABET;
  kvo_values : forall c v, code_ok c = true -> srv_cells (rw_db w) !! row_cell c = Some v ->
    exists e cr u, dec v = Some (e, cr, u) /\ exp_fits e
}.

(** A cached link is the link of the table, or one that has expired. *)
Definition kv_agrees w : Prop := forall c x, cached (rw_hot w) c = Some x ->
  kv_table w !! c = Some (k_u x, k_e x) \/ gone_by os (k_clock (rw_sys w)) (k_e x).
Definition kv_ok w : Prop := kv_wf w /\ kv_agrees w.

Lemma kv_table_none w c : kv_wf w -> code_ok c = true ->
  kv_table w !! c = None <-> srv_cells (rw_db w) !! row_cell c = None.
Proof.
  intros H Hc. unfold kv_table. rewrite cells_table_lookup, Hc. destruct (_ !! row_cell c) as [v|] eqn:E; [|done]. simpl.
  destruct (kvo_values w H c v Hc E) as (e & cr & u & Hd & _). unfold value_row. by rewrite Hd.
Qed.

Lemma kv_table_some w c v e cr u : code_ok c = true -> srv_cells (rw_db w) !! row_cell c = Some v -> dec v = Some (e, cr, u) ->
  kv_table w !! c = Some (u, e).
Proof. intros Hc Hv Hd. unfold kv_table. rewrite cells_table_lookup, Hc, Hv. simpl. unfold value_row. by rewrite Hd. Qed.

Lemma absent_row w c : kv_wf w -> code_ok c = true ->
  absent (srv_cells (rw_db w)) (row_cell c) = bool_decide (kv_table w !! c = None).
Proof. intros H Hc. apply bool_decide_ext. symmetry. by apply kv_table_none. Qed.

(** *** Changes beside the server *)
Lemma kv_ok_hot w h : kv_ok w -> hot_wf h -> hc_prefix h = hc_prefix (rw_hot w) -> shrinks h (rw_hot w) -> kv_ok (rw_set_hot h w).
Proof.
  intros [[H1 H2 H3 H4 H5] Ha] Hw Hp Hs. split; [split; cbn [rw_set_hot rw_db rw_hot]; try done; by rewrite Hp|].
  intros c x Hx. apply Ha. by apply Hs.
Qed.
Lemma kv_ok_sys w s : kv_ok w -> (k_clock (rw_sys w) <= k_clock s)%nat -> kv_ok (rw_set_sys s w).
Proof.
  intros [[H1 H2 H3 H4 H5] Ha] Hk. split; [by split|]. intros c x Hx. destruct (Ha c x Hx) as [?|?]; [by left|right].
  by eapply gone_by_le.
Qed.
Lemma kv_ok_count f w : kv_ok w -> kv_ok (rw_count f w).
Proof. by intros [[H1 H2 H3 H4 H5] H6]. Qed.
Lemma kv_ok_count_read us w : kv_ok w -> kv_ok (rw_count_read us w).
Proof. by intros [[H1 H2 H3 H4 H5] H6]. Qed.
Lemma kv_ok_bump env c w : kv_ok w -> kv_ok (rw_bump env c w).
Proof.
  intros H. apply kv_ok_hot; [done|apply hot_bump_wf, H|unfold hot_bump; by case_if|].
  intros c' x. unfold hot_bump. by case_if.
Qed.
Lemma kv_ok_code w c h : kv_ok w -> hot_code (rw_hot w) = (c, h) ->
  kv_ok (rw_set_hot h w) /\ code_ok c = true /\ length c = 8%nat.
Proof.
  intros H [= <- <-]. split; [apply kv_ok_hot; [done|by apply (hot_code_wf (rw_hot w)), H|done|by intros c x]|].
  split; [|reflexivity]. destruct (draw_suffix_spec 7 (hc_draws (rw_hot w))) as [Hl Hf].
  apply (code_shape_ok (hc_prefix (rw_hot w))); [apply H|]. split_and!; [reflexivity|done|exact Hf].
Qed.

(** A cached row of the table. *)
Lemma kv_ok_put_cached c u e w : kv_ok w -> kv_table w !! c = Some (u, e) -> kv_ok (rw_cache_put os c u e w).
Proof.
  intros [[H1 H2 H3 H4 H5] Ha] Ht. unfold rw_cache_put. destruct (cache_put os c u e (rw_hot w) (rw_sys w)) as [h s] eqn:Ep.
  pose proof (f_equal fst Ep) as Eh. pose proof (f_equal snd Ep) as Es. cbn [fst snd] in Eh, Es. subst h s.
  split; [split; cbn [rw_set_hot rw_set_sys rw_db rw_hot]; try done; by apply cache_put_wf|].
  intros c' x Hx. cbn [rw_set_hot rw_set_sys rw_hot] in Hx. destruct (decide (c' = c)) as [->|Hne].
  - rewrite cached_put in Hx by done. injection Hx as <-. by left.
  - apply cached_put_ne in Hx; [|done..]. destruct (Ha c' x Hx) as [?|?]; [by left|right].
    eapply gone_by_le; [|done]. cbn. lia.
Qed.

(** *** Changes of the cells *)

(** A row written or removed while its code is not cached any more, or was
    not in the table before. *)
Lemma kv_ok_cells w kv : kv_ok w -> srv_ok kv -> typed (srv_cells kv) ->
  (forall c v, code_ok c = true -> srv_cells kv !! row_cell c = Some v -> exists e cr u, dec v = Some (e, cr, u) /\ exp_fits e) ->
  (forall c, is_Some (cached (rw_hot w) c) -> is_Some (kv_table w !! c) -> kv_table (rw_set_db kv w) !! c = kv_table w !! c) ->
  kv_ok (rw_set_db kv w).
Proof.
  intros [[H1 H2 H3 H4 H5] Ha] Hok Ht Hv Hc. split; [by split|]. intros c x Hx. destruct (Ha c x Hx) as [E|?]; [left|by right].
  rewrite Hc; [done|by eexists|by rewrite E].
Qed.

(** ** The commands of the store *)
Lemma on_kv_ret {A} (f : K -> Out A K) w x kv : f (rw_db w) = Ret x kv -> on_kv f w = Ret x (rw_set_db kv w).
Proof. intros H. unfold on_kv. by rewrite H. Qed.

Lemma kv_row_spec c w : kv_wf w ->
  exists kv, on_kv (kv_row cfg c) w = Ret (srv_cells (rw_db w) !! row_cell c) (rw_set_db kv w) /\ left_with kv (srv_cells (rw_db w)).
Proof.
  intros [H1 H2 _ _ _]. unfold row_cell, kv_row. destruct (layout_hash cfg) eqn:El.
  - destruct (kv_hget_spec (bkey cfg c) c _ H1 (typed_hash _ _ H2 El)) as (kv & E & ?). exists kv. by rewrite (on_kv_ret _ _ _ _ E).
  - destruct (kv_get_spec (lkey c) _ H1 (typed_str _ _ H2 El)) as (kv & E & ?). exists kv. by rewrite (on_kv_ret _ _ _ _ E).
Qed.

Lemma kv_new_spec c v ttl w : kv_ok w -> ttl_fits ttl ->
  let free := absent (srv_cells (rw_db w)) (row_cell c) in
  exists kv, on_kv (kv_new cfg c v ttl) w = Ret free (rw_set_db kv w) /\
    left_with kv (if free then <[row_cell c := v]> (srv_cells (rw_db w)) else srv_cells (rw_db w)).
Proof.
  intros [[H1 H2 _ _ _] _] Hf. unfold row_cell, kv_new. destruct (layout_hash cfg) eqn:El.
  - destruct (kv_hsetnx_spec (bkey cfg c) c v _ H1 (typed_hash _ _ H2 El)) as (kv & E & ?). exists kv. by rewrite (on_kv_ret _ _ _ _ E).
  - specialize (Hf El). destruct (kv_set_spec (lkey c) v ttl true _ H1 (typed_str _ _ H2 El) ltac:(lia)) as (kv & E & ?).
    exists kv. by rewrite (on_kv_ret _ _ _ _ E).
Qed.

(** A node that looked at its cells. *)
Lemma kv_ok_same w kv : kv_ok w -> left_with kv (srv_cells (rw_db w)) ->
  kv_ok (rw_set_db kv w) /\ kv_table (rw_set_db kv w) = kv_table w.
Proof.
  intros H [Hok Hc]. assert (Ht : kv_table (rw_set_db kv w) = kv_table w) by (unfold kv_table; by rewrite <- Hc).
  split; [|done]. apply kv_ok_cells; [done|done|by rewrite Hc; apply H|rewrite Hc; apply H|]. intros c _ _. by rewrite Ht.
Qed.

(** A row written: the code is new, or is not cached. *)
Lemma kv_ok_insert w kv c e cr u : kv_ok w -> code_ok c = true -> in_i64 e -> in_i64 cr -> exp_fits e ->
  cached (rw_hot w) c = None \/ kv_table w !! c = None ->
  left_with kv (<[row_cell c := enc e cr u]> (srv_cells (rw_db w))) ->
  kv_ok (rw_set_db kv w) /\ kv_table (rw_set_db kv w) = <[c := (u, e)]> (kv_table w).
Proof.
  intros H Hc He Hcr Hf Hn [Hok Hm].
  assert (Ht : kv_table (rw_set_db kv w) = <[c := (u, e)]> (kv_table w)).
  { apply map_eq. intros c'. unfold kv_table. cbn [rw_set_db rw_db]. rewrite Hm, cells_table_lookup.
    destruct (decide (c' = c)) as [->|Hne].
    - rewrite !lookup_insert_eq, Hc. simpl. unfold value_row. by rewrite dec_enc.
    - rewrite !lookup_insert_ne, cells_table_lookup; [done|done|]. intros E. by apply Hne, row_cell_inj. }
  split; [|done]. apply kv_ok_cells; [done|done| | |].
  - rewrite Hm. apply typed_insert; [apply row_typed|apply H].
  - intros c' v Hc'. rewrite Hm. destruct (decide (row_cell c' = row_cell c)) as [->|Hne].
    + rewrite lookup_insert_eq. intros [= <-]. exists e, cr, u. by rewrite dec_enc.
    + rewrite lookup_insert_ne by done. by apply H.
  - intros c' [x Hx] [r Hr]. rewrite Ht. apply lookup_insert_ne. intros ->. destruct Hn; congruence.
Qed.

(** ** The operations *)
Hint Resolve now_range expiry_i64 : core.

Lemma expiry_fits s ttl : ttl_fits ttl -> exp_fits (expiry (fst (now_ms os s)) ttl).
Proof.
  intros Hf Hl. specialize (Hf Hl). pose proof (Hclock Hl (k_clock s)) as Hn. unfold expiry. cbn [now_ms fst].
  case_if; bool_facts; [|lia]. rewrite i64_id; [lia|unfold in_i64; lia].
Qed.

(** A link created under a code, free or not. *)
Lemma kv_create_spec c u s ttl w : kv_ok w -> code_ok c = true -> ttl_fits ttl ->
  let now := fst (now_ms os s) in
  let free := bool_decide (kv_table w !! c = None) in
  exists w', on_kv (kv_new cfg c (enc (expiry now ttl) now u) ttl) w = Ret free w' /\ kv_ok w' /\ rw_sys w' = rw_sys w /\
    kv_table w' = if free then <[c := (u, expiry now ttl)]> (kv_table w) else kv_table w.
Proof.
  intros H Hc Hf now free. destruct (kv_new_spec c (enc (expiry now ttl) now u) ttl w H Hf) as (kv & E & Hl).
  assert (Ea : absent (srv_cells (rw_db w)) (row_cell c) = free) by (apply absent_row; [apply H|done]).
  rewrite Ea in E, Hl. exists (rw_set_db kv w). split; [done|]. unfold free in *. case_bool_decide as Hn.
  - destruct (kv_ok_insert w kv c (expiry now ttl) now u H Hc) as [H1 H2]; try done; [unfold now; auto..|by apply expiry_fits|by right].
  - destruct (kv_ok_same w kv H Hl) as [H1 H2]. by split_and!.
Qed.

Lemma kv_fresh_spec n u s ttl : ttl_fits ttl -> forall w, kv_ok w ->
  let now := fst (now_ms os s) in
  match kv_fresh cfg n u (expiry now ttl) now ttl w with
  | Ret r w' => exists c, r = Some c /\ kv_ok w' /\ kv_table w !! c = None /\ code_ok c = true /\ length c = 8%nat /\
      kv_table w' = <[c := (u, expiry now ttl)]> (kv_table w) /\ rw_sys w' = rw_sys w
  | Raise _ => False
  | Hang => True
  end.
Proof.
  intros Hf. cbv zeta. induction n as [|n IH]; intros w H; cbn [kv_fresh]; [done|].
  destruct (hot_code (rw_hot w)) as [c h] eqn:Ec. destruct (kv_ok_code w c h H Ec) as (Ho & Hc & Hl).
  destruct (kv_create_spec c u s ttl _ Ho Hc Hf) as (w' & -> & H1 & H2 & H3). case_bool_decide as Hn.
  - exists c. by split_and!.
  - specialize (IH w' H1). destruct (kv_fresh cfg n u _ _ ttl w'); [|done..].
    destruct IH as (c' & -> & G1 & G2 & G3 & G4 & G5 & G6). exists c'. rewrite H3 in *. rewrite H2 in G6. by split_and!.
Qed.

Lemma kv_shorten_spec n u alias ttl w : kv_ok w -> (forall c, alias = Some c -> code_ok c = true) -> ttl_fits ttl ->
  match kv_shorten os cfg n u alias ttl w with
  | Ret (Some c) w' => kv_ok w' /\ kv_table w !! c = None /\
      (alias = Some c \/ (alias = None /\ code_ok c = true /\ length c = 8%nat)) /\
      kv_table w' = <[c := (u, expiry (fst (now_ms os (rw_sys w))) ttl)]> (kv_table w) /\ rw_sys w' = snd (now_ms os (rw_sys w))
  | Ret None w' => kv_ok w' /\ kv_table w' = kv_table w /\ (exists c, alias = Some c /\ is_Some (kv_table w !! c))
  | Raise _ => False
  | Hang => alias = None
  end.
Proof.
  intros H Ha Hf. unfold kv_shorten. rewrite (surjective_pairing (now_ms os _)). cbv beta iota zeta.
  change (rw_sys (rw_count store_write w)) with (rw_sys w). set (w1 := rw_set_sys _ (rw_count _ w)).
  assert (H1 : kv_ok w1) by (apply kv_ok_sys; [by apply kv_ok_count|simpl; lia]).
  destruct alias as [c|].
  - destruct (kv_create_spec c u (rw_sys w) ttl w1 H1 (Ha c eq_refl) Hf) as (w' & -> & H2 & H3 & H4). cbn [out_bind].
    change (kv_table w1) with (kv_table w) in *. case_bool_decide as Hn; split_and!; auto.
    exists c. split; [done|]. by apply not_eq_None_Some.
  - pose proof (kv_fresh_spec n u (rw_sys w) ttl Hf w1 H1) as Hr. cbv zeta in Hr.
    destruct (kv_fresh cfg n u _ _ ttl w1); [|done..]. destruct Hr as (c & -> & H2 & H3 & H4 & H5 & H6 & H7). split_and!; auto.
Qed.

(** With a clock that does not go back, an expired entry is never served. *)
Lemma kv_hit_spec c w u1 h1 s1 : clock_steady os -> kv_ok w -> cache_get os c (rw_hot w) (rw_sys w) = (Some u1, h1, s1) ->
  (k_clock (rw_sys w) < k_clock s1)%nat /\
  exists e, kv_table w !! c = Some (u1, e) /\ (e = 0 \/ fst (now_ms os (rw_sys w)) < e).
Proof.
  intros Hst [Hw Ha] Eg. destruct (cache_get_spec os c _ _ _ h1 s1 (kvo_hot w Hw) Eg) as (_ & _ & _ & _ & _ & _ & _ & Hr).
  destruct Hr as (x & Hx & -> & Hk & Hl). split; [done|]. exists (k_e x).
  destruct (Ha c x Hx) as [?|[Hne (j & Hj & He)]]; [done|]. exfalso. destruct Hl as [?|Hl]; [done|].
  cbn [now_ms fst] in Hl. specialize (Hst j (k_clock (rw_sys w)) ltac:(lia)). lia.
Qed.

Lemma kv_resolve_spec env us c w : clock_steady os -> kv_ok w -> code_ok c = true ->
  exists r w', kv_resolve os env us cfg c w = Ret r w' /\ kv_ok w' /\ kv_table w' = kv_table w /\
  match kv_table w !! c with
  | Some (u, e) => (e = 0 -> r = Some u) /\
      (e ≠ 0 -> exists now, read_during os (rw_sys w) (rw_sys w') now /\ r = (if now <? e then Some u else None))
  | None => r = None
  end.
Proof.
  intros Hst H Hc. unfold kv_resolve, rw_cache_get. destruct (cache_get os c (rw_hot w) (rw_sys w)) as [[r1 h1] s1] eqn:Eg.
  destruct (cache_get_spec os c _ _ r1 h1 s1 (kvo_hot w (proj1 H)) Eg) as (Hw1 & Hs1 & _ & Hk1 & Hp1 & _).
  set (w1 := rw_set_hot h1 (rw_set_sys s1 w)).
  assert (H1 : kv_ok w1) by (by apply (kv_ok_hot (rw_set_sys s1 w)); [apply kv_ok_sys|..]).
  destruct r1 as [u1|].
  - destruct (kv_hit_spec c w u1 h1 s1 Hst H Eg) as (Hk & e & Ht & Hl). eexists _, _. split; [reflexivity|].
    split; [by apply kv_ok_bump, kv_ok_count|]. split; [done|]. rewrite Ht. split; [done|]. intros He.
    exists (fst (now_ms os (rw_sys w))). split; [by apply read_now|]. destruct Hl as [?|Hl]; [done|]. by rewrite (proj2 (Z.ltb_lt _ _) Hl).
  - destruct (kv_row_spec c (rw_count cache_miss w1) (proj1 (kv_ok_count _ _ H1))) as (kv & E & Hl). rewrite E. cbn [out_bind].
    destruct (kv_ok_same _ kv (kv_ok_count cache_miss _ H1) Hl) as [H2 Ht2].
    change (kv_table (rw_count cache_miss w1)) with (kv_table w) in Ht2.
    set (w2 := rw_count_read us _) in *. assert (H3 : kv_ok w2) by by apply kv_ok_count_read.
    assert (Ht3 : kv_table w2 = kv_table w) by done. change (srv_cells (rw_db (rw_count cache_miss w1))) with (srv_cells (rw_db w)).
    destruct (srv_cells (rw_db w) !! row_cell c) as [v|] eqn:Ev.
    2:{ eexists _, _. split; [reflexivity|]. split_and!; try done. by rewrite (proj2 (kv_table_none w c (proj1 H) Hc) Ev). }
    destruct (kvo_values w (proj1 H) c v Hc Ev) as (e & cr & u & Hd & _). rewrite Hd.
    pose proof (kv_table_some w c v e cr u Hc Ev Hd) as Ht. rewrite Ht.
    assert (Hput : forall s, (k_clock s1 <= k_clock s)%nat -> kv_ok (rw_bump env c (rw_cache_put os c u e (rw_set_sys s w2)))).
    { intros s Hs. apply kv_ok_bump, kv_ok_put_cached; [by apply kv_ok_sys|exact (eq_trans (f_equal (lookup c) Ht3) Ht)]. }
    assert (Hpt : forall s, kv_table (rw_bump env c (rw_cache_put os c u e (rw_set_sys s w2))) = kv_table w).
    { intros s. unfold rw_cache_put. by destruct (cache_put _ _ _ _ _ _). }
    unfold live. destruct (e =? 0) eqn:E0; bool_facts.
    + eexists _, _. split; [reflexivity|]. split; [by apply Hput|]. by split_and!.
    + cbn [now_ms]. change (rw_sys w2) with s1. destruct (i64 (os_clock os (k_clock s1)) <? e) eqn:El.
      * eexists _, _. split; [reflexivity|]. split; [apply Hput; simpl; lia|]. split; [by apply Hpt|]. split; [done|]. intros _.
        exists (fst (now_ms os s1)). cbn [now_ms fst]. rewrite El. split; [|done]. exists (k_clock s1). split; [|done].
        split; [done|]. unfold rw_cache_put. cbn [cache_put]. simpl. lia.
      * eexists _, _. split; [reflexivity|]. split; [apply kv_ok_sys; [done|simpl; lia]|]. split_and!; try done. intros _.
        exists (fst (now_ms os s1)). cbn [now_ms fst]. rewrite El.
        split; [|done]. exists (k_clock s1). split; [split; [done|]; simpl; lia|done].
Qed.

(** A lookup that the cache does not answer gives what the server has. *)
Lemma kv_resolve_miss env us c w h1 s1 : kv_wf w -> code_ok c = true -> (k_clock (rw_sys w) <= k_clock s1)%nat ->
  cache_get os c (rw_hot w) (rw_sys w) = (None, h1, s1) ->
  exists r w', kv_resolve os env us cfg c w = Ret r w' /\
  match kv_table w !! c with
  | Some (u, e) => (e = 0 -> r = Some u) /\
      (e ≠ 0 -> exists now, read_during os (rw_sys w) (rw_sys w') now /\ r = (if now <? e then Some u else None))
  | None => r = None
  end.
Proof.
  intros H Hc Hk Eg. unfold kv_resolve, rw_cache_get. rewrite Eg. set (w1 := rw_set_hot h1 (rw_set_sys s1 w)).
  assert (Hw1 : exists kv, on_kv (kv_row cfg c) (rw_count cache_miss w1) =
    Ret (srv_cells (rw_db w) !! row_cell c) (rw_set_db kv (rw_count cache_miss w1))).
  { destruct (kv_row_spec c w H) as (kv & E & _). exists kv. unfold on_kv in *. change (rw_db (rw_count cache_miss w1)) with (rw_db w).
    destruct (kv_row cfg c (rw_db w)); [|done..]. by injection E as -> ->. }
  destruct Hw1 as (kv & ->). cbn [out_bind].
  destruct (srv_cells (rw_db w) !! row_cell c) as [v|] eqn:Ev.
  2:{ eexists _, _. split; [reflexivity|]. by rewrite (proj2 (kv_table_none w c H Hc) Ev). }
  destruct (kvo_values w H c v Hc Ev) as (e & cr & u & Hd & _). rewrite Hd, (kv_table_some w c v e cr u Hc Ev Hd).
  unfold live. destruct (e =? 0) eqn:E0; bool_facts; [eexists _, _; by split|].
  cbn [now_ms]. change (rw_sys (rw_count_read us (rw_set_db kv (rw_count cache_miss w1)))) with s1.
  destruct (i64 (os_clock os (k_clock s1)) <? e) eqn:El; (eexists _, _; split; [reflexivity|]; split; [done|]; intros _;
    exists (fst (now_ms os s1)); cbn [now_ms fst]; rewrite El; split; [|done]; exists (k_clock s1); split; [|done]; split; [done|]).
  - unfold rw_cache_put. cbn [cache_put]. simpl. lia.
  - simpl. lia.
Qed.

(** The write of an update. *)
Lemma kv_write_spec c e cr u w : kv_ok w -> exp_fits e ->
  exists kv s,
    (if layout_hash cfg then on_kv (kv_hset (bkey cfg c) c (enc e cr u)) w
     else
       let '(px, s) := if 0 <? e then let '(now, s) := now_ms os (rw_sys w) in (i64 (e - now), s) else (0, rw_sys w) in
       on_kv (kv_set (lkey c) (enc e cr u) px false) (rw_set_sys s w)) = Ret true (rw_set_db kv (rw_set_sys s w)) /\
    (k_clock (rw_sys w) <= k_clock s)%nat /\ left_with kv (<[row_cell c := enc e cr u]> (srv_cells (rw_db w))).
Proof.
  intros [[H1 H2 _ _ _] _] Hf. unfold row_cell. destruct (layout_hash cfg) eqn:El.
  - destruct (kv_hset_spec (bkey cfg c) c (enc e cr u) _ H1 (typed_hash _ _ H2 El)) as (kv & E & Hl).
    exists kv, (rw_sys w). by rewrite (on_kv_ret _ _ _ _ E).
  - specialize (Hf El). destruct (if 0 <? e then _ else _) as [px s] eqn:Ep.
    assert (Hp : px < 2 ^ 62 /\ (k_clock (rw_sys w) <= k_clock s)%nat).
    { pose proof (Hclock El (k_clock (rw_sys w))) as Hn. cbn [now_ms] in Ep. destruct (0 <? e) eqn:E0; injection Ep as <- <-; bool_facts; [|lia].
      rewrite i64_id; [split; [lia|simpl; lia]|unfold in_i64; lia]. }
    destruct (kv_set_spec (lkey c) (enc e cr u) px false (rw_db (rw_set_sys s w)) H1 (typed_str _ _ H2 El) (proj1 Hp)) as (kv & E & Hl).
    exists kv, s. rewrite (on_kv_ret _ _ _ _ E). split; [done|]. split; [apply Hp|exact Hl].
Qed.

Lemma kv_ok_cache_del c w : kv_ok w -> kv_ok (rw_cache_del c w) /\ cached (rw_hot (rw_cache_del c w)) c = None.
Proof.
  intros H. split; [apply kv_ok_hot; [done|apply cache_del_wf, H|done|apply cache_del_shrinks, H]|].
  unfold rw_cache_del. cbn [rw_set_hot rw_hot]. rewrite cached_del by apply H. by rewrite decide_True.
Qed.

(** The new expiry of an update. *)
Lemma update_expiry (has : bool) e ttl s exp s' : in_i64 e -> exp_fits e -> ttl_fits ttl ->
  (if has then if 0 <? ttl then let '(now, s) := now_ms os s in (i64 (now + ttl), s) else (0, s) else (e, s)) = (exp, s') ->
  in_i64 exp /\ exp_fits exp /\ (k_clock s <= k_clock s')%nat /\
  if has then exists now, (0 < ttl -> now = fst (now_ms os s) /\ s' = snd (now_ms os s)) /\ exp = expiry now ttl else exp = e.
Proof.
  intros He Hf Ht. destruct has; [|by intros [= <- <-]].
  pose proof (expiry_fits s ttl Ht) as Hx. pose proof (expiry_i64 (fst (now_ms os s)) ttl) as Hr.
  destruct (0 <? ttl) eqn:E0; bool_facts.
  - cbn [now_ms]. intros [= <- <-]. assert (Ee : expiry (fst (now_ms os s)) ttl = i64 (i64 (os_clock os (k_clock s)) + ttl))
      by (unfold expiry; by rewrite (proj2 (Z.ltb_lt _ _) E0)).
    rewrite Ee in *. split_and!; try done; [simpl; lia|]. exists (fst (now_ms os s)). by rewrite Ee.
  - intros [= <- <-]. assert (Ee : forall now, expiry now ttl = 0) by (intros; unfold expiry; by rewrite (proj2 (Z.ltb_ge _ _) E0)).
    rewrite Ee in *. split_and!; try done. exists 0. split; [lia|by rewrite Ee].
Qed.

Lemma kv_update_spec c u ttl has w : kv_ok w -> code_ok c = true -> ttl_fits ttl ->
  exists r w', kv_update os cfg c u ttl has w = Ret r w' /\ kv_ok w' /\
  match r with
  | MOk => exists u0 e0 e, kv_table w !! c = Some (u0, e0) /\ kv_table w' = <[c := (u, e)]> (kv_table w) /\
      cached (rw_hot w') c = None /\
      if has : bool then exists now, (0 < ttl -> read_during os (rw_sys w) (rw_sys w') now) /\ e = expiry now ttl else e = e0
  | MMissing => kv_table w !! c = None /\ kv_table w' = kv_table w
  | MRemote => False
  end.
Proof.
  intros H Hc Hf. unfold kv_update. destruct (kv_row_spec c w (proj1 H)) as (kv & -> & Hl). cbn [out_bind].
  destruct (kv_ok_same w kv H Hl) as [H1 Ht1]. destruct (srv_cells (rw_db w) !! row_cell c) as [v|] eqn:Ev.
  2:{ eexists _, _. split; [reflexivity|]. split_and!; try done. by apply kv_table_none; [apply H| |]. }
  destruct (kvo_values w (proj1 H) c v Hc Ev) as (e0 & cr & u0 & Hd & He0). rewrite Hd.
  pose proof (kv_table_some w c v e0 cr u0 Hc Ev Hd) as Ht. destruct (dec_range _ _ _ _ Hd) as [Hr0 Hcr].
  change (rw_sys (rw_set_db kv w)) with (rw_sys w). destruct (if has then _ else _) as [exp s] eqn:Ee.
  destruct (update_expiry has e0 ttl _ exp s Hr0 He0 Hf Ee) as (Hx1 & Hx2 & Hx3 & Hx4).
  assert (H2 : kv_ok (rw_set_sys s (rw_set_db kv w))) by by apply kv_ok_sys.
  destruct (kv_write_spec c exp cr u _ H2 Hx2) as (kv2 & s2 & -> & Hk2 & Hl2). cbn [out_bind].
  eexists _, _. split; [reflexivity|]. set (w2 := rw_set_sys s2 _) in *.
  assert (H3 : kv_ok w2) by by apply (kv_ok_sys _ s2). destruct (kv_ok_cache_del c w2 H3) as [H4 Hn4].
  destruct (kv_ok_insert (rw_cache_del c w2) kv2 c exp cr u H4 Hc Hx1 Hcr Hx2 (or_introl Hn4)) as [H5 Ht5]; [exact Hl2|].
  split; [exact H5|]. exists u0, e0, exp. split; [done|]. split; [|split; [exact Hn4|]].
  - rewrite <- Ht1. exact Ht5.
  - destruct has; [|done]. destruct Hx4 as (now & Hn & ->). exists now. split; [|done]. intros Hp. destruct (Hn Hp) as [-> ->].
    apply read_now. cbn [rw_cache_del rw_set_hot rw_sys rw_set_db w2 rw_set_sys]. simpl in Hk2 |- *. lia.
Qed.

(** Removing a row and its counter. *)
Lemma kv_del_cell c w : kv_ok w ->
  (exists kv, on_kv (if layout_hash cfg then kv_hdel (bkey cfg c) c else kv_del (lkey c)) w =
     Ret (if absent (srv_cells (rw_db w)) (row_cell c) then 0 else 1) (rw_set_db kv w) /\ left_with kv (delete (row_cell c) (srv_cells (rw_db w)))) /\
  (exists n kv, on_kv (if layout_hash cfg then kv_hdel (bkey cfg c) (hfield c) else kv_del (hkey c)) w = Ret n (rw_set_db kv w) /\
     left_with kv (delete (hit_cell c) (srv_cells (rw_db w)))).
Proof.
  intros [[H1 H2 _ _ _] _]. unfold row_cell, hit_cell. destruct (layout_hash cfg) eqn:El; split.
  - destruct (kv_hdel_spec (bkey cfg c) c _ H1 (typed_hash _ _ H2 El)) as (kv & E & ?). exists kv. by rewrite (on_kv_ret _ _ _ _ E).
  - destruct (kv_hdel_spec (bkey cfg c) (hfield c) _ H1 (typed_hash _ _ H2 El)) as (kv & E & ?). eexists _, kv. by rewrite (on_kv_ret _ _ _ _ E).
  - destruct (kv_del_spec (lkey c) _ H1 (typed_str _ _ H2 El)) as (kv & E & ?). exists kv. by rewrite (on_kv_ret _ _ _ _ E).
  - destruct (kv_del_spec (hkey c) _ H1 (typed_str _ _ H2 El)) as (kv & E & ?). eexists _, kv. by rewrite (on_kv_ret _ _ _ _ E).
Qed.

Lemma kv_table_delete c kv w : code_ok c = true ->
  srv_cells kv = delete (row_cell c) (srv_cells (rw_db w)) -> kv_table (rw_set_db kv w) = delete c (kv_table w).
Proof.
  intros Hc Hm. apply map_eq. intros c'. unfold kv_table. cbn [rw_set_db rw_db]. rewrite Hm, cells_table_lookup.
  destruct (decide (c' = c)) as [->|Hne].
  - rewrite !lookup_delete_eq. by case_if.
  - rewrite !lookup_delete_ne, cells_table_lookup; [done|done|]. intros E. by apply Hne, row_cell_inj.
Qed.

Lemma kv_table_hits c kv w : srv_cells kv = delete (hit_cell c) (srv_cells (rw_db w)) -> kv_table (rw_set_db kv w) = kv_table w.
Proof.
  intros Hm. apply map_eq. intros c'. unfold kv_table. cbn [rw_set_db rw_db]. rewrite Hm, !cells_table_lookup.
  destruct (code_ok c') eqn:Hc; [|done]. rewrite lookup_delete_ne; [done|]. intros E. symmetry in E. by eapply row_hit_ne.
Qed.

(** A cell less, if its row is not cached. *)
Lemma kv_ok_delete w kv cell : kv_ok w -> left_with kv (delete cell (srv_cells (rw_db w))) ->
  (forall c, code_ok c = true -> row_cell c = cell -> cached (rw_hot w) c = None) -> kv_ok (rw_set_db kv w).
Proof.
  intros H [Hok Hm] Hn. apply kv_ok_cells; [done|done|rewrite Hm; apply typed_delete, H| |].
  - intros c v Hc. rewrite Hm. intros [_ Hv]%lookup_delete_Some. by apply (kvo_values w (proj1 H) c v).
  - intros c [x Hx] _. unfold kv_table. cbn [rw_set_db rw_db]. rewrite Hm, !cells_table_lookup. destruct (code_ok c) eqn:Hc; [|done].
    rewrite lookup_delete_ne; [done|]. intros E. specialize (Hn c Hc (eq_sym E)). congruence.
Qed.

Lemma kv_remove_spec c w : kv_ok w -> code_ok c = true ->
  exists r w', kv_remove cfg c w = Ret r w' /\ kv_ok w' /\ rw_sys w' = rw_sys w /\
  match r with
  | MOk => is_Some (kv_table w !! c) /\ kv_table w' = delete c (kv_table w) /\ cached (rw_hot w') c = None /\
      srv_cells (rw_db w') !! hit_cell c = None
  | MMissing => kv_table w !! c = None /\ kv_table w' = kv_table w
  | MRemote => False
  end.
Proof.
  intros H Hc. unfold kv_remove. cbv zeta. destruct (kv_del_cell c w H) as [(kv & -> & Hl) _]. cbn [out_bind].
  pose proof (absent_row w c (proj1 H) Hc) as Ea. rewrite Ea. case_bool_decide as Hn.
  - eexists _, _. split; [reflexivity|]. apply kv_table_none in Hn as Hn'; [|apply H|done]. rewrite delete_id in Hl by done.
    destruct (kv_ok_same w kv H Hl) as [H1 Ht1]. by split_and!.
  - change (1 <=? 0) with false. cbv iota. destruct (kv_ok_cache_del c w H) as [Hd Hdn].
    assert (H1 : kv_ok (rw_set_db kv (rw_cache_del c w))).
    { eapply kv_ok_delete; [done|exact Hl|]. intros c' _ ->%row_cell_inj. done. }
    destruct (kv_del_cell c (rw_set_db kv (rw_cache_del c w)) H1) as [_ (n & kv2 & E & Hl2)].
    assert (E2 : on_kv (if layout_hash cfg then kv_hdel (bkey cfg c) (hfield c) else kv_del (hkey c)) (rw_set_db kv w) = Ret n (rw_set_db kv2 (rw_set_db kv w))).
    { unfold on_kv in *. cbn [rw_set_db rw_db] in *. by destruct (_ kv) as [n' kv'| |]; simplify_eq. }
    rewrite E2. cbn [out_bind]. eexists _, _. split; [reflexivity|].
    assert (H2 : kv_ok (rw_set_db kv2 (rw_set_db kv (rw_cache_del c w)))).
    { eapply kv_ok_delete; [done|exact Hl2|]. intros c' Hc' E'. by apply row_hit_ne in E'. }
    split; [exact H2|]. split; [done|]. split; [by apply not_eq_None_Some|]. split; [|split; [exact Hdn|]].
    + etrans; [exact (kv_table_hits c kv2 _ (proj2 Hl2))|]. exact (kv_table_delete c kv (rw_cache_del c w) Hc (proj2 Hl)).
    + cbn. rewrite (proj2 Hl2). apply lookup_delete_eq.
Qed.

(** ** Hits *)
Definition count_of (v : option bytes) : Z := match v with Some v => default 0 (stoll v) | None => 0 end.
Lemma counter_count m c n : counter_in m c n -> count_of (m !! c) = n.
Proof. intros [[-> ->]|[-> Hn]]; [done|]. simpl. by rewrite stoll_to_string. Qed.

(** What [stats] reports. *)
Definition stats_of (c : bytes) w : option Link :=
  match srv_cells (rw_db w) !! row_cell c ≫= dec with
  | Some (e, cr, u) =>
      let h := count_of (srv_cells (rw_db w) !! hit_cell c) in
      Some (mkLink c u (match dirty_hits (rw_hot w) c with Some n => i64 (h + n) | None => h end) cr e)
  | None => None
  end.

Lemma kv_hit_row_spec c w : kv_ok w ->
  exists kv, on_kv (if layout_hash cfg then kv_hget (bkey cfg c) (hfield c) else kv_get (hkey c)) w =
    Ret (srv_cells (rw_db w) !! hit_cell c) (rw_set_db kv w) /\ left_with kv (srv_cells (rw_db w)).
Proof.
  intros [[H1 H2 _ _ _] _]. unfold hit_cell. destruct (layout_hash cfg) eqn:El.
  - destruct (kv_hget_spec (bkey cfg c) (hfield c) _ H1 (typed_hash _ _ H2 El)) as (kv & E & ?). exists kv. by rewrite (on_kv_ret _ _ _ _ E).
  - destruct (kv_get_spec (hkey c) _ H1 (typed_str _ _ H2 El)) as (kv & E & ?). exists kv. by rewrite (on_kv_ret _ _ _ _ E).
Qed.

Lemma kv_stats_spec c w : kv_ok w -> exists w', kv_stats cfg c w = Ret (stats_of c w) w'.
Proof.
  intros H. unfold kv_stats, stats_of. destruct (kv_row_spec c w (proj1 H)) as (kv & -> & Hl). cbn [out_bind].
  destruct (kv_ok_same w kv H Hl) as [H1 _]. destruct (kv_hit_row_spec c _ H1) as (kv2 & -> & _). cbn [out_bind].
  change (rw_db (rw_set_db kv w)) with kv. rewrite (proj2 Hl).
  destruct (srv_cells (rw_db w) !! row_cell c) as [v|]; [|by eexists]. cbn [option_bind]. simpl.
  destruct (dec v) as [[[e cr] u]|]; by eexists.
Qed.

(** The increments of a flush. *)
Definition incr_cmd (cn : bytes * Z) : list bytes :=
  if layout_hash cfg then [B "HINCRBY"; bkey cfg (fst cn); hfield (fst cn); to_string (snd cn)] else [B "INCRBY"; hkey (fst cn); to_string (snd cn)].

Lemma incr_answered c d n kv : srv_ok kv -> typed (srv_cells kv) -> counter_in (srv_cells kv) (hit_cell c) n -> in_i64 d -> in_i64 (n + d) ->
  answered srv_ok srv_cells (srv_exec (incr_cmd (c, d)) kv) (int_reply (n + d)) (<[hit_cell c := to_string (n + d)]> (srv_cells kv)).
Proof.
  intros H1 H2. unfold incr_cmd, hit_cell. cbn [fst snd]. destruct (layout_hash cfg) eqn:El.
  - apply law_hincrby; [done|by apply typed_hash].
  - apply law_incrby; [done|by apply typed_str].
Qed.

Lemma run_incrs ds : NoDup ds.*1 -> forall kv, srv_ok kv -> typed (srv_cells kv) ->
  (forall c d, (c, d) ∈ ds -> exists n, counter_in (srv_cells kv) (hit_cell c) n /\ in_i64 d /\ in_i64 (n + d)) ->
  let kv' := snd (run_all srv_exec (map incr_cmd ds) kv) in
  srv_ok kv' /\ typed (srv_cells kv') /\
  (forall cell, (forall c, c ∈ ds.*1 -> cell ≠ hit_cell c) -> srv_cells kv' !! cell = srv_cells kv !! cell) /\
  (forall c d, (c, d) ∈ ds -> count_of (srv_cells kv' !! hit_cell c) = count_of (srv_cells kv !! hit_cell c) + d).
Proof.
  induction ds as [|[c d] ds IH]; intros Hnd kv H1 H2 Hc; cbn [map run_all fmap list_fmap fst snd] in *.
  { split_and!; try done. intros c d Hin. by apply elem_of_nil in Hin. }
  apply NoDup_cons in Hnd as [Hnc Hnd]. destruct (Hc c d ltac:(by left)) as (n & Hn & Hd & Hnd').
  destruct (incr_answered c d n kv H1 H2 Hn Hd Hnd') as (_ & G1 & G2). destruct (srv_exec (incr_cmd (c, d)) kv) as [r kv1]. cbn [snd] in G1, G2.
  assert (Hne : forall c' : bytes, c' ∈ ds.*1 -> hit_cell c' ≠ hit_cell c) by (intros c' Hin E; apply hit_cell_inj in E as ->; done).
  destruct (IH Hnd kv1 G1) as (I1 & I2 & I3 & I4).
  - rewrite G2. apply typed_insert; [apply hit_typed|done].
  - intros c' d' Hin. destruct (Hc c' d' ltac:(by right)) as (n' & Hn' & ?). exists n'. split; [|done].
    unfold counter_in in *. rewrite G2, lookup_insert_ne; [done|]. intros E. eapply Hne; [|by symmetry].
    apply list_elem_of_fmap. by exists (c', d').
  - destruct (run_all srv_exec (map incr_cmd ds) kv1) as [rs kv']. cbn [snd] in *. split_and!; try done.
    + intros cell Hcell. rewrite I3 by (intros c' Hin; apply Hcell; by right). rewrite G2. apply lookup_insert_ne.
      intros E. eapply Hcell; [by left|by symmetry].
    + intros c' d' [[= -> ->]|Hin]%elem_of_cons.
      * rewrite I3 by (intros c' Hin; by apply not_eq_sym, Hne). rewrite G2, lookup_insert_eq. simpl. rewrite stoll_to_string by done.
        by rewrite (counter_count _ _ _ Hn).
      * rewrite (I4 c' d' Hin), G2, lookup_insert_ne; [done|]. intros E. eapply Hne; [|by symmetry].
        apply list_elem_of_fmap. by exists (c', d').
Qed.

(** The counters of the server and what is pending are numbers that add up
    without overflow. *)
Definition counts_fit w : Prop := forall c, exists n, counter_in (srv_cells (rw_db w)) (hit_cell c) n /\
  let d := default 0 (dirty_hits (rw_hot w) c) in in_i64 d /\ in_i64 (n + d).

Lemma incrby_many_spec l kv : srv_ok kv ->
  incrby_many l kv = Ret tt (snd (run_all srv_exec (map (fun kd => [B "INCRBY"; fst kd; to_string (snd kd)]) l) kv)).
Proof. intros H. destruct l as [|x l]; [done|]. cbn [incrby_many]. rewrite law_pipe by done. by destruct (run_all _ _ _). Qed.
Lemma hincrby_many_spec l kv : srv_ok kv ->
  hincrby_many l kv = Ret tt (snd (run_all srv_exec (map (fun d => [B "HINCRBY"; fst (fst d); snd (fst d); to_string (snd d)]) l) kv)).
Proof. intros H. destruct l as [|x l]; [done|]. cbn [hincrby_many]. rewrite law_pipe by done. by destruct (run_all _ _ _). Qed.

Lemma kv_flush_pipe w : kv_ok w ->
  let ds := fst (take_dirty (rw_hot w)) in
  kv_flush cfg w = Ret tt (rw_set_db (snd (run_all srv_exec (map incr_cmd ds) (rw_db w))) (rw_set_hot (snd (take_dirty (rw_hot w))) w)).
Proof.
  intros H ds. unfold kv_flush. rewrite (surjective_pairing (take_dirty (rw_hot w))). fold ds. set (w1 := rw_set_hot _ w).
  change (rw_db w) with (rw_db w1). assert (H1 : srv_ok (rw_db w1)) by apply H. unfold incr_cmd. destruct (layout_hash cfg).
  - by rewrite (on_kv_ret _ _ _ _ (hincrby_many_spec _ _ H1)), map_map.
  - by rewrite (on_kv_ret _ _ _ _ (incrby_many_spec _ _ H1)), map_map.
Qed.

(** A flush moves the pending hits to the server and changes nothing else. *)
Lemma kv_flush_spec w : kv_ok w -> counts_fit w ->
  exists w', kv_flush cfg w = Ret tt w' /\ kv_ok w' /\ kv_table w' = kv_table w /\
    forall c, dirty_hits (rw_hot w') c = None /\ (code_ok c = true -> stats_of c w' = stats_of c w).
Proof.
  intros H Hf. rewrite (kv_flush_pipe w H). set (ds := fst (take_dirty (rw_hot w))).
  destruct (take_dirty_spec (rw_hot w) (kvo_hot w (proj1 H))) as (Hnd & Hin & Hnone). fold ds in Hnd, Hin.
  assert (Hc : forall c d, (c, d) ∈ ds -> exists n, counter_in (srv_cells (rw_db w)) (hit_cell c) n /\ in_i64 d /\ in_i64 (n + d)).
  { intros c d Hd. destruct (Hf c) as (n & Hn & Hx). apply Hin in Hd. rewrite Hd in Hx. by exists n. }
  destruct (run_incrs ds Hnd (rw_db w) (kvo_srv w (proj1 H)) (kvo_typed w (proj1 H)) Hc) as (G1 & G2 & G3 & G4).
  set (kv := snd (run_all _ _ _)) in *. set (h := snd (take_dirty (rw_hot w))) in *.
  assert (H1 : kv_ok (rw_set_hot h w)).
  { apply kv_ok_hot; [done|apply take_dirty_wf, H|done|by intros c x]. }
  assert (Hrow : forall c, code_ok c = true -> srv_cells kv !! row_cell c = srv_cells (rw_db w) !! row_cell c).
  { intros c Hcok. apply G3. intros c' _ E. by eapply row_hit_ne. }
  assert (Ht : kv_table (rw_set_db kv (rw_set_hot h w)) = kv_table w).
  { apply map_eq. intros c. unfold kv_table. cbn [rw_set_db rw_db]. rewrite !cells_table_lookup.
    destruct (code_ok c) eqn:Hcok; [|done]. by rewrite Hrow. }
  eexists. split; [reflexivity|]. split_and!; [| |].
  - apply kv_ok_cells; [done|done|done| |].
    + intros c v Hcok. rewrite Hrow by done. by apply (kvo_values w (proj1 H)).
    + intros c _ _. by rewrite Ht.
  - done.
  - intros c. split; [apply Hnone|]. intros Hcok. unfold stats_of. cbn [rw_set_db rw_set_hot rw_db rw_hot]. rewrite Hrow by done.
    unfold h. rewrite Hnone. destruct (_ ≫= dec) as [[[e cr] u]|]; [|done]. do 2 f_equal.
    destruct (dirty_hits (rw_hot w) c) as [d|] eqn:Ed.
    + rewrite (G4 c d) by by apply Hin. destruct (Hf c) as (n & Hn & Hx). rewrite Ed in Hx. rewrite (counter_count _ _ _ Hn).
      by rewrite i64_id by apply Hx.
    + rewrite G3; [done|]. intros c' [[c2 d2] [-> Hc2]]%list_elem_of_fmap E. apply hit_cell_inj in E as ->. apply Hin in Hc2. cbn [fst] in Ed. congruence.
Qed.
End KvStoreFacts.
