(* ===== verification/KvBulk.v ===== *)
(** * Batches on a key-value server

    The server refuses a code that exists, also one of the same batch; the
    replies say which, and those urls get a code of their own. *)

From S2P Require Import Prelude CLib Common Aof Metrics Store StoreFacts StoreSpec App AppFacts HotCache StoreRocks RocksFacts Kv StoreKv KvServer KvStoreFacts.

(** What the commands of a batch do to the table, and which are accepted. *)
Fixpoint news (e : Z) (us cs : list bytes) (t : gmap bytes (bytes * Z)) : list bool * gmap bytes (bytes * Z) :=
  match us, cs with
  | u :: us, c :: cs =>
      match t !! c with
      | None => let '(bs, t) := news e us cs (<[c := (u, e)]> t) in (true :: bs, t)
      | Some _ => let '(bs, t) := news e us cs t in (false :: bs, t)
      end
  | _, _ => ([], t)
  end.

(** The urls and codes accepted. *)
Fixpoint kept (bs : list bool) (us cs : list bytes) : list (bytes * bytes) :=
  match bs, us, cs with
  | b :: bs, u :: us, c :: cs => if b : bool then (c, u) :: kept bs us cs else kept bs us cs
  | _, _, _ => []
  end.

Lemma news_spec e us : forall cs t, length cs = length us ->
  let '(bs, t') := news e us cs t in
  length bs = length us /\ NoDup (kept bs us cs).*1 /\
  (forall c u, (c, u) ∈ kept bs us cs -> t !! c = None /\ t' !! c = Some (u, e)) /\
  (forall c, c ∉ (kept bs us cs).*1 -> t' !! c = t !! c).
Proof.
  induction us as [|u us IH]; intros [|c cs] t Hl; try done; cbn [news].
  { split_and!; [done|constructor| |done]. intros c u H. by apply elem_of_nil in H. }
  injection Hl as Hl. destruct (t !! c) as [r|] eqn:E.
  - specialize (IH cs t Hl). destruct (news e us cs t) as [bs t']. destruct IH as (H1 & H2 & H3 & H4). cbn [kept]. split_and!; try done.
    simpl. by rewrite H1.
  - specialize (IH cs (<[c := (u, e)]> t) Hl). destruct (news e us cs _) as [bs t']. destruct IH as (H1 & H2 & H3 & H4). cbn [kept].
    assert (Hc : c ∉ (kept bs us cs).*1).
    { intros [[c' u'] [-> Hin]]%list_elem_of_fmap. destruct (H3 _ _ Hin) as [Hn _]. cbn [fst] in Hn. by rewrite lookup_insert_eq in Hn. }
    cbn [fmap list_fmap fst]. split_and!; [simpl; by rewrite H1|by constructor| |].
    + intros c' u' [[= -> ->]|Hin]%elem_of_cons; [split; [done|]; by rewrite H4, lookup_insert_eq|].
      destruct (H3 _ _ Hin) as [Hn Ht]. split; [|done]. rewrite lookup_insert_ne in Hn; [done|]. intros ->. apply Hc.
      apply list_elem_of_fmap. by exists (c', u').
    + intros c' Hc'. rewrite elem_of_cons in Hc'. rewrite H4 by tauto. apply lookup_insert_ne. intros ->. tauto.
Qed.

Section KvBulk.
Context {K : Type} {io : KvIo K} {srv : KvServer K} {std : StdImpl} {rnd : Rand} (os : Os) (cfg : KvCfg).
Context (Hclock : clock_fits os cfg).
Implicit Types w : Engine K.
Abbreviation kv_ok := (kv_ok os cfg).
Abbreviation kv_table := (kv_table cfg).

(** A reading of the clock between two moments gave the expiry. *)
Definition dated (k0 k1 : nat) (ttl e : Z) : Prop := exists k, (k0 <= k < k1)%nat /\ e = expiry (i64 (os_clock os k)) ttl.
Lemma dated_le k0 k1 k0' k1' ttl e : (k0' <= k0)%nat -> (k1 <= k1')%nat -> dated k0 k1 ttl e -> dated k0' k1' ttl e.
Proof. intros H0 H1 (k & Hk & ->). exists k. split; [lia|done]. Qed.

(** ** The pipeline *)
Lemma new_answered c v ttl kv : srv_ok kv -> typed cfg (srv_cells kv) -> ttl_fits cfg ttl ->
  let free := absent (srv_cells kv) (row_cell cfg c) in
  exists r, answered srv_ok srv_cells (srv_exec (new_cmd cfg c v ttl) kv) r
    (if free then <[row_cell cfg c := v]> (srv_cells kv) else srv_cells kv) /\ new_ok cfg r = free.
Proof.
  intros H1 H2 Hf. unfold new_cmd, row_cell, new_ok. destruct (layout_hash cfg) eqn:El.
  - eexists. split; [apply law_hsetnx; [done|by apply typed_hash with (cfg := cfg)]|]. by destruct (absent _ _).
  - specialize (Hf El). eexists. split; [apply (law_set _ _ _ true); [done|by apply typed_str with (cfg := cfg)|lia]|].
    cbn [negb orb]. by destruct (absent _ _).
Qed.

Lemma run_news s ttl us : ttl_fits cfg ttl -> forall cs w, kv_ok w -> length cs = length us -> Forall (fun c => code_ok c = true) cs ->
  let now := fst (now_ms os s) in
  let e := expiry now ttl in
  let '(rs, kv) := run_all srv_exec (zip_with (fun u c => new_cmd cfg c (enc e now u) ttl) us cs) (rw_db w) in
  kv_ok (rw_set_db kv w) /\ map (new_ok cfg) rs = fst (news e us cs (kv_table w)) /\
  kv_table (rw_set_db kv w) = snd (news e us cs (kv_table w)).
Proof.
  intros Hf. cbv zeta. set (now := fst (now_ms os s)). set (e := expiry now ttl).
  induction us as [|u us IH]; intros [|c cs] w H Hl Hcs; try done; cbn [zip_with run_all news].
  { split; [|done]. by destruct w. }
  injection Hl as Hl. apply Forall_cons in Hcs as [Hc Hcs].
  destruct (new_answered c (enc e now u) ttl (rw_db w) (kvo_srv _ _ (proj1 H)) (kvo_typed _ _ (proj1 H)) Hf) as (r & (<- & G1 & G2) & Hr).
  rewrite (absent_row cfg w c (proj1 H) Hc) in G2, Hr.
  destruct (srv_exec (new_cmd cfg c (enc e now u) ttl) (rw_db w)) as [r kv] eqn:Ex. cbn [fst snd] in *.
  assert (Hw1 : kv_ok (rw_set_db kv w) /\
    kv_table (rw_set_db kv w) = if bool_decide (kv_table w !! c = None) then <[c := (u, e)]> (kv_table w) else kv_table w).
  { case_bool_decide as Hn; [|by apply kv_ok_same].
    apply (kv_ok_insert os cfg w kv c e now u H Hc); [apply expiry_i64|apply now_range|by apply expiry_fits|by right|done]. }
  destruct Hw1 as [Hw1 Ht1]. specialize (IH cs (rw_set_db kv w) Hw1 Hl Hcs). change (rw_db (rw_set_db kv w)) with kv in IH.
  destruct (run_all srv_exec _ kv) as [rs kv2]. cbn [map]. rewrite Ht1 in IH. change (rw_set_db kv2 (rw_set_db kv w)) with (rw_set_db kv2 w) in IH.
  destruct IH as (I1 & I2 & I3). split; [done|]. rewrite Hr.
  case_bool_decide as Hn.
  - rewrite Hn. destruct (news e us cs (<[c:=(u, e)]> _)). cbn [fst snd] in *. by rewrite I2.
  - destruct (kv_table w !! c); [|done]. destruct (news e us cs (kv_table w)). cbn [fst snd] in *. by rewrite I2.
Qed.

Lemma kv_batch_spec us exp now ttl w : kv_ok w -> forall h, kv_ok (rw_set_hot h w) ->
  let '(cs, cmds, h') := kv_batch cfg us exp now ttl h in
  kv_ok (rw_set_hot h' w) /\ length cs = length us /\ Forall (fun c => code_ok c = true) cs /\
  cmds = zip_with (fun u c => new_cmd cfg c (enc exp now u) ttl) us cs.
Proof.
  intros Hw. induction us as [|u us IH]; intros h H; cbn [kv_batch]; [by split_and!|].
  destruct (hot_code h) as [c h1] eqn:Ec. destruct (kv_ok_code os cfg (rw_set_hot h w) c h1 H Ec) as (H1 & Hc & _).
  specialize (IH h1 H1). destruct (kv_batch cfg us exp now ttl h1) as [[cs cmds] h2]. destruct IH as (I1 & I2 & I3 & ->).
  split_and!; [done|simpl; by rewrite I2|by constructor|done].
Qed.

(** ** The replies *)
Lemma kv_settle_spec fuel ttl k0 us : ttl_fits cfg ttl -> forall cs rs w, kv_ok w -> length cs = length us -> length rs = length us ->
  (k0 <= k_clock (rw_sys w))%nat ->
  let ks := kept (map (new_ok cfg) rs) us cs in
  NoDup ks.*1 -> (forall c u, (c, u) ∈ ks -> exists e, dated k0 (k_clock (rw_sys w)) ttl e /\ kv_table w !! c = Some (u, e)) ->
  match kv_settle os cfg fuel us cs rs ttl w with
  | Ret cs' w' => kv_ok w' /\ length cs' = length us /\ NoDup cs' /\ (k_clock (rw_sys w) <= k_clock (rw_sys w'))%nat /\
      (forall c r, kv_table w !! c = Some r -> kv_table w' !! c = Some r) /\
      (forall c, c ∈ ks.*1 -> c ∈ cs') /\ (forall c, c ∈ cs' -> c ∈ ks.*1 \/ kv_table w !! c = None) /\
      (forall c, c ∉ cs' -> kv_table w' !! c = kv_table w !! c) /\
      (forall i u c, us !! i = Some u -> cs' !! i = Some c -> exists e, dated k0 (k_clock (rw_sys w')) ttl e /\ kv_table w' !! c = Some (u, e))
  | Raise _ => False
  | Hang => True
  end.
Proof.
  intros Hf. induction us as [|u us IH]; intros [|c cs] [|r rs] w H Hl Hlr Hk0; try done; cbn [kv_settle map kept]; cbv zeta.
  { intros _ _. split_and!; try done; [constructor|..]; intros c Hc; by apply elem_of_nil in Hc. }
  injection Hl as Hl. injection Hlr as Hlr. change (drop 1 (r :: rs)) with rs. destruct (new_ok cfg r) eqn:Er; cbn [out_bind].
  - cbn [fmap list_fmap fst]. intros [Hcn Hnd]%NoDup_cons Hks.
    specialize (IH cs rs w H Hl Hlr Hk0 Hnd ltac:(intros c' u' Hin; apply Hks; by right)).
    destruct (kv_settle os cfg fuel us cs rs ttl w) as [cs' w'|w'|]; [|done..]. cbn [out_bind].
    destruct IH as (I1 & I2 & I3 & I4 & I5 & I0 & I6 & I7 & I8). destruct (Hks c u ltac:(by left)) as (e & He & Ht).
    split_and!; try done; [simpl; by rewrite I2| | | | |].
    + constructor; [|done]. intros Hin. destruct (I6 c Hin); [done|congruence].
    + intros c' [->|Hin]%elem_of_cons; [by left|right; by apply I0].
    + intros c' [->|Hin]%elem_of_cons; [left; by left|]. destruct (I6 c' Hin); [left; by right|by right].
    + intros c' Hc'. apply I7. intros ?. apply Hc'. by right.
    + intros [|i] u' c' Hu Hc'; [|by eapply I8]. injection Hu as <-. injection Hc' as <-. exists e.
      split; [by apply (dated_le k0 (k_clock (rw_sys w)))|by apply I5].
  - intros Hnd Hks. pose proof (kv_shorten_spec os cfg Hclock fuel u None ttl w H ltac:(done) Hf) as Hs.
    destruct (kv_shorten os cfg fuel u None ttl w) as [[c2|] w1|w1|]; [|by destruct Hs as (_ & _ & ? & ? & _)|done..]. cbn [out_bind default from_option id].
    destruct Hs as (H1 & Hn & _ & Ht1 & Hs1).
    assert (Hk1 : k_clock (rw_sys w1) = S (k_clock (rw_sys w))) by by rewrite Hs1.
    assert (Hd : dated k0 (k_clock (rw_sys w1)) ttl (expiry (fst (now_ms os (rw_sys w))) ttl)).
    { exists (k_clock (rw_sys w)). split; [lia|done]. }
    assert (Hold : forall c r, kv_table w !! c = Some r -> kv_table w1 !! c = Some r).
    { intros c' r' Hr'. rewrite Ht1, lookup_insert_ne; [done|]. intros ->. congruence. }
    specialize (IH cs rs w1 H1 Hl Hlr ltac:(lia) Hnd).
    destruct (kv_settle os cfg fuel us cs rs ttl w1) as [cs' w'|w'|]; [|apply IH|done].
    + cbn [out_bind]. destruct IH as (I1 & I2 & I3 & I4 & I5 & I0 & I6 & I7 & I8).
      { intros c' u' Hin. destruct (Hks c' u' Hin) as (e & He & Ht). exists e. split; [apply (dated_le k0 (k_clock (rw_sys w))); [lia|lia|done]|by apply Hold]. }
      assert (Hc2 : c2 ∉ cs').
      { intros Hin. destruct (I6 c2 Hin) as [[[c' u'] [-> Hks']]%list_elem_of_fmap|Hn2]; [|by rewrite Ht1, lookup_insert_eq in Hn2].
        destruct (Hks _ _ Hks') as (e & _ & Ht). cbn [fst] in Hn. congruence. }
      split_and!; try done; [simpl; by rewrite I2|by constructor|lia|by auto| | | |].
      * intros c' Hin. right. by apply I0.
      * intros c' [->|Hin]%elem_of_cons; [by right|]. destruct (I6 c' Hin) as [?|Hn']; [by left|right].
        destruct (kv_table w !! c') eqn:E; [|done]. by rewrite (Hold _ _ E) in Hn'.
      * intros c' [Hne Hc']%not_elem_of_cons. rewrite I7, Ht1 by done. by apply lookup_insert_ne.
      * intros [|i] u' c' Hu Hc'; [|by eapply I8]. injection Hu as <-. injection Hc' as <-. eexists.
        split; [apply (dated_le k0 (k_clock (rw_sys w1))); [lia|lia|done]|]. apply I5. rewrite Ht1. apply lookup_insert_eq.
    + intros c' u' Hin. destruct (Hks c' u' Hin) as (e & He & Ht). exists e. split; [apply (dated_le k0 (k_clock (rw_sys w))); [lia|lia|done]|by apply Hold].
Qed.

(** Every url of a batch gets a code of its own that was free, and nothing
    else changes. *)
Lemma kv_shorten_many_spec fuel us ttl w : kv_ok w -> ttl_fits cfg ttl ->
  match kv_shorten_many os cfg fuel us ttl w with
  | Ret cs w' => kv_ok w' /\ length cs = length us /\ NoDup cs /\
      (forall c, c ∈ cs -> kv_table w !! c = None) /\
      (forall c, c ∉ cs -> kv_table w' !! c = kv_table w !! c) /\
      (forall i u c, us !! i = Some u -> cs !! i = Some c -> exists e,
         dated (k_clock (rw_sys w)) (k_clock (rw_sys w')) ttl e /\ kv_table w' !! c = Some (u, e))
  | Raise _ => False
  | Hang => True
  end.
Proof.
  intros H Hf. unfold kv_shorten_many. rewrite (surjective_pairing (now_ms os _)). cbv beta iota zeta.
  set (now := fst (now_ms os (rw_sys w))). set (exp := expiry now ttl).
  assert (Hs : kv_ok (rw_set_sys (snd (now_ms os (rw_sys w))) w)) by (apply kv_ok_sys; [done|simpl; lia]).
  pose proof (kv_batch_spec us exp now ttl _ Hs (rw_hot w) Hs) as Hb.
  destruct (kv_batch cfg us exp now ttl (rw_hot w)) as [[cs cmds] h]. destruct Hb as (H1 & Hl & Hcs & ->). set (w1 := rw_set_hot h _) in *.
  pose proof (run_news (rw_sys w) ttl us Hf cs w1 H1 Hl Hcs) as Hr. cbv zeta in Hr. fold now exp in Hr.
  unfold on_kv. rewrite law_pipe by apply H1. destruct (run_all srv_exec _ (rw_db w1)) as [rs kv]. cbn [out_catch out_bind].
  destruct Hr as (H2 & Hrs & Ht). pose proof (news_spec exp us cs (kv_table w1) Hl) as Hn.
  destruct (news exp us cs (kv_table w1)) as [bs t]. cbn [fst snd] in Hrs, Ht. destruct Hn as (N1 & N2 & N3 & N4).
  change (kv_table w1) with (kv_table w) in *.
  pose proof (kv_settle_spec fuel ttl (k_clock (rw_sys w)) us Hf cs rs (rw_set_db kv w1) H2 Hl) as Hset. rewrite Hrs, Ht in Hset.
  assert (Hk : k_clock (rw_sys (rw_set_db kv w1)) = S (k_clock (rw_sys w))) by done.
  specialize (Hset ltac:(by rewrite <- (length_map (new_ok cfg)), Hrs) ltac:(rewrite Hk; lia) N2).
  destruct (kv_settle os cfg fuel us cs rs ttl _) as [cs' w'|w'|]; [| |done].
  - destruct Hset as (I1 & I2 & I3 & I4 & I5 & I0 & I6 & I7 & I8).
    { intros c u Hin. exists exp. split; [|by apply N3]. exists (k_clock (rw_sys w)). split; [rewrite Hk; lia|done]. }
    split_and!; try done.
    + intros c Hc. destruct (I6 c Hc) as [[[c' u'] [-> Hin]]%list_elem_of_fmap|Hnone]; [by eapply N3|].
      destruct (decide (c ∈ (kept bs us cs).*1)) as [[[c' u'] [-> Hin]]%list_elem_of_fmap|Hnk]; [by eapply N3|].
      by rewrite N4 in Hnone.
    + intros c Hc. rewrite I7 by done. apply N4. intros Hin. by apply Hc, I0.
  - apply Hset. intros c u Hin. exists exp. split; [|by apply N3]. exists (k_clock (rw_sys w)). split; [rewrite Hk; lia|done].
Qed.
End KvBulk.
