(* ===== verification/KvShared.v ===== *)
(** * A store that all nodes share

    Over a server that keeps the laws of KvServer.v: what one node writes,
    every node reads. The witnesses run on the server of MiniKv.v. *)

From S2P Require Import Prelude CLib Common Aof Metrics Store StoreFacts StoreSpec App AppFacts HotCache StoreRocks RocksFacts RocksClaims Kv StoreKv KvServer MiniKv KvStoreFacts KvBulk.

Section KvShared.
Context {K : Type} {io : KvIo K} {srv : KvServer K} {std : StdImpl} {rnd : Rand} (os : Os) (cfg : KvCfg).
Implicit Types w : Engine K.
Abbreviation kv_ok := (kv_ok os cfg).
Abbreviation kv_table := (kv_table cfg).

Abbreviation clock_fits := (clock_fits os cfg).

(** Another node on the same server, whose cache cannot answer a lookup of
    the code: it holds no entry of it, one older than CACHE_TTL_MS or one
    that has expired. What it has cached of other codes is anything. *)
Record peer_of w (c : bytes) (wb : Engine K) : Prop := {
  peer_wf : kv_wf cfg wb;
  peer_cells : srv_cells (rw_db wb) = srv_cells (rw_db w);
  peer_cache : outdated c (rw_hot wb) (fst (now_ms os (rw_sys wb)))
}.

Lemma peer_self w c : kv_ok w -> cached (rw_hot w) c = None -> peer_of w c w.
Proof. intros [H _] Hc. split; [done|done|]. intros x Hx. congruence. Qed.

(** The url a lookup gives while it lives, by a reading of the lookup. *)
Definition resolves_to w (r : option bytes) w' (u : bytes) (e : Z) : Prop :=
  (e = 0 -> r = Some u) /\
  (e ≠ 0 -> exists now, read_during os (rw_sys w) (rw_sys w') now /\ r = (if now <? e then Some u else None)).

Lemma peer_resolves env us w c wb : peer_of w c wb -> code_ok c = true ->
  exists r wb', kv_resolve os env us cfg c wb = Ret r wb' /\
  match kv_table w !! c with Some (u, e) => resolves_to wb r wb' u e | None => r = None end.
Proof.
  intros [Hw Hc Ho] Hcode. destruct (cache_get_outdated os c _ _ Ho) as (h1 & s1 & Eg & Hk).
  destruct (kv_resolve_miss os cfg env us c wb h1 s1 Hw Hcode Hk Eg) as (r & wb' & E & Hr). exists r, wb'. split; [done|].
  unfold kv_table, KvStoreFacts.kv_table in *. by rewrite Hc in Hr.
Qed.

(** C26 A link made on one node is there on all: after a node has shortened a
    url, every other node whose cache holds no entry of the code that it
    still goes by looks the code up at once, with no poll and no delay, and
    gets that url until the link expires. For a code that was no link before
    that is every node; a node that has cached an alias which was removed
    and is now made again goes by its entry until it is older than
    CACHE_TTL_MS or the old link has expired ([outdated]). *)
Theorem kv_link_everywhere fuel env us alias wa wa' wb c u ttl :
  clock_fits -> kv_ok wa -> (forall a, alias = Some a -> code_ok a = true) -> ttl_fits cfg ttl ->
  kv_shorten os cfg fuel u alias ttl wa = Ret (Some c) wa' -> peer_of wa' c wb ->
  kv_table wa !! c = None /\ (alias = Some c \/ alias = None) /\
  exists r wb', kv_resolve os env us cfg c wb = Ret r wb' /\ resolves_to wb r wb' u (expiry (fst (now_ms os (rw_sys wa))) ttl).
Proof.
  intros Hcl H Ha Hf E Hp. pose proof (kv_shorten_spec os cfg Hcl fuel u alias ttl wa H Ha Hf) as Hs. rewrite E in Hs.
  destruct Hs as (_ & Hn & Hal & Ht & _). split; [done|]. split; [destruct Hal as [?|[? _]]; auto|].
  destruct (peer_resolves env us wa' c wb Hp) as (r & wb' & Er & Hr); [by destruct Hal as [?|(_ & ? & _)]; [apply Ha|]|].
  exists r, wb'. split; [done|]. by rewrite Ht, lookup_insert_eq in Hr.
Qed.

(** A change made on one node is a change on all: after an update every
    node whose cache cannot answer for the code, the one that made the
    update among them, gives the new url, with the new expiry or the old one
    as asked; after a removal every such node gives nothing. *)
Theorem kv_change_everywhere env us c u ttl has wa :
  clock_fits -> kv_ok wa -> code_ok c = true -> ttl_fits cfg ttl ->
  (forall wa', kv_update os cfg c u ttl has wa = Ret MOk wa' -> peer_of wa' c wa' /\
     exists e, (has = false -> exists u0, kv_table wa !! c = Some (u0, e)) /\ (has = true -> exists now, e = expiry now ttl) /\
       forall wb, peer_of wa' c wb -> exists r wb', kv_resolve os env us cfg c wb = Ret r wb' /\ resolves_to wb r wb' u e) /\
  (forall wa', kv_remove cfg c wa = Ret MOk wa' -> peer_of wa' c wa' /\
     forall wb, peer_of wa' c wb -> exists wb', kv_resolve os env us cfg c wb = Ret None wb').
Proof.
  intros Hcl H Hc Hf. split; intros wa' E.
  - destruct (kv_update_spec os cfg Hcl c u ttl has wa H Hc Hf) as (r & w & Eu & Hok & Hr). rewrite Eu in E. injection E as -> ->.
    destruct Hr as (u0 & e0 & e & Ht0 & Ht & Hcold & He). split; [by apply peer_self|]. exists e. split; [intros ->; exists u0; by rewrite He|].
    split; [intros ->; destruct He as (now & _ & ?); by exists now|].
    intros wb Hp. destruct (peer_resolves env us wa' c wb Hp Hc) as (r & wb' & Er & Hr). exists r, wb'. split; [done|].
    by rewrite Ht, lookup_insert_eq in Hr.
  - destruct (kv_remove_spec os cfg c wa H Hc) as (r & w & Er & Hok & _ & Hr). rewrite Er in E. injection E as -> ->.
    destruct Hr as (_ & Ht & Hcold & _). split; [by apply peer_self|]. intros wb Hp.
    destruct (peer_resolves env us wa' c wb Hp Hc) as (r & wb' & Es & Hr). rewrite Ht, lookup_delete_eq in Hr. subst r. by exists wb'.
Qed.

(** C27 A batch on a server loses nothing, whatever codes are drawn: every
    url gets a code that was free, no two the same one, not even when the
    same code is drawn twice, since the server accepts it once only; each
    code leads to its own url, to expire after the lifetime, and no other
    link changes. *)
Theorem kv_shorten_many_correct fuel us ttl w cs w' :
  clock_fits -> kv_ok w -> ttl_fits cfg ttl -> kv_shorten_many os cfg fuel us ttl w = Ret cs w' ->
  kv_ok w' /\ length cs = length us /\ NoDup cs /\ (forall c, c ∈ cs -> kv_table w !! c = None) /\
  (forall c, c ∉ cs -> kv_table w' !! c = kv_table w !! c) /\
  (forall i u c, us !! i = Some u -> cs !! i = Some c -> exists now,
     read_during os (rw_sys w) (rw_sys w') now /\ kv_table w' !! c = Some (u, expiry now ttl)).
Proof.
  intros Hcl H Hf E. pose proof (kv_shorten_many_spec os cfg Hcl fuel us ttl w H Hf) as Hs. rewrite E in Hs.
  destruct Hs as (H1 & H2 & H3 & H4 & H5 & H6). split_and!; try done. intros i u c Hu Hc.
  destruct (H6 i u c Hu Hc) as (e & (k & Hk & ->) & Ht). exists (i64 (os_clock os k)). split; [by exists k|done].
Qed.

(** C28 A flush loses no visit: whatever was pending is then in the server's
    counters, [stats] reports of every link what it reported before, and the
    links are as they were. *)
Theorem kv_flush_exact w : kv_ok w -> counts_fit cfg w ->
  exists w', kv_flush cfg w = Ret tt w' /\ kv_ok w' /\ kv_table w' = kv_table w /\
    forall c, dirty_hits (rw_hot w') c = None /\
      (code_ok c = true -> exists l wa wb, kv_stats cfg c w = Ret l wa /\ kv_stats cfg c w' = Ret l wb).
Proof.
  intros H Hf. destruct (kv_flush_spec os cfg w H Hf) as (w' & E & H' & Ht & Hc). exists w'. split_and!; try done.
  intros c. destruct (Hc c) as [Hd Hs]. split; [done|]. intros Hcode.
  destruct (kv_stats_spec os cfg c w H) as (wa & Ea). destruct (kv_stats_spec os cfg c w' H') as (wb & Eb).
  exists (stats_of cfg c w), wa, wb. split; [done|]. by rewrite Eb, Hs.
Qed.
End KvShared.

(** ** The laws of a store *)

(** In the layout of hashes, where the server is told no lifetimes, on a
    clock that does not go back. *)
Definition kv_store_laws {K} {io : KvIo K} {srv : KvServer K} {std : StdImpl} {rnd : Rand} os env us cfg fuel
  (Hst : clock_steady os) (Hl : layout_hash cfg = true) : StoreLaws (Engine K) (api := kv_store os env us cfg fuel) os.
Proof.
  assert (Hcl : clock_fits os cfg) by (intros Hf; congruence).
  assert (Hf : forall ttl, ttl_fits cfg ttl) by (intros ttl Hf; congruence).
  refine {| st_ok := kv_ok os cfg : Engine K -> Prop; st_table := kv_table cfg : Engine K -> _ |}.
  - done.
  - intros s w H Hk. by split; [apply kv_ok_sys|].
  - intros u alias ttl w r w' H Ha E. pose proof (kv_shorten_spec os cfg Hcl fuel u alias ttl w H Ha (Hf ttl)) as Hs.
    cbn [st_shorten kv_store] in E. unfold store_kv_shorten in E.
    destruct (kv_shorten os cfg fuel u alias ttl w) as [[c|] w1|w1|]; [|injection E as <- <-; tauto|done..].
    injection E as <- <-. destruct Hs as (Ho & Hn & Hal & Ht & Hsys). split; [by apply kv_ok_count|].
    split; [done|]. split; [done|]. exists (fst (now_ms os (rw_sys w))). split; [|done]. apply read_now.
    cbn [st_sys kv_store rw_count rw_sys]. rewrite Hsys. simpl. lia.
  - intros c u e w r w' H Hc Ht E. destruct (kv_resolve_spec os cfg env us c w Hst H Hc) as (r1 & w1 & E1 & Ho & Htb & Hs).
    cbn [st_resolve kv_store] in E. rewrite E1 in E. injection E as <- <-. rewrite Ht in Hs. exact (conj Ho (conj Htb Hs)).
  - intros c u ttl has w r w' H Hc E. destruct (kv_update_spec os cfg Hcl c u ttl has w H Hc (Hf ttl)) as (r1 & w1 & E1 & Ho & Hs).
    cbn [st_update kv_store] in E. rewrite E1 in E. injection E as <- <-. split; [done|]. destruct r1; [|done..].
    destruct Hs as (u0 & e0 & e & ? & ? & _ & ?). by exists u0, e0, e.
  - intros c w r w' H Hc E. cbn [st_remove kv_store] in E. unfold store_kv_remove in E.
    destruct (kv_remove_spec os cfg c w H Hc) as (r1 & w1 & E1 & Ho & _ & Hs). rewrite E1 in E. cbn [out_bind] in E. injection E as <- <-.
    destruct r1; [|by split|done]. split; [by apply kv_ok_count|]. by destruct Hs as (? & ? & _).
Defined.

(** ** The witnesses *)

(** A node that has just started on a server. *)
Definition kv_open {K} (inst n cttl : Z) (kv : K) (s : Sys) (c : Counters) : Engine K := mkEngine (hot_init inst n cttl) kv s c 0.

Lemma kv_open_ok {K} {io : KvIo K} {srv : KvServer K} os cfg inst n cttl kv s c : srv_ok kv -> typed cfg (srv_cells kv) ->
  (forall c v, code_ok c = true -> srv_cells kv !! row_cell cfg c = Some v -> exists e cr u, dec v = Some (e, cr, u) /\ exp_fits cfg e) ->
  kv_ok os cfg (kv_open inst n cttl kv s c).
Proof.
  intros Hok Ht Hv. split; [split; try done; [apply hot_init_wf|apply Base62.alpha_in; lia]|].
  intros c' x Hx. exfalso. revert Hx. unfold cached, kv_shard, kv_open, hot_init. cbn [rw_hot hc_cache].
  destruct (replicate KV_SHARDS KvShard0 !! shard_of c') eqn:E; [|done]. by apply lookup_replicate in E as [-> _].
Qed.
Lemma kv_join_ok {K} {io : KvIo K} {srv : KvServer K} os cfg inst n cttl w s c : kv_ok os cfg w ->
  kv_ok os cfg (kv_open inst n cttl (rw_db w) s c).
Proof. intros [[H1 H2 _ _ H5] _]. by apply kv_open_ok. Qed.

#[local] Existing Instance RefStd.
(** The same code twice, then others. *)
Lemma twice_range k : 0 <= (if (k <? 14)%nat then 0 else Z.of_nat (k mod 62)) <= 61.
Proof. case_if; [lia|]. pose proof (Nat.mod_upper_bound k 62 ltac:(lia)). lia. Qed.
Definition twice_rand : Rand := {| rand k := if (k <? 14)%nat then 0 else Z.of_nat (k mod 62); rand_range := twice_range |}.
#[local] Existing Instance twice_rand.

Definition plain_cfg : KvCfg := mkCfg false 1000000.
Lemma slow_fits : clock_fits SlowOs plain_cfg.
Proof. intros _ k. simpl. rewrite i64_id by (unfold in_i64; lia). lia. Qed.
Definition node_a : Engine Mini := kv_open 0 100000 5000 (∅ : Mini) RefSys Counters0.
Lemma node_a_ok : kv_ok SlowOs plain_cfg node_a.
Proof.
  apply kv_open_ok; [exact I| |]; [intros k f [v Hv]|intros c v _ Hv]; exfalso; exact (lookup_empty_Some _ _ Hv).
Qed.
Lemma small_ttl ttl : ttl < 2 ^ 61 -> ttl_fits plain_cfg ttl.
Proof. by intros H _. Qed.

(** A link made by [node_a]. *)
Definition node_a1 : Engine Mini := out_state node_a (kv_shorten SlowOs plain_cfg 3 (B "https://a.b/c") (Some (B "x")) 20000 node_a).
Lemma node_a1_eq : kv_shorten SlowOs plain_cfg 3 (B "https://a.b/c") (Some (B "x")) 20000 node_a = Ret (Some (B "x")) node_a1.
Proof. apply out_ret_eq. vm_compute. reflexivity. Qed.
Lemma alias_x_ok a : Some (B "x") = Some a -> code_ok a = true.
Proof. by intros [= <-]. Qed.
Lemma node_a1_ok : kv_ok SlowOs plain_cfg node_a1.
Proof.
  pose proof (kv_shorten_spec SlowOs plain_cfg slow_fits 3 (B "https://a.b/c") (Some (B "x")) 20000 node_a node_a_ok alias_x_ok
    (small_ttl 20000 ltac:(lia))) as H. rewrite node_a1_eq in H. apply H.
Qed.
Definition node_b (w : Engine Mini) : Engine Mini := kv_open 1 100000 5000 (rw_db w) RefSys Counters0.
Lemma node_b_peer w : kv_ok SlowOs plain_cfg w -> peer_of SlowOs plain_cfg w (B "x") (node_b w).
Proof.
  intros H. split; [by apply (kv_join_ok SlowOs plain_cfg)|done|]. intros x Hx. vm_compute in Hx. discriminate.
Qed.

Definition node_b1 : Engine Mini := out_state node_a (kv_resolve SlowOs rdemo_env rdemo_us plain_cfg (B "x") (node_b node_a1)).
Lemma node_b1_eq : kv_resolve SlowOs rdemo_env rdemo_us plain_cfg (B "x") (node_b node_a1) = Ret (Some (B "https://a.b/c")) node_b1.
Proof. apply out_ret_eq. vm_compute. reflexivity. Qed.
Lemma kv_link_everywhere_witness : resolves_to SlowOs (node_b node_a1) (Some (B "https://a.b/c")) node_b1 (B "https://a.b/c") 20000.
Proof.
  destruct (kv_link_everywhere SlowOs plain_cfg 3 rdemo_env rdemo_us (Some (B "x")) node_a node_a1 (node_b node_a1) (B "x") (B "https://a.b/c") 20000
    slow_fits node_a_ok alias_x_ok (small_ttl 20000 ltac:(lia)) node_a1_eq (node_b_peer _ node_a1_ok)) as (_ & _ & r & wb' & E & H).
  rewrite node_b1_eq in E. destruct (out_ret_inj _ _ _ _ E) as [<- <-]. exact H.
Defined.

Definition node_a2 : Engine Mini := out_state node_a (kv_update SlowOs plain_cfg (B "x") (B "https://a.b/d") 0 false node_a1).
Lemma node_a2_eq : kv_update SlowOs plain_cfg (B "x") (B "https://a.b/d") 0 false node_a1 = Ret MOk node_a2.
Proof. apply out_ret_eq. vm_compute. reflexivity. Qed.
Definition node_a3 : Engine Mini := out_state node_a (kv_remove plain_cfg (B "x") node_a1).
Lemma node_a3_eq : kv_remove plain_cfg (B "x") node_a1 = Ret MOk node_a3.
Proof. apply out_ret_eq. vm_compute. reflexivity. Qed.
Lemma kv_change_everywhere_witness :
  peer_of SlowOs plain_cfg node_a2 (B "x") node_a2 /\ exists wb', kv_resolve SlowOs rdemo_env rdemo_us plain_cfg (B "x") node_a3 = Ret None wb'.
Proof.
  destruct (kv_change_everywhere SlowOs plain_cfg rdemo_env rdemo_us (B "x") (B "https://a.b/d") 0 false node_a1 slow_fits node_a1_ok
    eq_refl (small_ttl 0 ltac:(lia))) as [Hu Hr].
  destruct (Hu node_a2 node_a2_eq) as [Hp _]. destruct (Hr node_a3 node_a3_eq) as [Hq Hn]. split; [exact Hp|]. exact (Hn node_a3 Hq).
Defined.

Definition twice_urls : list bytes := [B "https://a.b/1"; B "https://a.b/2"].
Definition twice_out : Out (list bytes) (Engine Mini) := kv_shorten_many SlowOs plain_cfg 3 twice_urls 20000 node_a.
Definition node_a4 : Engine Mini := out_state node_a (twice_out).
Lemma twice_out_eq : twice_out = Ret [B "00000000"; B "0efghijk"] node_a4.
Proof. apply out_ret_eq. vm_compute. reflexivity. Qed.
Lemma kv_shorten_many_correct_witness : kv_ok SlowOs plain_cfg node_a4 /\ NoDup [B "00000000"; B "0efghijk"].
Proof.
  destruct (kv_shorten_many_correct SlowOs plain_cfg 3 twice_urls 20000 node_a [B "00000000"; B "0efghijk"] node_a4 slow_fits node_a_ok
    (small_ttl 20000 ltac:(lia)) twice_out_eq) as (H1 & _ & H2 & _).
  split; [exact H1|exact H2].
Defined.

(** A visit that is pending. *)
Definition node_a5 : Engine Mini := rw_bump rdemo_env (B "x") node_a1.
Lemma node_a5_ok : kv_ok SlowOs plain_cfg node_a5.
Proof. apply kv_ok_bump, node_a1_ok. Qed.
Lemma node_a5_counts : counts_fit plain_cfg node_a5.
Proof.
  assert (Hh : rw_hot node_a1 = hot_init 0 100000 5000) by (vm_compute; reflexivity).
  assert (Hd : rw_db node_a1 = <[(lkey (B "x"), None) := enc 20000 0 (B "https://a.b/c")]> (∅ : Mini)) by (vm_compute; reflexivity).
  intros c. exists 0. cbv zeta. rewrite Z.add_0_l.
  assert (Hin : in_i64 (default 0 (dirty_hits (rw_hot node_a5) c))).
  { unfold node_a5, rw_bump. cbn [rw_set_hot rw_hot]. rewrite Hh, dirty_hits_bump by (apply hot_init_wf || done). case_decide; [vm_compute; done|].
    unfold dirty_hits, hot_init. cbn [hc_dirty]. destruct (replicate _ _ !! _) as [d|] eqn:E; [|done].
    apply lookup_replicate in E as [-> _]. done. }
  split; [|by split]. left. split; [|done]. change (rw_db node_a5) with (rw_db node_a1). rewrite Hd.
  change (lookup (hit_cell plain_cfg c) (<[(lkey (B "x"), None) := enc 20000 0 (B "https://a.b/c")]> (∅ : Mini)) = None).
  rewrite lookup_insert_ne by done. apply lookup_empty.
Qed.
Lemma kv_flush_exact_witness : exists w', kv_flush plain_cfg node_a5 = Ret tt w' /\ dirty_hits (rw_hot w') (B "x") = None.
Proof.
  destruct (kv_flush_exact SlowOs plain_cfg node_a5 node_a5_ok node_a5_counts) as (w' & E & _ & _ & H). exists w'. split; [exact E|].
  destruct (H (B "x")) as [Hx _]. exact Hx.
Defined.
