(* ===== verification/KvFindings.v ===== *)
(** * Where the store on a key-value server falls short

    What a server that does not answer, a setting of the environment, a
    counter that outlives its link and the order of the server's keys lead
    to; in general where that is short, on small inputs elsewhere. *)

From S2P Require Import Prelude CLib Common Float Json Aof Metrics RateLimit Store StoreFacts StoreSpec App AppFacts AppClaims HotCache StoreRocks RocksClaims Kv StoreKv KvServer MiniKv.

(** More than 256 buckets are never used: the bucket of a code is the
    remainder of its shard, which is a number below 256, so that every
    setting of [KV_BUCKETS] above 256, the default of a million among them,
    spreads the links over at most 256 hashes. *)
Theorem buckets_above_256_unused lh n c : 256 <= n ->
  bkey (mkCfg lh n) c = bkey (mkCfg lh 256) c /\ exists k, (k < 256)%nat /\ bkey (mkCfg lh n) c = B "l:" ++ to_string (Z.of_nat k).
Proof.
  intros Hn. pose proof (shard_of_lt c) as Hs. unfold bkey. cbn [buckets].
  rewrite !Z.mod_small by (change NUM_SHARDS with 256%nat in Hs; lia). split; [done|]. by exists (shard_of c).
Qed.

(** The number 2^32 is cut to 0 buckets, and the remainder by 0 is undefined. *)
Example buckets_wrap_to_zero :
  kv_config (fun k => if k =s B "KV_BUCKETS" then Some (B "4294967296") else None) = Some (mkCfg false 0).
Proof. vm_compute. reflexivity. Qed.

(** Something that is no number stops the process at its start, where the
    other settings fall back to their default. *)
Example buckets_not_a_number : kv_config (fun k => if k =s B "KV_BUCKETS" then Some (B "many") else None) = None.
Proof. vm_compute. reflexivity. Qed.

(** ** A server that does not answer *)
#[local] Existing Instance RefStd.
#[local] Existing Instance cycle_rand.
Definition lost_cfg : KvCfg := mkCfg false 1000000.
Definition lost_world : Engine Mini := mkEngine (hot_init 0 100000 5000) (∅ : Mini) RefSys Counters0 0.

Section Lost.
#[local] Existing Instance dead_io.
Definition lost_app : App (Engine Mini) := mkApp lost_world Metrics0 (reload demo_env) 0.
Definition lost_handle (method path body : bytes) : Res (App (Engine Mini)) :=
  handle (api := kv_store SlowOs rdemo_env rdemo_us lost_cfg 3) SlowOs demo_env [] method path body [] (B "10.0.0.1") lost_app.
Definition is_thrown {A} (r : Res A) : bool := match r with Thrown _ => true | _ => false end.

(** Any visit of a code that is not cached lets the client's exception
    through, and nothing above catches it. *)
Example lost_server_stops_process :
  is_thrown (lost_handle (B "GET") (B "/abc") []) = true /\ is_thrown (lost_handle (B "GET") (B "/api/links") []) = true.
Proof. vm_compute. done. Qed.

(** A new link, though, is refused for its alias, which was not given. *)
Example lost_server_taken_alias :
  match lost_handle (B "POST") (B "/api/shorten") (Q "{'url':'http://e.com'}") with Replied r _ => Some (rp_status r, rp_body r) | _ => None end
    = Some (409, Q "{'error':'alias taken'}").
Proof. vm_compute. reflexivity. Qed.

(** A batch reports codes although none was stored. *)
Example lost_batch_codes :
  out_ret (kv_shorten_many SlowOs lost_cfg 3 [B "https://a.b/1"] 0 lost_world) = Some [B "00123456"].
Proof. vm_compute. reflexivity. Qed.

(** The visits of a flush that fails are gone: the maps were cleared before. *)
Example lost_flush_hits :
  let w := rw_bump rdemo_env (B "x") lost_world in
  dirty_hits (rw_hot w) (B "x") = Some 1 /\
  match kv_flush lost_cfg w with Raise w => dirty_hits (rw_hot w) (B "x") | _ => Some 0 end = None.
Proof. vm_compute. done. Qed.
End Lost.

(** ** Counters outlive their links *)

(** The server has dropped an expired link and kept its counter; the next
    link with the alias starts with it. *)
Definition orphan_world : Engine Mini :=
  mkEngine (hot_init 0 100000 5000) (<[(hkey (B "x"), None) := B "7"]> (∅ : Mini)) RefSys Counters0 0.
Example orphan_counter_inherited :
  l_hits <$> (default None (out_ret (out_bind (kv_shorten SlowOs lost_cfg 3 (B "https://a.b/c") (Some (B "x")) 0 orphan_world)
    (fun _ w => kv_stats lost_cfg (B "x") w)))) = Some 7.
Proof. vm_compute. reflexivity. Qed.

(** ** The order of a listing *)

(** The other engines list the newest link first; this one leaves the order
    to the server. *)
Definition two_links : Engine Mini :=
  mkEngine (hot_init 0 100000 5000)
    (<[(lkey (B "a"), None) := enc 0 2000 (B "https://a.b/2")]> (<[(lkey (B "b"), None) := enc 0 1000 (B "https://a.b/1")]> (∅ : Mini)))
    RefSys Counters0 0.
Definition two_links' : Engine Mini :=
  mkEngine (hot_init 0 100000 5000)
    (<[(lkey (B "a"), None) := enc 0 1000 (B "https://a.b/2")]> (<[(lkey (B "b"), None) := enc 0 2000 (B "https://a.b/1")]> (∅ : Mini)))
    RefSys Counters0 0.
Example list_not_by_age :
  let codes w := (fun p => map l_code (fst p)) <$> out_ret (kv_list SlowOs lost_cfg 3 10 0 (B "created") [] w) in
  codes two_links = Some [B "b"; B "a"] /\ codes two_links' = Some [B "b"; B "a"].
Proof. vm_compute. done. Qed.
